(** * graviton.TaskManager: a shallow embedding of the scheduling core

    The development follows the four JavaScript sources:
    - [Task/Task]           (class [Task.Task]),
    - [Task/IterationTask]  (class [Task.IterationTask], extends [Task.Task]),
    - [lib/Task/Owner.js]   (class [Task.Owner]),
    - [TaskManager]         (the singleton dispatcher).

    JavaScript objects that are shared and mutated (tasks, owners) live in a
    store and are named by references; module-level variables, the implicit
    globals and the host's timer queue ([_.defer]) are fields of one [World]
    record.  A method is a computation in a state-and-exception monad whose
    state survives a thrown exception, as it does in JavaScript. *)

From Stdlib Require Import Ascii.
From stdpp Require Import gmap strings list fin_maps pretty.

Open Scope string_scope.
Open Scope Z_scope.

Set Warnings "-register-all".

(** ** JavaScript values *)

(** The values the scheduler handles.  Numbers are the integers plus [NaN]
    (the code only counts and indexes).  An array carries its elements and the
    non-index properties that were assigned to it ([a[-1] = v] creates the
    property "-1" and leaves the elements alone); a hole and [undefined] read
    the same, so [Array(n)] is [n] times [VUndefined].  A plain object is the
    list of its properties in [Object.keys] order. *)
Inductive value : Type :=
| VUndefined
| VNull
| VBool (b : bool)
| VNum (n : Z)
| VNaN
| VStr (s : string)
| VArr (elems : list value) (extra : list (string * value))
| VObj (props : list (string * value)).

(** ToBoolean. *)
Definition truthy (v : value) : bool :=
  match v with
  | VUndefined | VNull | VNaN => false
  | VBool b => b
  | VNum n => negb (n =? 0)
  | VStr s => negb (String.eqb s "")
  | VArr _ _ | VObj _ => true
  end.

(** [a || b] *)
Definition js_or (a b : value) : value := if truthy a then a else b.

(** [a === b] on primitives.  Arrays and objects are compared by identity in
    JavaScript; identity of such values is not tracked here and they compare
    unequal (task ids are documented as [String|Number]). *)
Definition strict_eq (a b : value) : bool :=
  match a, b with
  | VUndefined, VUndefined => true
  | VNull, VNull => true
  | VBool x, VBool y => Bool.eqb x y
  | VNum x, VNum y => x =? y
  | VStr x, VStr y => String.eqb x y
  | _, _ => false
  end.

Fixpoint join_comma (l : list string) : string :=
  match l with
  | [] => ""
  | [s] => s
  | s :: rest => s +:+ "," +:+ join_comma rest
  end.

(** ToString, which is also the conversion of a property key. *)
Fixpoint ToString (v : value) : string :=
  match v with
  | VUndefined => "undefined"
  | VNull => "null"
  | VBool true => "true"
  | VBool false => "false"
  | VNum n => pretty n
  | VNaN => "NaN"
  | VStr s => s
  | VArr elems _ =>
      join_comma
        (List.map (fun x => match x with
                            | VUndefined | VNull => ""
                            | _ => ToString x
                            end) elems)
  | VObj _ => "[object Object]"
  end.

Fixpoint assoc_get (k : string) (l : list (string * value)) : option value :=
  match l with
  | [] => None
  | (k', v) :: rest => if String.eqb k k' then Some v else assoc_get k rest
  end.

Fixpoint assoc_set (k : string) (v : value) (l : list (string * value))
  : list (string * value) :=
  match l with
  | [] => [(k, v)]
  | (k', v') :: rest =>
      if String.eqb k k' then (k, v) :: rest else (k', v') :: assoc_set k v rest
  end.

(** The index below [n] that a key which is not a number denotes: the key
    whose string is the string of that index ([a["0"]] is [a[0]]). *)
Definition index_of_key (n : nat) (k : value) : option nat :=
  fst <$> list_find (fun i => bool_decide (pretty (Z.of_nat i) = ToString k))
                    (seq 0 n).

(** [o[k]]; [None] is the TypeError of reading a property of [undefined] or
    [null].  Inherited properties (such as [length]) are not modelled: the
    code reads collections only at iteration indices and keys. *)
Definition get_prop (o k : value) : option value :=
  match o with
  | VUndefined | VNull => None
  | VArr elems extra =>
      match k with
      | VNum i =>
          if (0 <=? i) && (i <? Z.of_nat (length elems))
          then Some (nth (Z.to_nat i) elems VUndefined)
          else Some (default VUndefined (assoc_get (ToString k) extra))
      | _ =>
          match index_of_key (length elems) k with
          | Some i => Some (nth i elems VUndefined)
          | None => Some (default VUndefined (assoc_get (ToString k) extra))
          end
      end
  | VObj props => Some (default VUndefined (assoc_get (ToString k) props))
  | VStr s =>
      match k with
      | VNum i =>
          if 0 <=? i
          then match String.get (Z.to_nat i) s with
               | Some c => Some (VStr (String c EmptyString))
               | None => Some VUndefined
               end
          else Some VUndefined
      | _ =>
          match index_of_key (String.length s) k with
          | Some i =>
              match String.get i s with
              | Some c => Some (VStr (String c EmptyString))
              | None => Some VUndefined
              end
          | None => Some VUndefined
          end
      end
  | _ => Some VUndefined
  end.

(** [o[k] = v] as a new value of [o]; [None] is the TypeError of assigning a
    property of [undefined] or [null]; on other primitives the assignment is
    silently dropped.  Writing an array past its end extends it with holes. *)
Definition set_prop (o k v : value) : option value :=
  match o with
  | VUndefined | VNull => None
  | VArr elems extra =>
      match k with
      | VNum i =>
          if i <? 0 then Some (VArr elems (assoc_set (ToString k) v extra))
          else if i <? Z.of_nat (length elems)
               then Some (VArr (<[Z.to_nat i := v]> elems) extra)
               else Some (VArr (elems
                                  ++ List.repeat VUndefined
                                       (Z.to_nat i - length elems)
                                  ++ [v])%list extra)
      | _ => Some (VArr elems (assoc_set (ToString k) v extra))
      end
  | VObj props => Some (VObj (assoc_set (ToString k) v props))
  | _ => Some o
  end.

(** [Array.isArray] *)
Definition isArray (v : value) : bool :=
  match v with VArr _ _ => true | _ => false end.

(** [v.length] of an array. *)
Definition array_length (v : value) : option Z :=
  match v with
  | VArr elems _ => Some (Z.of_nat (length elems))
  | _ => None
  end.

(** [Object.keys(v)]: [None] is the TypeError on [undefined] and [null]. *)
Definition Object_keys (v : value) : option (list string) :=
  match v with
  | VUndefined | VNull => None
  | VObj props => Some (List.map fst props)
  | VArr elems extra =>
      Some (List.map (fun i => pretty (Z.of_nat i)) (seq 0 (length elems))
              ++ List.map fst extra)%list
  | VStr s =>
      Some (List.map (fun i => pretty (Z.of_nat i)) (seq 0 (String.length s)))
  | _ => Some []
  end.

(** A JavaScript function: from the [this] it is called on and its actual
    arguments to its return value.  What a user function does besides
    returning is not modelled; that it was called, on what, is recorded in
    the trace of the [World]. *)
Definition JsFun : Type := value -> list value -> value.

(** A user callback is known by name only: its calls are recorded. *)
Definition Callback : Type := nat.

(** ** The objects: tasks, owners, priority requests *)

(** [Task.statics.state]: 'pending', 'active', 'complete', 'cancelled' and
    'paused'. *)
Inductive TaskState : Type := PENDING | ACTIVE | COMPLETE | CANCELLED | PAUSED.

#[global] Instance TaskState_eq_dec : EqDecision TaskState.
Proof. solve_decision. Defined.

(** Reading a constant of [statics.state] by name.  A name the table does not
    declare reads as [undefined], which is [None] here and in the [state]
    field of a task. *)
Definition statics_state (name : string) : option TaskState :=
  if String.eqb name "PENDING" then Some PENDING
  else if String.eqb name "ACTIVE" then Some ACTIVE
  else if String.eqb name "COMPLETE" then Some COMPLETE
  else if String.eqb name "CANCELLED" then Some CANCELLED
  else if String.eqb name "PAUSED" then Some PAUSED
  else None.

(** [a == b] on two state values. *)
Definition state_eq (a b : option TaskState) : bool := bool_decide (a = b).

(** [IterationTask.statics.type] *)
Definition statics_type (name : string) : value :=
  if String.eqb name "EACH" then VStr "each"
  else if String.eqb name "MAP" then VStr "map"
  else if String.eqb name "REDUCE" then VStr "reduce"
  else VUndefined.

(** [v == c] for a constant [c] of [statics.type] (a string that is not
    numeric): true for that string and for an array or object that converts
    to it. *)
Definition loose_eq_type (v c : value) : bool :=
  match v, c with
  | VStr a, VStr b => String.eqb a b
  | (VArr _ _ | VObj _), VStr b => String.eqb (ToString v) b
  | _, _ => false
  end.

(** The six iterators of [Task/IterationTask], as closures: each captures the
    task (the one that holds it), the context, the list and, for a keyed
    collection, the keys. *)
Inductive IteratorKind : Type :=
| EachArray | MapArray | ReduceArray
| EachDictionary | MapDictionary | ReduceDictionary.

Record Iterator : Type := mkIterator {
  itr_kind : IteratorKind;
  itr_context : value;
  itr_list : value;
  itr_keys : option (list string)
}.

(** The fields [Task.IterationTask] adds to [Task.Task].  [it_type] is the
    property [type] that [execute] reads: neither the class body nor a
    constructor assigns it ([construct] stores the configured type in
    [iterationType]).  The declared property [isArray] is never read or
    written ([execute] has a local of that name) and is left out. *)
Record IterationFields : Type := mkIteration {
  it_step : value;
  it_list : value;
  it_keys : option (list string);
  it_iterationType : value;
  it_type : value;
  it_iterator : option Iterator;
  it_currentIteration : Z
}.

(** A task object.  [t_iteration] is [Some] for an instance of
    [Task.IterationTask].  [None] in [t_fn], [t_arguments], [t_callback] is
    [null]; [None] in [t_state] is [null] or [undefined]. *)
Record TaskObj : Type := mkTask {
  t_id : value;
  t_fn : option JsFun;
  t_arguments : option (list value);
  t_name : value;
  t_activeOnly : bool;
  t_context : value;
  t_subTasks : value;
  t_result : value;
  t_callback : option Callback;
  t_state : option TaskState;
  t_iteration : option IterationFields
}.

(** The argument of the constructors: a task definition, after [Owner.add]
    has merged the [iterate] part into it. *)
Record Config : Type := mkConfig {
  cfg_id : value;
  cfg_fn : option JsFun;
  cfg_arguments : value;
  cfg_name : value;
  cfg_context : value;
  cfg_callback : option Callback;
  cfg_activeOnly : value;
  cfg_subTasks : value;
  cfg_list : value;
  cfg_type : value;
  cfg_step : value
}.

(** The [iterate] part of a task definition: [{list, type?, step?}]; [None]
    is a property the caller left out. *)
Record IterateConfig : Type := mkIterate {
  itc_list : option value;
  itc_type : option value;
  itc_step : option value
}.

(** References into the two object stores. *)
Definition ref : Type := nat.
Definition oref : Type := nat.

(** An owner object ([Task.Owner]).  The three collections are [None] once
    [destroy] has set them to [null]. *)
Record OwnerObj : Type := mkOwner {
  o_id : string;
  o_name : value;
  o_origin : value;
  o_tasks : option (gmap string ref);
  o_taskOrder : option (list value);
  o_liveTask : option ref;
  o_completedTasks : option (gmap string ref)
}.

(** An element of [_priorityStack]. *)
Record Request : Type := mkRequest {
  rq_ownerId : string;
  rq_taskIds : list value;
  rq_callback : option Callback;
  rq_passResults : bool;
  rq_results : list value;
  rq_currentIdx : nat
}.

(** The continuation [next] handed to [execute]: the closure [_executeTask]
    builds over its task and [returnControl]. *)
Inductive Continuation : Type :=
| KExecuteTask (task : ref) (returnControl : bool).

(** The environment shared by the closures [iterate], [nextIteration] and
    [onComplete] that one call of [IterationTask.execute] creates. *)
Record IterClosure : Type := mkIterClosure {
  ic_me : ref;
  ic_owner : oref;
  ic_next : Continuation;
  ic_manualOverride : bool;
  ic_length : Z
}.

(** What [_.defer] puts on the host's timer queue. *)
Inductive Deferred : Type :=
| DExecuteTask (task : ref) (owner : oref)
| DPerformTask
| DIterate (c : IterClosure).

(** What the trace records. *)
Inductive Event : Type :=
| EvFn (task : ref) (this : value) (args : list value)
| EvOwnerCompleted (owner : oref) (task : ref) (manualOverride : bool)
| EvTaskCallback (task : ref) (cb : Callback) (result : value)
| EvNext (task : ref) (result : value)
| EvRequestCallback (cb : Callback) (args : list value).

(** The module-level variables of [TaskManager]. *)
Record Manager : Type := mkManager {
  _activeTaskOwner : option string;
  _ownerCounter : Z;
  _taskOwners : gmap string oref;
  _taskOwnerStack : list string;
  _priorityStack : list Request;
  _running : bool
}.

(** The whole state: the object stores, [_taskIdCounter] of [Task/Task],
    [_ownerCounter] of [Task/Owner], the implicit globals [iterate] and
    [nextIteration] (assigned together, without [var], by
    [IterationTask.execute]), the manager's variables, the timer queue and
    the trace. *)
Record World : Type := mkWorld {
  taskStore : gmap ref TaskObj;
  ownerStore : gmap oref OwnerObj;
  _taskIdCounter : Z;
  Owner_ownerCounter : Z;
  global_iterate : option IterClosure;
  manager : Manager;
  timers : list Deferred;
  trace : list Event
}.

Definition initial_manager : Manager :=
  mkManager None 1 ∅ [] [] false.

Definition initial_world : World :=
  mkWorld ∅ ∅ 0 0 None initial_manager [] [].

(** Field updates. *)
Definition set_t_state (s : option TaskState) (t : TaskObj) : TaskObj :=
  mkTask (t_id t) (t_fn t) (t_arguments t) (t_name t) (t_activeOnly t)
         (t_context t) (t_subTasks t) (t_result t) (t_callback t) s
         (t_iteration t).

Definition set_t_result (v : value) (t : TaskObj) : TaskObj :=
  mkTask (t_id t) (t_fn t) (t_arguments t) (t_name t) (t_activeOnly t)
         (t_context t) (t_subTasks t) v (t_callback t) (t_state t)
         (t_iteration t).

Definition set_t_iteration (i : option IterationFields) (t : TaskObj) : TaskObj :=
  mkTask (t_id t) (t_fn t) (t_arguments t) (t_name t) (t_activeOnly t)
         (t_context t) (t_subTasks t) (t_result t) (t_callback t) (t_state t)
         i.

Definition set_it_keys (k : option (list string)) (i : IterationFields)
  : IterationFields :=
  mkIteration (it_step i) (it_list i) k (it_iterationType i) (it_type i)
              (it_iterator i) (it_currentIteration i).

Definition set_it_iterator (f : option Iterator) (i : IterationFields)
  : IterationFields :=
  mkIteration (it_step i) (it_list i) (it_keys i) (it_iterationType i)
              (it_type i) f (it_currentIteration i).

Definition set_it_currentIteration (n : Z) (i : IterationFields)
  : IterationFields :=
  mkIteration (it_step i) (it_list i) (it_keys i) (it_iterationType i)
              (it_type i) (it_iterator i) n.

Definition set_o_tasks (m : option (gmap string ref)) (o : OwnerObj) : OwnerObj :=
  mkOwner (o_id o) (o_name o) (o_origin o) m (o_taskOrder o) (o_liveTask o)
          (o_completedTasks o).

Definition set_o_taskOrder (l : option (list value)) (o : OwnerObj) : OwnerObj :=
  mkOwner (o_id o) (o_name o) (o_origin o) (o_tasks o) l (o_liveTask o)
          (o_completedTasks o).

Definition set_o_liveTask (t : option ref) (o : OwnerObj) : OwnerObj :=
  mkOwner (o_id o) (o_name o) (o_origin o) (o_tasks o) (o_taskOrder o) t
          (o_completedTasks o).

Definition set_o_completedTasks (m : option (gmap string ref)) (o : OwnerObj)
  : OwnerObj :=
  mkOwner (o_id o) (o_name o) (o_origin o) (o_tasks o) (o_taskOrder o)
          (o_liveTask o) m.

Definition set_activeTaskOwner (a : option string) (m : Manager) : Manager :=
  mkManager a (_ownerCounter m) (_taskOwners m) (_taskOwnerStack m)
            (_priorityStack m) (_running m).

Definition set_ownerCounter (n : Z) (m : Manager) : Manager :=
  mkManager (_activeTaskOwner m) n (_taskOwners m) (_taskOwnerStack m)
            (_priorityStack m) (_running m).

Definition set_taskOwners (r : gmap string oref) (m : Manager) : Manager :=
  mkManager (_activeTaskOwner m) (_ownerCounter m) r (_taskOwnerStack m)
            (_priorityStack m) (_running m).

Definition set_taskOwnerStack (s : list string) (m : Manager) : Manager :=
  mkManager (_activeTaskOwner m) (_ownerCounter m) (_taskOwners m) s
            (_priorityStack m) (_running m).

Definition set_priorityStack (q : list Request) (m : Manager) : Manager :=
  mkManager (_activeTaskOwner m) (_ownerCounter m) (_taskOwners m)
            (_taskOwnerStack m) q (_running m).

Definition set_running (b : bool) (m : Manager) : Manager :=
  mkManager (_activeTaskOwner m) (_ownerCounter m) (_taskOwners m)
            (_taskOwnerStack m) (_priorityStack m) b.

Definition set_taskStore (s : gmap ref TaskObj) (w : World) : World :=
  mkWorld s (ownerStore w) (_taskIdCounter w) (Owner_ownerCounter w)
          (global_iterate w) (manager w) (timers w) (trace w).

Definition set_ownerStore (s : gmap oref OwnerObj) (w : World) : World :=
  mkWorld (taskStore w) s (_taskIdCounter w) (Owner_ownerCounter w)
          (global_iterate w) (manager w) (timers w) (trace w).

Definition set_taskIdCounter (n : Z) (w : World) : World :=
  mkWorld (taskStore w) (ownerStore w) n (Owner_ownerCounter w)
          (global_iterate w) (manager w) (timers w) (trace w).

Definition set_Owner_ownerCounter (n : Z) (w : World) : World :=
  mkWorld (taskStore w) (ownerStore w) (_taskIdCounter w) n
          (global_iterate w) (manager w) (timers w) (trace w).

Definition set_global_iterate (c : option IterClosure) (w : World) : World :=
  mkWorld (taskStore w) (ownerStore w) (_taskIdCounter w)
          (Owner_ownerCounter w) c (manager w) (timers w) (trace w).

Definition set_manager (m : Manager) (w : World) : World :=
  mkWorld (taskStore w) (ownerStore w) (_taskIdCounter w)
          (Owner_ownerCounter w) (global_iterate w) m (timers w) (trace w).

Definition set_timers (q : list Deferred) (w : World) : World :=
  mkWorld (taskStore w) (ownerStore w) (_taskIdCounter w)
          (Owner_ownerCounter w) (global_iterate w) (manager w) q (trace w).

Definition set_trace (tr : list Event) (w : World) : World :=
  mkWorld (taskStore w) (ownerStore w) (_taskIdCounter w)
          (Owner_ownerCounter w) (global_iterate w) (manager w) (timers w) tr.

(** ** The monad of methods *)

(** How a call can end abruptly.  [Stuck] is not a JavaScript outcome.  It
    stands for a reference that was never allocated and for an exhausted
    step bound, neither of which a run of the program produces; and for the
    one place where the program goes on with a value that has no
    representation here: an owner that makes a member inherited from
    [Object.prototype] its live task (see [Owner_setNext] and
    [Owner_getNext]). *)
Inductive Exception : Type :=
| TypeError
| ReferenceError (identifier : string)
| Stuck.

Inductive Outcome (A : Type) : Type :=
| Normal (a : A)
| Throw (e : Exception).
Arguments Normal {A} a.
Arguments Throw {A} e.

Definition M (A : Type) : Type := World -> Outcome A * World.

#[global] Instance M_ret : MRet M := fun A a w => (Normal a, w).

#[global] Instance M_bind : MBind M := fun A B k m w =>
  match m w with
  | (Normal a, w') => k a w'
  | (Throw e, w') => (Throw e, w')
  end.

Definition throw {A : Type} (e : Exception) : M A := fun w => (Throw e, w).

Definition gets {A : Type} (f : World -> A) : M A := fun w => (Normal (f w), w).

Definition modify (f : World -> World) : M unit := fun w => (Normal tt, f w).

(** A value that must be present: [e] is thrown when it is not. *)
Definition expect {A : Type} (e : Exception) (o : option A) : M A :=
  match o with
  | Some a => mret a
  | None => throw e
  end.

Definition getTask (r : ref) : M TaskObj :=
  s ← gets taskStore; expect Stuck (s !! r).

Definition updTask (r : ref) (f : TaskObj -> TaskObj) : M unit :=
  t ← getTask r;
  modify (fun w => set_taskStore (<[r := f t]> (taskStore w)) w).

Definition getOwner (o : oref) : M OwnerObj :=
  s ← gets ownerStore; expect Stuck (s !! o).

Definition updOwner (o : oref) (f : OwnerObj -> OwnerObj) : M unit :=
  x ← getOwner o;
  modify (fun w => set_ownerStore (<[o := f x]> (ownerStore w)) w).

Definition getManager : M Manager := gets manager.

Definition updManager (f : Manager -> Manager) : M unit :=
  modify (fun w => set_manager (f (manager w)) w).

(** Record an event. *)
Definition emit (e : Event) : M unit :=
  modify (fun w => set_trace (trace w ++ [e])%list w).

(** [_.defer(...)]: append to the timer queue. *)
Definition defer (d : Deferred) : M unit :=
  modify (fun w => set_timers (timers w ++ [d])%list w).

(** Run a computation on a world. *)
Definition run {A : Type} (m : M A) (w : World) : Outcome A * World := m w.

Fixpoint for_each {A : Type} (f : A -> M unit) (l : list A) : M unit :=
  match l with
  | [] => mret tt
  | x :: rest => f x;; for_each f rest
  end.

Fixpoint map_each {A B : Type} (f : A -> M B) (l : list A) : M (list B) :=
  match l with
  | [] => mret []
  | x :: rest => y ← f x; ys ← map_each f rest; mret (y :: ys)
  end.

(** ** Task/Task *)

(** The property defaults of the class body. *)
Definition Task_prototype : TaskObj :=
  mkTask VNull None None (VStr "") false VNull VNull VNull None None None.

(** [Task.construct], on the object under construction and the current value
    of [_taskIdCounter]; returns the object and the counter. *)
Definition Task_construct (this : TaskObj) (config : Config) (counter : Z)
  : TaskObj * Z :=
  (* this.fn = config.fn *)
  let fn := cfg_fn config in
  (* this.arguments = ... *)
  let arguments :=
    if truthy (cfg_arguments config)
    then match cfg_arguments config with
         | VArr elems _ => elems
         | a => [a]
         end
    else [] in
  (* this.activeOnly = !!config.activeOnly *)
  let activeOnly := truthy (cfg_activeOnly config) in
  (* this.id = config.id || _taskIdCounter++ *)
  let '(id, counter') :=
    if truthy (cfg_id config) then (cfg_id config, counter)
    else (VNum counter, counter + 1) in
  (* config.name && (this.name = config.name) *)
  let name := if truthy (cfg_name config) then cfg_name config else t_name this in
  (* config.context && (this.context = config.context) *)
  let context :=
    if truthy (cfg_context config) then cfg_context config else t_context this in
  (* config.callback && (this.callback - config.callback): the operator is a
     minus, the difference is dropped and this.callback keeps its value *)
  let callback := t_callback this in
  (* config.subTasks && (this.subTasks = config.subTasks) *)
  let subTasks :=
    if truthy (cfg_subTasks config) then cfg_subTasks config else t_subTasks this in
  (* this.state = this.statics.state.PENDING *)
  (mkTask id fn (Some arguments) name activeOnly context subTasks
          (t_result this) callback (statics_state "PENDING") (t_iteration this),
   counter').

(** [isComplete] *)
Definition Task_isComplete (this : TaskObj) : bool :=
  state_eq (t_state this) (statics_state "COMPLETE").

(** [pause] *)
Definition Task_pause (this : TaskObj) : TaskObj :=
  if negb (state_eq (t_state this) (statics_state "COMPLETE"))
  then set_t_state (statics_state "PAUSE") this
  else this.

(** [destroy] *)
Definition Task_destroy (this : TaskObj) : TaskObj :=
  let this1 :=
    if negb (state_eq (t_state this) (statics_state "COMPLETE"))
    then set_t_state (statics_state "CANCEL") this
    else this in
  mkTask (t_id this1) None None (t_name this1) (t_activeOnly this1) VNull
         (t_subTasks this1) VNull None (t_state this1) (t_iteration this1).

(** Store a new object and return its reference. *)
Definition allocTask (t : TaskObj) : M ref :=
  s ← gets taskStore;
  let r := fresh (dom s) in
  modify (fun w => set_taskStore (<[r := t]> (taskStore w)) w);;
  mret r.

(** [new Task(config)] *)
Definition new_Task (config : Config) : M ref :=
  c ← gets _taskIdCounter;
  let '(t, c') := Task_construct Task_prototype config c in
  modify (set_taskIdCounter c');;
  allocTask t.

(** ** Task/IterationTask: construction *)

Definition IterationTask_prototype : TaskObj :=
  set_t_iteration
    (Some (mkIteration (VNum 1) VNull None VNull VUndefined None (-1)))
    Task_prototype.

(** [IterationTask.construct] *)
Definition IterationTask_construct (this : TaskObj) (config : Config)
                                   (counter : Z) : TaskObj * Z :=
  let it := default (mkIteration (VNum 1) VNull None VNull VUndefined None (-1))
                    (t_iteration this) in
  let it' :=
    mkIteration
      (* config.step && (this.step = config.step) *)
      (if truthy (cfg_step config) then cfg_step config else it_step it)
      (* this.list = config.list *)
      (cfg_list config)
      (it_keys it)
      (* this.iterationType = config.type || this.statics.type.EACH *)
      (js_or (cfg_type config) (statics_type "EACH"))
      (it_type it)
      (it_iterator it)
      (it_currentIteration it) in
  (* this.statics.parent.construct.call(this, config) *)
  Task_construct (set_t_iteration (Some it') this) config counter.

(** [new IterationTask(config)] *)
Definition new_IterationTask (config : Config) : M ref :=
  c ← gets _taskIdCounter;
  let '(t, c') := IterationTask_construct IterationTask_prototype config c in
  modify (set_taskIdCounter c');;
  allocTask t.

(** ** Plain objects used as dictionaries *)

(** [tasks], [completedTasks] and [_taskOwners] are plain objects ([{}]) that
    the code indexes with ids.  Their own properties are the entries of a
    finite map.  A key without an own property still reads as the member of
    that name of [Object.prototype], when there is one: these are the names
    of ECMAScript 5 (15.2.4) and of its Annex B.  None of them is enumerable,
    so [for-in] does not visit them, and [delete] and assignment act on own
    properties only.  (The accessor [__proto__] is treated like any other
    name when it is written.) *)
Definition Object_prototype_names : list string :=
  ["constructor"; "toString"; "toLocaleString"; "valueOf"; "hasOwnProperty";
   "isPrototypeOf"; "propertyIsEnumerable"; "__defineGetter__";
   "__defineSetter__"; "__lookupGetter__"; "__lookupSetter__"; "__proto__"].

(** The key names a member every plain object inherits. *)
Definition inherited (key : string) : bool :=
  bool_decide (key ∈ Object_prototype_names).

(** The first character of a key, and the characters the string of a number
    starts with: no name of [Object.prototype] starts with one of them. *)
Definition first_char (s : string) : option Ascii.ascii :=
  match s with
  | EmptyString => None
  | String c _ => Some c
  end.

Definition numeric_char (c : Ascii.ascii) : bool :=
  bool_decide (c ∈ ["0"; "1"; "2"; "3"; "4"; "5"; "6"; "7"; "8"; "9"; "-"]%char).

(** What a lookup by id gives: the task stored under the id; a member
    inherited from [Object.prototype], which is truthy, has no [id], no
    [activeOnly] and none of the methods of a task or an owner; or nothing
    ([undefined] or [null]). *)
Inductive Lookup : Type :=
| Found (task : ref)
| Inherited (name : string)
| Missing.

(** ** Task/Owner *)

(** [new TaskOwner(name, origin)] *)
Definition new_Owner (name origin : value) : M oref :=
  n ← gets Owner_ownerCounter;
  modify (set_Owner_ownerCounter (n + 1));;
  s ← gets ownerStore;
  let r := fresh (dom s) in
  modify (fun w =>
            set_ownerStore
              (<[r := mkOwner ("o" +:+ pretty n) name origin
                              (Some ∅) (Some []) None (Some ∅)]>
                 (ownerStore w)) w);;
  mret r.

(** What [add] accepts: a task instance, or a definition with an optional
    [iterate] part. *)
Inductive TaskSpec : Type :=
| Instance_ (task : ref)
| Definition_ (config : Config) (iterate : option IterateConfig).

(** [_.extend({}, task, task.iterate)] followed by [delete config.iterate] *)
Definition extend_iterate (task : Config) (it : IterateConfig) : Config :=
  mkConfig (cfg_id task) (cfg_fn task) (cfg_arguments task) (cfg_name task)
           (cfg_context task) (cfg_callback task) (cfg_activeOnly task)
           (cfg_subTasks task)
           (default (cfg_list task) (itc_list it))
           (default (cfg_type task) (itc_type it))
           (default (cfg_step task) (itc_step it)).

(** [add] *)
Definition Owner_add (this : oref) (task : TaskSpec) : M unit :=
  r ← match task with
      | Instance_ r => mret r
      | Definition_ config (Some it) => new_IterationTask (extend_iterate config it)
      | Definition_ config None => new_Task config
      end;
  t ← getTask r;
  o ← getOwner this;
  (* this.tasks[task.id] = task *)
  tasks ← expect TypeError (o_tasks o);
  updOwner this (set_o_tasks (Some (<[ToString (t_id t) := r]> tasks)));;
  (* this.taskOrder.push(task.id) *)
  o ← getOwner this;
  order ← expect TypeError (o_taskOrder o);
  updOwner this (set_o_taskOrder (Some (order ++ [t_id t])%list)).

(** [get].  [this.tasks[taskId]] is read first: an own property is the
    task; failing that, an inherited member of that name is truthy and is
    what [get] returns.  Only a key that reads [undefined] in [tasks] (and so
    has no inherited member in [completedTasks] either) goes on to the
    completed tasks and to the live task. *)
Definition Owner_get (this : oref) (taskId : value) : M Lookup :=
  o ← getOwner this;
  tasks ← expect TypeError (o_tasks o);
  match tasks !! ToString taskId with
  | Some r => mret (Found r)
  | None =>
      if inherited (ToString taskId) then mret (Inherited (ToString taskId))
      else
        completed ← expect TypeError (o_completedTasks o);
        match completed !! ToString taskId with
        | Some r => mret (Found r)
        | None =>
            match o_liveTask o with
            | Some r =>
                t ← getTask r;
                mret (if strict_eq (t_id t) taskId then Found r else Missing)
            | None => mret Missing
            end
        end
  end.

(** The loop of [_removeTask]: the list without the first element that is
    [===] to [taskId], or [None] when no element is. *)
Fixpoint remove_first (taskId : value) (l : list value) : option (list value) :=
  match l with
  | [] => None
  | x :: rest =>
      if strict_eq x taskId then Some rest
      else option_map (cons x) (remove_first taskId rest)
  end.

(** [_removeTask(owner, taskId)] *)
Definition _removeTask (owner : oref) (taskId : value) : M bool :=
  o ← getOwner owner;
  order ← expect TypeError (o_taskOrder o);
  match remove_first taskId order with
  | None => mret false
  | Some order' =>
      updOwner owner (set_o_taskOrder (Some order'));;
      (* delete owner.tasks[taskId] *)
      tasks ← expect TypeError (o_tasks o);
      updOwner owner (set_o_tasks (Some (delete (ToString taskId) tasks)));;
      mret true
  end.

(** [setNext].  When [tasks] has no own property for the id but inherits a
    member of that name, [task] is that member and the test [!task] lets it
    pass: [_removeTask] is called, and if the id is listed in [taskOrder] the
    member becomes the live task, which is where this model stops. *)
Definition Owner_setNext (this : oref) (taskId : value) : M bool :=
  o ← getOwner this;
  tasks ← expect TypeError (o_tasks o);
  match tasks !! ToString taskId with
  | None =>
      if inherited (ToString taskId)
      then
        removed ← _removeTask this taskId;
        if negb (removed : bool) then mret false
        else (* this.liveTask = task *) throw Stuck
      else mret false
  | Some task =>
      removed ← _removeTask this taskId;
      if negb (removed : bool) then mret false
      else updOwner this (set_o_liveTask (Some task));; mret true
  end.

(** The [for] loop of [getNext] when the owner is not active: the first id of
    [taskOrder] whose task is not [activeOnly] is cut out with [splice], so
    [taskId] becomes the one-element array [splice] returns.  A listed id
    that reads [undefined] in [tasks] makes [task.activeOnly] a TypeError; one
    that reads as an inherited member, whose [activeOnly] is [undefined], is
    cut out like the id of a task that is not [activeOnly]. *)
Fixpoint getNext_scan (tasks : gmap string ref) (before rest : list value)
  : M (option (value * list value)) :=
  match rest with
  | [] => mret None
  | x :: rest' =>
      match tasks !! ToString x with
      | Some r =>
          t ← getTask r;
          if negb (t_activeOnly t)
          then mret (Some (VArr [x] [], (before ++ rest')%list))
          else getNext_scan tasks (before ++ [x])%list rest'
      | None =>
          if inherited (ToString x)
          then mret (Some (VArr [x] [], (before ++ rest')%list))
          else throw TypeError
      end
  end.

(** [getNext]; [isActive] is the actual argument ([undefined] when the caller
    passes none).  The answer [None] is [null] or [undefined].  When the id
    taken from [taskOrder] has no own property in [tasks], [task] is
    [undefined], or the inherited member of that name: making that member the
    live task is where this model stops. *)
Definition Owner_getNext (this : oref) (isActive : value) : M (option ref) :=
  o ← getOwner this;
  order ← expect TypeError (o_taskOrder o);
  match order with
  | [] => mret None
  | first :: others =>
      picked ←
        (if truthy isActive
         then (* taskId = this.taskOrder.shift() *)
           mret (Some (first, others))
         else
           tasks ← expect TypeError (o_tasks o);
           getNext_scan tasks [] order);
      match picked with
      | None => mret None
      | Some (taskId, order') =>
          updOwner this (set_o_taskOrder (Some order'));;
          tasks ← expect TypeError (o_tasks o);
          (* task = this.tasks[taskId]; delete this.tasks[taskId] *)
          let task := tasks !! ToString taskId in
          updOwner this (set_o_tasks (Some (delete (ToString taskId) tasks)));;
          (* this.liveTask = task *)
          match task with
          | None => if inherited (ToString taskId) then throw Stuck else mret tt
          | Some _ => mret tt
          end;;
          updOwner this (set_o_liveTask task);;
          mret task
      end
  end.

(** [completed] *)
Definition Owner_completed (this : oref) (task : ref) (manualOverride : bool)
  : M unit :=
  emit (EvOwnerCompleted this task manualOverride);;
  t ← getTask task;
  o ← getOwner this;
  proceed ←
    ((if manualOverride
      then _removeTask this (t_id t);; mret true
      else mret (bool_decide (o_liveTask o = Some task))) : M bool);
  if (proceed : bool)
  then
    o ← getOwner this;
    completed ← expect TypeError (o_completedTasks o);
    updOwner this
      (set_o_completedTasks (Some (<[ToString (t_id t) := task]> completed)))
  else mret tt.

(** [hasPending] *)
Definition Owner_hasPending (this : oref) : M bool :=
  o ← getOwner this;
  order ← expect TypeError (o_taskOrder o);
  mret (negb (bool_decide (order = []))).

(** [_destroyTasks(tasks)]: [destroy] on every task of the dictionary (none
    when it is [null]).  The order of a [for-in] does not matter here. *)
Definition _destroyTasks (tasks : option (gmap string ref)) : M unit :=
  match tasks with
  | None => mret tt
  | Some m => for_each (fun kr => updTask (snd kr) Task_destroy) (map_to_list m)
  end.

(** [destroy] *)
Definition Owner_destroy (this : oref) : M unit :=
  o ← getOwner this;
  match o_liveTask o with
  | Some live => updTask live Task_destroy
  | None => mret tt
  end;;
  _destroyTasks (o_tasks o);;
  updOwner this (set_o_tasks None);;
  updOwner this (set_o_taskOrder None);;
  updOwner this (set_o_completedTasks None).

(** ** Executing a task *)

(** Calling the continuation [next(result)].  The closure [_executeTask]
    builds logs, calls its optional extra callback (no caller passes one) and,
    unless [returnControl], defers [_performTask]. *)
Definition call_next (next : Continuation) (result : value) : M unit :=
  match next with
  | KExecuteTask task returnControl =>
      emit (EvNext task result);;
      if negb returnControl then defer DPerformTask else mret tt
  end.

(** [this.callback && this.callback(this.result)] *)
Definition call_task_callback (this : ref) : M unit :=
  me ← getTask this;
  match t_callback me with
  | Some cb => emit (EvTaskCallback this cb (t_result me))
  | None => mret tt
  end.

(** [Task.execute] *)
Definition Task_execute (this : ref) (owner : oref) (next : Continuation)
                        (manualOverride : bool) : M value :=
  me ← getTask this;
  if state_eq (t_state me) (statics_state "ACTIVE")
     || state_eq (t_state me) (statics_state "COMPLETE")
  then mret (t_result me)
  else
    updTask this (set_t_state (statics_state "ACTIVE"));;
    (* this.result = this.fn.apply(this.context || owner.origin, this.arguments) *)
    fn ← expect TypeError (t_fn me);
    o ← getOwner owner;
    let context := js_or (t_context me) (o_origin o) in
    let args := default [] (t_arguments me) in
    emit (EvFn this context args);;
    updTask this (set_t_result (fn context args));;
    updTask this (set_t_state (statics_state "COMPLETE"));;
    Owner_completed owner this manualOverride;;
    call_task_callback this;;
    me ← getTask this;
    call_next next (t_result me);;
    mret VUndefined.

(** ** Task/IterationTask: execution *)

Definition getIteration (r : ref) : M IterationFields :=
  t ← getTask r; expect Stuck (t_iteration t).

Definition updIteration (r : ref) (f : IterationFields -> IterationFields)
  : M unit :=
  updTask r (fun t => set_t_iteration (option_map f (t_iteration t)) t).

(** [keys[idx]] *)
Definition key_at (keys : list string) (idx : Z) : value :=
  if 0 <=? idx
  then match keys !! Z.to_nat idx with
       | Some k => VStr k
       | None => VUndefined
       end
  else VUndefined.

(** Calling [task.fn.call(context, args...)] from an iterator. *)
Definition call_fn (task : ref) (context : value) (args : list value) : M value :=
  t ← getTask task;
  fn ← expect TypeError (t_fn t);
  emit (EvFn task context args);;
  mret (fn context args).

(** Applying an iterator made by [_eachArray], [_mapArray], [_reduceArray],
    [_eachDictionary], [_mapDictionary] or [_reduceDictionary] for [task] to
    the index [idx]. *)
Definition run_iterator (task : ref) (itr : Iterator) (idx : Z) : M unit :=
  let context := itr_context itr in
  let lst := itr_list itr in
  match itr_kind itr with
  | EachArray =>
      (* task.fn.call(context, list[idx], idx, list) *)
      t ← getTask task;
      _ ← expect TypeError (t_fn t);
      x ← expect TypeError (get_prop lst (VNum idx));
      call_fn task context [x; VNum idx; lst];;
      mret tt
  | MapArray =>
      (* task.result[idx] = task.fn.call(context, list[idx], idx, list) *)
      t ← getTask task;
      _ ← expect TypeError (set_prop (t_result t) (VNum idx) VUndefined);
      _ ← expect TypeError (t_fn t);
      x ← expect TypeError (get_prop lst (VNum idx));
      y ← call_fn task context [x; VNum idx; lst];
      result' ← expect TypeError (set_prop (t_result t) (VNum idx) y);
      updTask task (set_t_result result')
  | ReduceArray =>
      (* task.result = task.fn.call(context, task.result, list[idx], idx, list) *)
      t ← getTask task;
      _ ← expect TypeError (t_fn t);
      x ← expect TypeError (get_prop lst (VNum idx));
      y ← call_fn task context [t_result t; x; VNum idx; lst];
      updTask task (set_t_result y)
  | EachDictionary =>
      (* var key = keys[idx]; task.fn.call(context, list[key], key, list) *)
      keys ← expect TypeError (itr_keys itr);
      let key := key_at keys idx in
      t ← getTask task;
      _ ← expect TypeError (t_fn t);
      x ← expect TypeError (get_prop lst key);
      call_fn task context [x; key; lst];;
      mret tt
  | MapDictionary =>
      (* var key = keys[idx];
         task.result[key] = task.fn.call(context, list[key], key, list) *)
      keys ← expect TypeError (itr_keys itr);
      let key := key_at keys idx in
      t ← getTask task;
      _ ← expect TypeError (set_prop (t_result t) key VUndefined);
      _ ← expect TypeError (t_fn t);
      x ← expect TypeError (get_prop lst key);
      y ← call_fn task context [x; key; lst];
      result' ← expect TypeError (set_prop (t_result t) key y);
      updTask task (set_t_result result')
  | ReduceDictionary =>
      (* var key = keys[idx];
         task.result = task.fn.call(context, task.result, list[key], key, list) *)
      keys ← expect TypeError (itr_keys itr);
      let key := key_at keys idx in
      t ← getTask task;
      _ ← expect TypeError (t_fn t);
      x ← expect TypeError (get_prop lst key);
      y ← call_fn task context [t_result t; x; key; lst];
      updTask task (set_t_result y)
  end.

(** [idx % step == 0].  [step] is documented as a Number.  A [step] of
    another type goes through ToNumber in the code; that conversion is given
    here for [true] only, and every other value (among them a string or an
    array that spells a number) is read as [NaN]. *)
Definition rem_is_zero (idx : Z) (step : value) : bool :=
  match step with
  | VNum s => if s =? 0 then false else Z.rem idx s =? 0
  | VBool true => true
  | _ => false
  end.

(** The closure [onComplete] *)
Definition onComplete (c : IterClosure) : M unit :=
  (* me.state = state.COMPLETE *)
  updTask (ic_me c) (set_t_state (statics_state "COMPLETE"));;
  (* owner.completed(me, manualOverride) *)
  Owner_completed (ic_owner c) (ic_me c) (ic_manualOverride c);;
  (* me.callback && me.callback.call(me.context, me.result) *)
  call_task_callback (ic_me c);;
  (* next(me.result) *)
  me ← getTask (ic_me c);
  call_next (ic_next c) (t_result me).

(** The closures [iterate] and [nextIteration].  Both names are implicit
    globals, so [iterate], running in the environment [c] it was created in,
    calls whatever [nextIteration] the global holds, and that one calls or
    defers the global [iterate].  [fuel] bounds the calls made without
    yielding to the host. *)
Fixpoint iterate (fuel : nat) (c : IterClosure) : M unit :=
  (* me.iterator(me.currentIteration) *)
  it ← getIteration (ic_me c);
  itr ← expect TypeError (it_iterator it);
  run_iterator (ic_me c) itr (it_currentIteration it);;
  (* me.currentIteration++ *)
  updIteration (ic_me c)
    (fun i => set_it_currentIteration (it_currentIteration i + 1) i);;
  (* nextIteration() *)
  g ← gets global_iterate;
  c' ← expect (ReferenceError "nextIteration") g;
  me ← getTask (ic_me c');
  it' ← getIteration (ic_me c');
  let idx := it_currentIteration it' in
  if negb (state_eq (t_state me) (statics_state "ACTIVE"))
     && negb (state_eq (t_state me) (statics_state "PENDING"))
  then mret tt
  else if idx <? ic_length c'
       then
         (* idx % me.step == 0 ? _.defer(iterate) : iterate() *)
         if rem_is_zero idx (it_step it')
         then defer (DIterate c')
         else match fuel with
              | O => throw Stuck
              | S fuel' => iterate fuel' c'
              end
       else onComplete c'.

(** Enough fuel for one run of [iterate]: the closure in the globals
    continues for at most its [length] further elements. *)
Definition iterate_fuel (w : World) : nat :=
  match global_iterate w with
  | Some g => S (Z.to_nat (ic_length g))
  | None => O
  end.

(** The iterator [execute] picks when the task has none yet. *)
Definition choose_iterator (type : value) (isArr : bool) (context lst : value)
                           (keys : option (list string)) : Iterator :=
  if strict_eq type (statics_type "MAP")
  then mkIterator (if isArr then MapArray else MapDictionary) context lst keys
  else if strict_eq type (statics_type "REDUCE")
       then mkIterator (if isArr then ReduceArray else ReduceDictionary)
                       context lst keys
       else mkIterator (if isArr then EachArray else EachDictionary)
                       context lst keys.

(** [IterationTask.execute] *)
Definition IterationTask_execute (this : ref) (owner : oref)
                                 (next : Continuation) (manualOverride : bool)
  : M value :=
  me ← getTask this;
  it ← getIteration this;
  let isArr := isArray (it_list it) in
  o ← getOwner owner;
  let context := js_or (t_context me) (o_origin o) in
  if state_eq (t_state me) (statics_state "ACTIVE")
     || state_eq (t_state me) (statics_state "COMPLETE")
  then mret (t_result me)
  else
    len ← (if isArr
           then expect Stuck (array_length (it_list it))
           else
             keys ← expect TypeError (Object_keys (it_list it));
             updIteration this (set_it_keys (Some keys));;
             mret (Z.of_nat (length keys)));
    (* if (!this.result && this.type == this.statics.type.MAP) ... *)
    (if negb (truthy (t_result me))
        && loose_eq_type (it_type it) (statics_type "MAP")
     then updTask this
            (set_t_result (if isArr
                           then VArr (List.repeat VUndefined (Z.to_nat len)) []
                           else VObj []))
     else mret tt);;
    (* if (!this.iterator) switch (this.type) ... *)
    it ← getIteration this;
    match it_iterator it with
    | Some _ => mret tt
    | None =>
        updIteration this
          (set_it_iterator
             (Some (choose_iterator (it_type it) isArr context (it_list it)
                                    (it_keys it))))
    end;;
    let c := mkIterClosure this owner next manualOverride len in
    (* nextIteration = function ...; iterate = function ... *)
    modify (set_global_iterate (Some c));;
    (* this.state = state.ACTIVE *)
    updTask this (set_t_state (statics_state "ACTIVE"));;
    (* iterate() *)
    fuel ← gets iterate_fuel;
    iterate fuel c;;
    mret VUndefined.

(** [task.execute(owner, next, manualOverride)]: the method of the task's
    class. *)
Definition execute (task : ref) (owner : oref) (next : Continuation)
                   (manualOverride : bool) : M value :=
  t ← getTask task;
  match t_iteration t with
  | Some _ => IterationTask_execute task owner next manualOverride
  | None => Task_execute task owner next manualOverride
  end.

(** ** TaskManager *)

(** [_executeTask(task, owner, returnControl)].  The fourth parameter
    [callback] is never passed.  What the function logs and times is left
    out. *)
Definition _executeTask (task : ref) (owner : oref) (returnControl : bool)
  : M unit :=
  execute task owner (KExecuteTask task returnControl) returnControl;;
  mret tt.

(** The owner registered as [ownerId]; [None] when [_taskOwners[ownerId]] is
    not an owner: it is [undefined], or a member [_taskOwners] inherits, and
    calling a method of an owner on either is a TypeError. *)
Definition lookup_owner (ownerId : string) : M (option oref) :=
  m ← getManager; mret (_taskOwners m !! ownerId).

(** The owner registered as [_activeTaskOwner], likewise: the key of [null]
    or [undefined] is its string. *)
Definition lookup_active_owner : M (option oref) :=
  m ← getManager;
  match _activeTaskOwner m with
  | Some a => mret (_taskOwners m !! a)
  | None => mret (_taskOwners m !! "undefined")
  end.

(** The request at the head of [_priorityStack] is updated in place. *)
Definition updHeadRequest (f : Request -> Request) : M unit :=
  updManager (fun m =>
                match _priorityStack m with
                | [] => m
                | r :: rest => set_priorityStack (f r :: rest) m
                end).

(** The [while] loop of [_performPriorityTask], from the task of the current
    index on; [remaining] are the ids listed after it.  [None]: the request is
    completed; [Some task]: the first listed task that is not complete. *)
Fixpoint priority_walk (owner : oref) (task : ref) (remaining : list value)
  : M (option ref) :=
  t ← getTask task;
  if Task_isComplete t
  then
    (* request.results.push(task.result); request.currentIdx = ++currentIdx *)
    updHeadRequest (fun r =>
      mkRequest (rq_ownerId r) (rq_taskIds r) (rq_callback r)
                (rq_passResults r) (rq_results r ++ [t_result t])%list
                (S (rq_currentIdx r)));;
    match remaining with
    | [] => mret None
    | taskId :: rest =>
        found ← Owner_get owner taskId;
        (* the loop condition calls task.isComplete() on what get returned *)
        match found with
        | Found task' => priority_walk owner task' rest
        | Inherited _ | Missing => throw TypeError
        end
    end
  else mret (Some task).

(** [_performPriorityTask] *)
Definition _performPriorityTask : M bool :=
  m ← getManager;
  match _priorityStack m with
  | [] => mret false
  | request :: _ =>
      ownerO ← lookup_owner (rq_ownerId request);
      let currentIdx := rq_currentIdx request in
      let taskId := default VUndefined (rq_taskIds request !! currentIdx) in
      owner ← expect TypeError ownerO;
      found ← Owner_get owner taskId;
      match found with
      | Missing => mret false
      | Inherited _ => (* task.isComplete() *) throw TypeError
      | Found task =>
          walked ← priority_walk owner task
                     (drop (S currentIdx) (rq_taskIds request));
          match walked with
          | None =>
              (* _priorityStack.shift() *)
              m ← getManager;
              let request' := default request (head (_priorityStack m)) in
              updManager (set_priorityStack (tail (_priorityStack m)));;
              match rq_callback request' with
              | Some cb =>
                  emit (EvRequestCallback cb
                          (if rq_passResults request'
                           then [VArr (rq_results request') []]
                           else []))
              | None => mret tt
              end;;
              mret false
          | Some task' =>
              t ← getTask task';
              ok ← Owner_setNext owner (t_id t);
              if (ok : bool)
              then defer (DExecuteTask task' owner);; mret true
              else mret false
          end
      end
  end.

(** [stack.unshift(stack.pop())]: the top of the stack goes to the bottom. *)
Definition unshift_pop (stack : list string) : list string :=
  match reverse stack with
  | [] => []
  | top :: below => top :: reverse below
  end.

(** The [while] loop of [_performTask]: [n] is [ownerNum - ownersChecked]. *)
Fixpoint rotate_owners (n : nat) (owner : oref) (task : option ref)
  : M (oref * option ref) :=
  match task, n with
  | None, S n' =>
      updManager (fun m => set_taskOwnerStack (unshift_pop (_taskOwnerStack m)) m);;
      (* _activeTaskOwner = _taskOwnerStack[_taskOwnerStack.length - 1] *)
      updManager (fun m => set_activeTaskOwner (last (_taskOwnerStack m)) m);;
      ownerO ← lookup_active_owner;
      owner' ← expect TypeError ownerO;
      (* task = owner.getNext() *)
      task' ← Owner_getNext owner' VUndefined;
      rotate_owners n' owner' task'
  | _, _ => mret (owner, task)
  end.

(** [_performTask] *)
Definition _performTask : M unit :=
  priority ← _performPriorityTask;
  if (priority : bool)
  then updManager (set_running true)
  else
    m ← getManager;
    match _taskOwnerStack m with
    | [] => updManager (set_running false)
    | _ :: _ =>
        ownerO ← lookup_active_owner;
        owner ← expect TypeError ownerO;
        (* task = owner.getNext() *)
        task ← Owner_getNext owner VUndefined;
        let ownerNum := length (_taskOwnerStack m) in
        '(owner', task') ← rotate_owners (ownerNum - 1) owner task;
        match task' with
        | None => updManager (set_running false)
        | Some t =>
            updManager (set_running true);;
            defer (DExecuteTask t owner')
        end
    end.

(** [_performImmediateTask(ownerId, taskId)] *)
Definition _performImmediateTask (ownerId : string) (taskId : value) : M value :=
  ownerO ← lookup_owner ownerId;
  match ownerO with
  | None =>
      (* if (!owner) return; task = owner.get(taskId) *)
      if inherited ownerId then throw TypeError else mret VUndefined
  | Some owner =>
      found ← Owner_get owner taskId;
      match found with
      | Missing => mret VUndefined
      | Inherited _ => (* task.isComplete() *) throw TypeError
      | Found task =>
          t ← getTask task;
          if Task_isComplete t then mret (t_result t)
          else _executeTask task owner true;; mret VUndefined
      end
  end.

(** The list without the last element equal to [x] (the backwards search and
    [splice] of [unregister] and [_activate]); [None] when there is none. *)
Fixpoint remove_last (x : string) (l : list string) : option (list string) :=
  match l with
  | [] => None
  | y :: rest =>
      match remove_last x rest with
      | Some rest' => Some (y :: rest')
      | None => if String.eqb y x then Some rest else None
      end
  end.

(** [_activate(ownerId)].  When the owner is found on the stack it is moved
    to the top and made active, and then the argument of the log call reads
    the variable [activeOwnerId], which this function does not have. *)
Definition _activate (ownerId : string) : M unit :=
  m ← getManager;
  (* if (!_taskOwners[ownerId]) return *)
  if negb (bool_decide (is_Some (_taskOwners m !! ownerId)) || inherited ownerId)
  then mret tt
  else
    if bool_decide (_activeTaskOwner m = Some ownerId) then mret tt
    else
      match remove_last ownerId (_taskOwnerStack m) with
      | None => mret tt
      | Some stack' =>
          updManager (set_taskOwnerStack (stack' ++ [ownerId])%list);;
          updManager (set_activeTaskOwner (Some ownerId));;
          throw (ReferenceError "activeOwnerId")
      end.

(** [TaskManager.check(activeOwnerId)]; [None] is a call without argument. *)
Definition TaskManager_check (activeOwnerId : option string) : M unit :=
  m ← getManager;
  match activeOwnerId with
  | Some a =>
      if negb (String.eqb a "") && negb (bool_decide (_activeTaskOwner m = Some a))
      then _activate a
      else mret tt
  | None => mret tt
  end;;
  m ← getManager;
  if _running m then mret tt else _performTask.

(** [TaskManager.register(name, owner)] *)
Definition TaskManager_register (name owner : value) : M string :=
  m ← getManager;
  let ownerId := "o" +:+ pretty (_ownerCounter m) in
  updManager (set_ownerCounter (_ownerCounter m + 1));;
  o ← new_Owner name owner;
  updManager (fun m => set_taskOwners (<[ownerId := o]> (_taskOwners m)) m);;
  updManager (fun m => set_taskOwnerStack (_taskOwnerStack m ++ [ownerId])%list m);;
  updManager (set_activeTaskOwner (Some ownerId));;
  mret ownerId.

(** [TaskManager.unregister(ownerId)] *)
Definition TaskManager_unregister (ownerId : string) : M unit :=
  m ← getManager;
  match _taskOwners m !! ownerId with
  | None =>
      (* if (!_taskOwners[ownerId]) return; _taskOwners[ownerId].destroy() *)
      if inherited ownerId then throw TypeError else mret tt
  | Some o =>
      Owner_destroy o;;
      updManager (fun m => set_taskOwners (delete ownerId (_taskOwners m)) m);;
      m ← getManager;
      (if bool_decide (_activeTaskOwner m = Some ownerId)
       then updManager (set_taskOwnerStack (removelast (_taskOwnerStack m)))
       else
         match remove_last ownerId (_taskOwnerStack m) with
         | Some stack' => updManager (set_taskOwnerStack stack')
         | None => mret tt
         end);;
      updManager (fun m => set_activeTaskOwner (last (_taskOwnerStack m)) m)
  end.

(** [TaskManager.activate(ownerId)] *)
Definition TaskManager_activate (ownerId : string) : M unit :=
  _activate ownerId;;
  TaskManager_check None.

(** The second argument of [addTask]: one task or an array of them. *)
Inductive TaskArg : Type :=
| OneTask (task : TaskSpec)
| TaskArray (tasks : list TaskSpec).

(** [TaskManager.addTask(ownerId, task)] *)
Definition TaskManager_addTask (ownerId : string) (task : TaskArg) : M unit :=
  ownerO ← lookup_owner ownerId;
  (* _taskOwners[ownerId].add *)
  owner ← expect TypeError ownerO;
  match task with
  | TaskArray tasks => for_each (Owner_add owner) tasks
  | OneTask t => Owner_add owner t
  end;;
  TaskManager_check (Some ownerId).

(** The [options] of [requireTask]. *)
Record Options : Type := mkOptions {
  opt_immediate : bool;
  opt_callback : option Callback;
  opt_passResults : bool
}.

(** [TaskManager.requireTask(ownerId, taskId, options)].  In the immediate
    branch both [_.each] and [_.map] call [performTask] on every listed id in
    order; the statement after them reads the variable [option], which is
    declared nowhere, so the value of [result] is never used. *)
Definition TaskManager_requireTask (ownerId : string) (taskId : value)
                                   (options : Options) : M unit :=
  (* !_.isArray(taskId) && (taskId = [taskId]) *)
  let taskIds := match taskId with
                 | VArr elems _ => elems
                 | v => [v]
                 end in
  if opt_immediate options
  then
    result ← map_each (_performImmediateTask ownerId) taskIds;
    (* option.callback && options.callback(result) *)
    throw (ReferenceError "option")
  else
    updManager (fun m =>
      set_priorityStack
        (_priorityStack m
           ++ [mkRequest ownerId taskIds (opt_callback options)
                         (opt_passResults options) [] 0%nat])%list m);;
    TaskManager_check None.

(** ** The host's event loop *)

(** Running one deferred call. *)
Definition run_deferred (d : Deferred) : M unit :=
  match d with
  | DExecuteTask task owner => _executeTask task owner false
  | DPerformTask => _performTask
  | DIterate c => fuel ← gets iterate_fuel; iterate fuel c
  end.

(** One turn: the oldest timer fires.  An exception ends the turn, not the
    loop. *)
Definition turn (w : World) : World :=
  match timers w with
  | [] => w
  | d :: rest => snd (run_deferred d (set_timers rest w))
  end.

Fixpoint turns (n : nat) (w : World) : World :=
  match n with
  | O => w
  | S n' => turns n' (turn w)
  end.

(** ** Notions used in the statements *)

(** [preserves R m]: from any world, [m] ends (normally or not) in a world
    related by [R] to the one it started in. *)
Definition preserves (R : World -> World -> Prop) {A : Type} (m : M A) : Prop :=
  forall w, R w (snd (m w)).

(** The calls of task functions a trace records, in order. *)
Definition fn_calls (tr : list Event) : list (ref * list value) :=
  omap (fun e => match e with
                 | EvFn task _ args => Some (task, args)
                 | _ => None
                 end) tr.

(** A configuration with another [id]. *)
Definition with_id (id : value) (c : Config) : Config :=
  mkConfig id (cfg_fn c) (cfg_arguments c) (cfg_name c) (cfg_context c)
           (cfg_callback c) (cfg_activeOnly c) (cfg_subTasks c) (cfg_list c)
           (cfg_type c) (cfg_step c).

(** A step that touches no task object and calls no task function. *)
Definition quiet (w w' : World) : Prop :=
  taskStore w' = taskStore w /\ fn_calls (trace w') = fn_calls (trace w).

(** ** Sample inputs *)

(** A task definition [{id, fn, callback, activeOnly}]. *)
Definition sample_config (id : value) (fn : JsFun) (callback : option Callback)
                         (activeOnly : bool) : Config :=
  mkConfig id (Some fn) VUndefined VUndefined VUndefined callback
           (VBool activeOnly) VUndefined VUndefined VUndefined VUndefined.

(** [function () { return v; }] *)
Definition fn_const (v : value) : JsFun := fun _ _ => v.

(** [x => x * 2], on numbers and on [undefined]. *)
Definition fn_double : JsFun :=
  fun _ args =>
    match args with
    | VNum n :: _ => VNum (n * 2)
    | _ => VNaN
    end.

(** A fresh owner with the one pending task t1, which returns 7. *)
Definition world_one_task : World :=
  snd ((o ← new_Owner (VStr "A") (VObj []);
        Owner_add o (Definition_ (sample_config (VStr "t1") (fn_const (VNum 7))
                                                None false) None))
         initial_world).

(** The same after the owner handed out t1 and t1 was executed. *)
Definition world_one_task_done : World :=
  snd ((Owner_getNext 0%nat (VBool true);;
        execute 0%nat 0%nat (KExecuteTask 0%nat false) false) world_one_task).

(** [register("A", O)], then [addTask] of the task t1 with a callback. *)
Definition world_callback_task : World :=
  snd ((o ← TaskManager_register (VStr "A") (VObj []);
        TaskManager_addTask o
          (OneTask (Definition_ (sample_config (VStr "t1") (fn_const (VNum 7))
                                               (Some 1%nat) false) None)))
         initial_world).

(** [register("A", O)], then [addTask] of the array of t1, t2 and t3: the
    dispatcher has handed out t1, which is the live task and scheduled; t2 and
    t3 are pending. *)
Definition world_three_tasks : World :=
  snd ((o ← TaskManager_register (VStr "A") (VObj []);
        TaskManager_addTask o
          (TaskArray
             [Definition_ (sample_config (VStr "t1") (fn_const (VNum 1))
                                         None false) None;
              Definition_ (sample_config (VStr "t2") (fn_const (VNum 2))
                                         None false) None;
              Definition_ (sample_config (VStr "t3") (fn_const (VNum 3))
                                         None false) None]))
         initial_world).

(** The scenario of the specification: [register("A", O)], [addTask] of the
    plain task t1, [addTask] of the iteration task t2 over [1, 2, 3] with
    [step: 2], [type: "map"] and [fn: x => x * 2]. *)
Definition world_map_scenario : World :=
  snd ((o ← TaskManager_register (VStr "A") (VObj []);
        TaskManager_addTask o
          (OneTask (Definition_ (sample_config (VStr "t1") (fn_const (VNum 7))
                                               None false) None));;
        TaskManager_addTask o
          (OneTask (Definition_
                      (sample_config (VStr "t2") fn_double None false)
                      (Some (mkIterate
                               (Some (VArr [VNum 1; VNum 2; VNum 3] []))
                               (Some (VStr "map"))
                               (Some (VNum 2)))))))
         initial_world).

(** [register("A", O)], then [addTask] of the array of t1, which is
    [activeOnly], and t2, which is not. *)
Definition world_activeOnly_first : World :=
  snd ((o ← TaskManager_register (VStr "A") (VObj []);
        TaskManager_addTask o
          (TaskArray
             [Definition_ (sample_config (VStr "t1") (fn_const (VNum 1))
                                         None true) None;
              Definition_ (sample_config (VStr "t2") (fn_const (VNum 2))
                                         None false) None]))
         initial_world).

(** Owner A with the tasks a and c; [requireTask(A, "a")], then
    [requireTask(A, "c")]; after that owner B is registered and given the
    task b. *)
Definition world_two_requests : World :=
  snd ((a ← TaskManager_register (VStr "A") (VObj []);
        TaskManager_addTask a
          (TaskArray
             [Definition_ (sample_config (VStr "a") (fn_const (VNum 1))
                                         None false) None;
              Definition_ (sample_config (VStr "c") (fn_const (VNum 3))
                                         None false) None]);;
        TaskManager_requireTask a (VStr "a") (mkOptions false None false);;
        TaskManager_requireTask a (VStr "c") (mkOptions false None false);;
        b ← TaskManager_register (VStr "B") (VObj []);
        TaskManager_addTask b
          (OneTask (Definition_ (sample_config (VStr "b") (fn_const (VNum 2))
                                               None false) None)))
         initial_world).

(** ** The three sets of an owner (claim C9) *)

(** The keys under which an owner holds a task as pending ([tasks] together
    with [taskOrder]), as live, as completed. *)
Definition pending_keys (o : OwnerObj) : gset string :=
  dom (default ∅ (o_tasks o))
  ∪ list_to_set (ToString <$> default [] (o_taskOrder o)).

Definition live_key (w : World) (o : OwnerObj) : option string :=
  r ← o_liveTask o; t ← taskStore w !! r; Some (ToString (t_id t)).

Definition completed_keys (o : OwnerObj) : gset string :=
  dom (default ∅ (o_completedTasks o)).

(** The partition as the specification states it: no id is in two of the
    three sets. *)
Definition partition_exact (w : World) (o : OwnerObj) : Prop :=
  forall k : string,
    ~ (k ∈ pending_keys o /\ live_key w o = Some k)
    /\ ~ (k ∈ pending_keys o /\ k ∈ completed_keys o)
    /\ ~ (live_key w o = Some k /\ k ∈ completed_keys o).

(** What the code keeps: [tasks] and [taskOrder] hold the same ids, and a
    pending id is neither the live one nor a completed one. *)
Definition partition_by_design (w : World) (o : OwnerObj) : Prop :=
  (forall k : string,
     k ∈ dom (default ∅ (o_tasks o))
     <-> k ∈ ToString <$> default [] (o_taskOrder o))
  /\ (forall k : string, k ∈ pending_keys o -> live_key w o <> Some k)
  /\ (forall k : string, k ∈ pending_keys o -> k ∉ completed_keys o).

(** The owner after [destroy]. *)
Definition released (o : OwnerObj) : Prop :=
  o_tasks o = None /\ o_taskOrder o = None /\ o_completedTasks o = None.

(** The public operations of an owner that change it. *)
Inductive owner_op : Type :=
| OpAdd (task : TaskSpec)
| OpSetNext (taskId : value)
| OpGetNext (isActive : value)
| OpCompleted (task : ref) (manualOverride : bool)
| OpDestroy.

Definition run_op (this : oref) (op : owner_op) : M unit :=
  match op with
  | OpAdd task => Owner_add this task
  | OpSetNext taskId => Owner_setNext this taskId;; mret tt
  | OpGetNext isActive => Owner_getNext this isActive;; mret tt
  | OpCompleted task manualOverride => Owner_completed this task manualOverride
  | OpDestroy => Owner_destroy this
  end.

(** An id that [===] finds again and that keeps its key inside the array
    [splice] returns: any string, number or boolean. *)
Definition usable_id (v : value) : Prop :=
  strict_eq v v = true /\ v <> VUndefined /\ v <> VNull.

(** The task [add] stores for its argument, and under which reference. *)
Definition added_task (task : TaskSpec) (w : World) : option (ref * TaskObj) :=
  match task with
  | Instance_ r => t ← taskStore w !! r; Some (r, t)
  | Definition_ config (Some it) =>
      Some (fresh (dom (taskStore w)),
            fst (IterationTask_construct IterationTask_prototype
                   (extend_iterate config it) (_taskIdCounter w)))
  | Definition_ config None =>
      Some (fresh (dom (taskStore w)),
            fst (Task_construct Task_prototype config (_taskIdCounter w)))
  end.

(** The worlds an owner goes through: it is created; tasks with ids not yet
    used in this owner are added; [setNext], [getNext], [completed] and
    [destroy] are called ([completed] with [manualOverride] on tasks of this
    owner); in between anything may happen that leaves the owner object and
    the ids of the stored tasks alone.  The set is that of the tasks added. *)
Inductive reachable (this : oref) : gset ref -> World -> Prop :=
| reach_new (w : World) (o : OwnerObj) :
    ownerStore w !! this = Some o ->
    o_tasks o = Some ∅ -> o_taskOrder o = Some [] ->
    o_liveTask o = None -> o_completedTasks o = Some ∅ ->
    reachable this ∅ w
| reach_add (A : gset ref) (w : World) (task : TaskSpec) (r : ref) (t : TaskObj) :
    reachable this A w ->
    added_task task w = Some (r, t) ->
    usable_id (t_id t) ->
    (forall r' t', r' ∈ A -> taskStore w !! r' = Some t' ->
                   ToString (t_id t') <> ToString (t_id t)) ->
    reachable this (A ∪ {[r]}) (snd (Owner_add this task w))
| reach_setNext (A : gset ref) (w : World) (taskId : value) :
    reachable this A w ->
    reachable this A (snd (Owner_setNext this taskId w))
| reach_getNext (A : gset ref) (w : World) (isActive : value) :
    reachable this A w ->
    reachable this A (snd (Owner_getNext this isActive w))
| reach_completed (A : gset ref) (w : World) (task : ref) (manualOverride : bool) :
    reachable this A w ->
    (manualOverride = true -> task ∈ A) ->
    reachable this A (snd (Owner_completed this task manualOverride w))
| reach_destroy (A : gset ref) (w : World) :
    reachable this A w ->
    reachable this A (snd (Owner_destroy this w))
| reach_other (A : gset ref) (w w' : World) :
    reachable this A w ->
    ownerStore w' !! this = ownerStore w !! this ->
    (forall r t, taskStore w !! r = Some t ->
                 exists t', taskStore w' !! r = Some t' /\ t_id t' = t_id t) ->
    reachable this A w'.

(** What holds of an owner that is not released, for the set [A] of the tasks
    added to it and the task store [s]. *)
Definition owner_inv (A : gset ref) (s : gmap ref TaskObj) (o : OwnerObj) : Prop :=
  exists (m : gmap string ref) (l : list value) (cm : gmap string ref),
    o_tasks o = Some m /\ o_taskOrder o = Some l /\ o_completedTasks o = Some cm
    /\ (forall r, r ∈ A -> exists t, s !! r = Some t /\ usable_id (t_id t))
    /\ (forall r1 r2 t1 t2,
          r1 ∈ A -> r2 ∈ A -> s !! r1 = Some t1 -> s !! r2 = Some t2 ->
          ToString (t_id t1) = ToString (t_id t2) -> r1 = r2)
    /\ NoDup l
    /\ (forall k r, m !! k = Some r ->
          r ∈ A /\ exists t, s !! r = Some t /\ ToString (t_id t) = k
                             /\ t_id t ∈ l)
    /\ (forall x, x ∈ l ->
          exists r t, m !! ToString x = Some r /\ s !! r = Some t /\ t_id t = x)
    /\ (forall r, o_liveTask o = Some r ->
          r ∈ A /\ forall t, s !! r = Some t -> m !! ToString (t_id t) = None)
    /\ (forall k r, cm !! k = Some r ->
          r ∈ A /\ (exists t, s !! r = Some t /\ ToString (t_id t) = k)
          /\ m !! k = None).

(** The world with the owner object at [this] replaced. *)
Definition put_owner (this : oref) (o : OwnerObj) (w : World) : World :=
  set_ownerStore (<[this := o]> (ownerStore w)) w.

(** The trace extended by one event. *)
Definition put_event (e : Event) (w : World) : World :=
  set_trace (trace w ++ [e])%list w.

(** Every task of [s] is still in [s'], with the same id. *)
Definition ids_kept (s s' : gmap ref TaskObj) : Prop :=
  forall r t, s !! r = Some t -> exists t', s' !! r = Some t' /\ t_id t' = t_id t.

(** A step that leaves the owners alone and keeps the tasks and their ids. *)
Definition tasks_only (w w' : World) : Prop :=
  ownerStore w' = ownerStore w /\ ids_kept (taskStore w) (taskStore w').

(** The definition of the sample task t1. *)
Definition t1_definition : TaskSpec :=
  Definition_ (sample_config (VStr "t1") (fn_const (VNum 7)) None false) None.

(** A new owner; t1 added, handed out by [getNext(true)] and reported by
    [completed(t1, false)]. *)
Definition world_new_owner : World :=
  snd (new_Owner (VStr "A") (VObj []) initial_world).

Definition world_t1_completed : World :=
  snd (Owner_completed 0%nat 0%nat false
         (snd (Owner_getNext 0%nat (VBool true)
                 (snd (Owner_add 0%nat t1_definition world_new_owner))))).

(** [register("A", O)] and [addTask(A, t1)]: the dispatcher has taken t1 from
    the owner and deferred its execution. *)
Definition world_t1_scheduled : World :=
  snd ((o ← TaskManager_register (VStr "A") (VObj []);
        TaskManager_addTask o (OneTask t1_definition)) initial_world).

(** The same after the host has run the deferred execution of t1. *)
Definition world_t1_ran : World := turn world_t1_scheduled.

(** ** Iterating with an each-iterator (claims C1 and C2) *)

(** An each-iterator over an array or over a plain object with its keys. *)
Definition each_iterator (itr : Iterator) : Prop :=
  (itr_kind itr = EachArray /\ exists elems extra, itr_list itr = VArr elems extra)
  \/ (itr_kind itr = EachDictionary
      /\ exists props keys, itr_list itr = VObj props /\ itr_keys itr = Some keys).

(** The arguments an each-iterator passes to the task function at [idx]. *)
Definition iterator_args (itr : Iterator) (idx : Z) : list value :=
  match itr_kind itr with
  | EachArray =>
      [default VUndefined (get_prop (itr_list itr) (VNum idx)); VNum idx;
       itr_list itr]
  | _ =>
      let key := key_at (default [] (itr_keys itr)) idx in
      [default VUndefined (get_prop (itr_list itr) key); key; itr_list itr]
  end.

(** The calls at the [n] indices from [from] on. *)
Definition iterator_calls (this : ref) (itr : Iterator) (from : Z) (n : nat)
  : list (ref * list value) :=
  (fun k => (this, iterator_args itr (from + Z.of_nat k))) <$> seq 0 n.

(** The task of the closure [c] is ACTIVE in the middle of its iteration:
    its cursor is [idx], its iterator is [itr], its function [f], its result
    [res], and the globals hold [c]. *)
Definition iterating (c : IterClosure) (f : JsFun) (itr : Iterator)
                     (res : value) (idx : Z) (w : World) : Prop :=
  global_iterate w = Some c
  /\ exists t it,
       taskStore w !! ic_me c = Some t
       /\ t_state t = Some ACTIVE /\ t_fn t = Some f /\ t_result t = res
       /\ t_iteration t = Some it
       /\ it_iterator it = Some itr /\ it_currentIteration it = idx.

(** The task of [c] is COMPLETE, its cursor at the length, its result
    [res]. *)
Definition iteration_complete (c : IterClosure) (res : value) (w : World) : Prop :=
  exists t it,
    taskStore w !! ic_me c = Some t
    /\ t_state t = Some COMPLETE /\ t_result t = res
    /\ t_iteration t = Some it /\ it_currentIteration it = ic_length c.

(** The length [execute] computes for a collection. *)
Definition collection_length (lst : value) : Z :=
  match lst with
  | VArr elems _ => Z.of_nat (length elems)
  | _ => Z.of_nat (length (default [] (Object_keys lst)))
  end.

(** The iterator [execute] makes for a task whose [type] is [undefined]. *)
Definition iterator_of (t : TaskObj) (it : IterationFields) (o : OwnerObj)
  : Iterator :=
  choose_iterator VUndefined (isArray (it_list it))
    (js_or (t_context t) (o_origin o)) (it_list it)
    (if isArray (it_list it) then it_keys it else Object_keys (it_list it)).

(** A fresh owner with one pending iteration task t2: list [1, 2, 3],
    [type: "map"], [step: 2], [fn: x => x * 2]. *)
Definition world_iteration_pending : World :=
  snd (Owner_add 0%nat
         (Definition_ (sample_config (VStr "t2") fn_double None false)
                      (Some (mkIterate
                               (Some (VArr [VNum 1; VNum 2; VNum 3] []))
                               (Some (VStr "map"))
                               (Some (VNum 2)))))
         world_new_owner).

(** ** The registry of owners *)

(** What a step leaves alone when it does not register, unregister or
    activate an owner. *)
Definition same_registry (w w' : World) : Prop :=
  _taskOwners (manager w') = _taskOwners (manager w)
  /\ _taskOwnerStack (manager w') = _taskOwnerStack (manager w)
  /\ _activeTaskOwner (manager w') = _activeTaskOwner (manager w)
  /\ _ownerCounter (manager w') = _ownerCounter (manager w).

(** What the manager keeps of its registry: the owner stack lists the
    registered ids, each once; the active owner is the top of the stack (none
    when the stack is empty); every registered id was made from a value the
    counter has passed. *)
Definition registry_inv (m : Manager) : Prop :=
  NoDup (_taskOwnerStack m)
  /\ (forall id, id ∈ _taskOwnerStack m <-> is_Some (_taskOwners m !! id))
  /\ _activeTaskOwner m = last (_taskOwnerStack m)
  /\ (forall id, is_Some (_taskOwners m !! id) ->
        exists k, id = "o" +:+ pretty k /\ k < _ownerCounter m).

(** The calls a program makes on the manager, and the host running the
    oldest deferred call. *)
Inductive api_call : Type :=
| CallRegister (name owner : value)
| CallUnregister (ownerId : string)
| CallActivate (ownerId : string)
| CallAddTask (ownerId : string) (task : TaskArg)
| CallRequireTask (ownerId : string) (taskId : value) (options : Options)
| CallCheck (activeOwnerId : option string)
| HostTurn.

Definition run_call (c : api_call) (w : World) : World :=
  match c with
  | CallRegister name owner => snd (TaskManager_register name owner w)
  | CallUnregister ownerId => snd (TaskManager_unregister ownerId w)
  | CallActivate ownerId => snd (TaskManager_activate ownerId w)
  | CallAddTask ownerId task => snd (TaskManager_addTask ownerId task w)
  | CallRequireTask ownerId taskId options =>
      snd (TaskManager_requireTask ownerId taskId options w)
  | CallCheck activeOwnerId => snd (TaskManager_check activeOwnerId w)
  | HostTurn => turn w
  end.

(** A session: calls and turns in any order, from the state the modules are
    loaded in. *)
Definition run_calls (cs : list api_call) (w : World) : World :=
  fold_left (fun w c => run_call c w) cs w.

(** A step that keeps the registry invariant. *)
Definition keeps_registry (w w' : World) : Prop :=
  registry_inv (manager w) -> registry_inv (manager w').

(** What the methods of an owner and the constructors of tasks leave alone:
    the manager's variables, the timer queue and the implicit globals. *)
Definition calm (w w' : World) : Prop :=
  manager w' = manager w /\ timers w' = timers w
  /\ global_iterate w' = global_iterate w.


(** The call of a task's own callback, when it has one. *)
Definition callback_events (task : ref) (t : TaskObj) : list Event :=
  match t_callback t with
  | Some cb => [EvTaskCallback task cb (t_result t)]
  | None => []
  end.

(** A plain task after its run: COMPLETE, with the value of its function. *)
Definition ran (t : TaskObj) (oo : OwnerObj) : TaskObj :=
  set_t_state (Some COMPLETE)
    (set_t_result
       (default (fun _ _ => VUndefined) (t_fn t)
          (js_or (t_context t) (o_origin oo)) (default [] (t_arguments t)))
       (set_t_state (Some ACTIVE) t)).

(** ** One owner and its queue of plain tasks *)

(** The manager has one registered owner, which is active, and no priority
    request. *)
Definition sole_owner (a : string) (o : oref) (mg : Manager) : Prop :=
  _priorityStack mg = [] /\ _taskOwnerStack mg = [a]
  /\ _activeTaskOwner mg = Some a /\ _taskOwners mg !! a = Some o.

(** The id [x] is pending under [m] for the task [r], a plain task that is
    PENDING, has a function and is not [activeOnly]. *)
Definition plain_pending (s : gmap ref TaskObj) (m : gmap string ref)
                         (x : value) (r : ref) : Prop :=
  usable_id x /\ m !! ToString x = Some r
  /\ exists t f,
       s !! r = Some t /\ t_id t = x /\ t_iteration t = None
       /\ t_state t = Some PENDING /\ t_fn t = Some f /\ t_activeOnly t = false.

(** The call of the function of the task [r] as the store [s] has it. *)
Definition call_of (s : gmap ref TaskObj) (r : ref) : ref * list value :=
  (r, default [] (s !! r ≫= t_arguments)).

(** One registered owner with the plain tasks t1 and t2 added to it directly,
    nothing dispatched yet. *)
Definition world_two_pending : World :=
  snd ((TaskManager_register (VStr "A") (VObj []);;
        for_each (Owner_add 0%nat)
          [Definition_ (sample_config (VStr "t1") (fn_const (VNum 1)) None false) None;
           Definition_ (sample_config (VStr "t2") (fn_const (VNum 2)) None false) None])
         initial_world).

(** ** The step of an iteration *)

(** The task of the closure [c] has the numeric step [s]. *)
Definition stepping (c : IterClosure) (s : Z) (w : World) : Prop :=
  exists t it,
    taskStore w !! ic_me c = Some t /\ t_iteration t = Some it
    /\ it_step it = VNum s.

(** Two registered owners, B on top and active; the owner A below it has the
    pending task t1, added to it directly. *)
Definition world_two_owners : World :=
  snd ((TaskManager_register (VStr "A") (VObj []);;
        TaskManager_register (VStr "B") (VObj []);;
        Owner_add 0%nat t1_definition) initial_world).

(** ** Ids and references (claim C10) *)

(** A primitive value.  The documentation asks for a String or a Number as
    the id of a task; the claim also speaks of [false] and of no id. *)
Definition primitive (v : value) : Prop :=
  match v with
  | VArr _ _ | VObj _ => False
  | _ => True
  end.

(** The operation adds no definition whose id is an array or an object. *)
Definition primitive_ids (op : owner_op) : Prop :=
  match op with
  | OpAdd (Definition_ config _) => primitive (cfg_id config)
  | _ => True
  end.

(** The operations of a list one after the other, whatever their outcomes. *)
Definition run_ops (this : oref) (ops : list owner_op) (w : World) : World :=
  fold_left (fun w op => snd (run_op this op w)) ops w.

(** The id [v] references a task of a new owner after the operations [ops]:
    [get(v)] answers a task, or [setNext(v)] succeeds. *)
Definition references (ops : list owner_op) (v : value) : Prop :=
  (exists r : ref,
     fst (Owner_get 0%nat v (run_ops 0%nat ops world_new_owner))
     = Normal (Found r))
  \/ fst (Owner_setNext 0%nat v (run_ops 0%nat ops world_new_owner))
     = Normal true.

(** Definitions [{id: 0, fn}] and [{id: [], fn}]. *)
Definition zero_id_definition : TaskSpec :=
  Definition_ (sample_config (VNum 0) (fn_const (VNum 7)) None false) None.

Definition array_id_definition : TaskSpec :=
  Definition_ (sample_config (VArr [] []) (fn_const (VNum 7)) None false) None.

(** A step that leaves every task where it is and keeps its id. *)
Definition same_ids (w w' : World) : Prop :=
  forall r : ref, t_id <$> taskStore w' !! r = t_id <$> taskStore w !! r.

(** No task has an id whose key is the empty string. *)
Definition keyed (w : World) : Prop :=
  forall r t, taskStore w !! r = Some t -> ToString (t_id t) <> "".

(** What an owner keeps when none of its tasks has the empty key: it is
    released, or no task is stored under the empty key and the tasks it refers
    to exist. *)
Definition no_empty_key (this : oref) (w : World) : Prop :=
  keyed w
  /\ exists o,
       ownerStore w !! this = Some o
       /\ (released o
           \/ exists m l cm,
                o_tasks o = Some m /\ o_taskOrder o = Some l
                /\ o_completedTasks o = Some cm
                /\ m !! "" = None /\ cm !! "" = None
                /\ (forall k r, m !! k = Some r -> is_Some (taskStore w !! r))
                /\ (forall r, o_liveTask o = Some r -> is_Some (taskStore w !! r))).

(** * Properties *)

(** ** Reasoning about computations *)

Lemma run_bind {A B : Type} (m : M A) (k : A -> M B) (w : World) :
  (x ← m; k x) w =
  match m w with
  | (Normal a, w') => k a w'
  | (Throw e, w') => (Throw e, w')
  end.
Proof. reflexivity. Qed.

Lemma run_ret {A : Type} (a : A) (w : World) : (mret a : M A) w = (Normal a, w).
Proof. reflexivity. Qed.

Lemma snd_then_value {A B : Type} (m : M A) (b : B) (w : World) :
  snd ((m;; mret b) w) = snd (m w).
Proof. rewrite run_bind. destruct (m w) as [[a | e] w']; reflexivity. Qed.

Lemma getTask_Some (r : ref) (t : TaskObj) (w : World) :
  taskStore w !! r = Some t -> getTask r w = (Normal t, w).
Proof. intros H. unfold getTask, gets. rewrite run_bind. simpl. rewrite H. reflexivity. Qed.

Lemma getOwner_Some (o : oref) (x : OwnerObj) (w : World) :
  ownerStore w !! o = Some x -> getOwner o w = (Normal x, w).
Proof. intros H. unfold getOwner, gets. rewrite run_bind. simpl. rewrite H. reflexivity. Qed.

Lemma updTask_Some (r : ref) (f : TaskObj -> TaskObj) (t : TaskObj) (w : World) :
  taskStore w !! r = Some t ->
  updTask r f w = (Normal tt, set_taskStore (<[r := f t]> (taskStore w)) w).
Proof. intros H. unfold updTask. rewrite run_bind, (getTask_Some _ _ _ H). reflexivity. Qed.

Lemma updOwner_Some (o : oref) (f : OwnerObj -> OwnerObj) (x : OwnerObj) (w : World) :
  ownerStore w !! o = Some x ->
  updOwner o f w = (Normal tt, set_ownerStore (<[o := f x]> (ownerStore w)) w).
Proof. intros H. unfold updOwner. rewrite run_bind, (getOwner_Some _ _ _ H). reflexivity. Qed.

(** ** Task ids *)

Lemma construct_id_cases (this : TaskObj) (config : Config) (counter : Z) :
  (truthy (cfg_id config) = true /\
   t_id (fst (Task_construct this config counter)) = cfg_id config /\
   snd (Task_construct this config counter) = counter) \/
  (truthy (cfg_id config) = false /\
   t_id (fst (Task_construct this config counter)) = VNum counter /\
   snd (Task_construct this config counter) = counter + 1).
Proof.
  unfold Task_construct.
  destruct (truthy (cfg_id config)) eqn:E; [left | right]; simpl; auto.
Qed.

(** The constructor on a falsy [config.id] (0, the empty string, false, or
    none at all): the id is discarded and the task gets the current value of
    [_taskIdCounter], which is then incremented, whatever falsy id was
    supplied.  The counter starts at 0, so the first task built that way has
    the number 0 as its id.  No task ever has the id "", and a task has the id
    0 only when it was generated at counter 0 from a falsy [id]. *)
Lemma Task_construct_falsy_id (this : TaskObj) (config : Config) (counter : Z) :
  truthy (cfg_id config) = false ->
  Forall (fun v => truthy v = false) [VNum 0; VStr ""; VBool false; VUndefined]
  /\ t_id (fst (Task_construct this config counter)) = VNum counter
  /\ snd (Task_construct this config counter) = counter + 1
  /\ Task_construct this config counter
     = Task_construct this (with_id VUndefined config) counter
  /\ _taskIdCounter initial_world = 0
  /\ (exists r w' t,
        new_Task config initial_world = (Normal r, w')
        /\ taskStore w' !! r = Some t
        /\ t_id t = VNum 0
        /\ _taskIdCounter w' = 1)
  /\ (forall this' config' counter',
        t_id (fst (Task_construct this' config' counter')) <> VStr ""
        /\ (t_id (fst (Task_construct this' config' counter')) = VNum 0 ->
            truthy (cfg_id config') = false /\ counter' = 0)).
Proof.
  intros Hf.
  split; [repeat constructor |].
  destruct (construct_id_cases this config counter) as [[Ht _] | [_ [Hid Hc]]];
    [congruence |].
  split; [exact Hid | split; [exact Hc |]].
  split.
  { unfold Task_construct, with_id. simpl. rewrite Hf. reflexivity. }
  split; [reflexivity |].
  split.
  { unfold new_Task, allocTask, gets, modify.
    repeat rewrite run_bind. simpl.
    destruct (Task_construct Task_prototype config 0) as [t c'] eqn:E.
    repeat rewrite run_bind. simpl.
    exists (fresh (dom (∅ : gmap ref TaskObj))), 
      (set_taskStore (<[fresh (dom (∅ : gmap ref TaskObj)) := t]> ∅)
         (set_taskIdCounter c' initial_world)), t.
    split; [reflexivity |].
    split; [simpl; apply lookup_insert_eq |].
    destruct (construct_id_cases Task_prototype config 0)
      as [[Ht _] | [_ [Hid' Hc']]]; [congruence |].
    rewrite E in Hid', Hc'. simpl in *. split; [exact Hid' | exact Hc']. }
  intros this' config' counter'.
  destruct (construct_id_cases this' config' counter')
    as [[Ht [Hid' _]] | [Hnt [Hid' _]]]; rewrite Hid'.
  - split.
    + intros Heq. rewrite Heq in Ht. discriminate.
    + intros Heq. rewrite Heq in Ht. discriminate.
  - split; [discriminate |].
    intros Heq. split; [exact Hnt | congruence].
Qed.

(** ** Frame properties of computations *)

Section Preserves.
Variable R : World -> World -> Prop.
Hypothesis R_refl : forall w, R w w.
Hypothesis R_trans : forall a b c, R a b -> R b c -> R a c.

Lemma preserves_ret {A : Type} (a : A) : preserves R (mret a).
Proof using R_refl. intros w. apply R_refl. Qed.

Lemma preserves_throw {A : Type} (e : Exception) : preserves R (@throw A e).
Proof using R_refl. intros w. apply R_refl. Qed.

Lemma preserves_gets {A : Type} (f : World -> A) : preserves R (gets f).
Proof using R_refl. intros w. apply R_refl. Qed.

Lemma preserves_expect {A : Type} (e : Exception) (o : option A) :
  preserves R (expect e o).
Proof using R_refl. destruct o; intros w; apply R_refl. Qed.

Lemma preserves_modify (f : World -> World) :
  (forall w, R w (f w)) -> preserves R (modify f).
Proof. intros H w. apply H. Qed.

Lemma preserves_bind {A B : Type} (m : M A) (k : A -> M B) :
  preserves R m -> (forall a, preserves R (k a)) -> preserves R (x ← m; k x).
Proof using R_trans.
  intros Hm Hk w. rewrite run_bind.
  specialize (Hm w). destruct (m w) as [[a | e] w']; simpl in *.
  - eapply R_trans; [exact Hm | apply Hk].
  - exact Hm.
Qed.

Lemma preserves_getTask (r : ref) : preserves R (getTask r).
Proof using R_refl R_trans.
  apply preserves_bind; [apply preserves_gets | intros; apply preserves_expect].
Qed.

Lemma preserves_getOwner (o : oref) : preserves R (getOwner o).
Proof using R_refl R_trans.
  apply preserves_bind; [apply preserves_gets | intros; apply preserves_expect].
Qed.

Lemma preserves_getManager : preserves R getManager.
Proof using R_refl. apply preserves_gets. Qed.

Lemma preserves_for_each {A : Type} (f : A -> M unit) (l : list A) :
  (forall x, preserves R (f x)) -> preserves R (for_each f l).
Proof using R_refl R_trans.
  intros Hf. induction l as [| x l IH]; simpl.
  - apply preserves_ret.
  - apply preserves_bind; [apply Hf | intros; exact IH].
Qed.

Lemma preserves_map_each {A B : Type} (f : A -> M B) (l : list A) :
  (forall x, preserves R (f x)) -> preserves R (map_each f l).
Proof using R_refl R_trans.
  intros Hf. induction l as [| x l IH]; simpl.
  - apply preserves_ret.
  - apply preserves_bind; [apply Hf | intros].
    apply preserves_bind; [exact IH | intros; apply preserves_ret].
Qed.
End Preserves.

Lemma fn_calls_app (a b : list Event) :
  fn_calls (a ++ b) = (fn_calls a ++ fn_calls b)%list.
Proof. unfold fn_calls. apply omap_app. Qed.

(** ** Executing twice (claim C7) *)

Lemma quiet_refl (w : World) : quiet w w.
Proof. split; reflexivity. Qed.

Lemma quiet_trans (a b c : World) : quiet a b -> quiet b c -> quiet a c.
Proof. intros [H1 H2] [H3 H4]. split; congruence. Qed.

Lemma quiet_updOwner (o : oref) (f : OwnerObj -> OwnerObj) :
  preserves quiet (updOwner o f).
Proof.
  apply preserves_bind; [exact quiet_trans | |].
  - apply preserves_getOwner; [exact quiet_refl | exact quiet_trans].
  - intros x. apply preserves_modify. intros w. split; reflexivity.
Qed.

Lemma quiet_emit (e : Event) :
  (forall task this args, e <> EvFn task this args) -> preserves quiet (emit e).
Proof.
  intros He. apply preserves_modify. intros w. split; [reflexivity |].
  simpl. rewrite fn_calls_app. destruct e; simpl;
    try (rewrite app_nil_r; reflexivity).
  exfalso. eapply He. reflexivity.
Qed.

Lemma quiet_defer (d : Deferred) : preserves quiet (defer d).
Proof. apply preserves_modify. intros w. split; reflexivity. Qed.

Ltac quiet_side := first [exact quiet_refl | exact quiet_trans].

Ltac quiet_tac :=
  repeat first
    [ apply quiet_updOwner
    | apply quiet_defer
    | apply quiet_emit; discriminate
    | apply preserves_ret; quiet_side
    | apply preserves_throw; quiet_side
    | apply preserves_gets; quiet_side
    | apply preserves_expect; quiet_side
    | apply preserves_getTask; quiet_side
    | apply preserves_getOwner; quiet_side
    | apply preserves_getManager; quiet_side
    | apply preserves_bind; [quiet_side | | intros ]
    | match goal with
      | |- preserves _ (match ?x with _ => _ end) => destruct x
      | |- preserves _ (if ?x then _ else _) => destruct x
      end ].

Lemma quiet_removeTask (owner : oref) (taskId : value) :
  preserves quiet (_removeTask owner taskId).
Proof. unfold _removeTask. quiet_tac. Qed.

Lemma quiet_Owner_completed (this : oref) (task : ref) (manualOverride : bool) :
  preserves quiet (Owner_completed this task manualOverride).
Proof.
  unfold Owner_completed. quiet_tac.
Qed.

Lemma quiet_call_task_callback (this : ref) :
  preserves quiet (call_task_callback this).
Proof. unfold call_task_callback. quiet_tac. Qed.

Lemma quiet_call_next (next : Continuation) (result : value) :
  preserves quiet (call_next next result).
Proof. unfold call_next. quiet_tac. Qed.

Lemma state_eq_spec (a b : option TaskState) : state_eq a b = true <-> a = b.
Proof. unfold state_eq. apply bool_decide_eq_true. Qed.

Lemma execute_guard (w : World) (task : ref) (owner : oref) (next : Continuation)
      (manualOverride : bool) (t : TaskObj) (o : OwnerObj) :
  taskStore w !! task = Some t ->
  ownerStore w !! owner = Some o ->
  t_state t = Some ACTIVE \/ t_state t = Some COMPLETE ->
  execute task owner next manualOverride w = (Normal (t_result t), w).
Proof.
  intros Ht Ho Hs.
  assert (Hg : state_eq (t_state t) (statics_state "ACTIVE")
               || state_eq (t_state t) (statics_state "COMPLETE") = true).
  { destruct Hs as [-> | ->]; reflexivity. }
  unfold execute. rewrite run_bind, (getTask_Some _ _ _ Ht).
  destruct (t_iteration t) as [it |] eqn:Hit.
  - unfold IterationTask_execute, getIteration.
    rewrite run_bind, (getTask_Some _ _ _ Ht).
    rewrite run_bind, run_bind, (getTask_Some _ _ _ Ht), Hit. simpl.
    rewrite run_bind, (getOwner_Some _ _ _ Ho).
    rewrite Hg. reflexivity.
  - unfold Task_execute.
    rewrite run_bind, (getTask_Some _ _ _ Ht), Hg. reflexivity.
Qed.

(** The rest of [Task.execute] once the task is COMPLETE. *)
Lemma Task_execute_pending (w : World) (task : ref) (owner : oref)
      (next : Continuation) (manualOverride : bool) (t : TaskObj)
      (o : OwnerObj) (f : JsFun) :
  taskStore w !! task = Some t ->
  ownerStore w !! owner = Some o ->
  t_iteration t = None ->
  t_state t = Some PENDING ->
  t_fn t = Some f ->
  let context := js_or (t_context t) (o_origin o) in
  let args := default [] (t_arguments t) in
  let t' := set_t_state (Some COMPLETE)
              (set_t_result (f context args) (set_t_state (Some ACTIVE) t)) in
  exists w4,
    taskStore w4 = <[task := t']> (taskStore w)
    /\ trace w4 = (trace w ++ [EvFn task context args])%list
    /\ quiet w4 (snd (execute task owner next manualOverride w)).
Proof.
  intros Ht Ho Hit Hs Hf context args t'.
  unfold execute. rewrite run_bind, (getTask_Some _ _ _ Ht), Hit.
  unfold Task_execute.
  rewrite run_bind, (getTask_Some _ _ _ Ht), Hs.
  change (state_eq (Some PENDING) (statics_state "ACTIVE")
          || state_eq (Some PENDING) (statics_state "COMPLETE")) with false.
  cbv iota.
  rewrite run_bind, (updTask_Some _ _ _ _ Ht).
  rewrite Hf. cbn [expect]. rewrite run_bind, run_ret.
  set (w1 := set_taskStore _ w).
  rewrite run_bind, (getOwner_Some owner o w1 Ho).
  fold context args.
  rewrite run_bind. unfold emit at 1, modify at 1.
  set (w2 := set_trace _ w1).
  assert (H2 : taskStore w2 !! task = Some (set_t_state (Some ACTIVE) t)).
  { simpl. apply lookup_insert_eq. }
  rewrite run_bind, (updTask_Some _ _ _ _ H2).
  set (w3 := set_taskStore _ w2).
  assert (H3 : taskStore w3 !! task
               = Some (set_t_result (f context args) (set_t_state (Some ACTIVE) t))).
  { simpl. apply lookup_insert_eq. }
  rewrite run_bind, (updTask_Some _ _ _ _ H3).
  set (w4 := set_taskStore _ w3).
  exists w4. split; [| split].
  - subst w4 w3 w2 w1. simpl. rewrite !insert_insert_eq. reflexivity.
  - reflexivity.
  - match goal with
    | |- quiet _ (snd (?m w4)) => change (quiet w4 (snd (m w4)));
        assert (Hq : preserves quiet m); [| apply Hq]
    end.
    repeat first
      [ apply quiet_Owner_completed
      | apply quiet_call_task_callback
      | apply quiet_call_next
      | quiet_tac ].
Qed.

(** C7.  [execute] on a task that is ACTIVE or COMPLETE changes nothing at
    all (no state transition, no call of the task function, no notification
    of the owner, no callback, no continuation, nothing deferred) and returns
    the stored result; this holds for [Task.execute] and for
    [IterationTask.execute].  A pending plain task runs its function exactly
    once on the way to COMPLETE, and any further [execute] is such a no-op
    returning that result. *)
Theorem execute_idempotent (w : World) (task : ref) (owner : oref)
        (next : Continuation) (manualOverride : bool) (t : TaskObj)
        (o : OwnerObj) :
  taskStore w !! task = Some t ->
  ownerStore w !! owner = Some o ->
  (t_state t = Some ACTIVE \/ t_state t = Some COMPLETE ->
   execute task owner next manualOverride w = (Normal (t_result t), w))
  /\
  (forall f,
     t_iteration t = None -> t_state t = Some PENDING -> t_fn t = Some f ->
     let w' := snd (execute task owner next manualOverride w) in
     let args := default [] (t_arguments t) in
     let r := f (js_or (t_context t) (o_origin o)) args in
     fn_calls (trace w') = (fn_calls (trace w) ++ [(task, args)])%list
     /\ (exists t', taskStore w' !! task = Some t'
                    /\ t_state t' = Some COMPLETE /\ t_result t' = r)
     /\ (forall next' manualOverride',
           execute task owner next' manualOverride' w' = (Normal r, w'))).
Proof.
  intros Ht Ho. split.
  - apply (execute_guard w task owner next manualOverride t o Ht Ho).
  - intros f Hit Hs Hf w' args r.
    destruct (Task_execute_pending w task owner next manualOverride t o f
                Ht Ho Hit Hs Hf) as (w4 & Hstore & Htrace & Hquiet).
    fold w' in Hquiet. destruct Hquiet as [Hq1 Hq2].
    assert (Hlook : taskStore w' !! task
                    = Some (set_t_state (Some COMPLETE)
                              (set_t_result r (set_t_state (Some ACTIVE) t)))).
    { rewrite Hq1, Hstore. apply lookup_insert_eq. }
    split; [| split].
    + rewrite Hq2, Htrace, fn_calls_app. reflexivity.
    + eexists. split; [exact Hlook |]. split; reflexivity.
    + intros next' manualOverride'.
      unfold execute. rewrite run_bind, (getTask_Some _ _ _ Hlook).
      simpl. rewrite Hit. unfold Task_execute.
      rewrite run_bind, (getTask_Some _ _ _ Hlook). reflexivity.
Qed.

(** The theorem at the sample task t1: pending in [world_one_task], complete
    in [world_one_task_done]. *)
Lemma execute_idempotent_witness :
  fn_calls (trace (snd (execute 0%nat 0%nat (KExecuteTask 0%nat false) false
                          world_one_task)))
  = [(0%nat, [])]
  /\ execute 0%nat 0%nat (KExecuteTask 0%nat true) true world_one_task_done
     = (Normal (VNum 7), world_one_task_done).
Proof.
  split.
  - refine (proj1 (proj2 (execute_idempotent world_one_task 0%nat 0%nat
                            (KExecuteTask 0%nat false) false
                            (default Task_prototype
                               (taskStore world_one_task !! 0%nat))
                            (default (mkOwner "" VNull VNull None None None None)
                               (ownerStore world_one_task !! 0%nat))
                            _ _)
                     (fn_const (VNum 7)) _ _ _)).
    all: vm_compute; reflexivity.
  - refine (proj1 (execute_idempotent world_one_task_done 0%nat 0%nat
                     (KExecuteTask 0%nat true) true
                     (default Task_prototype
                        (taskStore world_one_task_done !! 0%nat))
                     (default (mkOwner "" VNull VNull None None None None)
                        (ownerStore world_one_task_done !! 0%nat))
                     _ _) _).
    all: vm_compute; auto.
Defined.

(** ** Callbacks of plain tasks (claim C5) *)

Lemma Task_construct_callback (this : TaskObj) (config : Config) (counter : Z) :
  t_callback (fst (Task_construct this config counter)) = t_callback this.
Proof.
  unfold Task_construct. destruct (truthy (cfg_id config)); reflexivity.
Qed.

(** A task built by [new Task(config)] has no callback, whatever [config]
    supplies. *)
Lemma new_Task_callback (config : Config) (w : World) :
  exists r w' t,
    new_Task config w = (Normal r, w')
    /\ taskStore w' !! r = Some t
    /\ t_callback t = None.
Proof.
  unfold new_Task, allocTask, gets, modify. repeat rewrite run_bind.
  pose proof (Task_construct_callback Task_prototype config (_taskIdCounter w)) as Hc.
  destruct (Task_construct Task_prototype config (_taskIdCounter w)) as [t c'].
  repeat rewrite run_bind. simpl.
  eexists _, _, t. split; [reflexivity |]. split.
  - simpl. apply lookup_insert_eq.
  - exact Hc.
Qed.

(** C5, on the code.  The task t1 is defined with a callback.  The task built
    from the definition has none, and executing it to completion calls the
    task function, notifies the owner and calls the continuation: no callback
    is called in between. *)
Theorem callback_of_definition_not_called :
  cfg_callback (sample_config (VStr "t1") (fn_const (VNum 7)) (Some 1%nat) false)
  = Some 1%nat
  /\ (t_callback <$> taskStore world_callback_task !! 0%nat) = Some None
  /\ timers world_callback_task = [DExecuteTask 0%nat 0%nat]
  /\ (t_state <$> taskStore (turn world_callback_task) !! 0%nat)
     = Some (Some COMPLETE)
  /\ trace (turn world_callback_task)
     = [EvFn 0%nat (VObj []) [];
        EvOwnerCompleted 0%nat 0%nat false;
        EvNext 0%nat (VNum 7)].
Proof. vm_compute. repeat split; reflexivity. Qed.

(** ** Destroying an owner (claim C8) *)

Lemma statics_state_CANCEL : statics_state "CANCEL" = None.
Proof. reflexivity. Qed.

Lemma statics_state_CANCELLED : statics_state "CANCELLED" = Some CANCELLED.
Proof. reflexivity. Qed.

Lemma Task_destroy_state (t : TaskObj) :
  t_state (Task_destroy t)
  = if state_eq (t_state t) (Some COMPLETE) then Some COMPLETE else None.
Proof.
  unfold Task_destroy.
  change (statics_state "COMPLETE") with (Some COMPLETE).
  change (statics_state "CANCEL") with (@None TaskState).
  destruct (state_eq (t_state t) (Some COMPLETE)) eqn:E; simpl.
  - apply state_eq_spec in E. exact E.
  - reflexivity.
Qed.

Lemma Task_destroy_idempotent (t : TaskObj) :
  Task_destroy (Task_destroy t) = Task_destroy t.
Proof.
  unfold Task_destroy.
  change (statics_state "COMPLETE") with (Some COMPLETE).
  change (statics_state "CANCEL") with (@None TaskState).
  destruct (state_eq (t_state t) (Some COMPLETE)) eqn:E; simpl.
  - rewrite E. reflexivity.
  - reflexivity.
Qed.

(** C8, on the code.  The owner has the live task t1 and the pending tasks t2
    and t3, all PENDING.  [unregister] calls the owner's [destroy], which
    reaches the three of them (their function is released) and releases the
    owner's collections; the state it leaves in each task is [undefined], the
    value of the constant [state.CANCEL] that the table does not declare, and
    not CANCELLED. *)
Theorem destroy_leaves_state_undefined :
  let w := world_three_tasks in
  let w' := snd (TaskManager_unregister "o1" w) in
  _taskOwners (manager w) !! "o1" = Some 0%nat
  /\ (o_liveTask <$> ownerStore w !! 0%nat) = Some (Some 0%nat)
  /\ (o_taskOrder <$> ownerStore w !! 0%nat) = Some (Some [VStr "t2"; VStr "t3"])
  /\ List.map (fun r => t_state <$> taskStore w !! r) [0; 1; 2]%nat
     = [Some (Some PENDING); Some (Some PENDING); Some (Some PENDING)]
  /\ List.map (fun r => t_state <$> taskStore w' !! r) [0; 1; 2]%nat
     = [Some None; Some None; Some None]
  /\ Forall (fun r => (t_fn <$> taskStore w' !! r) = Some None) [0; 1; 2]%nat
  /\ Forall (fun r => (t_state <$> taskStore w' !! r) <> Some (Some CANCELLED))
            [0; 1; 2]%nat
  /\ (o_tasks <$> ownerStore w' !! 0%nat) = Some None
  /\ (o_taskOrder <$> ownerStore w' !! 0%nat) = Some None
  /\ (o_completedTasks <$> ownerStore w' !! 0%nat) = Some None.
Proof.
  vm_compute. repeat split; try reflexivity.
  - repeat constructor.
  - repeat constructor; discriminate.
Qed.

(** ** Iteration tasks (claims C1 and C2) *)

(** [construct] stores the configured type in [iterationType]; the property
    [type], which [execute] reads, stays [undefined]. *)
Lemma IterationTask_construct_type (config : Config) (counter : Z) :
  (it_type <$> t_iteration
     (fst (IterationTask_construct IterationTask_prototype config counter)))
  = Some VUndefined
  /\ (it_iterationType <$> t_iteration
        (fst (IterationTask_construct IterationTask_prototype config counter)))
     = Some (js_or (cfg_type config) (VStr "each")).
Proof.
  unfold IterationTask_construct, Task_construct. simpl.
  destruct (truthy (cfg_id config)); simpl; split; reflexivity.
Qed.

(** With [type] undefined, [execute] picks an each-iterator. *)
Lemma choose_iterator_undefined (isArr : bool) (context lst : value)
      (keys : option (list string)) :
  itr_kind (choose_iterator VUndefined isArr context lst keys)
  = if isArr then EachArray else EachDictionary.
Proof. destruct isArr; reflexivity. Qed.

(** C1, on the code.  In the scenario of the specification the iteration
    task t2 ([type: "map"], list [1, 2, 3], [fn: x => x * 2]) runs to
    completion, is COMPLETE and has the result [null]: no result was
    allocated and none was stored; it is not [2, 4, 6]. *)
Theorem map_task_result_is_null :
  let w := turns 6 world_map_scenario in
  timers w = []
  /\ (t_id <$> taskStore w !! 1%nat) = Some (VStr "t2")
  /\ (t_iteration (default Task_prototype (taskStore w !! 1%nat))
        ≫= fun it => Some (it_iterationType it, it_type it))
     = Some (VStr "map", VUndefined)
  /\ (t_state <$> taskStore w !! 1%nat) = Some (Some COMPLETE)
  /\ (t_result <$> taskStore w !! 1%nat) = Some VNull
  /\ (t_result <$> taskStore w !! 1%nat)
     <> Some (VArr [VNum 2; VNum 4; VNum 6] []).
Proof. vm_compute. repeat split; try reflexivity. discriminate. Qed.

(** C2, on the code.  The same task, over a list of length 3, applies its
    function four times before it is COMPLETE: first to the element at index
    -1, which is [undefined], then to the elements at 0, 1 and 2.
    [currentIteration] is 3, the length, at completion. *)
Theorem iteration_applies_fn_at_minus_one :
  let w := turns 6 world_map_scenario in
  let l := VArr [VNum 1; VNum 2; VNum 3] [] in
  timers w = []
  /\ (t_state <$> taskStore w !! 1%nat) = Some (Some COMPLETE)
  /\ (t_iteration (default Task_prototype (taskStore w !! 1%nat))
        ≫= fun it => Some (it_currentIteration it)) = Some 3
  /\ filter (fun c => fst c = 1%nat) (fn_calls (trace w))
     = [(1%nat, [VUndefined; VNum (-1); l]);
        (1%nat, [VNum 1; VNum 0; l]);
        (1%nat, [VNum 2; VNum 1; l]);
        (1%nat, [VNum 3; VNum 2; l])]
  /\ length (filter (fun c => fst c = 1%nat) (fn_calls (trace w))) = 4%nat.
Proof. vm_compute. repeat split; reflexivity. Qed.

(** ** Dispatching from the owner stack (claim C3) *)

(** [getNext] called with a true [isActive] pops the head of [taskOrder],
    whatever its [activeOnly]. *)
Lemma getNext_active_pops_head (w : World) (this : oref) (o : OwnerObj)
      (first : value) (others : list value) (tasks : gmap string ref) :
  ownerStore w !! this = Some o ->
  o_taskOrder o = Some (first :: others) ->
  o_tasks o = Some tasks ->
  (tasks !! ToString first = None -> inherited (ToString first) = false) ->
  exists w',
    Owner_getNext this (VBool true) w = (Normal (tasks !! ToString first), w')
    /\ (o_taskOrder <$> ownerStore w' !! this) = Some (Some others)
    /\ (o_liveTask <$> ownerStore w' !! this) = Some (tasks !! ToString first).
Proof.
  intros Ho Hord Htasks Hinh. unfold Owner_getNext.
  rewrite run_bind, (getOwner_Some _ _ _ Ho), Hord. cbn [expect].
  rewrite run_bind, run_ret. cbn [truthy]. cbv iota.
  rewrite run_bind, run_ret.
  rewrite run_bind, (updOwner_Some _ _ _ _ Ho).
  rewrite Htasks. cbn [expect]. rewrite run_bind, run_ret.
  set (w1 := set_ownerStore _ w).
  assert (H1 : ownerStore w1 !! this = Some (set_o_taskOrder (Some others) o)).
  { simpl. apply lookup_insert_eq. }
  rewrite run_bind, (updOwner_Some _ _ _ _ H1).
  set (w2 := set_ownerStore _ w1).
  assert (H2 : ownerStore w2 !! this
               = Some (set_o_tasks (Some (delete (ToString first) tasks))
                         (set_o_taskOrder (Some others) o))).
  { simpl. apply lookup_insert_eq. }
  rewrite run_bind.
  assert (Hg : (match tasks !! ToString first with
                | None => if inherited (ToString first) then throw Stuck else mret tt
                | Some _ => mret tt
                end : M unit) w2 = (Normal tt, w2)).
  { destruct (tasks !! ToString first); [reflexivity |].
    rewrite (Hinh eq_refl). reflexivity. }
  rewrite Hg.
  rewrite run_bind, (updOwner_Some _ _ _ _ H2).
  rewrite run_ret.
  eexists. split; [reflexivity |].
  simpl. rewrite lookup_insert_eq. simpl. split; reflexivity.
Qed.

(** C3, on the code.  Owner A is the only owner, so it is the top of the
    stack and active; its [taskOrder] is t1, t2 and t1 is [activeOnly].  The
    dispatcher calls [getNext()] without an argument: it skips t1 and hands
    out t2.  After t2 the next pass finds nothing to run and stops, with t1
    still PENDING at the head of [taskOrder]. *)
Theorem active_owner_activeOnly_task_skipped :
  let w := world_activeOnly_first in
  let w' := turns 2 w in
  _taskOwnerStack (manager w) = ["o1"]
  /\ _activeTaskOwner (manager w) = Some "o1"
  /\ (t_activeOnly <$> taskStore w !! 0%nat) = Some true
  /\ timers w = [DExecuteTask 1%nat 0%nat]
  /\ (o_taskOrder <$> ownerStore w !! 0%nat) = Some (Some [VStr "t1"])
  /\ timers w' = [] /\ _running (manager w') = false
  /\ fn_calls (trace w') = [(1%nat, [])]
  /\ (t_state <$> taskStore w' !! 0%nat) = Some (Some PENDING)
  /\ (o_taskOrder <$> ownerStore w' !! 0%nat) = Some (Some [VStr "t1"]).
Proof. vm_compute. repeat split; reflexivity. Qed.

(** ** Priority requests (claim C4) *)

(** C4, on the code.  Two priority requests are queued, for a and for c of
    owner A; then owner B gets the task b.  The pass after a finds the first
    request exhausted, removes it, and goes on to the owner stack although the
    request for c is still queued: it schedules b.  The functions run in the
    order a, b, c. *)
Theorem owner_task_runs_before_queued_request :
  let w := world_two_requests in
  List.map rq_taskIds (_priorityStack (manager w)) = [[VStr "a"]; [VStr "c"]]
  /\ List.map (fun r => t_id <$> taskStore w !! r) [0; 1; 2]%nat
     = [Some (VStr "a"); Some (VStr "c"); Some (VStr "b")]
  /\ timers (turns 2 w) = [DExecuteTask 2%nat 1%nat]
  /\ List.map rq_taskIds (_priorityStack (manager (turns 2 w))) = [[VStr "c"]]
  /\ (t_state <$> taskStore (turns 3 w) !! 2%nat) = Some (Some COMPLETE)
  /\ (t_state <$> taskStore (turns 3 w) !! 1%nat) = Some (Some PENDING)
  /\ List.map rq_taskIds (_priorityStack (manager (turns 3 w))) = [[VStr "c"]]
  /\ List.map fst (fn_calls (trace (turns 6 w))) = [0; 2; 1]%nat.
Proof. vm_compute. repeat split; reflexivity. Qed.

(** ** Immediate requests (claim C6) *)

(** An immediate [requireTask] never returns normally. *)
Lemma requireTask_immediate_throws (ownerId : string) (taskId : value)
      (callback : option Callback) (passResults : bool) (w : World) :
  exists e,
    fst (TaskManager_requireTask ownerId taskId
           (mkOptions true callback passResults) w) = Throw e.
Proof.
  unfold TaskManager_requireTask. simpl. rewrite run_bind.
  destruct (map_each _ _ w) as [[l | e] w']; simpl; eauto.
Qed.

(** C6, on the code.  Owner A was given t1, t2 and t3; t1 is scheduled, t2
    and t3 are pending.  [requireTask(A, ["t2", "t3"], {immediate: true,
    callback: cb, passResults: true})] executes t2 and t3 inline, in order,
    and then throws a ReferenceError for the variable [option]: the callback
    is not called. *)
Theorem immediate_request_throws_before_callback :
  let w := world_three_tasks in
  let run := TaskManager_requireTask "o1" (VArr [VStr "t2"; VStr "t3"] [])
               (mkOptions true (Some 9%nat) true) w in
  (o_taskOrder <$> ownerStore w !! 0%nat) = Some (Some [VStr "t2"; VStr "t3"])
  /\ trace w = []
  /\ fst run = Throw (ReferenceError "option")
  /\ trace (snd run)
     = [EvFn 1%nat (VObj []) []; EvOwnerCompleted 0%nat 1%nat true;
        EvNext 1%nat (VNum 2);
        EvFn 2%nat (VObj []) []; EvOwnerCompleted 0%nat 2%nat true;
        EvNext 2%nat (VNum 3)]
  /\ List.map (fun r => t_state <$> taskStore (snd run) !! r) [1; 2]%nat
     = [Some (Some COMPLETE); Some (Some COMPLETE)].
Proof. vm_compute. repeat split; reflexivity. Qed.

(** ** The owner's sets (claim C9) *)

Lemma updOwner_put (this : oref) (f : OwnerObj -> OwnerObj) (o : OwnerObj)
      (w : World) :
  ownerStore w !! this = Some o ->
  updOwner this f w = (Normal tt, put_owner this (f o) w).
Proof. apply updOwner_Some. Qed.

Lemma put_owner_twice (this : oref) (o1 o2 : OwnerObj) (w : World) :
  put_owner this o2 (put_owner this o1 w) = put_owner this o2 w.
Proof. unfold put_owner. simpl. rewrite insert_insert_eq. reflexivity. Qed.

Lemma put_owner_lookup (this : oref) (o : OwnerObj) (w : World) :
  ownerStore (put_owner this o w) !! this = Some o.
Proof. unfold put_owner. simpl. apply lookup_insert_eq. Qed.

Lemma emit_run (e : Event) (w : World) : emit e w = (Normal tt, put_event e w).
Proof. reflexivity. Qed.

(** Symbolic execution of one monadic step. *)
Ltac lookup_now :=
  first [ eassumption | apply put_owner_lookup | apply lookup_insert_eq ].

Ltac mstep :=
  first
    [ rewrite run_bind
    | rewrite run_ret
    | erewrite getOwner_Some by lookup_now
    | erewrite updOwner_put by lookup_now
    | erewrite getTask_Some by lookup_now
    | rewrite put_owner_twice
    | rewrite emit_run
    | progress cbn [expect throw negb andb orb]
    | progress cbv beta iota ].

Ltac mrun := repeat mstep.

Lemma strict_eq_eq (a b : value) : strict_eq a b = true -> a = b.
Proof.
  destruct a, b; simpl; try discriminate; intros H; try reflexivity.
  - apply Bool.eqb_prop in H. congruence.
  - apply Z.eqb_eq in H. congruence.
  - apply String.eqb_eq in H. congruence.
Qed.

Lemma remove_first_Some (taskId : value) (l l' : list value) :
  remove_first taskId l = Some l' ->
  exists l1 l2, l = (l1 ++ taskId :: l2)%list /\ l' = (l1 ++ l2)%list.
Proof.
  revert l'. induction l as [| x l IH]; intros l'; simpl; [discriminate |].
  destruct (strict_eq x taskId) eqn:E.
  - intros [= <-]. apply strict_eq_eq in E. subst x.
    exists [], l. split; reflexivity.
  - destruct (remove_first taskId l) as [l0 |]; simpl; [| discriminate].
    intros [= <-]. destruct (IH l0 eq_refl) as (l1 & l2 & -> & ->).
    exists (x :: l1), l2. split; reflexivity.
Qed.

Lemma remove_first_None (taskId : value) (l : list value) :
  remove_first taskId l = None -> strict_eq taskId taskId = true -> taskId ∉ l.
Proof.
  induction l as [| x l IH]; simpl; intros H Hs.
  - apply not_elem_of_nil.
  - destruct (strict_eq x taskId) eqn:E; [discriminate |].
    destruct (remove_first taskId l); [discriminate |].
    apply not_elem_of_cons. split; [| apply IH; auto].
    intros ->. congruence.
Qed.

Lemma removeTask_run (this : oref) (taskId : value) (w : World) (o : OwnerObj)
      (m : gmap string ref) (l : list value) :
  ownerStore w !! this = Some o ->
  o_tasks o = Some m -> o_taskOrder o = Some l ->
  _removeTask this taskId w
  = match remove_first taskId l with
    | None => (Normal false, w)
    | Some l' =>
        (Normal true,
         put_owner this
           (set_o_tasks (Some (delete (ToString taskId) m))
              (set_o_taskOrder (Some l') o)) w)
    end.
Proof.
  intros Ho Hm Hl. unfold _removeTask. mrun. rewrite Hl. mrun.
  destruct (remove_first taskId l) as [l' |]; mrun; [| reflexivity].
  rewrite Hm. mrun. reflexivity.
Qed.

Lemma setNext_run (this : oref) (taskId : value) (w : World) (o : OwnerObj)
      (m : gmap string ref) (l : list value) :
  ownerStore w !! this = Some o ->
  o_tasks o = Some m -> o_taskOrder o = Some l ->
  Owner_setNext this taskId w
  = match m !! ToString taskId with
    | Some task =>
        match remove_first taskId l with
        | Some l' =>
            (Normal true,
             put_owner this
               (set_o_liveTask (Some task)
                  (set_o_tasks (Some (delete (ToString taskId) m))
                     (set_o_taskOrder (Some l') o))) w)
        | None => (Normal false, w)
        end
    | None =>
        if inherited (ToString taskId)
        then match remove_first taskId l with
             | Some l' =>
                 (Throw Stuck,
                  put_owner this
                    (set_o_tasks (Some (delete (ToString taskId) m))
                       (set_o_taskOrder (Some l') o)) w)
             | None => (Normal false, w)
             end
        else (Normal false, w)
    end.
Proof.
  intros Ho Hm Hl. unfold Owner_setNext. mrun. rewrite Hm. mrun.
  destruct (m !! ToString taskId) as [task |]; mrun.
  - rewrite (removeTask_run this taskId w o m l Ho Hm Hl).
    destruct (remove_first taskId l) as [l' |]; mrun; reflexivity.
  - destruct (inherited (ToString taskId)); [| reflexivity].
    mrun. rewrite (removeTask_run this taskId w o m l Ho Hm Hl).
    destruct (remove_first taskId l) as [l' |]; mrun; reflexivity.
Qed.


Lemma getNext_scan_run (m : gmap string ref) (rest before : list value) (w : World) :
  exists out,
    getNext_scan m before rest w = (out, w)
    /\ forall tid l',
         out = Normal (Some (tid, l')) ->
         exists l1 x l2,
           rest = (l1 ++ x :: l2)%list /\ tid = VArr [x] []
           /\ l' = (before ++ l1 ++ l2)%list.
Proof.
  revert before. induction rest as [| x rest IH]; intros before; simpl.
  - eexists. split; [reflexivity |]. intros tid l' [=].
  - mrun. destruct (m !! ToString x) as [r |]; mrun.
    2:{ destruct (inherited (ToString x)).
        - eexists. split; [reflexivity |].
          intros tid l' [= <- <-]. exists [], x, rest. auto.
        - eexists. split; [reflexivity |]. intros tid l' [=]. }
    unfold getTask, gets. mrun.
    destruct (taskStore w !! r) as [t |]; mrun.
    2:{ eexists. split; [reflexivity |]. intros tid l' [=]. }
    destruct (t_activeOnly t); mrun.
    + destruct (IH (before ++ [x])%list) as (out & Hrun & Hout).
      exists out. split; [exact Hrun |].
      intros tid l' Heq. destruct (Hout tid l' Heq) as (l1 & y & l2 & -> & -> & ->).
      exists (x :: l1), y, l2. split; [reflexivity |]. split; [reflexivity |].
      rewrite <- app_assoc. reflexivity.
    + eexists. split; [reflexivity |].
      intros tid l' [= <- <-]. exists [], x, rest. auto.
Qed.

(** What [getNext] does to the owner: nothing, or it cuts one id [x] out of
    [taskOrder], deletes a key (that of [x], or of the array holding [x])
    from [tasks] and makes the entry found there the live task, unless the key
    has no entry and names an inherited member. *)
Lemma getNext_run (this : oref) (isActive : value) (w : World) (o : OwnerObj)
      (m : gmap string ref) (l : list value) :
  ownerStore w !! this = Some o ->
  o_tasks o = Some m -> o_taskOrder o = Some l ->
  exists out w',
    Owner_getNext this isActive w = (out, w')
    /\ (w' = w
        \/ exists l1 x l2 key,
             l = (l1 ++ x :: l2)%list
             /\ (key = ToString x \/ key = ToString (VArr [x] []))
             /\ (w' = put_owner this
                        (set_o_liveTask (m !! key)
                           (set_o_tasks (Some (delete key m))
                              (set_o_taskOrder (Some (l1 ++ l2)%list) o))) w
                 \/ (m !! key = None /\ inherited key = true
                     /\ w' = put_owner this
                               (set_o_tasks (Some (delete key m))
                                  (set_o_taskOrder (Some (l1 ++ l2)%list) o)) w))).
Proof.
  intros Ho Hm Hl. unfold Owner_getNext. mrun. rewrite Hl. mrun.
  destruct l as [| first others]; mrun.
  { eexists _, _. split; [reflexivity |]. left. reflexivity. }
  destruct (truthy isActive); mrun.
  - rewrite Hm. mrun.
    destruct (m !! ToString first) as [r |] eqn:E; mrun.
    + eexists _, _. split; [reflexivity |]. right.
      exists [], first, others, (ToString first). rewrite E. auto.
    + destruct (inherited (ToString first)) eqn:Hi; mrun.
      * eexists _, _. split; [reflexivity |]. right.
        exists [], first, others, (ToString first). auto 6.
      * eexists _, _. split; [reflexivity |]. right.
        exists [], first, others, (ToString first). rewrite E. auto.
  - rewrite Hm. mrun.
    destruct (getNext_scan_run m (first :: others) [] w) as (out & Hrun & Hout).
    rewrite Hrun.
    destruct out as [[[tid l'] |] | e]; mrun.
    + destruct (Hout tid l' eq_refl) as (l1 & x & l2 & Hsplit & -> & ->).
      rewrite Hsplit.
      destruct (m !! ToString (VArr [x] [])) as [r |] eqn:E; mrun.
      * eexists _, _. split; [reflexivity |]. right.
        exists l1, x, l2, (ToString (VArr [x] [])). rewrite E. auto.
      * destruct (inherited (ToString (VArr [x] []))) eqn:Hi; mrun.
        -- eexists _, _. split; [reflexivity |]. right.
           exists l1, x, l2, (ToString (VArr [x] [])). auto 6.
        -- eexists _, _. split; [reflexivity |]. right.
           exists l1, x, l2, (ToString (VArr [x] [])). rewrite E. auto.
    + eexists _, _. split; [reflexivity |]. left. reflexivity.
    + eexists _, _. split; [reflexivity |]. left. reflexivity.
Qed.

(** What [completed] does to the owner. *)
Lemma completed_run (this : oref) (task : ref) (manualOverride : bool)
      (w : World) (o : OwnerObj) (m cm : gmap string ref) (l : list value) :
  ownerStore w !! this = Some o ->
  o_tasks o = Some m -> o_taskOrder o = Some l -> o_completedTasks o = Some cm ->
  exists out w' o',
    Owner_completed this task manualOverride w = (out, w')
    /\ taskStore w' = taskStore w
    /\ ownerStore w' !! this = Some o'
    /\ (o' = o
        \/ exists t,
             taskStore w !! task = Some t
             /\ ((manualOverride = false /\ o_liveTask o = Some task
                  /\ o' = set_o_completedTasks
                            (Some (<[ToString (t_id t) := task]> cm)) o)
                 \/ (manualOverride = true
                     /\ remove_first (t_id t) l = None
                     /\ o' = set_o_completedTasks
                               (Some (<[ToString (t_id t) := task]> cm)) o)
                 \/ (exists l',
                       manualOverride = true
                       /\ remove_first (t_id t) l = Some l'
                       /\ o' = set_o_completedTasks
                                 (Some (<[ToString (t_id t) := task]> cm))
                                 (set_o_tasks
                                    (Some (delete (ToString (t_id t)) m))
                                    (set_o_taskOrder (Some l') o))))).
Proof.
  intros Ho Hm Hl Hcm. unfold Owner_completed. mrun.
  assert (Ho' : ownerStore (put_event (EvOwnerCompleted this task manualOverride) w)
                !! this = Some o) by exact Ho.
  unfold getTask at 1, gets. mrun.
  change (taskStore (put_event (EvOwnerCompleted this task manualOverride) w))
    with (taskStore w).
  destruct (taskStore w !! task) as [t |] eqn:Ht; mrun.
  2:{ eexists _, _, _. split; [reflexivity |]. split; [reflexivity |].
      split; [exact Ho' | left; reflexivity]. }
  destruct manualOverride; mrun.
  - rewrite (removeTask_run this (t_id t) _ o m l Ho' Hm Hl).
    destruct (remove_first (t_id t) l) as [l' |] eqn:Hrem; mrun.
    + cbn [o_completedTasks set_o_tasks set_o_taskOrder]. rewrite Hcm. mrun.
      eexists _, _, _. split; [reflexivity |]. split; [reflexivity |].
      split; [apply put_owner_lookup |]. right. exists t. split; [reflexivity |].
      right. right. exists l'. auto.
    + rewrite Hcm. mrun.
      eexists _, _, _. split; [reflexivity |]. split; [reflexivity |].
      split; [apply put_owner_lookup |]. right. exists t. split; [reflexivity |].
      right. left. auto.
  - destruct (bool_decide (o_liveTask o = Some task)) eqn:Hlive; mrun.
    + apply bool_decide_eq_true in Hlive. rewrite Hcm. mrun.
      eexists _, _, _. split; [reflexivity |]. split; [reflexivity |].
      split; [apply put_owner_lookup |]. right. exists t. split; [reflexivity |].
      left. auto.
    + eexists _, _, _. split; [reflexivity |]. split; [reflexivity |].
      split; [exact Ho' | left; reflexivity].
Qed.


Lemma usable_in_array (x : value) :
  usable_id x -> ToString (VArr [x] []) = ToString x.
Proof. intros (_ & Hu & Hn). destruct x; try reflexivity; congruence. Qed.

Lemma ids_kept_refl (s : gmap ref TaskObj) : ids_kept s s.
Proof. intros r t H. eauto. Qed.

Lemma ids_kept_trans (a b c : gmap ref TaskObj) :
  ids_kept a b -> ids_kept b c -> ids_kept a c.
Proof.
  intros H1 H2 r t Hr. destruct (H1 r t Hr) as (t' & Hr' & Hid).
  destruct (H2 r t' Hr') as (t'' & Hr'' & Hid'). exists t''. split; congruence.
Qed.

Lemma owner_inv_store (A : gset ref) (s s' : gmap ref TaskObj) (o : OwnerObj) :
  ids_kept s s' -> owner_inv A s o -> owner_inv A s' o.
Proof.
  intros Hk (m & l & cm & Hm & Hl & Hcm & I1 & I2 & I3 & I4 & I5 & I6 & I7).
  assert (Hback : forall r t', r ∈ A -> s' !! r = Some t' ->
                    exists t, s !! r = Some t /\ t_id t = t_id t').
  { intros r t' Hr Hs'. destruct (I1 r Hr) as (t & Hs & _).
    destruct (Hk r t Hs) as (t'' & Hs'' & Hid). exists t. split; congruence. }
  exists m, l, cm.
  split; [exact Hm |]. split; [exact Hl |]. split; [exact Hcm |].
  split; [| split; [| split; [assumption | split; [| split; [| split]]]]].
  - intros r Hr. destruct (I1 r Hr) as (t & Hs & Hu).
    destruct (Hk r t Hs) as (t' & Hs' & Hid). exists t'. rewrite Hid. auto.
  - intros r1 r2 t1 t2 H1 H2 Hs1 Hs2 Heq.
    destruct (Hback r1 t1 H1 Hs1) as (u1 & Hu1 & Hid1).
    destruct (Hback r2 t2 H2 Hs2) as (u2 & Hu2 & Hid2).
    apply (I2 r1 r2 u1 u2); auto. congruence.
  - intros k r Hkr. destruct (I4 k r Hkr) as (Hr & t & Hs & Hkey & Hin).
    destruct (Hk r t Hs) as (t' & Hs' & Hid).
    split; [exact Hr |]. exists t'. rewrite Hid. auto.
  - intros x Hx. destruct (I5 x Hx) as (r & t & Hmx & Hs & Hid).
    destruct (Hk r t Hs) as (t' & Hs' & Hid'). exists r, t'.
    split; [exact Hmx |]. split; [exact Hs' | congruence].
  - intros r Hlive. destruct (I6 r Hlive) as (Hr & Hnone).
    split; [exact Hr |]. intros t' Hs'.
    destruct (Hback r t' Hr Hs') as (t & Hs & Hid). rewrite <- Hid. auto.
  - intros k r Hkr. destruct (I7 k r Hkr) as (Hr & (t & Hs & Hkey) & Hnone).
    split; [exact Hr |]. split; [| exact Hnone].
    destruct (Hk r t Hs) as (t' & Hs' & Hid). exists t'. rewrite Hid. auto.
Qed.

Lemma in_middle (x : value) (l1 l2 : list value) : x ∈ (l1 ++ x :: l2)%list.
Proof. apply elem_of_app. right. apply elem_of_cons. left. reflexivity. Qed.

Lemma in_without (y x : value) (l1 l2 : list value) :
  y ∈ (l1 ++ l2)%list -> y ∈ (l1 ++ x :: l2)%list.
Proof.
  intros H. apply elem_of_app in H as [H | H]; apply elem_of_app;
    [left; exact H | right; apply elem_of_cons; right; exact H].
Qed.

Lemma in_with (y x : value) (l1 l2 : list value) :
  y ∈ (l1 ++ x :: l2)%list -> y = x \/ y ∈ (l1 ++ l2)%list.
Proof.
  intros H. apply elem_of_app in H as [H | H].
  - right. apply elem_of_app. left. exact H.
  - apply elem_of_cons in H as [H | H]; [left; exact H |].
    right. apply elem_of_app. right. exact H.
Qed.

Lemma NoDup_without (x : value) (l1 l2 : list value) :
  NoDup (l1 ++ x :: l2)%list -> NoDup (l1 ++ l2)%list /\ x ∉ (l1 ++ l2)%list.
Proof.
  intros H. apply NoDup_app in H as (N1 & N2 & N3).
  apply NoDup_cons in N3 as [N3 N4]. split.
  - apply NoDup_app. split; [exact N1 |]. split; [| exact N4].
    intros y Hy1 Hy2. apply (N2 y Hy1). apply elem_of_cons. right. exact Hy2.
  - intros Hin. apply elem_of_app in Hin as [Hin | Hin]; [| contradiction].
    apply (N2 x Hin). apply elem_of_cons. left. reflexivity.
Qed.

(** Two ids of [taskOrder] with the same key are the same id. *)
Lemma owner_inv_key_inj (A : gset ref) (s : gmap ref TaskObj) (o : OwnerObj)
      (l : list value) (x y : value) :
  owner_inv A s o -> o_taskOrder o = Some l ->
  x ∈ l -> y ∈ l -> ToString x = ToString y -> x = y.
Proof.
  intros (m & l0 & cm & Hm & Hl & Hcm & I1 & I2 & I3 & I4 & I5 & I6 & I7) Hl' Hx Hy Heq.
  assert (l0 = l) by congruence. subst l0.
  destruct (I5 x Hx) as (r & t & Hmx & Hs & Hid).
  destruct (I5 y Hy) as (r' & t' & Hmy & Hs' & Hid').
  rewrite Heq in Hmx. assert (r = r') by congruence. subst r'.
  congruence.
Qed.

(** Cutting the id [x] out of [taskOrder] and its key out of [tasks]. *)
Lemma owner_inv_remove (A : gset ref) (s : gmap ref TaskObj) (o : OwnerObj)
      (m : gmap string ref) (l1 l2 : list value) (x : value) :
  owner_inv A s o ->
  o_tasks o = Some m -> o_taskOrder o = Some (l1 ++ x :: l2)%list ->
  owner_inv A s
    (set_o_tasks (Some (delete (ToString x) m))
       (set_o_taskOrder (Some (l1 ++ l2)%list) o)).
Proof.
  intros Hinv Hm Hl.
  pose proof (fun y => owner_inv_key_inj A s o (l1 ++ x :: l2)%list y x Hinv Hl)
    as Hinj.
  destruct Hinv as (m0 & l0 & cm & Hm0 & Hl0 & Hcm & I1 & I2 & I3 & I4 & I5 & I6 & I7).
  assert (m0 = m) by congruence. assert (l0 = (l1 ++ x :: l2)%list) by congruence.
  subst m0 l0.
  assert (Hx : x ∈ (l1 ++ x :: l2)%list) by apply in_middle.
  destruct (NoDup_without x l1 l2 I3) as [Hnd Hnx].
  assert (Hsub : forall y, y ∈ (l1 ++ l2)%list -> y ∈ (l1 ++ x :: l2)%list)
    by (intros y; apply in_without).
  assert (Hne : forall y, y ∈ (l1 ++ l2)%list -> ToString y <> ToString x).
  { intros y Hy Heq. apply Hnx.
    rewrite <- (Hinj y (Hsub y Hy) Hx Heq). exact Hy. }
  exists (delete (ToString x) m), (l1 ++ l2)%list, cm.
  split; [reflexivity |]. split; [reflexivity |]. split; [exact Hcm |].
  split; [exact I1 |]. split; [exact I2 |].
  split; [exact Hnd |].
  split.
  { intros k r Hkr. apply lookup_delete_Some in Hkr as [Hk Hkr].
    destruct (I4 k r Hkr) as (Hr & t & Hs & Hkey & Hin).
    split; [exact Hr |]. exists t. split; [exact Hs |]. split; [exact Hkey |].
    apply in_with in Hin as [Hin | Hin]; [congruence | exact Hin]. }
  split.
  { intros y Hy. destruct (I5 y (Hsub y Hy)) as (r & t & Hmy & Hs & Hid).
    exists r, t. split; [| auto].
    rewrite lookup_delete_ne; [exact Hmy |]. intros Heq. apply (Hne y Hy). auto. }
  split.
  { intros r Hlive. destruct (I6 r Hlive) as (Hr & Hnone).
    split; [exact Hr |]. intros t Hs.
    apply lookup_delete_None. right. auto. }
  intros k r Hkr. destruct (I7 k r Hkr) as (Hr & Ht & Hnone).
  split; [exact Hr |]. split; [exact Ht |].
  apply lookup_delete_None. right. exact Hnone.
Qed.


(** Making a task of the owner whose key is not pending the live task. *)
Lemma owner_inv_live (A : gset ref) (s : gmap ref TaskObj) (o : OwnerObj)
      (m : gmap string ref) (live : option ref) :
  owner_inv A s o ->
  o_tasks o = Some m ->
  (forall r, live = Some r ->
     r ∈ A /\ forall t, s !! r = Some t -> m !! ToString (t_id t) = None) ->
  owner_inv A s (set_o_liveTask live o).
Proof.
  intros (m0 & l & cm & Hm0 & Hl & Hcm & I1 & I2 & I3 & I4 & I5 & I6 & I7) Hm Hlive.
  assert (m0 = m) by congruence. subst m0.
  exists m, l, cm.
  split; [exact Hm |]. split; [exact Hl |]. split; [exact Hcm |].
  split; [exact I1 |]. split; [exact I2 |]. split; [exact I3 |].
  split; [exact I4 |]. split; [exact I5 |].
  split; [exact Hlive | exact I7].
Qed.

(** Recording a task of the owner whose key is not pending as completed. *)
Lemma owner_inv_completed (A : gset ref) (s : gmap ref TaskObj) (o : OwnerObj)
      (m cm : gmap string ref) (task : ref) (t : TaskObj) :
  owner_inv A s o ->
  o_tasks o = Some m -> o_completedTasks o = Some cm ->
  task ∈ A -> s !! task = Some t -> m !! ToString (t_id t) = None ->
  owner_inv A s
    (set_o_completedTasks (Some (<[ToString (t_id t) := task]> cm)) o).
Proof.
  intros (m0 & l & cm0 & Hm0 & Hl & Hcm0 & I1 & I2 & I3 & I4 & I5 & I6 & I7)
         Hm Hcm HA Hs Hnone.
  assert (m0 = m) by congruence. assert (cm0 = cm) by congruence. subst m0 cm0.
  exists m, l, (<[ToString (t_id t) := task]> cm).
  split; [exact Hm |]. split; [exact Hl |]. split; [reflexivity |].
  split; [exact I1 |]. split; [exact I2 |]. split; [exact I3 |].
  split; [exact I4 |]. split; [exact I5 |]. split; [exact I6 |].
  intros k r Hkr. apply lookup_insert_Some in Hkr as [[<- <-] | [Hne Hkr]].
  - split; [exact HA |]. split; [exists t; auto | exact Hnone].
  - apply I7. exact Hkr.
Qed.

(** Adding a task whose key no task of the owner has. *)
Lemma owner_inv_add (A : gset ref) (s : gmap ref TaskObj) (o : OwnerObj)
      (m : gmap string ref) (l : list value) (r : ref) (t : TaskObj) :
  owner_inv A s o ->
  o_tasks o = Some m -> o_taskOrder o = Some l ->
  usable_id (t_id t) ->
  (forall r' t', r' ∈ A -> s !! r' = Some t' ->
                 ToString (t_id t') <> ToString (t_id t)) ->
  (s !! r = None \/ s !! r = Some t) ->
  owner_inv (A ∪ {[r]}) (<[r := t]> s)
    (set_o_taskOrder (Some (l ++ [t_id t])%list)
       (set_o_tasks (Some (<[ToString (t_id t) := r]> m)) o)).
Proof.
  intros (m0 & l0 & cm & Hm0 & Hl0 & Hcm & I1 & I2 & I3 & I4 & I5 & I6 & I7)
         Hm Hl Hu Hfresh Hr.
  assert (m0 = m) by congruence. assert (l0 = l) by congruence. subst m0 l0.
  assert (HrA : r ∉ A).
  { intros HA. destruct (I1 r HA) as (t0 & Hs0 & _).
    destruct Hr as [Hr | Hr]; [congruence |].
    apply (Hfresh r t0 HA Hs0). congruence. }
  assert (Hold : forall r', r' ∈ A -> <[r := t]> s !! r' = s !! r').
  { intros r' HA. apply lookup_insert_ne. intros ->. contradiction. }
  assert (Hnew : <[r := t]> s !! r = Some t) by apply lookup_insert_eq.
  assert (Hmk : m !! ToString (t_id t) = None).
  { destruct (m !! ToString (t_id t)) as [r0 |] eqn:E; [| reflexivity].
    destruct (I4 _ _ E) as (HA & t0 & Hs0 & Hkey & _).
    exfalso. apply (Hfresh r0 t0 HA Hs0). exact Hkey. }
  exists (<[ToString (t_id t) := r]> m), (l ++ [t_id t])%list, cm.
  split; [reflexivity |]. split; [reflexivity |]. split; [exact Hcm |].
  split.
  { intros r' HA. apply elem_of_union in HA as [HA | HA].
    - rewrite (Hold r' HA). apply I1. exact HA.
    - apply elem_of_singleton in HA. subst r'. exists t. auto. }
  split.
  { intros r1 r2 t1 t2 H1 H2 Hs1 Hs2 Heq.
    apply elem_of_union in H1 as [H1 | H1]; apply elem_of_union in H2 as [H2 | H2].
    - rewrite (Hold r1 H1) in Hs1. rewrite (Hold r2 H2) in Hs2.
      apply (I2 r1 r2 t1 t2); auto.
    - apply elem_of_singleton in H2. subst r2.
      rewrite (Hold r1 H1) in Hs1. rewrite Hnew in Hs2.
      exfalso. apply (Hfresh r1 t1 H1 Hs1). congruence.
    - apply elem_of_singleton in H1. subst r1.
      rewrite (Hold r2 H2) in Hs2. rewrite Hnew in Hs1.
      exfalso. apply (Hfresh r2 t2 H2 Hs2). congruence.
    - apply elem_of_singleton in H1. apply elem_of_singleton in H2. congruence. }
  split.
  { apply NoDup_app. split; [exact I3 |]. split; [| apply NoDup_singleton].
    intros y Hy Hy'. apply list_elem_of_singleton in Hy'. subst y.
    destruct (I5 _ Hy) as (r0 & t0 & Hm0' & _). congruence. }
  split.
  { intros k r0 Hkr. apply lookup_insert_Some in Hkr as [[<- <-] | [Hne Hkr]].
    - split; [apply elem_of_union; right; apply elem_of_singleton; reflexivity |].
      exists t. split; [exact Hnew |]. split; [reflexivity |].
      apply elem_of_app. right. apply list_elem_of_singleton. reflexivity.
    - destruct (I4 k r0 Hkr) as (HA & t0 & Hs0 & Hkey & Hin).
      split; [apply elem_of_union; left; exact HA |].
      exists t0. rewrite (Hold r0 HA). split; [exact Hs0 |]. split; [exact Hkey |].
      apply elem_of_app. left. exact Hin. }
  split.
  { intros x Hx. apply elem_of_app in Hx as [Hx | Hx].
    - destruct (I5 x Hx) as (r0 & t0 & Hmx & Hs0 & Hid).
      destruct (I4 _ _ Hmx) as (HA & _).
      exists r0, t0. rewrite (Hold r0 HA). split; [| auto].
      rewrite lookup_insert_ne; [exact Hmx |].
      intros Heq. apply (Hfresh r0 t0 HA Hs0). congruence.
    - apply list_elem_of_singleton in Hx. subst x.
      exists r, t. split; [apply lookup_insert_eq | auto]. }
  split.
  { intros r0 Hlive. destruct (I6 r0 Hlive) as (HA & Hnone).
    split; [apply elem_of_union; left; exact HA |].
    intros t0 Hs0. rewrite (Hold r0 HA) in Hs0.
    rewrite lookup_insert_ne; [apply Hnone; exact Hs0 |].
    intros Heq. apply (Hfresh r0 t0 HA Hs0). congruence. }
  intros k r0 Hkr. destruct (I7 k r0 Hkr) as (HA & (t0 & Hs0 & Hkey) & Hnone).
  split; [apply elem_of_union; left; exact HA |].
  split; [exists t0; rewrite (Hold r0 HA); auto |].
  rewrite lookup_insert_ne; [exact Hnone |].
  intros Heq. apply (Hfresh r0 t0 HA Hs0). congruence.
Qed.


Lemma gets_run {A : Type} (f : World -> A) (w : World) :
  gets f w = (Normal (f w), w).
Proof. reflexivity. Qed.

Lemma modify_run (f : World -> World) (w : World) :
  modify f w = (Normal tt, f w).
Proof. reflexivity. Qed.

Lemma allocTask_run (t : TaskObj) (w : World) :
  allocTask t w
  = (Normal (fresh (dom (taskStore w))),
     set_taskStore (<[fresh (dom (taskStore w)) := t]> (taskStore w)) w).
Proof. reflexivity. Qed.

Lemma new_Task_run (config : Config) (w : World) :
  exists w',
    new_Task config w = (Normal (fresh (dom (taskStore w))), w')
    /\ taskStore w'
       = <[fresh (dom (taskStore w))
           := fst (Task_construct Task_prototype config (_taskIdCounter w))]>
           (taskStore w)
    /\ ownerStore w' = ownerStore w.
Proof.
  unfold new_Task. rewrite run_bind, gets_run. cbv beta iota.
  destruct (Task_construct Task_prototype config (_taskIdCounter w)) as [t c'].
  rewrite run_bind, modify_run. cbv beta iota. rewrite allocTask_run.
  eexists. split; [reflexivity |]. split; reflexivity.
Qed.

Lemma new_IterationTask_run (config : Config) (w : World) :
  exists w',
    new_IterationTask config w = (Normal (fresh (dom (taskStore w))), w')
    /\ taskStore w'
       = <[fresh (dom (taskStore w))
           := fst (IterationTask_construct IterationTask_prototype config
                     (_taskIdCounter w))]>
           (taskStore w)
    /\ ownerStore w' = ownerStore w.
Proof.
  unfold new_IterationTask. rewrite run_bind, gets_run. cbv beta iota.
  destruct (IterationTask_construct IterationTask_prototype config
              (_taskIdCounter w)) as [t c'].
  rewrite run_bind, modify_run. cbv beta iota. rewrite allocTask_run.
  eexists. split; [reflexivity |]. split; reflexivity.
Qed.

Lemma fresh_ref_unused (s : gmap ref TaskObj) : s !! fresh (dom s) = None.
Proof. apply not_elem_of_dom. apply is_fresh. Qed.

(** What [add] does to an owner that is not released. *)
Lemma add_run (this : oref) (task : TaskSpec) (w : World) (o : OwnerObj)
      (m : gmap string ref) (l : list value) (r : ref) (t : TaskObj) :
  ownerStore w !! this = Some o ->
  o_tasks o = Some m -> o_taskOrder o = Some l ->
  added_task task w = Some (r, t) ->
  exists w',
    Owner_add this task w = (Normal tt, w')
    /\ taskStore w' = <[r := t]> (taskStore w)
    /\ ownerStore w' !! this
       = Some (set_o_taskOrder (Some (l ++ [t_id t])%list)
                 (set_o_tasks (Some (<[ToString (t_id t) := r]> m)) o))
    /\ (taskStore w !! r = None \/ taskStore w !! r = Some t).
Proof.
  intros Ho Hm Hl Hadd. unfold Owner_add. rewrite run_bind.
  assert (Hfirst : exists w1,
            match task with
            | Instance_ r => mret r
            | Definition_ config (Some it) =>
                new_IterationTask (extend_iterate config it)
            | Definition_ config None => new_Task config
            end w = (Normal r, w1)
            /\ taskStore w1 = <[r := t]> (taskStore w)
            /\ ownerStore w1 = ownerStore w
            /\ (taskStore w !! r = None \/ taskStore w !! r = Some t)).
  { destruct task as [r0 | config [it |]]; simpl in Hadd.
    - destruct (taskStore w !! r0) as [t0 |] eqn:E; simpl in Hadd; [| discriminate].
      injection Hadd as <- <-. exists w. rewrite run_ret.
      split; [reflexivity |]. split; [symmetry; apply insert_id; exact E |].
      split; [reflexivity | right; exact E].
    - injection Hadd as <- <-.
      destruct (new_IterationTask_run (extend_iterate config it) w)
        as (w1 & Hrun & Hs & Hos).
      exists w1. split; [exact Hrun |]. split; [exact Hs |]. split; [exact Hos |].
      left. apply fresh_ref_unused.
    - injection Hadd as <- <-.
      destruct (new_Task_run config w) as (w1 & Hrun & Hs & Hos).
      exists w1. split; [exact Hrun |]. split; [exact Hs |]. split; [exact Hos |].
      left. apply fresh_ref_unused. }
  destruct Hfirst as (w1 & -> & Hs1 & Hos1 & Hr). cbv beta iota.
  assert (Ht1 : taskStore w1 !! r = Some t) by (rewrite Hs1; apply lookup_insert_eq).
  assert (Ho1 : ownerStore w1 !! this = Some o) by (rewrite Hos1; exact Ho).
  mrun. rewrite Hm. mrun. cbn [o_taskOrder set_o_tasks]. rewrite Hl. mrun.
  eexists. split; [reflexivity |].
  split; [exact Hs1 |]. split; [apply put_owner_lookup | exact Hr].
Qed.


Lemma tasks_only_refl (w : World) : tasks_only w w.
Proof. split; [reflexivity | apply ids_kept_refl]. Qed.

Lemma tasks_only_trans (a b c : World) :
  tasks_only a b -> tasks_only b c -> tasks_only a c.
Proof.
  intros [H1 H2] [H3 H4]. split; [congruence | eapply ids_kept_trans; eauto].
Qed.

Lemma Task_destroy_id (t : TaskObj) : t_id (Task_destroy t) = t_id t.
Proof.
  unfold Task_destroy.
  destruct (negb (state_eq (t_state t) (statics_state "COMPLETE"))); reflexivity.
Qed.

Lemma tasks_only_destroy (r : ref) : preserves tasks_only (updTask r Task_destroy).
Proof.
  intros w. unfold updTask, getTask, gets. repeat rewrite run_bind. cbv beta iota.
  destruct (taskStore w !! r) as [t |] eqn:E; cbn [expect throw];
    [| apply tasks_only_refl].
  rewrite run_ret. cbv beta iota. rewrite modify_run. cbn [snd].
  split; [reflexivity |]. intros r' t' Hr'. simpl.
  destruct (decide (r = r')) as [<- | Hne].
  - rewrite lookup_insert_eq. exists (Task_destroy t).
    split; [reflexivity |]. rewrite Task_destroy_id. congruence.
  - rewrite lookup_insert_ne by exact Hne. eauto.
Qed.

Lemma tasks_only_destroyTasks (tasks : option (gmap string ref)) :
  preserves tasks_only (_destroyTasks tasks).
Proof.
  destruct tasks as [m |]; simpl.
  - apply preserves_for_each; [exact tasks_only_refl | exact tasks_only_trans |].
    intros x. apply tasks_only_destroy.
  - apply preserves_ret. exact tasks_only_refl.
Qed.

Lemma tasks_only_alloc (t : TaskObj) (w : World) :
  tasks_only w (set_taskStore (<[fresh (dom (taskStore w)) := t]> (taskStore w)) w).
Proof.
  split; [reflexivity |]. intros r t' Hr. simpl.
  rewrite lookup_insert_ne; [eauto |].
  intros <-. rewrite fresh_ref_unused in Hr. discriminate.
Qed.

(** [destroy] releases the owner (or stops before it touches the owner) and
    keeps the ids of all tasks. *)
Lemma destroy_run (this : oref) (w : World) (o : OwnerObj) :
  ownerStore w !! this = Some o ->
  exists out w' o',
    Owner_destroy this w = (out, w')
    /\ ownerStore w' !! this = Some o'
    /\ (o' = o \/ released o')
    /\ ids_kept (taskStore w) (taskStore w').
Proof.
  intros Ho. unfold Owner_destroy. mrun.
  pose proof (tasks_only_destroyTasks (o_tasks o)) as Hd.
  assert (Hl : preserves tasks_only
                 (match o_liveTask o with
                  | Some live => updTask live Task_destroy
                  | None => mret tt
                  end)).
  { destruct (o_liveTask o); [apply tasks_only_destroy |].
    apply preserves_ret. exact tasks_only_refl. }
  specialize (Hl w).
  destruct (match o_liveTask o with
            | Some live => updTask live Task_destroy
            | None => mret tt
            end w) as [[[] | e] w1]; cbn [snd] in Hl; mrun.
  2:{ destruct Hl as [Hos Hk]. eexists _, _, o. split; [reflexivity |].
      split; [rewrite Hos; exact Ho |]. split; [left; reflexivity | exact Hk]. }
  specialize (Hd w1).
  destruct (_destroyTasks (o_tasks o) w1) as [[[] | e] w2]; cbn [snd] in Hd; mrun.
  2:{ destruct (tasks_only_trans _ _ _ Hl Hd) as [Hos Hk].
      eexists _, _, o. split; [reflexivity |].
      split; [rewrite Hos; exact Ho |]. split; [left; reflexivity | exact Hk]. }
  destruct (tasks_only_trans _ _ _ Hl Hd) as [Hos Hk].
  assert (Ho2 : ownerStore w2 !! this = Some o) by (rewrite Hos; exact Ho).
  mrun. eexists _, _, _. split; [reflexivity |].
  split; [apply put_owner_lookup |].
  split; [right; repeat split | exact Hk].
Qed.

(** On a released owner every operation stops at the first collection it
    reads and leaves the owner as it is. *)
Lemma released_stays (this : oref) (op : owner_op) (w : World) (o : OwnerObj) :
  ownerStore w !! this = Some o -> released o ->
  exists out w' o',
    run_op this op w = (out, w')
    /\ ownerStore w' !! this = Some o'
    /\ released o'
    /\ ids_kept (taskStore w) (taskStore w').
Proof.
  intros Ho Hrel. pose proof Hrel as (Hm & Hl & Hcm).
  assert (Hsame : forall out, exists (out' : Outcome unit) (w' : World) (o' : OwnerObj),
             (out, w) = (out', w') /\ ownerStore w' !! this = Some o'
             /\ released o' /\ ids_kept (taskStore w) (taskStore w')).
  { intros out. exists out, w, o. split; [reflexivity |]. split; [exact Ho |].
    split; [exact Hrel | apply ids_kept_refl]. }
  destruct op as [task | taskId | isActive | task manualOverride |]; simpl.
  - (* add *)
    unfold Owner_add. rewrite run_bind.
    assert (Hf : preserves tasks_only
                   (match task with
                    | Instance_ r => mret r
                    | Definition_ config (Some it) =>
                        new_IterationTask (extend_iterate config it)
                    | Definition_ config None => new_Task config
                    end)).
    { intros w0. destruct task as [r | config [it |]].
      - apply tasks_only_refl.
      - destruct (new_IterationTask_run (extend_iterate config it) w0)
          as (w1 & -> & Hs & Hos). cbn [snd]. split; [exact Hos |].
        rewrite Hs. apply tasks_only_alloc.
      - destruct (new_Task_run config w0) as (w1 & -> & Hs & Hos).
        cbn [snd]. split; [exact Hos |]. rewrite Hs. apply tasks_only_alloc. }
    specialize (Hf w).
    destruct (match task with
              | Instance_ r => mret r
              | Definition_ config (Some it) =>
                  new_IterationTask (extend_iterate config it)
              | Definition_ config None => new_Task config
              end w) as [[r | e] w1]; cbn [snd] in Hf; destruct Hf as [Hos Hk];
      cbv beta iota.
    2:{ exists (Throw e), w1, o. rewrite Hos. auto. }
    assert (Ho1 : ownerStore w1 !! this = Some o) by (rewrite Hos; exact Ho).
    unfold getTask, gets. mrun.
    destruct (taskStore w1 !! r) as [t |]; mrun; [rewrite Hm; mrun |];
      eexists _, w1, o; (split; [reflexivity | auto]).
  - (* setNext *)
    unfold Owner_setNext. mrun. rewrite Hm. mrun. apply Hsame.
  - (* getNext *)
    unfold Owner_getNext. mrun. rewrite Hl. mrun. apply Hsame.
  - (* completed *)
    unfold Owner_completed. mrun.
    assert (Ho' : ownerStore (put_event (EvOwnerCompleted this task manualOverride) w)
                  !! this = Some o) by exact Ho.
    assert (Hev : forall out, exists (out' : Outcome unit) (w' : World) (o' : OwnerObj),
              (out, put_event (EvOwnerCompleted this task manualOverride) w)
              = (out', w') /\ ownerStore w' !! this = Some o'
              /\ released o' /\ ids_kept (taskStore w) (taskStore w')).
    { intros out. eexists out, _, o. split; [reflexivity |]. split; [exact Ho |].
      split; [exact Hrel | apply ids_kept_refl]. }
    unfold getTask at 1, gets. mrun.
    change (taskStore (put_event (EvOwnerCompleted this task manualOverride) w))
      with (taskStore w).
    destruct (taskStore w !! task) as [t |]; mrun; [| apply Hev].
    destruct manualOverride; mrun.
    + unfold _removeTask. mrun. rewrite Hl. mrun. apply Hev.
    + destruct (bool_decide (o_liveTask o = Some task)); mrun; [| apply Hev].
      rewrite Hcm. mrun. apply Hev.
  - (* destroy *)
    destruct (destroy_run this w o Ho) as (out & w' & o' & -> & Ho' & Hrel' & Hk).
    exists out, w', o'. split; [reflexivity |]. split; [exact Ho' |].
    split; [| exact Hk].
    destruct Hrel' as [-> | Hrel']; [exact Hrel | exact Hrel'].
Qed.


Lemma owner_inv_pending_entry (A : gset ref) (s : gmap ref TaskObj)
      (o : OwnerObj) (m : gmap string ref) (l : list value) (x : value)
      (live : option ref) :
  owner_inv A s o -> o_tasks o = Some m -> o_taskOrder o = Some l -> x ∈ l ->
  live = m !! ToString x ->
  (forall r, live = Some r ->
     r ∈ A /\ forall t, s !! r = Some t ->
                        delete (ToString x) m !! ToString (t_id t) = None)
  /\ usable_id x.
Proof.
  intros (m0 & l0 & cm & Hm0 & Hl0 & Hcm & I1 & I2 & I3 & I4 & I5 & I6 & I7)
         Hm Hl Hx ->.
  assert (m0 = m) by congruence. assert (l0 = l) by congruence. subst m0 l0.
  destruct (I5 x Hx) as (r & t & Hmx & Hs & Hid).
  destruct (I4 _ _ Hmx) as (HA & t0 & Hs0 & Hkey & _).
  split.
  - intros r' Hr'. rewrite Hmx in Hr'. injection Hr' as <-.
    split; [exact HA |]. intros t' Hs'.
    assert (t' = t0) by congruence. subst t'. rewrite Hkey.
    apply lookup_delete_eq.
  - destruct (I1 r HA) as (t1 & Hs1 & Hu). assert (t1 = t) by congruence.
    subst t1. rewrite Hid in Hu. exact Hu.
Qed.

(** The invariant of the worlds an owner goes through. *)
Lemma reachable_inv (this : oref) (A : gset ref) (w : World) :
  reachable this A w ->
  exists o, ownerStore w !! this = Some o
            /\ (released o \/ owner_inv A (taskStore w) o).
Proof.
  induction 1 as [w o Ho Hm Hl Hlive Hcm
                 | A w task r t Hreach IH Hadd Hu Hfresh
                 | A w taskId Hreach IH
                 | A w isActive Hreach IH
                 | A w task manualOverride Hreach IH Hmine
                 | A w Hreach IH
                 | A w w' Hreach IH Hsame Hkept].
  - (* a new owner *)
    exists o. split; [exact Ho |]. right. exists ∅, [], ∅.
    split; [exact Hm |]. split; [exact Hl |]. split; [exact Hcm |].
    split; [intros r Hr; apply not_elem_of_empty in Hr; contradiction |].
    split; [intros r1 r2 t1 t2 Hr; apply not_elem_of_empty in Hr; contradiction |].
    split; [apply NoDup_nil_2 |].
    split; [intros k r Hk; rewrite lookup_empty in Hk; discriminate |].
    split; [intros x Hx; apply not_elem_of_nil in Hx; contradiction |].
    split; [intros r Hr; congruence |].
    intros k r Hk. rewrite lookup_empty in Hk. discriminate.
  - (* add *)
    destruct IH as (o & Ho & [Hrel | Hinv]).
    + destruct (released_stays this (OpAdd task) w o Ho Hrel)
        as (out & w' & o' & Hrun & Ho' & Hrel' & _).
      simpl in Hrun. rewrite Hrun. exists o'. auto.
    + pose proof Hinv as (m & l & cm & Hm & Hl & _).
      destruct (add_run this task w o m l r t Ho Hm Hl Hadd)
        as (w' & Hrun & Hs & Ho' & Hr).
      rewrite Hrun. cbn [snd]. eexists. split; [exact Ho' |]. right.
      rewrite Hs. apply owner_inv_add; auto.
  - (* setNext *)
    destruct IH as (o & Ho & [Hrel | Hinv]).
    + destruct (released_stays this (OpSetNext taskId) w o Ho Hrel)
        as (out & w' & o' & Hrun & Ho' & Hrel' & _).
      rewrite <- (snd_then_value (Owner_setNext this taskId) tt).
      simpl in Hrun. rewrite Hrun. exists o'. auto.
    + pose proof Hinv as (m & l & cm & Hm & Hl & _).
      rewrite (setNext_run this taskId w o m l Ho Hm Hl).
      destruct (m !! ToString taskId) as [task |] eqn:Hmt.
      2:{ destruct (inherited (ToString taskId)); [| exists o; auto].
          destruct (remove_first taskId l) as [l' |] eqn:Hrem; [| exists o; auto].
          exfalso. destruct (remove_first_Some _ _ _ Hrem) as (l1 & l2 & -> & ->).
          destruct Hinv as (m0 & l0 & cm0 & Hm0 & Hl0 & _ & _ & _ & _ & _ & I5 & _).
          assert (m0 = m) by congruence. subst m0.
          assert (l0 = (l1 ++ taskId :: l2)%list) by congruence. subst l0.
          destruct (I5 taskId (in_middle _ _ _)) as (r & t & Hmx & _). congruence. }
      destruct (remove_first taskId l) as [l' |] eqn:Hrem; [| exists o; auto].
      destruct (remove_first_Some _ _ _ Hrem) as (l1 & l2 & -> & ->).
      cbn [snd]. eexists. split; [apply put_owner_lookup |]. right.
      change (taskStore (put_owner this _ w)) with (taskStore w).
      destruct (owner_inv_pending_entry A (taskStore w) o m _ taskId
                  (Some task) Hinv Hm Hl (in_middle _ _ _) (eq_sym Hmt))
        as [Hentry _].
      apply (owner_inv_live A (taskStore w) _ (delete (ToString taskId) m)).
      * apply owner_inv_remove; assumption.
      * reflexivity.
      * exact Hentry.
  - (* getNext *)
    destruct IH as (o & Ho & [Hrel | Hinv]).
    + destruct (released_stays this (OpGetNext isActive) w o Ho Hrel)
        as (out & w' & o' & Hrun & Ho' & Hrel' & _).
      rewrite <- (snd_then_value (Owner_getNext this isActive) tt).
      simpl in Hrun. rewrite Hrun. exists o'. auto.
    + pose proof Hinv as (m & l & cm & Hm & Hl & _).
      destruct (getNext_run this isActive w o m l Ho Hm Hl)
        as (out & w' & -> & [-> | (l1 & x & l2 & key & -> & Hkey & Hw')]).
      { exists o. auto. }
      destruct (owner_inv_pending_entry A (taskStore w) o m _ x
                  (m !! ToString x) Hinv Hm Hl (in_middle _ _ _) eq_refl)
        as [Hentry Hux].
      assert (key = ToString x) as ->.
      { destruct Hkey as [-> | ->]; [reflexivity | apply usable_in_array; exact Hux]. }
      destruct Hw' as [-> | (Hnone & _ & _)].
      2:{ exfalso.
          destruct Hinv as (m0 & l0 & cm0 & Hm0 & Hl0 & _ & _ & _ & _ & _ & I5 & _).
          assert (m0 = m) by congruence. subst m0.
          assert (l0 = (l1 ++ x :: l2)%list) by congruence. subst l0.
          destruct (I5 x (in_middle _ _ _)) as (r & t & Hmx & _). congruence. }
      cbn [snd]. eexists. split; [apply put_owner_lookup |]. right.
      change (taskStore (put_owner this _ w)) with (taskStore w).
      apply (owner_inv_live A (taskStore w) _ (delete (ToString x) m)).
      * apply owner_inv_remove; assumption.
      * reflexivity.
      * exact Hentry.
  - (* completed *)
    destruct IH as (o & Ho & [Hrel | Hinv]).
    + destruct (released_stays this (OpCompleted task manualOverride) w o Ho Hrel)
        as (out & w' & o' & Hrun & Ho' & Hrel' & _).
      simpl in Hrun. rewrite Hrun. exists o'. auto.
    + pose proof Hinv as (m & l & cm & Hm & Hl & Hcm & I1 & I2 & I3 & I4 & I5 & I6 & I7).
      destruct (completed_run this task manualOverride w o m cm l Ho Hm Hl Hcm)
        as (out & w' & o' & -> & Hs & Ho' & Hcases).
      cbn [snd]. exists o'. split; [exact Ho' |]. right. rewrite Hs.
      destruct Hcases as [-> | (t & Ht & [(-> & Hlive & ->)
                                        | [(-> & Hrem & ->)
                                          | (l' & -> & Hrem & ->)]])].
      * exact Hinv.
      * destruct (I6 task Hlive) as (HA & Hnone).
        apply (owner_inv_completed A (taskStore w) o m cm task t); auto.
      * assert (HA : task ∈ A) by auto.
        destruct (I1 task HA) as (t0 & Ht0 & (Hse & _)).
        assert (t0 = t) by congruence. subst t0.
        apply (owner_inv_completed A (taskStore w) o m cm task t); auto.
        destruct (m !! ToString (t_id t)) as [r' |] eqn:Hmk; [| reflexivity].
        exfalso. destruct (I4 _ _ Hmk) as (HA' & t' & Ht' & Hkey & Hin).
        assert (r' = task) by (apply (I2 r' task t' t); auto). subst r'.
        assert (t' = t) by congruence. subst t'.
        apply (remove_first_None _ _ Hrem Hse). exact Hin.
      * assert (HA : task ∈ A) by auto.
        destruct (remove_first_Some _ _ _ Hrem) as (l1 & l2 & -> & ->).
        apply (owner_inv_completed A (taskStore w) _
                 (delete (ToString (t_id t)) m) cm task t); auto.
        -- apply owner_inv_remove; assumption.
        -- apply lookup_delete_eq.
  - (* destroy *)
    destruct IH as (o & Ho & Hcase).
    destruct (destroy_run this w o Ho) as (out & w' & o' & -> & Ho' & Hrel' & Hk).
    cbn [snd]. exists o'. split; [exact Ho' |].
    destruct Hrel' as [-> | Hrel']; [| left; exact Hrel'].
    destruct Hcase as [Hrel | Hinv]; [left; exact Hrel |].
    right. apply (owner_inv_store A (taskStore w)); assumption.
  - (* anything else *)
    destruct IH as (o & Ho & Hcase).
    exists o. split; [congruence |].
    destruct Hcase as [Hrel | Hinv]; [left; exact Hrel |].
    right. apply (owner_inv_store A (taskStore w)); assumption.
Qed.

Lemma owner_inv_partition (A : gset ref) (w : World) (o : OwnerObj) :
  owner_inv A (taskStore w) o -> partition_by_design w o.
Proof.
  intros (m & l & cm & Hm & Hl & Hcm & I1 & I2 & I3 & I4 & I5 & I6 & I7).
  assert (Hsame : forall k, k ∈ dom m <-> k ∈ ToString <$> l).
  { intros k. split.
    - intros Hk. apply elem_of_dom in Hk as [r Hk].
      destruct (I4 k r Hk) as (_ & t & _ & <- & Hin).
      apply list_elem_of_fmap_2. exact Hin.
    - intros Hk. apply list_elem_of_fmap in Hk as (x & -> & Hx).
      destruct (I5 x Hx) as (r & t & Hmx & _). apply elem_of_dom. eauto. }
  assert (Hpend : forall k, k ∈ pending_keys o -> k ∈ dom m).
  { intros k. unfold pending_keys. rewrite Hm, Hl. simpl.
    intros Hk. apply elem_of_union in Hk as [Hk | Hk]; [exact Hk |].
    apply elem_of_list_to_set in Hk. apply Hsame. exact Hk. }
  unfold partition_by_design. rewrite Hm, Hl. simpl.
  split; [exact Hsame |]. split.
  - intros k Hk Hlive. apply Hpend in Hk. apply elem_of_dom in Hk as [r Hk].
    unfold live_key in Hlive.
    destruct (o_liveTask o) as [r0 |] eqn:E; [| discriminate]. simpl in Hlive.
    destruct (taskStore w !! r0) as [t0 |] eqn:E0; [| discriminate].
    simpl in Hlive. injection Hlive as <-.
    destruct (I6 r0 eq_refl) as (_ & Hnone). specialize (Hnone t0 E0). congruence.
  - intros k Hk Hc. apply Hpend in Hk. apply elem_of_dom in Hk as [r Hk].
    unfold completed_keys in Hc. rewrite Hcm in Hc. simpl in Hc.
    apply elem_of_dom in Hc as [r' Hc].
    destruct (I7 k r' Hc) as (_ & _ & Hnone). congruence.
Qed.

(** The part of the partition that does hold.  In every world an owner goes
    through (tasks are added with ids not yet used in the owner; [setNext],
    [getNext], [completed] and [destroy] are called in any order), the owner
    is either released or [tasks] and [taskOrder] hold the same ids and no
    pending id is the live task's or a completed one. *)
Lemma owner_sets_by_design (this : oref) (A : gset ref) (w : World)
        (o : OwnerObj) :
  reachable this A w ->
  ownerStore w !! this = Some o ->
  released o \/ partition_by_design w o.
Proof.
  intros Hreach Ho.
  destruct (reachable_inv this A w Hreach) as (o' & Ho' & Hcase).
  assert (o' = o) by congruence. subst o'.
  destruct Hcase as [Hrel | Hinv]; [left; exact Hrel |].
  right. apply (owner_inv_partition A). exact Hinv.
Qed.


(** Reporting the live task as completed records it in [completedTasks] and
    leaves it the live task. *)
Lemma completed_keeps_liveTask (this : oref) (task : ref) (w : World)
      (o : OwnerObj) (cm : gmap string ref) (t : TaskObj) :
  ownerStore w !! this = Some o ->
  o_completedTasks o = Some cm ->
  taskStore w !! task = Some t ->
  o_liveTask o = Some task ->
  exists w',
    Owner_completed this task false w = (Normal tt, w')
    /\ ownerStore w' !! this
       = Some (set_o_completedTasks
                 (Some (<[ToString (t_id t) := task]> cm)) o).
Proof.
  intros Ho Hcm Ht Hlive. unfold Owner_completed. mrun.
  assert (Ho' : ownerStore (put_event (EvOwnerCompleted this task false) w)
                !! this = Some o) by exact Ho.
  assert (Ht' : taskStore (put_event (EvOwnerCompleted this task false) w)
                !! task = Some t) by exact Ht.
  mrun. rewrite Hlive.
  rewrite bool_decide_eq_true_2 by reflexivity. mrun. rewrite Hcm. mrun.
  eexists. split; [reflexivity | apply put_owner_lookup].
Qed.

(** C9, on the code.  [register("A", O)] and [addTask(A, t1)]: the dispatcher
    takes t1 from the owner with [getNext()] and defers its execution, so t1
    is the live task and is neither pending nor completed.  Then the host runs
    the deferred call: t1 is executed and COMPLETE, and [completed(t1, false)]
    has recorded it in [completedTasks].  No method of the owner resets
    [liveTask]: t1 is still the live task, so its id is in two of the three
    sets, and it stays in both through the dispatcher's next pass. *)
Theorem completed_task_is_still_live :
  exists o0 o,
    ownerStore world_t1_scheduled !! 0%nat = Some o0
    /\ o_liveTask o0 = Some 0%nat
    /\ o_tasks o0 = Some ∅ /\ o_completedTasks o0 = Some ∅
    /\ timers world_t1_scheduled = [DExecuteTask 0%nat 0%nat]
    /\ ownerStore world_t1_ran !! 0%nat = Some o
    /\ (t_state <$> taskStore world_t1_ran !! 0%nat) = Some (Some COMPLETE)
    /\ o_liveTask o = Some 0%nat
    /\ o_completedTasks o = Some {[ "t1" := 0%nat ]}
    /\ live_key world_t1_ran o = Some "t1"
    /\ "t1" ∈ completed_keys o
    /\ ~ partition_exact world_t1_ran o
    /\ ownerStore (turn world_t1_ran) !! 0%nat = Some o
    /\ timers (turn world_t1_ran) = [].
Proof.
  exists (default (mkOwner "" VNull VNull None None None None)
            (ownerStore world_t1_scheduled !! 0%nat)),
         (default (mkOwner "" VNull VNull None None None None)
            (ownerStore world_t1_ran !! 0%nat)).
  assert (Hc : "t1" ∈ completed_keys
                 (default (mkOwner "" VNull VNull None None None None)
                    (ownerStore world_t1_ran !! 0%nat))).
  { unfold completed_keys. apply elem_of_dom. exists 0%nat.
    vm_compute. reflexivity. }
  assert (Hl : live_key world_t1_ran
                 (default (mkOwner "" VNull VNull None None None None)
                    (ownerStore world_t1_ran !! 0%nat)) = Some "t1")
    by (vm_compute; reflexivity).
  do 9 (split; [vm_compute; reflexivity |]).
  split; [exact Hl |]. split; [exact Hc |].
  split; [| split; vm_compute; reflexivity].
  intros Hpart. destruct (Hpart "t1") as (_ & _ & Hboth). apply Hboth.
  split; [exact Hl | exact Hc].
Qed.

(** For instance after [add(t1)], [getNext(true)] and [completed(t1, false)]:
    t1 is live and completed, not pending. *)
Lemma owner_sets_by_design_witness :
  released (default (mkOwner "" VNull VNull None None None None)
              (ownerStore world_t1_completed !! 0%nat))
  \/ partition_by_design world_t1_completed
       (default (mkOwner "" VNull VNull None None None None)
          (ownerStore world_t1_completed !! 0%nat)).
Proof.
  apply (owner_sets_by_design 0%nat (∅ ∪ {[0%nat]})).
  - unfold world_t1_completed.
    apply reach_completed; [| discriminate].
    apply reach_getNext.
    eapply reach_add.
    + eapply reach_new; vm_compute; reflexivity.
    + vm_compute. reflexivity.
    + vm_compute. repeat split; discriminate.
    + intros r' t' Hr'. apply not_elem_of_empty in Hr'. contradiction.
  - vm_compute. reflexivity.
Defined.

(** ** The cascade of [destroy] in general (claim C8) *)

(** [destroy] on each reference of a list, all of them stored: the tasks of
    the list are destroyed, the others are untouched. *)
Lemma destroy_each (l : list (string * ref)) (w : World) :
  (forall kr, kr ∈ l -> is_Some (taskStore w !! snd kr)) ->
  exists w',
    for_each (fun kr => updTask (snd kr) Task_destroy) l w = (Normal tt, w')
    /\ ownerStore w' = ownerStore w
    /\ forall r t,
         taskStore w !! r = Some t ->
         taskStore w' !! r
         = Some (if bool_decide (r ∈ (snd <$> l)) then Task_destroy t else t).
Proof.
  revert w. induction l as [| [k r0] l IH]; intros w Hall.
  - exists w. split; [reflexivity |]. split; [reflexivity |].
    intros r t Hr. rewrite bool_decide_eq_false_2; [exact Hr |].
    apply not_elem_of_nil.
  - simpl. destruct (Hall (k, r0)) as [t0 Ht0]; [apply elem_of_cons; left; reflexivity |].
    simpl in Ht0. rewrite run_bind, (updTask_Some _ _ _ _ Ht0). cbv beta iota.
    set (w1 := set_taskStore _ w).
    destruct (IH w1) as (w' & Hrun & Hos & Hstore).
    { intros kr Hkr. subst w1. simpl.
      destruct (decide (r0 = snd kr)) as [<- | Hne].
      - rewrite lookup_insert_eq. eauto.
      - rewrite lookup_insert_ne by exact Hne.
        apply Hall. apply elem_of_cons. right. exact Hkr. }
    exists w'. split; [exact Hrun |]. split; [rewrite Hos; reflexivity |].
    intros r t Hr.
    destruct (decide (r = r0)) as [-> | Hne].
    + assert (t = t0) by congruence. subst t.
      rewrite (Hstore r0 (Task_destroy t0)); [| subst w1; simpl; apply lookup_insert_eq].
      rewrite (bool_decide_eq_true_2 (r0 ∈ r0 :: _))
        by (apply elem_of_cons; left; reflexivity).
      destruct (bool_decide (r0 ∈ snd <$> l)); [| reflexivity].
      rewrite Task_destroy_idempotent. reflexivity.
    + rewrite (Hstore r t);
        [| subst w1; simpl; rewrite lookup_insert_ne by congruence; exact Hr].
      f_equal. destruct (bool_decide (r ∈ snd <$> l)) eqn:E.
      * apply bool_decide_eq_true in E.
        rewrite (bool_decide_eq_true_2 (r ∈ r0 :: _)); [reflexivity |].
        apply elem_of_cons. right. exact E.
      * apply bool_decide_eq_false in E.
        rewrite (bool_decide_eq_false_2 (r ∈ r0 :: _)); [reflexivity |].
        intros Hin. apply elem_of_cons in Hin as [Hin | Hin]; [congruence | contradiction].
Qed.

(** [Owner.destroy] in general: it runs normally, releases the three
    collections and applies [Task.destroy] to the live task and to every
    pending task, and to no other.  By [Task_destroy_state] each of these
    tasks that was not COMPLETE is left with the state [undefined]. *)
Lemma destroy_cascades (this : oref) (w : World) (o : OwnerObj)
      (m : gmap string ref) :
  ownerStore w !! this = Some o ->
  o_tasks o = Some m ->
  (forall k r, m !! k = Some r -> is_Some (taskStore w !! r)) ->
  (forall r, o_liveTask o = Some r -> is_Some (taskStore w !! r)) ->
  exists w' o',
    Owner_destroy this w = (Normal tt, w')
    /\ ownerStore w' !! this = Some o' /\ released o'
    /\ forall r t,
         taskStore w !! r = Some t ->
         (o_liveTask o = Some r \/ (exists k, m !! k = Some r) ->
          taskStore w' !! r = Some (Task_destroy t))
         /\ (~ (o_liveTask o = Some r \/ exists k, m !! k = Some r) ->
             taskStore w' !! r = Some t).
Proof.
  intros Ho Hm Hpending Hlive. unfold Owner_destroy. mrun.
  assert (Hfirst : exists w1,
            match o_liveTask o with
            | Some live => updTask live Task_destroy
            | None => mret tt
            end w = (Normal tt, w1)
            /\ ownerStore w1 = ownerStore w
            /\ forall r t,
                 taskStore w !! r = Some t ->
                 taskStore w1 !! r
                 = Some (if bool_decide (o_liveTask o = Some r)
                         then Task_destroy t else t)).
  { destruct (o_liveTask o) as [live |] eqn:El.
    - destruct (Hlive live eq_refl) as [tl Htl].
      rewrite (updTask_Some _ _ _ _ Htl). eexists. split; [reflexivity |].
      split; [reflexivity |]. intros r t Hr. simpl.
      destruct (decide (live = r)) as [<- | Hne].
      + rewrite lookup_insert_eq, bool_decide_eq_true_2 by reflexivity. congruence.
      + rewrite lookup_insert_ne by exact Hne.
        rewrite bool_decide_eq_false_2 by congruence. exact Hr.
    - exists w. split; [reflexivity |]. split; [reflexivity |].
      intros r t Hr. rewrite bool_decide_eq_false_2 by discriminate. exact Hr. }
  destruct Hfirst as (w1 & -> & Hos1 & Hstore1). cbv beta iota.
  rewrite Hm. unfold _destroyTasks. rewrite run_bind.
  destruct (destroy_each (map_to_list m) w1) as (w2 & -> & Hos2 & Hstore2).
  { intros [k r] Hkr. apply elem_of_map_to_list in Hkr. simpl.
    destruct (Hpending k r Hkr) as [t Ht].
    rewrite (Hstore1 r t Ht). eauto. }
  cbv beta iota.
  assert (Ho2 : ownerStore w2 !! this = Some o) by (rewrite Hos2, Hos1; exact Ho).
  mrun. eexists _, _. split; [reflexivity |].
  split; [apply put_owner_lookup |]. split; [repeat split |].
  intros r t Hr.
  change (taskStore (put_owner this _ w2)) with (taskStore w2).
  rewrite (Hstore2 r _ (Hstore1 r t Hr)).
  assert (Hiff : r ∈ snd <$> map_to_list m <-> exists k, m !! k = Some r).
  { split.
    - intros Hin. apply list_elem_of_fmap in Hin as ([k r'] & -> & Hin).
      apply elem_of_map_to_list in Hin. eauto.
    - intros [k Hk]. apply list_elem_of_fmap. exists (k, r).
      split; [reflexivity |]. apply elem_of_map_to_list. exact Hk. }
  destruct (bool_decide (o_liveTask o = Some r)) eqn:E1;
    destruct (bool_decide (r ∈ snd <$> map_to_list m)) eqn:E2;
    try apply bool_decide_eq_true in E1; try apply bool_decide_eq_true in E2;
    try apply bool_decide_eq_false in E1; try apply bool_decide_eq_false in E2.
  - rewrite Task_destroy_idempotent. split; [reflexivity |].
    intros Hn. exfalso. apply Hn. left. exact E1.
  - split; [reflexivity |]. intros Hn. exfalso. apply Hn. left. exact E1.
  - split; [reflexivity |]. intros Hn. exfalso. apply Hn. right. apply Hiff. exact E2.
  - split; [| reflexivity].
    intros [H | H]; [contradiction | exfalso; apply E2, Hiff; exact H].
Qed.

(** ** What an iteration task does in general (claims C1 and C2) *)

Lemma run_each_iterator (this : ref) (itr : Iterator) (idx : Z) (w : World)
      (t : TaskObj) (f : JsFun) :
  each_iterator itr ->
  taskStore w !! this = Some t -> t_fn t = Some f ->
  run_iterator this itr idx w
  = (Normal tt, put_event (EvFn this (itr_context itr) (iterator_args itr idx)) w).
Proof.
  intros Heach Ht Hf. unfold run_iterator, iterator_args, call_fn.
  destruct Heach as [[Hk (elems & extra & Hl)] | [Hk (props & keys & Hl & Hkeys)]];
    rewrite Hk, ?Hl, ?Hkeys.
  - mrun. rewrite Hf. mrun.
    assert (Hget : exists x, get_prop (VArr elems extra) (VNum idx) = Some x).
    { simpl. destruct ((0 <=? idx) && (idx <? Z.of_nat (length elems))); eauto. }
    destruct Hget as [x Hx]. rewrite Hx. mrun. rewrite Hf. mrun. reflexivity.
  - mrun. rewrite Hf. mrun. cbn [get_prop default]. mrun. rewrite Hf. mrun.
    reflexivity.
Qed.


Lemma iterate_unfold (fuel : nat) (c : IterClosure) :
  iterate fuel c
  = (it ← getIteration (ic_me c);
     itr ← expect TypeError (it_iterator it);
     run_iterator (ic_me c) itr (it_currentIteration it);;
     updIteration (ic_me c)
       (fun i => set_it_currentIteration (it_currentIteration i + 1) i);;
     g ← gets global_iterate;
     c' ← expect (ReferenceError "nextIteration") g;
     me ← getTask (ic_me c');
     it' ← getIteration (ic_me c');
     let idx := it_currentIteration it' in
     if negb (state_eq (t_state me) (statics_state "ACTIVE"))
        && negb (state_eq (t_state me) (statics_state "PENDING"))
     then mret tt
     else if idx <? ic_length c'
          then
            if rem_is_zero idx (it_step it')
            then defer (DIterate c')
            else match fuel with
                 | O => throw Stuck
                 | S fuel' => iterate fuel' c'
                 end
          else onComplete c').
Proof. destruct fuel; reflexivity. Qed.

Lemma getIteration_Some (r : ref) (t : TaskObj) (it : IterationFields)
      (w : World) :
  taskStore w !! r = Some t -> t_iteration t = Some it ->
  getIteration r w = (Normal it, w).
Proof.
  intros Ht Hit. unfold getIteration.
  rewrite run_bind, (getTask_Some _ _ _ Ht), Hit. reflexivity.
Qed.

Lemma iterator_calls_S (this : ref) (itr : Iterator) (from : Z) (n : nat) :
  iterator_calls this itr from (S n)
  = (this, iterator_args itr from) :: iterator_calls this itr (from + 1) n.
Proof.
  unfold iterator_calls. simpl. rewrite Z.add_0_r. f_equal.
  rewrite <- seq_shift, <- list_fmap_compose. apply list_fmap_ext.
  intros i x _. simpl. do 2 f_equal. lia.
Qed.

Lemma iterator_calls_one (this : ref) (itr : Iterator) (from : Z) :
  iterator_calls this itr from (Z.to_nat 1) = [(this, iterator_args itr from)].
Proof.
  change (Z.to_nat 1) with 1%nat. unfold iterator_calls. simpl.
  rewrite Z.add_0_r. reflexivity.
Qed.

Lemma quiet_onComplete_tail (c : IterClosure) :
  preserves quiet
    (Owner_completed (ic_owner c) (ic_me c) (ic_manualOverride c);;
     call_task_callback (ic_me c);;
     me ← getTask (ic_me c);
     call_next (ic_next c) (t_result me)).
Proof.
  repeat first
    [ apply quiet_Owner_completed
    | apply quiet_call_task_callback
    | apply quiet_call_next
    | quiet_tac ].
Qed.

(** The first application of one run of [iterate], up to the test of
    [nextIteration]. *)
Lemma iterate_first (fuel : nat) (c : IterClosure) (f : JsFun) (itr : Iterator)
      (res : value) (idx : Z) (w : World) :
  each_iterator itr ->
  iterating c f itr res idx w ->
  exists w2 step,
    iterate fuel c w
    = (if idx + 1 <? ic_length c
       then if rem_is_zero (idx + 1) step
            then defer (DIterate c)
            else match fuel with
                 | O => throw Stuck
                 | S fuel' => iterate fuel' c
                 end
       else onComplete c) w2
    /\ fn_calls (trace w2)
       = (fn_calls (trace w) ++ [(ic_me c, iterator_args itr idx)])%list
    /\ iterating c f itr res (idx + 1) w2
    /\ timers w2 = timers w.
Proof.
  intros Heach (Hg & t & it & Ht & Hst & Hf & Hres & Hiter & Hitr & Hcur).
  rewrite iterate_unfold. mrun.
  rewrite (getIteration_Some _ _ _ _ Ht Hiter). mrun.
  rewrite Hitr. mrun. rewrite Hcur.
  rewrite (run_each_iterator _ _ _ _ t f Heach Ht Hf). mrun.
  set (w1 := put_event _ w).
  assert (Ht1 : taskStore w1 !! ic_me c = Some t) by exact Ht.
  unfold updIteration. rewrite (updTask_Some _ _ _ _ Ht1). mrun.
  rewrite Hiter. cbn [option_map]. rewrite Hcur.
  set (t2 := set_t_iteration _ t). set (w2 := set_taskStore _ w1).
  assert (Ht2 : taskStore w2 !! ic_me c = Some t2) by apply lookup_insert_eq.
  rewrite gets_run. mrun.
  change (global_iterate w2) with (global_iterate w). rewrite Hg. mrun.
  rewrite (getIteration_Some _ t2 (set_it_currentIteration (idx + 1) it) _
             Ht2 eq_refl). mrun.
  change (t_state t2) with (t_state t). rewrite Hst.
  change (negb (state_eq (Some ACTIVE) (statics_state "ACTIVE"))
          && negb (state_eq (Some ACTIVE) (statics_state "PENDING")))
    with false. mrun.
  cbn [it_currentIteration set_it_currentIteration it_step].
  exists w2, (it_step it). split; [reflexivity |]. split; [| split; [| reflexivity]].
  - subst w2 w1. simpl. rewrite fn_calls_app. reflexivity.
  - split; [exact Hg |].
    exists t2, (set_it_currentIteration (idx + 1) it).
    split; [exact Ht2 |]. repeat split; assumption.
Qed.

(** The closure [onComplete] on a task whose cursor is at the length. *)
Lemma onComplete_at_length (c : IterClosure) (f : JsFun) (itr : Iterator)
      (res : value) (w : World) :
  iterating c f itr res (ic_length c) w ->
  exists out w',
    onComplete c w = (out, w')
    /\ fn_calls (trace w') = fn_calls (trace w)
    /\ iteration_complete c res w'.
Proof.
  intros (Hg & t & it & Ht & Hst & Hf & Hres & Hiter & Hitr & Hcur).
  unfold onComplete. rewrite run_bind, (updTask_Some _ _ _ _ Ht). cbv beta iota.
  set (w1 := set_taskStore _ w).
  pose proof (quiet_onComplete_tail c w1) as [Hq1 Hq2].
  destruct ((Owner_completed (ic_owner c) (ic_me c) (ic_manualOverride c);;
             call_task_callback (ic_me c);;
             me ← getTask (ic_me c);
             call_next (ic_next c) (t_result me)) w1) as [out w'].
  exists out, w'. split; [reflexivity |]. split; [exact Hq2 |].
  exists (set_t_state (statics_state "COMPLETE") t), it.
  cbn [snd] in Hq1. rewrite Hq1. split; [apply lookup_insert_eq |].
  repeat split; assumption.
Qed.

Lemma iterating_timers (c : IterClosure) (f : JsFun) (itr : Iterator)
      (res : value) (idx : Z) (w : World) (q : list Deferred) :
  iterating c f itr res idx w -> iterating c f itr res idx (set_timers q w).
Proof. intros H. exact H. Qed.

(** One run of [iterate]: it applies the function at the cursor and at the
    indices after it up to the next yield or to the end. *)
Lemma iterate_chunk (c : IterClosure) (f : JsFun) (itr : Iterator) (res : value) :
  each_iterator itr ->
  forall (n fuel : nat) (idx : Z) (w : World),
    iterating c f itr res idx w ->
    idx < ic_length c ->
    Z.to_nat (ic_length c - 1 - idx) = n ->
    (n <= fuel)%nat ->
    exists j out w',
      iterate fuel c w = (out, w')
      /\ idx < j <= ic_length c
      /\ fn_calls (trace w')
         = (fn_calls (trace w)
              ++ iterator_calls (ic_me c) itr idx (Z.to_nat (j - idx)))%list
      /\ ((j < ic_length c /\ iterating c f itr res j w'
           /\ timers w' = (timers w ++ [DIterate c])%list)
          \/ (j = ic_length c /\ iteration_complete c res w')).
Proof.
  intros Heach n. induction n as [| n IH]; intros fuel idx w Hit Hlt Hn Hfuel.
  all: destruct (iterate_first fuel c f itr res idx w Heach Hit)
         as (w2 & step & -> & Hcalls1 & Hit2 & Htimers).
  - (* no further element may follow *)
    assert (Hend : idx + 1 = ic_length c) by lia.
    rewrite (proj2 (Z.ltb_ge _ _)) by lia. rewrite Hend in Hit2.
    destruct (onComplete_at_length c f itr res w2 Hit2)
      as (out & w' & -> & Hcalls & Hcomplete).
    exists (ic_length c), out, w'. split; [reflexivity |]. split; [lia |].
    split.
    + rewrite Hcalls, Hcalls1. replace (ic_length c - idx) with 1 by lia.
      rewrite iterator_calls_one. reflexivity.
    + right. auto.
  - destruct (Z.ltb_spec (idx + 1) (ic_length c)) as [Hmore | Hend].
    + destruct (rem_is_zero (idx + 1) step).
      * (* yield *)
        exists (idx + 1). eexists _, _. split; [reflexivity |]. split; [lia |].
        split; [| left; split; [exact Hmore |]; split].
        -- replace (idx + 1 - idx) with 1 by lia.
           rewrite iterator_calls_one. exact Hcalls1.
        -- exact Hit2.
        -- simpl. rewrite Htimers. reflexivity.
      * (* go on in the same turn *)
        destruct fuel as [| fuel']; [lia |].
        destruct (IH fuel' (idx + 1) w2 Hit2 Hmore ltac:(lia) ltac:(lia))
          as (j & out & w' & Hrun & Hj & Hcalls & Hcase).
        exists j, out, w'. split; [exact Hrun |]. split; [lia |]. split.
        -- rewrite Hcalls, Hcalls1, <- app_assoc. f_equal.
           replace (Z.to_nat (j - idx)) with (S (Z.to_nat (j - (idx + 1)))) by lia.
           rewrite iterator_calls_S. reflexivity.
        -- destruct Hcase as [(H1 & H2 & H3) | H]; [left | right; exact H].
           split; [exact H1 |]. split; [exact H2 |]. rewrite H3, Htimers. reflexivity.
    + assert (Hend' : idx + 1 = ic_length c) by lia. rewrite Hend' in Hit2.
      destruct (onComplete_at_length c f itr res w2 Hit2)
        as (out & w' & -> & Hcalls & Hcomplete).
      exists (ic_length c), out, w'. split; [reflexivity |]. split; [lia |].
      split.
      * rewrite Hcalls, Hcalls1. replace (ic_length c - idx) with 1 by lia.
        rewrite iterator_calls_one. reflexivity.
      * right. auto.
Qed.


Lemma iterator_calls_app (this : ref) (itr : Iterator) (from : Z) (a b : nat) :
  iterator_calls this itr from (a + b)
  = (iterator_calls this itr from a
       ++ iterator_calls this itr (from + Z.of_nat a) b)%list.
Proof.
  revert from. induction a as [| a IH]; intros from.
  - simpl. rewrite Z.add_0_r. reflexivity.
  - change (S a + b)%nat with (S (a + b)).
    rewrite !iterator_calls_S, IH. simpl. do 3 f_equal. lia.
Qed.

(** The turns of the host that follow a yield, up to completion. *)
Lemma iterate_turns (c : IterClosure) (f : JsFun) (itr : Iterator) (res : value) :
  each_iterator itr ->
  forall (n : nat) (idx : Z) (w : World),
    iterating c f itr res idx w ->
    timers w = [DIterate c] ->
    -1 <= idx < ic_length c ->
    (Z.to_nat (ic_length c - idx) <= n)%nat ->
    exists k,
      iteration_complete c res (turns k w)
      /\ fn_calls (trace (turns k w))
         = (fn_calls (trace w)
              ++ iterator_calls (ic_me c) itr idx
                   (Z.to_nat (ic_length c - idx)))%list.
Proof.
  intros Heach n. induction n as [| n IH]; intros idx w Hit Htimers Hidx Hn;
    [lia |].
  assert (Hturn : turn w
                  = snd (iterate (S (Z.to_nat (ic_length c))) c (set_timers [] w))).
  { unfold turn. rewrite Htimers. unfold run_deferred.
    rewrite run_bind, gets_run. cbv beta iota.
    unfold iterate_fuel. destruct Hit as (Hg & _).
    change (global_iterate (set_timers [] w)) with (global_iterate w).
    rewrite Hg. reflexivity. }
  destruct (iterate_chunk c f itr res Heach
              (Z.to_nat (ic_length c - 1 - idx)) (S (Z.to_nat (ic_length c)))
              idx (set_timers [] w) (iterating_timers _ _ _ _ _ _ _ Hit)
              ltac:(lia) eq_refl ltac:(lia))
    as (j & out & w' & Hrun & Hj & Hcalls & Hcase).
  rewrite Hrun in Hturn. cbn [snd] in Hturn.
  destruct Hcase as [(Hmore & Hit' & Htimers') | (-> & Hcomplete)].
  - destruct (IH j w' Hit' Htimers' ltac:(lia) ltac:(lia)) as (k & Hdone & Hcalls').
    exists (S k). cbn [turns]. rewrite Hturn. split; [exact Hdone |].
    rewrite Hcalls', Hcalls. cbn [trace set_timers]. rewrite <- app_assoc. f_equal.
    replace (Z.to_nat (ic_length c - idx))
      with (Z.to_nat (j - idx) + Z.to_nat (ic_length c - j))%nat by lia.
    rewrite iterator_calls_app. do 2 f_equal. lia.
  - exists 1%nat. cbn [turns]. rewrite Hturn. split; [exact Hcomplete |].
    rewrite Hcalls. reflexivity.
Qed.


Lemma collection_length_nonneg (lst : value) : 0 <= collection_length lst.
Proof. unfold collection_length. destruct lst; lia. Qed.

(** [execute] on a pending iteration task as the constructor builds it, up to
    the first call of [iterate]. *)
Lemma IterationTask_execute_setup (w : World) (this : ref) (owner : oref)
      (next : Continuation) (manualOverride : bool) (t : TaskObj)
      (it : IterationFields) (o : OwnerObj) (f : JsFun) :
  taskStore w !! this = Some t ->
  ownerStore w !! owner = Some o ->
  t_state t = Some PENDING -> t_fn t = Some f ->
  t_iteration t = Some it ->
  it_iterator it = None -> it_type it = VUndefined ->
  it_currentIteration it = -1 ->
  (exists elems extra, it_list it = VArr elems extra)
  \/ (exists props, it_list it = VObj props) ->
  let c := mkIterClosure this owner next manualOverride
                         (collection_length (it_list it)) in
  exists w0,
    IterationTask_execute this owner next manualOverride w
    = (iterate (S (Z.to_nat (collection_length (it_list it)))) c;;
       mret VUndefined) w0
    /\ each_iterator (iterator_of t it o)
    /\ iterating c f (iterator_of t it o) (t_result t) (-1) w0
    /\ timers w0 = timers w
    /\ trace w0 = trace w.
Proof.
  intros Ht Ho Hst Hf Hiter Hnone Htype Hcur Hshape c.
  unfold IterationTask_execute. mrun.
  rewrite (getIteration_Some _ _ _ _ Ht Hiter). mrun.
  rewrite Hst.
  change (state_eq (Some PENDING) (statics_state "ACTIVE")
          || state_eq (Some PENDING) (statics_state "COMPLETE")) with false.
  mrun. rewrite Htype.
  change (loose_eq_type VUndefined (statics_type "MAP")) with false.
  rewrite andb_false_r.
  destruct Hshape as [(elems & extra & Hl) | (props & Hl)].
  - (* an array *)
    assert (Heach : each_iterator (iterator_of t it o)).
    { left. unfold iterator_of. rewrite Hl. simpl. eauto. }
    unfold iterator_of in *. subst c. rewrite Hl in Heach. rewrite !Hl.
    cbn [isArray array_length expect collection_length]. mrun.
    rewrite (getIteration_Some _ _ _ _ Ht Hiter). mrun. rewrite Hnone.
    unfold updIteration. rewrite (updTask_Some _ _ _ _ Ht). mrun.
    rewrite Hiter, Htype, Hl. cbn [option_map].
    rewrite modify_run. mrun.
    set (t1 := set_t_iteration _ t). set (w1 := set_global_iterate _ _).
    assert (Ht1 : taskStore w1 !! this = Some t1) by apply lookup_insert_eq.
    rewrite (updTask_Some _ _ _ _ Ht1). mrun.
    rewrite gets_run. mrun.
    set (w0 := set_taskStore _ w1).
    exists w0. split; [reflexivity |]. split; [exact Heach |].
    split; [| split; reflexivity].
    split; [reflexivity |].
    eexists _, _. split; [apply lookup_insert_eq |].
    subst t1. cbn. rewrite ?Hl. repeat split; try assumption; reflexivity.
  - (* a keyed collection *)
    assert (Heach : each_iterator (iterator_of t it o)).
    { right. unfold iterator_of. rewrite Hl. simpl. eauto. }
    unfold iterator_of in *. subst c. rewrite Hl in Heach. rewrite !Hl.
    cbn [isArray Object_keys expect collection_length default]. mrun.
    unfold updIteration at 1. rewrite (updTask_Some _ _ _ _ Ht). mrun.
    rewrite Hiter. cbn [option_map].
    set (t1 := set_t_iteration _ t). set (w1 := set_taskStore _ w).
    assert (Ht1 : taskStore w1 !! this = Some t1) by apply lookup_insert_eq.
    rewrite (getIteration_Some _ t1 (set_it_keys (Some (List.map fst props)) it)
               _ Ht1 eq_refl). mrun.
    cbn [it_iterator set_it_keys]. rewrite Hnone.
    unfold updIteration. rewrite (updTask_Some _ _ _ _ Ht1). mrun.
    cbn [it_type it_list it_keys set_it_keys]. rewrite Htype, Hl.
    rewrite modify_run. mrun.
    set (t2 := set_t_iteration _ t1). set (w2 := set_global_iterate _ _).
    assert (Ht2 : taskStore w2 !! this = Some t2) by apply lookup_insert_eq.
    rewrite (updTask_Some _ _ _ _ Ht2). mrun.
    rewrite gets_run. mrun.
    set (w0 := set_taskStore _ w2).
    exists w0. split; [reflexivity |]. split; [exact Heach |].
    split; [| split; reflexivity].
    split; [reflexivity |].
    eexists _, _. split; [apply lookup_insert_eq |].
    subst t2 t1. cbn. rewrite ?Hl. repeat split; try assumption; reflexivity.
Qed.


(** Every iteration task as the constructor builds it, over an array or a
    plain object of length [L], run to completion on an otherwise idle host:
    it becomes COMPLETE with its cursor at [L] and its result as it was
    before, after having applied its function [L + 1] times, at the indices
    -1, 0, ..., [L - 1], with the arguments of an each-iterator, whatever
    type and step were configured. *)
Lemma constructed_iteration_run (w : World) (this : ref) (owner : oref)
      (next : Continuation) (manualOverride : bool) (t : TaskObj)
      (it : IterationFields) (o : OwnerObj) (f : JsFun) :
  taskStore w !! this = Some t ->
  ownerStore w !! owner = Some o ->
  timers w = [] ->
  t_state t = Some PENDING -> t_fn t = Some f ->
  t_iteration t = Some it ->
  it_iterator it = None -> it_type it = VUndefined ->
  it_currentIteration it = -1 ->
  (exists elems extra, it_list it = VArr elems extra)
  \/ (exists props, it_list it = VObj props) ->
  let L := collection_length (it_list it) in
  let c := mkIterClosure this owner next manualOverride L in
  exists k,
    let w' := turns k (snd (IterationTask_execute this owner next
                              manualOverride w)) in
    iteration_complete c (t_result t) w'
    /\ fn_calls (trace w')
       = (fn_calls (trace w)
            ++ iterator_calls this (iterator_of t it o) (-1) (S (Z.to_nat L)))%list
    /\ length (iterator_calls this (iterator_of t it o) (-1) (S (Z.to_nat L)))
       = S (Z.to_nat L).
Proof.
  intros Ht Ho Htimers Hst Hf Hiter Hnone Htype Hcur Hshape L c.
  destruct (IterationTask_execute_setup w this owner next manualOverride t it o f
              Ht Ho Hst Hf Hiter Hnone Htype Hcur Hshape)
    as (w0 & Hrun & Heach & Hit & Htimers0 & Htrace0).
  fold L c in Hrun, Hit. rewrite Hrun, snd_then_value.
  pose proof (collection_length_nonneg (it_list it)) as HL. fold L in HL.
  assert (Hlen : length (iterator_calls this (iterator_of t it o) (-1)
                           (S (Z.to_nat L))) = S (Z.to_nat L)).
  { unfold iterator_calls. rewrite length_fmap, length_seq. reflexivity. }
  destruct (iterate_chunk c f (iterator_of t it o) (t_result t) Heach
              (Z.to_nat (ic_length c - 1 - -1)) (S (Z.to_nat L)) (-1) w0 Hit
              ltac:(simpl; lia) eq_refl ltac:(simpl; lia))
    as (j & out & w' & Hrun' & Hj & Hcalls & Hcase).
  rewrite Hrun'. cbn [snd]. cbn [ic_length c] in Hj, Hcase.
  destruct Hcase as [(Hmore & Hit' & Htimers') | (-> & Hcomplete)].
  - rewrite Htimers0, Htimers in Htimers'.
    destruct (iterate_turns c f (iterator_of t it o) (t_result t) Heach
                (Z.to_nat (ic_length c - j)) j w' Hit' Htimers'
                ltac:(simpl; lia) ltac:(lia))
      as (k & Hdone & Hcalls').
    exists k. split; [exact Hdone |]. split; [| exact Hlen].
    rewrite Hcalls', Hcalls, Htrace0, <- app_assoc. f_equal.
    cbn [ic_me ic_length c].
    replace (S (Z.to_nat L))
      with (Z.to_nat (j - -1) + Z.to_nat (L - j))%nat by lia.
    rewrite iterator_calls_app. do 2 f_equal. lia.
  - exists 0%nat. cbn [turns]. split; [exact Hcomplete |]. split; [| exact Hlen].
    rewrite Hcalls, Htrace0. cbn [ic_me c]. do 2 f_equal. lia.
Qed.


(** The task [new IterationTask(config)] builds meets the conditions of
    [constructed_iteration_run], whatever type [config] asks for. *)
Lemma constructed_iteration_task (config : Config) (counter : Z) :
  let t := fst (IterationTask_construct IterationTask_prototype config counter) in
  t_state t = Some PENDING /\ t_fn t = cfg_fn config /\ t_result t = VNull
  /\ exists it,
       t_iteration t = Some it
       /\ it_iterator it = None /\ it_type it = VUndefined
       /\ it_currentIteration it = -1 /\ it_list it = cfg_list config.
Proof.
  unfold IterationTask_construct, Task_construct. simpl.
  destruct (truthy (cfg_id config)); simpl;
    (split; [reflexivity |]; split; [reflexivity |]; split; [reflexivity |];
     eexists; split; [reflexivity |]; repeat split).
Qed.

(** [constructed_iteration_run] at the task t2 over [1, 2, 3]: four calls. *)
Lemma constructed_iteration_run_example :
  exists k,
    fn_calls (trace (turns k (snd (IterationTask_execute 0%nat 0%nat
                                     (KExecuteTask 0%nat true) true
                                     world_iteration_pending))))
    = [(0%nat, [VUndefined; VNum (-1); VArr [VNum 1; VNum 2; VNum 3] []]);
       (0%nat, [VNum 1; VNum 0; VArr [VNum 1; VNum 2; VNum 3] []]);
       (0%nat, [VNum 2; VNum 1; VArr [VNum 1; VNum 2; VNum 3] []]);
       (0%nat, [VNum 3; VNum 2; VArr [VNum 1; VNum 2; VNum 3] []])].
Proof.
  assert (Ht : exists t it,
             taskStore world_iteration_pending !! 0%nat = Some t
             /\ t_state t = Some PENDING /\ t_fn t = Some fn_double
             /\ t_iteration t = Some it /\ it_iterator it = None
             /\ it_type it = VUndefined /\ it_currentIteration it = -1
             /\ it_list it = VArr [VNum 1; VNum 2; VNum 3] []
             /\ it_keys it = None /\ t_context t = VNull).
  { do 2 eexists. split; [vm_compute; reflexivity |]. repeat split. }
  destruct Ht as (t & it & Ht & Hst & Hf & Hit & Hnone & Hty & Hcur & Hlist & Hkeys
                  & Hctx).
  assert (Ho : exists o, ownerStore world_iteration_pending !! 0%nat = Some o
                         /\ o_origin o = VObj []).
  { eexists. split; [vm_compute; reflexivity | reflexivity]. }
  destruct Ho as (o & Ho & Horigin).
  assert (Htm : timers world_iteration_pending = []) by (vm_compute; reflexivity).
  assert (Htr : trace world_iteration_pending = []) by (vm_compute; reflexivity).
  destruct (constructed_iteration_run world_iteration_pending 0%nat 0%nat
              (KExecuteTask 0%nat true) true t it o fn_double
              Ht Ho Htm Hst Hf Hit Hnone Hty Hcur)
    as (k & _ & Hcalls & _).
  { left. rewrite Hlist. eauto. }
  exists k. rewrite Hcalls, Htr.
  unfold iterator_of. rewrite Hlist, Hctx, Horigin, Hkeys.
  vm_compute. reflexivity.
Qed.

(** ** The dispatcher and [activeOnly] tasks in general (claim C3) *)

Lemma getNext_scan_all_activeOnly (m : gmap string ref) (rest before : list value)
      (w : World) :
  (forall x, x ∈ rest ->
     exists r t, m !! ToString x = Some r /\ taskStore w !! r = Some t
                 /\ t_activeOnly t = true) ->
  getNext_scan m before rest w = (Normal None, w).
Proof.
  revert before. induction rest as [| x rest IH]; intros before Hall; simpl.
  - reflexivity.
  - destruct (Hall x) as (r & t & Hm & Ht & Ha); [apply elem_of_cons; left; reflexivity |].
    mrun. rewrite Hm. mrun. rewrite Ha. mrun.
    apply IH. intros y Hy. apply Hall. apply elem_of_cons. right. exact Hy.
Qed.

(** The only owner on the stack is active and all its pending tasks are
    [activeOnly]; no priority request is queued.  A dispatch pass hands out
    none of them: it only records that the dispatcher is idle. *)
Lemma performTask_skips_activeOnly (w : World) (a : string) (owner : oref)
      (o : OwnerObj) (m : gmap string ref) (l : list value) :
  _priorityStack (manager w) = [] ->
  _taskOwnerStack (manager w) = [a] ->
  _activeTaskOwner (manager w) = Some a ->
  _taskOwners (manager w) !! a = Some owner ->
  ownerStore w !! owner = Some o ->
  o_tasks o = Some m -> o_taskOrder o = Some l ->
  (forall x, x ∈ l ->
     exists r t, m !! ToString x = Some r /\ taskStore w !! r = Some t
                 /\ t_activeOnly t = true) ->
  _performTask w = (Normal tt, set_manager (set_running false (manager w)) w).
Proof.
  intros Hq Hstack Hactive Hreg Ho Hm Hl Hall.
  unfold _performTask, _performPriorityTask, getManager. mrun.
  rewrite !gets_run. mrun. rewrite Hq. mrun. rewrite gets_run. mrun.
  rewrite Hstack. unfold lookup_active_owner, getManager. mrun.
  rewrite gets_run. mrun. rewrite Hactive. mrun. rewrite Hreg. mrun.
  unfold Owner_getNext. mrun. rewrite Hl. mrun.
  destruct l as [| first others]; mrun.
  - reflexivity.
  - cbn [truthy]. mrun. rewrite Hm. mrun.
    rewrite (getNext_scan_all_activeOnly m (first :: others) [] w Hall). mrun.
    reflexivity.
Qed.

(** ** The head of the priority queue in general (claim C4) *)

(** The request at the head lists one task, which is complete and recorded
    in [completedTasks] (under an id that names no inherited member, which
    would hide it from [get]).  [_performPriorityTask] removes the request and
    answers false, whatever requests are queued behind it: the pass goes on
    to the owner stack. *)
Lemma exhausted_head_request_answers_false (w : World) (request : Request)
      (rest : list Request) (owner : oref) (o : OwnerObj) (taskId : value)
      (m cm : gmap string ref) (task : ref) (t : TaskObj) :
  _priorityStack (manager w) = request :: rest ->
  rq_taskIds request = [taskId] -> rq_currentIdx request = 0%nat ->
  rq_callback request = None ->
  _taskOwners (manager w) !! rq_ownerId request = Some owner ->
  ownerStore w !! owner = Some o ->
  o_tasks o = Some m -> o_completedTasks o = Some cm ->
  m !! ToString taskId = None -> inherited (ToString taskId) = false ->
  cm !! ToString taskId = Some task ->
  taskStore w !! task = Some t -> t_state t = Some COMPLETE ->
  exists w',
    _performPriorityTask w = (Normal false, w')
    /\ _priorityStack (manager w') = rest
    /\ timers w' = timers w.
Proof.
  intros Hq Hids Hidx Hcb Hreg Ho Hm Hcm Hmk Hinh Hck Ht Hst.
  unfold _performPriorityTask, getManager, lookup_owner, getManager. mrun.
  rewrite !gets_run. mrun. rewrite Hq. mrun. rewrite gets_run. mrun.
  rewrite Hreg. mrun. rewrite Hids, Hidx.
  change ([taskId] !! 0%nat) with (Some taskId).
  change (drop 1 [taskId]) with (@nil value).
  change (default VUndefined (Some taskId)) with taskId.
  unfold Owner_get. mrun. rewrite Hm. mrun. rewrite Hmk, Hinh. mrun.
  rewrite Hcm. mrun. rewrite Hck. mrun.
  cbn [priority_walk]. mrun.
  unfold Task_isComplete. rewrite Hst.
  change (state_eq (Some COMPLETE) (statics_state "COMPLETE")) with true. mrun.
  unfold updHeadRequest, updManager. rewrite modify_run. mrun.
  cbn [manager set_manager]. rewrite Hq. mrun.
  rewrite gets_run. mrun. rewrite modify_run. mrun.
  cbn [manager set_manager _priorityStack set_priorityStack head tail default
       rq_callback]. rewrite Hcb. mrun.
  eexists. split; [reflexivity |]. split; reflexivity.
Qed.

(** ** Plain tasks: what [execute] does outside the guarded states *)

(** [execute] of a plain task that is neither ACTIVE nor COMPLETE, up to the
    notification of the owner: the function has been called and the task is
    COMPLETE with its result. *)
Lemma Task_execute_unguarded (w : World) (task : ref) (owner : oref)
      (next : Continuation) (manualOverride : bool) (t : TaskObj)
      (o : OwnerObj) (f : JsFun) :
  taskStore w !! task = Some t ->
  ownerStore w !! owner = Some o ->
  t_iteration t = None ->
  t_state t <> Some ACTIVE -> t_state t <> Some COMPLETE ->
  t_fn t = Some f ->
  let context := js_or (t_context t) (o_origin o) in
  let args := default [] (t_arguments t) in
  let t' := set_t_state (Some COMPLETE)
              (set_t_result (f context args) (set_t_state (Some ACTIVE) t)) in
  execute task owner next manualOverride w
  = (Owner_completed owner task manualOverride;;
     call_task_callback task;;
     me ← getTask task;
     call_next next (t_result me);;
     mret VUndefined)
      (set_trace (trace w ++ [EvFn task context args])%list
         (set_taskStore (<[task := t']> (taskStore w)) w)).
Proof.
  intros Ht Ho Hit Hna Hnc Hf context args t'.
  unfold execute. rewrite run_bind, (getTask_Some _ _ _ Ht), Hit.
  unfold Task_execute.
  rewrite run_bind, (getTask_Some _ _ _ Ht).
  assert (Hg : state_eq (t_state t) (statics_state "ACTIVE")
               || state_eq (t_state t) (statics_state "COMPLETE") = false).
  { apply orb_false_intro; apply bool_decide_eq_false; assumption. }
  rewrite Hg. cbv iota.
  rewrite run_bind, (updTask_Some _ _ _ _ Ht).
  rewrite Hf. cbn [expect]. rewrite run_bind, run_ret.
  set (w1 := set_taskStore _ w).
  rewrite run_bind, (getOwner_Some owner o w1 Ho).
  fold context args.
  rewrite run_bind. unfold emit at 1, modify at 1.
  set (w2 := set_trace _ w1).
  assert (H2 : taskStore w2 !! task = Some (set_t_state (Some ACTIVE) t)).
  { simpl. apply lookup_insert_eq. }
  rewrite run_bind, (updTask_Some _ _ _ _ H2).
  set (w3 := set_taskStore _ w2).
  assert (H3 : taskStore w3 !! task
               = Some (set_t_result (f context args) (set_t_state (Some ACTIVE) t))).
  { simpl. apply lookup_insert_eq. }
  rewrite run_bind, (updTask_Some _ _ _ _ H3).
  set (w4 := set_taskStore _ w3).
  assert (E : w4 = set_trace (trace w ++ [EvFn task context args])%list
                     (set_taskStore (<[task := t']> (taskStore w)) w)).
  { subst w4 w3 w2 w1. unfold set_trace, set_taskStore. simpl.
    rewrite !insert_insert_eq. reflexivity. }
  rewrite E. reflexivity.
Qed.

Lemma quiet_execute_tail (task : ref) (owner : oref) (next : Continuation)
      (manualOverride : bool) :
  preserves quiet
    (Owner_completed owner task manualOverride;;
     call_task_callback task;;
     me ← getTask task;
     call_next next (t_result me);;
     mret VUndefined).
Proof.
  repeat first
    [ apply quiet_Owner_completed
    | apply quiet_call_task_callback
    | apply quiet_call_next
    | quiet_tac ].
Qed.

(** X1.  [pause] writes the constant [statics.state.PAUSE], which the state
    table does not declare: a task that is not COMPLETE is left with the state
    [undefined] (a COMPLETE one is left alone).  [execute] only refuses the
    states ACTIVE and COMPLETE, so the paused task still runs: its function is
    called once, with its arguments, and the task ends COMPLETE with the
    function's value as result. *)
Theorem pause_does_not_stop_execute (w : World) (task : ref) (owner : oref)
        (next : Continuation) (manualOverride : bool) (t : TaskObj)
        (o : OwnerObj) (f : JsFun) :
  taskStore w !! task = Some t ->
  ownerStore w !! owner = Some o ->
  t_iteration t = None ->
  t_fn t = Some f ->
  (t_state t = Some COMPLETE -> Task_pause t = t)
  /\ (t_state t <> Some COMPLETE ->
      let w1 := snd (updTask task Task_pause w) in
      let w2 := snd (execute task owner next manualOverride w1) in
      let args := default [] (t_arguments t) in
      (t_state <$> taskStore w1 !! task) = Some None
      /\ fn_calls (trace w2) = (fn_calls (trace w) ++ [(task, args)])%list
      /\ (t_state <$> taskStore w2 !! task) = Some (Some COMPLETE)
      /\ (t_result <$> taskStore w2 !! task)
         = Some (f (js_or (t_context t) (o_origin o)) args)).
Proof.
  intros Ht Ho Hit Hf. split.
  - intros Hs. unfold Task_pause. rewrite Hs. reflexivity.
  - intros Hs w1 w2 args.
    assert (Hp : Task_pause t = set_t_state None t).
    { unfold Task_pause.
      replace (state_eq (t_state t) (statics_state "COMPLETE")) with false.
      - reflexivity.
      - symmetry. apply bool_decide_eq_false. exact Hs. }
    assert (E1 : w1 = set_taskStore (<[task := set_t_state None t]> (taskStore w)) w).
    { subst w1. rewrite (updTask_Some _ _ _ _ Ht), Hp. reflexivity. }
    assert (Ht1 : taskStore w1 !! task = Some (set_t_state None t)).
    { rewrite E1. simpl. apply lookup_insert_eq. }
    assert (Ho1 : ownerStore w1 !! owner = Some o).
    { rewrite E1. exact Ho. }
    split; [rewrite Ht1; reflexivity |].
    pose proof (Task_execute_unguarded w1 task owner next manualOverride
                  (set_t_state None t) o f Ht1 Ho1 Hit) as Hrun.
    cbn zeta in Hrun. specialize (Hrun ltac:(discriminate) ltac:(discriminate) Hf).
    subst w2. rewrite Hrun.
    match goal with
    | |- context [snd (?m ?w0)] =>
        pose proof (quiet_execute_tail task owner next manualOverride w0) as [Hq1 Hq2]
    end.
    rewrite Hq1, Hq2. simpl. rewrite E1. simpl.
    rewrite fn_calls_app, lookup_insert_eq. simpl.
    repeat split; reflexivity.
Qed.

Lemma pause_does_not_stop_execute_witness :
  fn_calls (trace (snd (execute 0%nat 0%nat (KExecuteTask 0%nat false) false
                          (snd (updTask 0%nat Task_pause world_one_task)))))
  = [(0%nat, [])].
Proof.
  assert (Ht : exists t, taskStore world_one_task !! 0%nat = Some t
                         /\ t_iteration t = None
                         /\ t_fn t = Some (fn_const (VNum 7))
                         /\ t_state t <> Some COMPLETE
                         /\ t_arguments t = Some []).
  { eexists. split; [vm_compute; reflexivity |].
    repeat split; try reflexivity. discriminate. }
  destruct Ht as (t & Ht & Hit & Hf & Hs & Ha).
  assert (Ho : exists o, ownerStore world_one_task !! 0%nat = Some o).
  { eexists. vm_compute. reflexivity. }
  destruct Ho as (o & Ho).
  destruct (pause_does_not_stop_execute world_one_task 0%nat 0%nat
              (KExecuteTask 0%nat false) false t o (fn_const (VNum 7))
              Ht Ho Hit Hf) as [_ H].
  destruct (H Hs) as (_ & Hc & _).
  rewrite Hc, Ha. vm_compute. reflexivity.
Defined.

Lemma Task_destroy_iteration (t : TaskObj) :
  t_iteration (Task_destroy t) = t_iteration t.
Proof.
  unfold Task_destroy.
  destruct (negb (state_eq (t_state t) (statics_state "COMPLETE"))); reflexivity.
Qed.

(** X2.  [destroy] releases the function of a task and, unless the task is
    COMPLETE, leaves a state that [execute] does not refuse.  Executing such
    a task marks it ACTIVE and then fails on [this.fn.apply] with a TypeError:
    the owner is not notified, no continuation is called and nothing is
    deferred.  The task stays ACTIVE, so every later [execute] returns its
    (released) result [null] at once. *)
Theorem execute_after_destroy_throws (w : World) (task : ref) (owner : oref)
        (next : Continuation) (manualOverride : bool) (t : TaskObj)
        (o : OwnerObj) :
  taskStore w !! task = Some t ->
  ownerStore w !! owner = Some o ->
  t_iteration t = None ->
  t_state t <> Some COMPLETE ->
  let w1 := snd (updTask task Task_destroy w) in
  exists w2,
    execute task owner next manualOverride w1 = (Throw TypeError, w2)
    /\ (t_state <$> taskStore w2 !! task) = Some (Some ACTIVE)
    /\ trace w2 = trace w /\ timers w2 = timers w
    /\ ownerStore w2 = ownerStore w /\ manager w2 = manager w
    /\ forall next' manualOverride',
         execute task owner next' manualOverride' w2 = (Normal VNull, w2).
Proof.
  intros Ht Ho Hit Hs w1.
  assert (Hst : t_state (Task_destroy t) = None).
  { rewrite Task_destroy_state.
    replace (state_eq (t_state t) (Some COMPLETE)) with false; [reflexivity |].
    symmetry. apply bool_decide_eq_false. exact Hs. }
  assert (E1 : w1 = set_taskStore (<[task := Task_destroy t]> (taskStore w)) w).
  { subst w1. rewrite (updTask_Some _ _ _ _ Ht). reflexivity. }
  assert (Ht1 : taskStore w1 !! task = Some (Task_destroy t)).
  { rewrite E1. simpl. apply lookup_insert_eq. }
  assert (Ho1 : ownerStore w1 !! owner = Some o).
  { rewrite E1. exact Ho. }
  exists (set_taskStore
            (<[task := set_t_state (Some ACTIVE) (Task_destroy t)]> (taskStore w1)) w1).
  split; [| split; [| split; [| split; [| split; [| split]]]]].
  - unfold execute. rewrite run_bind, (getTask_Some _ _ _ Ht1).
    rewrite Task_destroy_iteration, Hit.
    unfold Task_execute. rewrite run_bind, (getTask_Some _ _ _ Ht1), Hst.
    change (state_eq None (statics_state "ACTIVE")
            || state_eq None (statics_state "COMPLETE")) with false.
    cbv iota. rewrite run_bind, (updTask_Some _ _ _ _ Ht1).
    reflexivity.
  - simpl. rewrite lookup_insert_eq. reflexivity.
  - rewrite E1. reflexivity.
  - rewrite E1. reflexivity.
  - rewrite E1. reflexivity.
  - rewrite E1. reflexivity.
  - intros next' manualOverride'.
    eapply (execute_guard _ task owner next' manualOverride'
              (set_t_state (Some ACTIVE) (Task_destroy t)) o).
    + simpl. apply lookup_insert_eq.
    + rewrite E1. exact Ho.
    + left. reflexivity.
Qed.

Lemma execute_after_destroy_throws_witness :
  fst (execute 0%nat 0%nat (KExecuteTask 0%nat false) false
         (snd (updTask 0%nat Task_destroy world_one_task)))
  = Throw TypeError.
Proof.
  assert (Ht : exists t, taskStore world_one_task !! 0%nat = Some t
                         /\ t_iteration t = None
                         /\ t_state t <> Some COMPLETE).
  { eexists. split; [vm_compute; reflexivity |].
    split; [reflexivity | discriminate]. }
  destruct Ht as (t & Ht & Hit & Hs).
  assert (Ho : exists o, ownerStore world_one_task !! 0%nat = Some o).
  { eexists. vm_compute. reflexivity. }
  destruct Ho as (o & Ho).
  destruct (execute_after_destroy_throws world_one_task 0%nat 0%nat
              (KExecuteTask 0%nat false) false t o Ht Ho Hit Hs)
    as (w2 & Hrun & _).
  rewrite Hrun. reflexivity.
Defined.

(** ** Keys that name no inherited member *)


Lemma pretty_N_char_numeric (k : N) : numeric_char (pretty_N_char k) = true.
Proof.
  unfold pretty_N_char.
  repeat match goal with
         | |- context [match ?x with _ => _ end] => destruct x
         end; reflexivity.
Qed.

Lemma pretty_N_go_first (x : N) :
  forall s c, first_char s = Some c -> numeric_char c = true ->
    exists c', first_char (pretty_N_go x s) = Some c' /\ numeric_char c' = true.
Proof.
  induction (N.lt_wf_0 x) as [x _ IH]. intros s c Hs Hc.
  assert (x = 0 \/ 0 < x)%N as [-> | Hpos] by lia.
  - rewrite pretty_N_go_0. eauto.
  - rewrite pretty_N_go_step by exact Hpos.
    apply (IH (x `div` 10)%N) with (c := pretty_N_char (x `mod` 10)).
    + apply N.div_lt; [exact Hpos | reflexivity].
    + reflexivity.
    + apply pretty_N_char_numeric.
Qed.

Lemma pretty_N_first (x : N) :
  exists c, first_char (pretty x) = Some c /\ numeric_char c = true.
Proof.
  unfold pretty, pretty_N. destruct (decide (x = 0%N)) as [-> | Hne].
  - exists "0"%char. split; reflexivity.
  - rewrite pretty_N_go_step by lia.
    apply (pretty_N_go_first _ _ (pretty_N_char (x `mod` 10))).
    + reflexivity.
    + apply pretty_N_char_numeric.
Qed.


(** ** Owners: lookup, hand-out and release *)

(** What [get] answers, read off the three collections. *)
Lemma Owner_get_run (this : oref) (taskId : value) (w : World) (o : OwnerObj)
      (m cm : gmap string ref) :
  ownerStore w !! this = Some o ->
  o_tasks o = Some m -> o_completedTasks o = Some cm ->
  (forall r, o_liveTask o = Some r -> is_Some (taskStore w !! r)) ->
  Owner_get this taskId w
  = (Normal
       (match m !! ToString taskId with
        | Some r => Found r
        | None =>
            if inherited (ToString taskId) then Inherited (ToString taskId)
            else
              match cm !! ToString taskId with
              | Some r => Found r
              | None =>
                  match o_liveTask o with
                  | Some r =>
                      match taskStore w !! r with
                      | Some t =>
                          if strict_eq (t_id t) taskId then Found r else Missing
                      | None => Missing
                      end
                  | None => Missing
                  end
              end
        end), w).
Proof.
  intros Ho Hm Hcm Hlive.
  unfold Owner_get. mrun. rewrite Hm. mrun.
  destruct (m !! ToString taskId) as [r |]; [reflexivity |].
  destruct (inherited (ToString taskId)); [reflexivity |].
  rewrite Hcm. mrun.
  destruct (cm !! ToString taskId) as [r |]; [reflexivity |].
  destruct (o_liveTask o) as [r |] eqn:Hl; [| reflexivity].
  destruct (Hlive r eq_refl) as [t Ht].
  mrun. rewrite Ht. reflexivity.
Qed.

(** X3.  Insert and look up: after [add] the new task is found by [get]
    under its id, its id is last in [taskOrder], and [hasPending] answers
    true. *)
Theorem add_then_get (this : oref) (task : TaskSpec) (w : World) (o : OwnerObj)
        (m : gmap string ref) (l : list value) (r : ref) (t : TaskObj) :
  ownerStore w !! this = Some o ->
  o_tasks o = Some m -> o_taskOrder o = Some l ->
  added_task task w = Some (r, t) ->
  exists w',
    Owner_add this task w = (Normal tt, w')
    /\ taskStore w' !! r = Some t
    /\ Owner_get this (t_id t) w' = (Normal (Found r), w')
    /\ (o_taskOrder <$> ownerStore w' !! this) = Some (Some (l ++ [t_id t])%list)
    /\ Owner_hasPending this w' = (Normal true, w').
Proof.
  intros Ho Hm Hl Hadd.
  destruct (add_run this task w o m l r t Ho Hm Hl Hadd) as (w' & Hrun & Hs & Ho' & _).
  exists w'. split; [exact Hrun |].
  split; [rewrite Hs; apply lookup_insert_eq |].
  split; [| split].
  - unfold Owner_get. mrun. cbn [o_tasks set_o_taskOrder set_o_tasks]. mrun.
    rewrite lookup_insert_eq. reflexivity.
  - rewrite Ho'. reflexivity.
  - unfold Owner_hasPending. mrun. cbn [o_taskOrder set_o_taskOrder]. mrun.
    destruct l; reflexivity.
Qed.

Lemma add_then_get_witness :
  Owner_get 0%nat (VStr "t1") world_one_task = (Normal (Found 0%nat), world_one_task).
Proof.
  assert (Ho : exists o, ownerStore world_new_owner !! 0%nat = Some o
                         /\ o_tasks o = Some ∅ /\ o_taskOrder o = Some []).
  { eexists. split; [vm_compute; reflexivity |]. split; reflexivity. }
  destruct Ho as (o & Ho & Hm & Hl).
  destruct (add_then_get 0%nat t1_definition world_new_owner o ∅ [] _ _
              Ho Hm Hl eq_refl) as (w' & Hrun & _ & Hget & _).
  assert (E : w' = world_one_task).
  { change world_one_task with (snd (Owner_add 0%nat t1_definition world_new_owner)).
    rewrite Hrun. reflexivity. }
  rewrite <- E. exact Hget.
Defined.



Lemma remove_first_middle (x : value) (l1 l2 : list value) :
  strict_eq x x = true -> x ∉ l1 ->
  remove_first x (l1 ++ x :: l2)%list = Some (l1 ++ l2)%list.
Proof.
  intros Hx. induction l1 as [| y l1 IH]; intros Hn; simpl.
  - rewrite Hx. reflexivity.
  - destruct (strict_eq y x) eqn:Hyx.
    + apply strict_eq_eq in Hyx. subst y. exfalso. apply Hn.
      apply elem_of_cons. left. reflexivity.
    + rewrite IH; [reflexivity |].
      intros Hin. apply Hn. apply elem_of_cons. right. exact Hin.
Qed.




Lemma getNext_scan_first (m : gmap string ref) (pre post before : list value)
      (x : value) (w : World) (r : ref) (t : TaskObj) :
  (forall y, y ∈ pre ->
     exists r' t', m !! ToString y = Some r' /\ taskStore w !! r' = Some t'
                   /\ t_activeOnly t' = true) ->
  m !! ToString x = Some r -> taskStore w !! r = Some t ->
  t_activeOnly t = false ->
  getNext_scan m before (pre ++ x :: post)%list w
  = (Normal (Some (VArr [x] [], (before ++ pre ++ post)%list)), w).
Proof.
  intros Hpre Hx Ht Ha. revert before.
  induction pre as [| y pre IH]; intros before; simpl.
  - mrun. rewrite Hx. mrun. rewrite Ha. mrun. reflexivity.
  - destruct (Hpre y) as (r' & t' & Hy & Ht' & Ha');
      [apply elem_of_cons; left; reflexivity |].
    mrun. rewrite Hy. mrun. rewrite Ha'. mrun.
    rewrite IH.
    + rewrite <- app_assoc. reflexivity.
    + intros z Hz. apply Hpre. apply elem_of_cons. right. exact Hz.
Qed.

(** X6.  [getNext] on an owner that is not active (a falsy [isActive], which
    is also what a call without argument passes) steps over the ids at the
    front of [taskOrder] whose tasks are [activeOnly] and hands out the first
    task that is not: that task becomes the live task, its id leaves [tasks]
    and [taskOrder], and the ids stepped over stay, in order, in front of the
    rest. *)
Theorem getNext_inactive_skips_activeOnly (this : oref) (isActive : value)
        (w : World) (o : OwnerObj) (m : gmap string ref)
        (pre post : list value) (x : value) (r : ref) (t : TaskObj) :
  ownerStore w !! this = Some o ->
  o_tasks o = Some m -> o_taskOrder o = Some (pre ++ x :: post)%list ->
  truthy isActive = false ->
  (forall y, y ∈ pre ->
     exists r' t', m !! ToString y = Some r' /\ taskStore w !! r' = Some t'
                   /\ t_activeOnly t' = true) ->
  m !! ToString x = Some r -> taskStore w !! r = Some t ->
  t_activeOnly t = false ->
  usable_id x ->
  Owner_getNext this isActive w
  = (Normal (Some r),
     put_owner this
       (mkOwner (o_id o) (o_name o) (o_origin o)
                (Some (delete (ToString x) m)) (Some (pre ++ post)%list)
                (Some r) (o_completedTasks o)) w).
Proof.
  intros Ho Hm Hl Hact Hpre Hx Ht Ha Hu.
  unfold Owner_getNext. mrun. rewrite Hl. mrun.
  destruct (pre ++ x :: post)%list as [| first others] eqn:Hlist.
  { destruct pre; discriminate. }
  rewrite Hact. mrun. rewrite Hm. mrun.
  rewrite <- Hlist, (getNext_scan_first m pre post [] x w r t Hpre Hx Ht Ha).
  mrun. rewrite (usable_in_array x Hu), Hx. mrun.
  reflexivity.
Qed.

Lemma getNext_inactive_skips_activeOnly_witness :
  exists w',
    Owner_getNext 0%nat VUndefined
      (snd (for_each (Owner_add 0%nat)
              [Definition_ (sample_config (VStr "t1") (fn_const (VNum 1))
                                          None true) None;
               Definition_ (sample_config (VStr "t2") (fn_const (VNum 2))
                                          None false) None]
              world_new_owner))
    = (Normal (Some 1%nat), w')
    /\ (o_taskOrder <$> ownerStore w' !! 0%nat) = Some (Some [VStr "t1"]).
Proof.
  set (w := snd (for_each _ _ world_new_owner)).
  assert (Ho : exists o, ownerStore w !! 0%nat = Some o
                         /\ o_tasks o = Some {[ "t1" := 0%nat; "t2" := 1%nat ]}
                         /\ o_taskOrder o = Some ([VStr "t1"] ++ VStr "t2" :: [])%list).
  { eexists. split; [vm_compute; reflexivity |]. split; reflexivity. }
  destruct Ho as (o & Ho & Hm & Hl).
  assert (Ht1 : exists t, taskStore w !! 0%nat = Some t /\ t_activeOnly t = true).
  { eexists. split; [vm_compute; reflexivity | reflexivity]. }
  assert (Ht2 : exists t, taskStore w !! 1%nat = Some t /\ t_activeOnly t = false).
  { eexists. split; [vm_compute; reflexivity | reflexivity]. }
  destruct Ht1 as (t1 & Ht1 & Ha1). destruct Ht2 as (t2 & Ht2 & Ha2).
  eexists. split.
  - eapply (getNext_inactive_skips_activeOnly 0%nat VUndefined w o _
              [VStr "t1"] [] (VStr "t2") 1%nat t2 Ho Hm Hl eq_refl).
    + intros y Hy. apply list_elem_of_singleton in Hy. subst y.
      exists 0%nat, t1. split; [reflexivity | split; assumption].
    + reflexivity.
    + exact Ht2.
    + exact Ha2.
    + repeat split; discriminate.
  - unfold put_owner. simpl. rewrite lookup_insert_eq. reflexivity.
Defined.

(** X7.  Once [destroy] has released the collections of an owner, [get],
    [setNext], [getNext] and [hasPending] fail with a TypeError and change
    nothing; [add] fails with a TypeError too, after the task object has been
    constructed, and leaves the owner as it is; [completed] with a manual
    override fails the same way.  A second [destroy] returns normally and
    the owner stays released. *)
Theorem released_owner_refuses (this : oref) (w : World) (o : OwnerObj) :
  ownerStore w !! this = Some o ->
  released o ->
  (forall v, Owner_get this v w = (Throw TypeError, w))
  /\ (forall v, Owner_setNext this v w = (Throw TypeError, w))
  /\ (forall a, Owner_getNext this a w = (Throw TypeError, w))
  /\ Owner_hasPending this w = (Throw TypeError, w)
  /\ (forall task r t,
        added_task task w = Some (r, t) ->
        exists w', Owner_add this task w = (Throw TypeError, w')
                   /\ ownerStore w' = ownerStore w)
  /\ (forall task t,
        taskStore w !! task = Some t ->
        exists w', Owner_completed this task true w = (Throw TypeError, w')
                   /\ ownerStore w' = ownerStore w)
  /\ ((forall r, o_liveTask o = Some r -> is_Some (taskStore w !! r)) ->
      exists w', Owner_destroy this w = (Normal tt, w')
                 /\ ownerStore w' !! this = Some o).
Proof.
  intros Ho (Hm & Hl & Hcm).
  split; [| split; [| split; [| split; [| split; [| split]]]]].
  - intros v. unfold Owner_get. mrun. rewrite Hm. reflexivity.
  - intros v. unfold Owner_setNext. mrun. rewrite Hm. reflexivity.
  - intros a. unfold Owner_getNext. mrun. rewrite Hl. reflexivity.
  - unfold Owner_hasPending. mrun. rewrite Hl. reflexivity.
  - intros task r t Hadd. unfold Owner_add.
    destruct task as [r0 | config [it |]]; simpl in Hadd.
    + destruct (taskStore w !! r0) as [t0 |] eqn:Ht0; [| discriminate].
      inversion Hadd; subst r0 t0. mrun. rewrite Hm. mrun.
      eexists. split; reflexivity.
    + inversion Hadd; subst r t.
      destruct (new_IterationTask_run (extend_iterate config it) w)
        as (w' & Hrun & Hs & Hos).
      rewrite run_bind, Hrun.
      assert (Ht : taskStore w' !! fresh (dom (taskStore w)) = Some
                (fst (IterationTask_construct IterationTask_prototype
                        (extend_iterate config it) (_taskIdCounter w)))).
      { rewrite Hs. apply lookup_insert_eq. }
      assert (Ho' : ownerStore w' !! this = Some o) by (rewrite Hos; exact Ho).
      mrun. rewrite Hm. mrun. eexists. split; [reflexivity | exact Hos].
    + inversion Hadd; subst r t.
      destruct (new_Task_run config w) as (w' & Hrun & Hs & Hos).
      rewrite run_bind, Hrun.
      assert (Ht : taskStore w' !! fresh (dom (taskStore w)) = Some
                (fst (Task_construct Task_prototype config (_taskIdCounter w)))).
      { rewrite Hs. apply lookup_insert_eq. }
      assert (Ho' : ownerStore w' !! this = Some o) by (rewrite Hos; exact Ho).
      mrun. rewrite Hm. mrun. eexists. split; [reflexivity | exact Hos].
  - intros task t Ht. unfold Owner_completed. mrun.
    assert (Ht' : taskStore (put_event (EvOwnerCompleted this task true) w) !! task
                  = Some t) by exact Ht.
    assert (Ho' : ownerStore (put_event (EvOwnerCompleted this task true) w) !! this
                  = Some o) by exact Ho.
    mrun. unfold _removeTask. mrun. rewrite Hl. mrun.
    eexists. split; reflexivity.
  - intros Hlive. unfold Owner_destroy. mrun.
    destruct (o_liveTask o) as [r |] eqn:Hlt.
    + destruct (Hlive r eq_refl) as [t Ht].
      rewrite (updTask_Some _ _ _ _ Ht). mrun. rewrite Hm.
      cbn [_destroyTasks]. mrun.
      assert (Ho' : ownerStore (set_taskStore (<[r := Task_destroy t]> (taskStore w)) w)
                      !! this = Some o) by exact Ho.
      mrun. eexists. split; [reflexivity |].
      rewrite put_owner_lookup. f_equal.
      clear - Hm Hl Hcm. destruct o; simpl in *; subst; reflexivity.
    + mrun. rewrite Hm. cbn [_destroyTasks]. mrun.
      eexists. split; [reflexivity |].
      rewrite put_owner_lookup. f_equal.
      clear - Hm Hl Hcm. destruct o; simpl in *; subst; reflexivity.
Qed.

Lemma released_owner_refuses_witness :
  fst (Owner_hasPending 0%nat (snd (Owner_destroy 0%nat world_one_task)))
  = Throw TypeError.
Proof.
  assert (Ho : exists o, ownerStore (snd (Owner_destroy 0%nat world_one_task)) !! 0%nat
                         = Some o /\ released o).
  { eexists. split; [vm_compute; reflexivity |]. repeat split. }
  destruct Ho as (o & Ho & Hrel).
  destruct (released_owner_refuses 0%nat _ o Ho Hrel) as (_ & _ & _ & H & _).
  rewrite H. reflexivity.
Defined.

(** The fields [construct] sets from the definition. *)
Lemma Task_construct_fields (this : TaskObj) (config : Config) (counter : Z) :
  let t := fst (Task_construct this config counter) in
  t_fn t = cfg_fn config
  /\ t_activeOnly t = truthy (cfg_activeOnly config)
  /\ t_state t = Some PENDING
  /\ t_iteration t = t_iteration this
  /\ t_result t = t_result this
  /\ t_arguments t
     = Some (if truthy (cfg_arguments config)
             then match cfg_arguments config with
                  | VArr elems _ => elems
                  | a => [a]
                  end
             else [])
  /\ t_context t
     = (if truthy (cfg_context config) then cfg_context config else t_context this)
  /\ (truthy (cfg_id config) = true -> t_id t = cfg_id config).
Proof.
  unfold Task_construct.
  destruct (truthy (cfg_id config)); simpl; repeat split; intros; try reflexivity.
  discriminate.
Qed.



(** ** The registry of owners *)

Lemma reg_refl (w : World) : same_registry w w.
Proof. repeat split. Qed.

Lemma reg_trans (a b c : World) :
  same_registry a b -> same_registry b c -> same_registry a c.
Proof.
  intros (H1 & H2 & H3 & H4) (H5 & H6 & H7 & H8).
  repeat split; congruence.
Qed.

Ltac reg_side := first [exact reg_refl | exact reg_trans].

Ltac reg_leaf :=
  apply preserves_modify; intros ?; unfold same_registry; simpl;
  repeat split; reflexivity.

Lemma reg_updTask (r : ref) (f : TaskObj -> TaskObj) :
  preserves same_registry (updTask r f).
Proof.
  unfold updTask. apply preserves_bind; [reg_side | | intros].
  - apply preserves_getTask; reg_side.
  - reg_leaf.
Qed.

Lemma reg_updOwner (o : oref) (f : OwnerObj -> OwnerObj) :
  preserves same_registry (updOwner o f).
Proof.
  unfold updOwner. apply preserves_bind; [reg_side | | intros].
  - apply preserves_getOwner; reg_side.
  - reg_leaf.
Qed.

Lemma reg_emit (e : Event) : preserves same_registry (emit e).
Proof. unfold emit. reg_leaf. Qed.

Lemma reg_defer (d : Deferred) : preserves same_registry (defer d).
Proof. unfold defer. reg_leaf. Qed.

Lemma reg_set_running (b : bool) : preserves same_registry (updManager (set_running b)).
Proof. unfold updManager. reg_leaf. Qed.

Lemma reg_set_priorityStack (f : Manager -> list Request) :
  preserves same_registry (updManager (fun m => set_priorityStack (f m) m)).
Proof. unfold updManager. reg_leaf. Qed.

Lemma reg_updHeadRequest (f : Request -> Request) :
  preserves same_registry (updHeadRequest f).
Proof.
  unfold updHeadRequest, updManager. apply preserves_modify. intros w.
  unfold same_registry. destruct (_priorityStack (manager w)); simpl;
    repeat split; reflexivity.
Qed.

Create HintDb reg discriminated.

#[local] Hint Resolve reg_updTask reg_updOwner reg_emit reg_defer reg_set_running
  reg_updHeadRequest : reg.

Ltac reg_tac :=
  repeat first
    [ solve [auto 1 with reg nocore]
    | apply preserves_ret; reg_side
    | apply preserves_throw; reg_side
    | apply preserves_gets; reg_side
    | apply preserves_expect; reg_side
    | apply preserves_getTask; reg_side
    | apply preserves_getOwner; reg_side
    | apply preserves_getManager; reg_side
    | apply preserves_bind; [reg_side | | intros ]
    | apply preserves_for_each; [reg_side | reg_side | intros ]
    | apply preserves_map_each; [reg_side | reg_side | intros ]
    | reg_leaf
    | match goal with
      | |- preserves _ (match ?x with _ => _ end) => destruct x
      | |- preserves _ (if ?x then _ else _) => destruct x
      | |- preserves _ (let '(_, _) := ?x in _) => destruct x
      end ].

Lemma reg_allocTask (t : TaskObj) : preserves same_registry (allocTask t).
Proof. unfold allocTask. reg_tac. Qed.
#[local] Hint Resolve reg_allocTask : reg.

Lemma reg_new_Task (config : Config) : preserves same_registry (new_Task config).
Proof. unfold new_Task. reg_tac. Qed.
#[local] Hint Resolve reg_new_Task : reg.

Lemma reg_new_IterationTask (config : Config) :
  preserves same_registry (new_IterationTask config).
Proof. unfold new_IterationTask. reg_tac. Qed.
#[local] Hint Resolve reg_new_IterationTask : reg.

Lemma reg_new_Owner (name origin : value) :
  preserves same_registry (new_Owner name origin).
Proof. unfold new_Owner. reg_tac. Qed.
#[local] Hint Resolve reg_new_Owner : reg.

Lemma reg_Owner_add (this : oref) (task : TaskSpec) :
  preserves same_registry (Owner_add this task).
Proof. unfold Owner_add. reg_tac. Qed.
#[local] Hint Resolve reg_Owner_add : reg.

Lemma reg_Owner_get (this : oref) (taskId : value) :
  preserves same_registry (Owner_get this taskId).
Proof. unfold Owner_get. reg_tac. Qed.
#[local] Hint Resolve reg_Owner_get : reg.

Lemma reg_removeTask (owner : oref) (taskId : value) :
  preserves same_registry (_removeTask owner taskId).
Proof. unfold _removeTask. reg_tac. Qed.
#[local] Hint Resolve reg_removeTask : reg.

Lemma reg_Owner_setNext (this : oref) (taskId : value) :
  preserves same_registry (Owner_setNext this taskId).
Proof. unfold Owner_setNext. reg_tac. Qed.
#[local] Hint Resolve reg_Owner_setNext : reg.

Lemma reg_getNext_scan (tasks : gmap string ref) (rest before : list value) :
  preserves same_registry (getNext_scan tasks before rest).
Proof.
  revert before. induction rest as [| x rest IH]; intros before; simpl.
  - reg_tac.
  - destruct (tasks !! ToString x) as [r |]; [| reg_tac].
    apply preserves_bind; [reg_side | reg_tac | intros t].
    destruct (negb (t_activeOnly t)); [reg_tac | apply IH].
Qed.
#[local] Hint Resolve reg_getNext_scan : reg.

Lemma reg_Owner_getNext (this : oref) (isActive : value) :
  preserves same_registry (Owner_getNext this isActive).
Proof. unfold Owner_getNext. reg_tac. Qed.
#[local] Hint Resolve reg_Owner_getNext : reg.

Lemma reg_Owner_completed (this : oref) (task : ref) (manualOverride : bool) :
  preserves same_registry (Owner_completed this task manualOverride).
Proof. unfold Owner_completed. reg_tac. Qed.
#[local] Hint Resolve reg_Owner_completed : reg.

Lemma reg_Owner_destroy (this : oref) : preserves same_registry (Owner_destroy this).
Proof. unfold Owner_destroy, _destroyTasks. reg_tac. Qed.
#[local] Hint Resolve reg_Owner_destroy : reg.

Lemma reg_call_next (next : Continuation) (result : value) :
  preserves same_registry (call_next next result).
Proof. unfold call_next. reg_tac. Qed.
#[local] Hint Resolve reg_call_next : reg.

Lemma reg_call_task_callback (this : ref) :
  preserves same_registry (call_task_callback this).
Proof. unfold call_task_callback. reg_tac. Qed.
#[local] Hint Resolve reg_call_task_callback : reg.

Lemma reg_Task_execute (this : ref) (owner : oref) (next : Continuation)
      (manualOverride : bool) :
  preserves same_registry (Task_execute this owner next manualOverride).
Proof. unfold Task_execute. reg_tac. Qed.
#[local] Hint Resolve reg_Task_execute : reg.

Lemma reg_run_iterator (task : ref) (itr : Iterator) (idx : Z) :
  preserves same_registry (run_iterator task itr idx).
Proof. unfold run_iterator, call_fn. reg_tac. Qed.
#[local] Hint Resolve reg_run_iterator : reg.

Lemma reg_onComplete (c : IterClosure) : preserves same_registry (onComplete c).
Proof. unfold onComplete. reg_tac. Qed.
#[local] Hint Resolve reg_onComplete : reg.

Lemma reg_updIteration (r : ref) (f : IterationFields -> IterationFields) :
  preserves same_registry (updIteration r f).
Proof. unfold updIteration. reg_tac. Qed.
#[local] Hint Resolve reg_updIteration : reg.

Lemma reg_getIteration (r : ref) : preserves same_registry (getIteration r).
Proof. unfold getIteration. reg_tac. Qed.
#[local] Hint Resolve reg_getIteration : reg.

Lemma reg_iterate (fuel : nat) (c : IterClosure) :
  preserves same_registry (iterate fuel c).
Proof.
  revert c. induction fuel as [| fuel IH]; intros c; rewrite iterate_unfold.
  - reg_tac.
  - apply preserves_bind; [reg_side | reg_tac | intros it].
    apply preserves_bind; [reg_side | reg_tac | intros itr].
    apply preserves_bind; [reg_side | reg_tac | intros _].
    apply preserves_bind; [reg_side | reg_tac | intros _].
    apply preserves_bind; [reg_side | reg_tac | intros g].
    apply preserves_bind; [reg_side | reg_tac | intros c'].
    apply preserves_bind; [reg_side | reg_tac | intros me].
    apply preserves_bind; [reg_side | reg_tac | intros it'].
    cbv zeta.
    destruct (negb _ && negb _); [reg_tac |].
    destruct (_ <? _); [| reg_tac].
    destruct (rem_is_zero _ _); [reg_tac | apply IH].
Qed.
#[local] Hint Resolve reg_iterate : reg.

Lemma reg_IterationTask_execute (this : ref) (owner : oref) (next : Continuation)
      (manualOverride : bool) :
  preserves same_registry (IterationTask_execute this owner next manualOverride).
Proof. unfold IterationTask_execute. reg_tac. Qed.
#[local] Hint Resolve reg_IterationTask_execute : reg.

Lemma reg_execute (task : ref) (owner : oref) (next : Continuation)
      (manualOverride : bool) :
  preserves same_registry (execute task owner next manualOverride).
Proof. unfold execute. reg_tac. Qed.
#[local] Hint Resolve reg_execute : reg.

Lemma reg_executeTask (task : ref) (owner : oref) (returnControl : bool) :
  preserves same_registry (_executeTask task owner returnControl).
Proof. unfold _executeTask. reg_tac. Qed.
#[local] Hint Resolve reg_executeTask : reg.

Lemma reg_priority_walk (owner : oref) (remaining : list value) (task : ref) :
  preserves same_registry (priority_walk owner task remaining).
Proof.
  revert task. induction remaining as [| x rest IH]; intros task; simpl.
  - reg_tac.
  - apply preserves_bind; [reg_side | reg_tac | intros t].
    destruct (Task_isComplete t); [| reg_tac].
    apply preserves_bind; [reg_side | reg_tac | intros _].
    apply preserves_bind; [reg_side | reg_tac | intros found].
    destruct found as [task' | |]; [apply IH | reg_tac | reg_tac].
Qed.
#[local] Hint Resolve reg_priority_walk : reg.

Lemma reg_performPriorityTask : preserves same_registry _performPriorityTask.
Proof. unfold _performPriorityTask, lookup_owner. reg_tac. Qed.
#[local] Hint Resolve reg_performPriorityTask : reg.

Lemma reg_performImmediateTask (ownerId : string) (taskId : value) :
  preserves same_registry (_performImmediateTask ownerId taskId).
Proof. unfold _performImmediateTask, lookup_owner. reg_tac. Qed.
#[local] Hint Resolve reg_performImmediateTask : reg.

Lemma keeps_refl (w : World) : keeps_registry w w.
Proof. intros H. exact H. Qed.

Lemma keeps_trans (a b c : World) :
  keeps_registry a b -> keeps_registry b c -> keeps_registry a c.
Proof. intros H1 H2 H. apply H2, H1, H. Qed.

Lemma keeps_of_same (w w' : World) : same_registry w w' -> keeps_registry w w'.
Proof.
  intros (H1 & H2 & H3 & H4) (I1 & I2 & I3 & I4).
  unfold registry_inv. rewrite H1, H2, H3, H4.
  split; [| split; [| split]]; assumption.
Qed.

Lemma keeps_of_reg {A : Type} (m : M A) :
  preserves same_registry m -> preserves keeps_registry m.
Proof. intros H w. apply keeps_of_same, H. Qed.

Ltac keeps_side := first [exact keeps_refl | exact keeps_trans].

Lemma unshift_pop_snoc (l : list string) (x : string) :
  unshift_pop (l ++ [x])%list = x :: l.
Proof. unfold unshift_pop. rewrite reverse_snoc, reverse_involutive. reflexivity. Qed.

Lemma remove_last_split (x : string) (l1 l2 : list string) :
  x ∉ l2 -> remove_last x (l1 ++ x :: l2)%list = Some (l1 ++ l2)%list.
Proof.
  intros Hn.
  assert (Hnone : remove_last x l2 = None).
  { clear l1. induction l2 as [| y l2 IH]; simpl; [reflexivity |].
    rewrite IH.
    - destruct (String.eqb y x) eqn:E; [| reflexivity].
      apply String.eqb_eq in E. subst y. exfalso. apply Hn.
      apply elem_of_cons. left. reflexivity.
    - intros Hin. apply Hn. apply elem_of_cons. right. exact Hin. }
  induction l1 as [| y l1 IH]; simpl.
  - rewrite Hnone, String.eqb_refl. reflexivity.
  - rewrite IH. reflexivity.
Qed.

Lemma remove_last_absent (x : string) (l : list string) :
  x ∉ l -> remove_last x l = None.
Proof.
  induction l as [| y l IH]; intros Hn; simpl; [reflexivity |].
  rewrite IH.
  - destruct (String.eqb y x) eqn:E; [| reflexivity].
    apply String.eqb_eq in E. subst y. exfalso. apply Hn.
    apply elem_of_cons. left. reflexivity.
  - intros Hin. apply Hn. apply elem_of_cons. right. exact Hin.
Qed.

(** Taking a registered id out of the stack and out of the registry. *)
Lemma registry_inv_remove (m : Manager) (id : string) (l1 l2 : list string) :
  registry_inv m ->
  _taskOwnerStack m = (l1 ++ id :: l2)%list ->
  registry_inv
    (mkManager (last (l1 ++ l2)%list) (_ownerCounter m)
               (delete id (_taskOwners m)) (l1 ++ l2)%list
               (_priorityStack m) (_running m)).
Proof.
  intros (Hnd & Hmem & Hact & Hcnt) Hst. rewrite Hst in Hnd, Hmem.
  apply NoDup_app in Hnd. destruct Hnd as (Hnd1 & Hdisj & Hnd2).
  apply NoDup_cons in Hnd2. destruct Hnd2 as [Hid2 Hnd2].
  assert (Hid1 : id ∉ l1).
  { intros Hin. apply (Hdisj id Hin). apply elem_of_cons. left. reflexivity. }
  unfold registry_inv. simpl. split; [| split; [| split]].
  - apply NoDup_app. split; [exact Hnd1 |]. split; [| exact Hnd2].
    intros x Hx1 Hx2. apply (Hdisj x Hx1). apply elem_of_cons. right. exact Hx2.
  - intros x. rewrite elem_of_app. split.
    + intros Hx.
      assert (x <> id) by (intros ->; destruct Hx; contradiction).
      rewrite lookup_delete_ne by congruence. apply Hmem.
      rewrite elem_of_app, elem_of_cons. tauto.
    + intros Hx.
      destruct (decide (x = id)) as [-> | Hne].
      * rewrite lookup_delete_eq in Hx. destruct Hx; discriminate.
      * rewrite lookup_delete_ne in Hx by congruence. apply Hmem in Hx.
        rewrite elem_of_app, elem_of_cons in Hx. tauto.
  - reflexivity.
  - intros x Hx.
    destruct (decide (x = id)) as [-> | Hne].
    + rewrite lookup_delete_eq in Hx. destruct Hx; discriminate.
    + rewrite lookup_delete_ne in Hx by congruence. apply Hcnt. exact Hx.
Qed.

(** Moving an id of the stack to its top. *)
Lemma registry_inv_to_top (m : Manager) (id : string) (l1 l2 : list string) :
  registry_inv m ->
  _taskOwnerStack m = (l1 ++ id :: l2)%list ->
  registry_inv
    (mkManager (Some id) (_ownerCounter m) (_taskOwners m)
               ((l1 ++ l2) ++ [id])%list (_priorityStack m) (_running m)).
Proof.
  intros (Hnd & Hmem & Hact & Hcnt) Hst. rewrite Hst in Hnd, Hmem.
  apply NoDup_app in Hnd. destruct Hnd as (Hnd1 & Hdisj & Hnd2).
  apply NoDup_cons in Hnd2. destruct Hnd2 as [Hid2 Hnd2].
  assert (Hid1 : id ∉ l1).
  { intros Hin. apply (Hdisj id Hin). apply elem_of_cons. left. reflexivity. }
  unfold registry_inv. simpl. split; [| split; [| split]].
  - apply NoDup_app. split; [| split].
    + apply NoDup_app. split; [exact Hnd1 |]. split; [| exact Hnd2].
      intros x Hx1 Hx2. apply (Hdisj x Hx1). apply elem_of_cons. right. exact Hx2.
    + intros x Hx Hx'. apply list_elem_of_singleton in Hx'. subst x.
      apply elem_of_app in Hx. destruct Hx; contradiction.
    + apply NoDup_singleton.
  - intros x. rewrite <- Hmem.
    rewrite !elem_of_app, list_elem_of_singleton, elem_of_cons. tauto.
  - rewrite last_snoc. reflexivity.
  - exact Hcnt.
Qed.

Lemma registry_inv_in_stack (m : Manager) (id : string) (o : oref) :
  registry_inv m -> _taskOwners m !! id = Some o ->
  exists l1 l2, _taskOwnerStack m = (l1 ++ id :: l2)%list /\ (id ∉ l1) /\ (id ∉ l2).
Proof.
  intros (Hnd & Hmem & _) Ho.
  assert (Hin : id ∈ _taskOwnerStack m) by (apply Hmem; rewrite Ho; eauto).
  apply list_elem_of_split in Hin. destruct Hin as (l1 & l2 & Hst).
  exists l1, l2. split; [exact Hst |].
  rewrite Hst in Hnd. apply NoDup_app in Hnd. destruct Hnd as (_ & Hdisj & Hnd2).
  apply NoDup_cons in Hnd2. destruct Hnd2 as [Hid2 _].
  split; [| exact Hid2].
  intros Hin. apply (Hdisj id Hin). apply elem_of_cons. left. reflexivity.
Qed.

(** The top of the stack goes to the bottom, and the new top is active. *)
Lemma registry_inv_rotate (m : Manager) :
  registry_inv m ->
  registry_inv
    (set_activeTaskOwner (last (unshift_pop (_taskOwnerStack m)))
       (set_taskOwnerStack (unshift_pop (_taskOwnerStack m)) m)).
Proof.
  intros (Hnd & Hmem & Hact & Hcnt).
  unfold registry_inv. simpl.
  destruct (_taskOwnerStack m) as [| y l] eqn:Hst using rev_ind.
  - repeat split; try assumption; apply Hmem.
  - clear IHl. rewrite unshift_pop_snoc.
    apply NoDup_app in Hnd. destruct Hnd as (Hnd1 & Hdisj & _).
    split; [| split; [| split]].
    + apply NoDup_cons. split; [| exact Hnd1].
      intros Hin. apply (Hdisj y Hin). apply list_elem_of_singleton. reflexivity.
    + intros x. rewrite <- Hmem.
      rewrite elem_of_app, list_elem_of_singleton, elem_of_cons. tauto.
    + reflexivity.
    + exact Hcnt.
Qed.

Lemma updManager_run (f : Manager -> Manager) (w : World) :
  updManager f w = (Normal tt, set_manager (f (manager w)) w).
Proof. reflexivity. Qed.

Lemma getManager_run (w : World) : getManager w = (Normal (manager w), w).
Proof. reflexivity. Qed.

Lemma new_Owner_run (name origin : value) (w : World) :
  exists w',
    new_Owner name origin w = (Normal (fresh (dom (ownerStore w))), w')
    /\ manager w' = manager w /\ taskStore w' = taskStore w
    /\ timers w' = timers w /\ trace w' = trace w
    /\ ownerStore w'
       = <[fresh (dom (ownerStore w))
           := mkOwner ("o" +:+ pretty (Owner_ownerCounter w)) name origin
                      (Some ∅) (Some []) None (Some ∅)]> (ownerStore w).
Proof.
  exists (snd (new_Owner name origin w)). split; [reflexivity |]. repeat split.
Qed.

(** What [register] does to the manager. *)
Lemma register_run (name owner : value) (w : World) :
  let id := "o" +:+ pretty (_ownerCounter (manager w)) in
  exists w',
    TaskManager_register name owner w = (Normal id, w')
    /\ manager w'
       = mkManager (Some id) (_ownerCounter (manager w) + 1)
                   (<[id := fresh (dom (ownerStore w))]> (_taskOwners (manager w)))
                   (_taskOwnerStack (manager w) ++ [id])%list
                   (_priorityStack (manager w)) (_running (manager w))
    /\ taskStore w' = taskStore w /\ timers w' = timers w /\ trace w' = trace w
    /\ ownerStore w'
       = <[fresh (dom (ownerStore w))
           := mkOwner ("o" +:+ pretty (Owner_ownerCounter w)) name owner
                      (Some ∅) (Some []) None (Some ∅)]> (ownerStore w).
Proof.
  exists (snd (TaskManager_register name owner w)).
  split; [reflexivity |]. repeat split.
Qed.

Lemma keeps_register (name owner : value) :
  preserves keeps_registry (TaskManager_register name owner).
Proof.
  intros w (Hnd & Hmem & Hact & Hcnt).
  destruct (register_run name owner w) as (w' & Hrun & Hm & _).
  rewrite Hrun. cbn [snd]. rewrite Hm. clear Hrun Hm w'.
  set (c := _ownerCounter (manager w)) in *.
  assert (Hfresh : _taskOwners (manager w) !! ("o" +:+ pretty c) = None).
  { destruct (_taskOwners (manager w) !! ("o" +:+ pretty c)) eqn:E; [| reflexivity].
    destruct (Hcnt ("o" +:+ pretty c)) as (k & Hk & Hlt); [rewrite E; eauto |].
    simpl in Hk. injection Hk as Hk. apply pretty_Z_inj in Hk. lia. }
  unfold registry_inv. simpl. split; [| split; [| split]].
  - apply NoDup_app. split; [exact Hnd |]. split; [| apply NoDup_singleton].
    intros x Hx Hx'. apply list_elem_of_singleton in Hx'. subst x.
    apply Hmem in Hx. rewrite Hfresh in Hx. destruct Hx; discriminate.
  - intros x. rewrite elem_of_app, list_elem_of_singleton.
    destruct (decide (x = "o" +:+ pretty c)) as [-> | Hne].
    + rewrite lookup_insert_eq. split; eauto.
    + rewrite lookup_insert_ne by congruence. rewrite <- Hmem. tauto.
  - rewrite last_snoc. reflexivity.
  - intros x Hx.
    destruct (decide (x = "o" +:+ pretty c)) as [-> | Hne].
    + exists c. split; [reflexivity | lia].
    + rewrite lookup_insert_ne in Hx by congruence.
      destruct (Hcnt x Hx) as (k & Hk & Hlt). exists k. split; [exact Hk | lia].
Qed.

Lemma keeps_unregister (ownerId : string) :
  preserves keeps_registry (TaskManager_unregister ownerId).
Proof.
  intros w Hinv. unfold TaskManager_unregister.
  rewrite run_bind, getManager_run.
  destruct (_taskOwners (manager w) !! ownerId) as [o |] eqn:Ho;
    [| destruct (inherited ownerId); exact Hinv].
  rewrite run_bind.
  pose proof (reg_Owner_destroy o w) as Hsame.
  destruct (Owner_destroy o w) as [[[] | e] w1]; cbn [snd] in Hsame.
  2: { apply (keeps_of_same _ _ Hsame Hinv). }
  pose proof (keeps_of_same _ _ Hsame Hinv) as Hinv1.
  destruct Hsame as (S1 & S2 & S3 & S4).
  rewrite <- S1 in Ho.
  destruct (registry_inv_in_stack _ _ _ Hinv1 Ho) as (l1 & l2 & Hst & Hn1 & Hn2).
  rewrite run_bind, updManager_run, run_bind, getManager_run.
  cbn [manager set_manager _activeTaskOwner set_taskOwners _taskOwnerStack].
  pose proof (registry_inv_remove _ ownerId l1 l2 Hinv1 Hst) as Hgoal.
  destruct (bool_decide (_activeTaskOwner (manager w1) = Some ownerId)) eqn:Hb.
  - apply bool_decide_eq_true in Hb.
    destruct Hinv1 as (Hnd & _ & Hact & _).
    rewrite Hact, Hst, last_app_cons in Hb.
    assert (Hl2 : l2 = []).
    { destruct l2 as [| y l2] using rev_ind; [reflexivity |].
      exfalso. rewrite app_comm_cons, last_snoc in Hb. injection Hb as ->.
      apply Hn2. apply elem_of_app. right. apply list_elem_of_singleton. reflexivity. }
    subst l2. rewrite run_bind, updManager_run, updManager_run. cbn [snd].
    cbn [manager set_manager _taskOwnerStack set_taskOwnerStack set_taskOwners
         set_activeTaskOwner _ownerCounter _taskOwners _priorityStack _running].
    rewrite Hst, removelast_last. rewrite app_nil_r in Hgoal. exact Hgoal.
  - rewrite Hst, (remove_last_split _ l1 l2 Hn2).
    rewrite run_bind, updManager_run, updManager_run. cbn [snd].
    cbn [manager set_manager _taskOwnerStack set_taskOwnerStack set_taskOwners
         set_activeTaskOwner _ownerCounter _taskOwners _priorityStack _running].
    exact Hgoal.
Qed.

(** An id that is not registered is not on the stack, so [_activate] does
    nothing for it, also when [_taskOwners] inherits a member of that name. *)
Lemma activate_unregistered (ownerId : string) (w : World) :
  registry_inv (manager w) ->
  _taskOwners (manager w) !! ownerId = None ->
  _activate ownerId w = (Normal tt, w).
Proof.
  intros (_ & Hmem & _) Ho. unfold _activate. rewrite run_bind, getManager_run, Ho.
  rewrite bool_decide_eq_false_2 by (intros [x Hx]; discriminate).
  destruct (inherited ownerId); [| reflexivity]. cbn [orb negb].
  destruct (bool_decide (_activeTaskOwner (manager w) = Some ownerId)); [reflexivity |].
  rewrite remove_last_absent; [reflexivity |].
  intros Hin. apply Hmem in Hin. rewrite Ho in Hin. destruct Hin; discriminate.
Qed.

Lemma keeps_activate (ownerId : string) : preserves keeps_registry (_activate ownerId).
Proof.
  intros w Hinv.
  destruct (_taskOwners (manager w) !! ownerId) as [o |] eqn:Ho.
  2:{ rewrite (activate_unregistered ownerId w Hinv Ho). exact Hinv. }
  unfold _activate. rewrite run_bind, getManager_run, Ho.
  rewrite bool_decide_eq_true_2 by eauto. cbn [orb negb].
  destruct (bool_decide (_activeTaskOwner (manager w) = Some ownerId)); [exact Hinv |].
  destruct (registry_inv_in_stack _ _ _ Hinv Ho) as (l1 & l2 & Hst & Hn1 & Hn2).
  rewrite Hst, (remove_last_split _ l1 l2 Hn2).
  rewrite run_bind, updManager_run, run_bind, updManager_run. cbn [snd throw].
  exact (registry_inv_to_top _ ownerId l1 l2 Hinv Hst).
Qed.

Lemma keeps_rotate_owners (n : nat) (owner : oref) (task : option ref) :
  preserves keeps_registry (rotate_owners n owner task).
Proof.
  revert owner task. induction n as [| n IH]; intros owner task.
  - destruct task; apply preserves_ret; keeps_side.
  - destruct task as [t |]; [apply preserves_ret; keeps_side |].
    intros w Hinv. cbn [rotate_owners].
    rewrite run_bind, updManager_run, run_bind, updManager_run.
    set (w1 := set_manager _ (set_manager _ w)).
    assert (Hinv1 : registry_inv (manager w1)).
    { subst w1. cbn [manager set_manager]. cbn [_taskOwnerStack set_taskOwnerStack].
      apply (registry_inv_rotate _ Hinv). }
    revert Hinv1. generalize w1. clear w Hinv w1.
    change (preserves keeps_registry
              (ownerO ← lookup_active_owner;
               owner' ← expect TypeError ownerO;
               task' ← Owner_getNext owner' VUndefined;
               rotate_owners n owner' task')).
    apply preserves_bind; [keeps_side | | intros ownerO].
    { apply keeps_of_reg. unfold lookup_active_owner. reg_tac. }
    apply preserves_bind; [keeps_side | | intros owner'].
    { apply keeps_of_reg. reg_tac. }
    apply preserves_bind; [keeps_side | | intros task'].
    { apply keeps_of_reg. reg_tac. }
    apply IH.
Qed.

Lemma keeps_performTask : preserves keeps_registry _performTask.
Proof.
  unfold _performTask.
  apply preserves_bind; [keeps_side | | intros priority].
  { apply keeps_of_reg. reg_tac. }
  destruct priority.
  { apply keeps_of_reg. reg_tac. }
  apply preserves_bind; [keeps_side | | intros m].
  { apply keeps_of_reg. reg_tac. }
  destruct (_taskOwnerStack m).
  { apply keeps_of_reg. reg_tac. }
  apply preserves_bind; [keeps_side | | intros ownerO].
  { apply keeps_of_reg. unfold lookup_active_owner. reg_tac. }
  apply preserves_bind; [keeps_side | | intros owner].
  { apply keeps_of_reg. reg_tac. }
  apply preserves_bind; [keeps_side | | intros task].
  { apply keeps_of_reg. reg_tac. }
  apply preserves_bind; [keeps_side | apply keeps_rotate_owners | intros [owner' task']].
  apply keeps_of_reg. reg_tac.
Qed.

Lemma keeps_check (activeOwnerId : option string) :
  preserves keeps_registry (TaskManager_check activeOwnerId).
Proof.
  unfold TaskManager_check.
  apply preserves_bind; [keeps_side | | intros m].
  { apply keeps_of_reg. reg_tac. }
  apply preserves_bind; [keeps_side | | intros _].
  { destruct activeOwnerId as [a |]; [| apply preserves_ret; keeps_side].
    destruct (negb _ && negb _); [apply keeps_activate | apply preserves_ret; keeps_side]. }
  apply preserves_bind; [keeps_side | | intros m'].
  { apply keeps_of_reg. reg_tac. }
  destruct (_running m'); [apply preserves_ret; keeps_side | apply keeps_performTask].
Qed.

Lemma keeps_run_call (c : api_call) (w : World) : keeps_registry w (run_call c w).
Proof.
  destruct c as [name owner | ownerId | ownerId | ownerId task
                 | ownerId taskId options | activeOwnerId |]; cbn [run_call].
  - apply keeps_register.
  - apply keeps_unregister.
  - unfold TaskManager_activate.
    apply preserves_bind; [keeps_side | apply keeps_activate | intros _].
    apply keeps_check.
  - unfold TaskManager_addTask, lookup_owner.
    apply preserves_bind; [keeps_side | | intros ownerO].
    { apply keeps_of_reg. reg_tac. }
    apply preserves_bind; [keeps_side | | intros owner].
    { apply keeps_of_reg. reg_tac. }
    apply preserves_bind; [keeps_side | | intros _].
    { apply keeps_of_reg. destruct task; reg_tac. }
    apply keeps_check.
  - unfold TaskManager_requireTask.
    destruct (opt_immediate options).
    + apply keeps_of_reg. reg_tac.
    + apply preserves_bind; [keeps_side | | intros _].
      { apply keeps_of_reg. apply reg_set_priorityStack. }
      apply keeps_check.
  - apply keeps_check.
  - unfold turn. destruct (timers w) as [| d rest]; [apply keeps_refl |].
    assert (H : preserves keeps_registry (run_deferred d)).
    { destruct d as [task owner | | c]; cbn [run_deferred].
      - apply keeps_of_reg. reg_tac.
      - apply keeps_performTask.
      - apply keeps_of_reg. reg_tac. }
    exact (H (set_timers rest w)).
Qed.

Lemma registry_inv_initial : registry_inv (manager initial_world).
Proof.
  unfold registry_inv. simpl. split; [apply NoDup_nil_2 |].
  split; [| split; [reflexivity |]].
  - intros id. rewrite lookup_empty. split.
    + intros H. exfalso. revert H. apply not_elem_of_nil.
    + intros [x H]. discriminate.
  - intros id [x H]. rewrite lookup_empty in H. discriminate.
Qed.

Lemma registry_inv_run_calls (cs : list api_call) (w : World) :
  registry_inv (manager w) -> registry_inv (manager (run_calls cs w)).
Proof.
  revert w. induction cs as [| c cs IH]; intros w Hinv; [exact Hinv |].
  apply IH. apply (keeps_run_call c w Hinv).
Qed.

(** X9.  In every state a session reaches (registrations, unregistrations,
    activations, tasks added or required, checks and turns of the host's
    timer queue, in any order and with any arguments, whether or not a call
    ends in an exception), the owner stack lists exactly the registered ids,
    each once, and the active owner is the top of the stack.  So the owner the
    dispatcher looks up as active is registered whenever any owner is, and a
    new registration gets an id that no registered owner has, becomes the top
    of the stack and the active owner. *)
Theorem registry_is_consistent (cs : list api_call) (name owner : value) :
  let w := run_calls cs initial_world in
  registry_inv (manager w)
  /\ (_taskOwnerStack (manager w) <> [] ->
      exists a o, _activeTaskOwner (manager w) = Some a
                  /\ _taskOwners (manager w) !! a = Some o)
  /\ exists id w',
       TaskManager_register name owner w = (Normal id, w')
       /\ _taskOwners (manager w) !! id = None
       /\ (id ∉ _taskOwnerStack (manager w))
       /\ _activeTaskOwner (manager w') = Some id
       /\ _taskOwnerStack (manager w') = (_taskOwnerStack (manager w) ++ [id])%list.
Proof.
  intros w.
  assert (Hinv : registry_inv (manager w)).
  { apply registry_inv_run_calls, registry_inv_initial. }
  split; [exact Hinv |].
  pose proof Hinv as (Hnd & Hmem & Hact & Hcnt).
  split.
  - intros Hne.
    destruct (_taskOwnerStack (manager w)) as [| y l] eqn:Hst using rev_ind;
      [congruence |].
    clear IHl. exists y.
    assert (Hy : is_Some (_taskOwners (manager w) !! y)).
    { apply Hmem. apply elem_of_app. right. apply list_elem_of_singleton. reflexivity. }
    destruct Hy as [o Ho]. exists o. split; [| exact Ho].
    rewrite Hact, last_snoc. reflexivity.
  - destruct (register_run name owner w) as (w' & Hrun & Hm & _).
    eexists. exists w'. split; [exact Hrun |].
    assert (Hfresh : _taskOwners (manager w)
                       !! ("o" +:+ pretty (_ownerCounter (manager w))) = None).
    { destruct (_taskOwners (manager w) !! _) eqn:E; [| reflexivity].
      destruct (Hcnt ("o" +:+ pretty (_ownerCounter (manager w))))
        as (k & Hk & Hlt); [rewrite E; eauto |].
      simpl in Hk. injection Hk as Hk. apply pretty_Z_inj in Hk. lia. }
    split; [exact Hfresh |]. split.
    + intros Hin. apply Hmem in Hin. rewrite Hfresh in Hin. destruct Hin; discriminate.
    + rewrite Hm. split; reflexivity.
Qed.

(** What [_activate] does for a registered owner that is not the active
    one. *)
Lemma activate_run (ownerId : string) (w : World) (o : oref) (l1 l2 : list string) :
  _taskOwners (manager w) !! ownerId = Some o ->
  _activeTaskOwner (manager w) <> Some ownerId ->
  _taskOwnerStack (manager w) = (l1 ++ ownerId :: l2)%list ->
  ownerId ∉ l2 ->
  _activate ownerId w
  = (Throw (ReferenceError "activeOwnerId"),
     set_manager
       (mkManager (Some ownerId) (_ownerCounter (manager w))
                  (_taskOwners (manager w)) ((l1 ++ l2) ++ [ownerId])%list
                  (_priorityStack (manager w)) (_running (manager w))) w).
Proof.
  intros Ho Hact Hst Hn2.
  unfold _activate. rewrite run_bind, getManager_run. rewrite Ho.
  rewrite bool_decide_eq_true_2 by eauto. cbn [orb negb].
  replace (bool_decide (_activeTaskOwner (manager w) = Some ownerId)) with false
    by (symmetry; apply bool_decide_eq_false; exact Hact).
  rewrite Hst, (remove_last_split _ l1 l2 Hn2).
  rewrite run_bind, updManager_run, run_bind, updManager_run.
  reflexivity.
Qed.

(** X10.  [activate] of a registered owner that is not the active one moves
    it to the top of the owner stack and makes it the active owner, and then
    ends in a ReferenceError (the log call of [_activate] reads the variable
    [activeOwnerId], which that function does not have): [check] is not
    reached, so nothing is dispatched by the call.  For the active owner and
    for an id that is not registered, [_activate] does nothing. *)
Theorem activate_other_owner_throws (cs : list api_call) (ownerId : string) :
  let w := run_calls cs initial_world in
  (is_Some (_taskOwners (manager w) !! ownerId) ->
   _activeTaskOwner (manager w) <> Some ownerId ->
   exists w',
     TaskManager_activate ownerId w = (Throw (ReferenceError "activeOwnerId"), w')
     /\ _activeTaskOwner (manager w') = Some ownerId
     /\ last (_taskOwnerStack (manager w')) = Some ownerId
     /\ _taskOwnerStack (manager w') ≡ₚ _taskOwnerStack (manager w)
     /\ _running (manager w') = _running (manager w)
     /\ timers w' = timers w /\ trace w' = trace w
     /\ taskStore w' = taskStore w /\ ownerStore w' = ownerStore w)
  /\ (_taskOwners (manager w) !! ownerId = None
      \/ _activeTaskOwner (manager w) = Some ownerId ->
      _activate ownerId w = (Normal tt, w)).
Proof.
  intros w.
  assert (Hinv : registry_inv (manager w)).
  { apply registry_inv_run_calls, registry_inv_initial. }
  split.
  - intros [o Ho] Hact.
    destruct (registry_inv_in_stack _ _ _ Hinv Ho) as (l1 & l2 & Hst & Hn1 & Hn2).
    eexists. split.
    + unfold TaskManager_activate.
      rewrite run_bind, (activate_run ownerId w o l1 l2 Ho Hact Hst Hn2).
      reflexivity.
    + cbn [manager set_manager _activeTaskOwner _taskOwnerStack _running timers
           trace taskStore ownerStore].
      split; [reflexivity |]. split; [apply last_snoc |].
      split; [| repeat split].
      rewrite Hst, <- app_assoc. apply Permutation_app_head.
      symmetry. apply Permutation_cons_append.
  - intros Hcase.
    destruct (_taskOwners (manager w) !! ownerId) as [o |] eqn:Ho;
      [| exact (activate_unregistered ownerId w Hinv Ho)].
    destruct Hcase as [Hnone | Hact]; [discriminate |].
    unfold _activate. rewrite run_bind, getManager_run, Ho.
    rewrite bool_decide_eq_true_2 by eauto. cbn [orb negb].
    rewrite bool_decide_eq_true_2 by exact Hact. reflexivity.
Qed.

Lemma activate_other_owner_throws_witness :
  fst (TaskManager_activate "o1"
         (run_calls [CallRegister (VStr "A") (VObj []);
                     CallRegister (VStr "B") (VObj [])] initial_world))
  = Throw (ReferenceError "activeOwnerId").
Proof.
  destruct (activate_other_owner_throws
              [CallRegister (VStr "A") (VObj []); CallRegister (VStr "B") (VObj [])]
              "o1") as [H _].
  destruct H as (w' & Hrun & _).
  - vm_compute. eauto.
  - vm_compute. discriminate.
  - rewrite Hrun. reflexivity.
Defined.

(** ** What the owners' methods leave alone *)

Lemma calm_refl (w : World) : calm w w.
Proof. repeat split. Qed.

Lemma calm_trans (a b c : World) : calm a b -> calm b c -> calm a c.
Proof. intros (H1 & H2 & H3) (H4 & H5 & H6). repeat split; congruence. Qed.

Ltac calm_side := first [exact calm_refl | exact calm_trans].

Ltac calm_leaf :=
  apply preserves_modify; intros ?; unfold calm; simpl; repeat split; reflexivity.

Lemma calm_updTask (r : ref) (f : TaskObj -> TaskObj) : preserves calm (updTask r f).
Proof.
  unfold updTask. apply preserves_bind; [calm_side | | intros].
  - apply preserves_getTask; calm_side.
  - calm_leaf.
Qed.

Lemma calm_updOwner (o : oref) (f : OwnerObj -> OwnerObj) :
  preserves calm (updOwner o f).
Proof.
  unfold updOwner. apply preserves_bind; [calm_side | | intros].
  - apply preserves_getOwner; calm_side.
  - calm_leaf.
Qed.

Lemma calm_emit (e : Event) : preserves calm (emit e).
Proof. unfold emit. calm_leaf. Qed.

Create HintDb calm discriminated.

#[local] Hint Resolve calm_updTask calm_updOwner calm_emit : calm.

Ltac calm_tac :=
  repeat first
    [ solve [auto 1 with calm nocore]
    | apply preserves_ret; calm_side
    | apply preserves_throw; calm_side
    | apply preserves_gets; calm_side
    | apply preserves_expect; calm_side
    | apply preserves_getTask; calm_side
    | apply preserves_getOwner; calm_side
    | apply preserves_getManager; calm_side
    | apply preserves_bind; [calm_side | | intros ]
    | apply preserves_for_each; [calm_side | calm_side | intros ]
    | apply preserves_map_each; [calm_side | calm_side | intros ]
    | calm_leaf
    | match goal with
      | |- preserves _ (match ?x with _ => _ end) => destruct x
      | |- preserves _ (if ?x then _ else _) => destruct x
      | |- preserves _ (let '(_, _) := ?x in _) => destruct x
      end ].

Lemma calm_new_Task (config : Config) : preserves calm (new_Task config).
Proof. unfold new_Task, allocTask. calm_tac. Qed.
#[local] Hint Resolve calm_new_Task : calm.

Lemma calm_new_IterationTask (config : Config) :
  preserves calm (new_IterationTask config).
Proof. unfold new_IterationTask, allocTask. calm_tac. Qed.
#[local] Hint Resolve calm_new_IterationTask : calm.

Lemma calm_new_Owner (name origin : value) : preserves calm (new_Owner name origin).
Proof. unfold new_Owner. calm_tac. Qed.
#[local] Hint Resolve calm_new_Owner : calm.

Lemma calm_Owner_add (this : oref) (task : TaskSpec) :
  preserves calm (Owner_add this task).
Proof. unfold Owner_add. calm_tac. Qed.
#[local] Hint Resolve calm_Owner_add : calm.

Lemma calm_Owner_get (this : oref) (taskId : value) :
  preserves calm (Owner_get this taskId).
Proof. unfold Owner_get. calm_tac. Qed.
#[local] Hint Resolve calm_Owner_get : calm.

Lemma calm_removeTask (owner : oref) (taskId : value) :
  preserves calm (_removeTask owner taskId).
Proof. unfold _removeTask. calm_tac. Qed.
#[local] Hint Resolve calm_removeTask : calm.

Lemma calm_Owner_setNext (this : oref) (taskId : value) :
  preserves calm (Owner_setNext this taskId).
Proof. unfold Owner_setNext. calm_tac. Qed.
#[local] Hint Resolve calm_Owner_setNext : calm.

Lemma calm_getNext_scan (tasks : gmap string ref) (rest before : list value) :
  preserves calm (getNext_scan tasks before rest).
Proof.
  revert before. induction rest as [| x rest IH]; intros before; simpl.
  - calm_tac.
  - destruct (tasks !! ToString x) as [r |]; [| calm_tac].
    apply preserves_bind; [calm_side | calm_tac | intros t].
    destruct (negb (t_activeOnly t)); [calm_tac | apply IH].
Qed.
#[local] Hint Resolve calm_getNext_scan : calm.

Lemma calm_Owner_getNext (this : oref) (isActive : value) :
  preserves calm (Owner_getNext this isActive).
Proof. unfold Owner_getNext. calm_tac. Qed.
#[local] Hint Resolve calm_Owner_getNext : calm.

Lemma calm_Owner_completed (this : oref) (task : ref) (manualOverride : bool) :
  preserves calm (Owner_completed this task manualOverride).
Proof. unfold Owner_completed. calm_tac. Qed.
#[local] Hint Resolve calm_Owner_completed : calm.

Lemma calm_Owner_hasPending (this : oref) : preserves calm (Owner_hasPending this).
Proof. unfold Owner_hasPending. calm_tac. Qed.
#[local] Hint Resolve calm_Owner_hasPending : calm.

Lemma calm_Owner_destroy (this : oref) : preserves calm (Owner_destroy this).
Proof. unfold Owner_destroy, _destroyTasks. calm_tac. Qed.
#[local] Hint Resolve calm_Owner_destroy : calm.

(** X11.  No method of an owner ([add], [get], [setNext], [getNext],
    [completed], [hasPending], [destroy]) and no constructor touches the
    manager's variables, the timer queue or the implicit globals, whether it
    returns or throws: an owner never schedules anything by itself. *)
Theorem owner_methods_schedule_nothing (this : oref) (w : World) :
  (forall task, calm w (snd (Owner_add this task w)))
  /\ (forall v, calm w (snd (Owner_get this v w)))
  /\ (forall v, calm w (snd (Owner_setNext this v w)))
  /\ (forall a, calm w (snd (Owner_getNext this a w)))
  /\ (forall task mo, calm w (snd (Owner_completed this task mo w)))
  /\ calm w (snd (Owner_hasPending this w))
  /\ calm w (snd (Owner_destroy this w))
  /\ (forall name origin, calm w (snd (new_Owner name origin w))).
Proof.
  repeat split; intros;
    first [ apply calm_Owner_add | apply calm_Owner_get | apply calm_Owner_setNext
          | apply calm_Owner_getNext | apply calm_Owner_completed
          | apply calm_Owner_hasPending | apply calm_Owner_destroy
          | apply calm_new_Owner ].
Qed.

Lemma registered_id_nonempty (m : Manager) (id : string) :
  registry_inv m -> is_Some (_taskOwners m !! id) -> String.eqb id "" = false.
Proof.
  intros (_ & _ & _ & Hcnt) Hid. destruct (Hcnt id Hid) as (k & -> & _). reflexivity.
Qed.

(** X12.  [addTask] for a registered owner that is not the active one: the
    task is added to the owner and the owner is moved to the top of the stack
    and made active, but the call then ends in the ReferenceError of
    [_activate], before the dispatcher is asked.  So the call schedules
    nothing, even when the manager is idle. *)
Theorem addTask_to_other_owner_throws (w : World) (ownerId : string) (o : oref)
        (task : TaskSpec) (oo : OwnerObj) (m : gmap string ref) (l : list value)
        (r : ref) (t : TaskObj) :
  registry_inv (manager w) ->
  _taskOwners (manager w) !! ownerId = Some o ->
  _activeTaskOwner (manager w) <> Some ownerId ->
  ownerStore w !! o = Some oo ->
  o_tasks oo = Some m -> o_taskOrder oo = Some l ->
  added_task task w = Some (r, t) ->
  exists w',
    TaskManager_addTask ownerId (OneTask task) w
    = (Throw (ReferenceError "activeOwnerId"), w')
    /\ (o_taskOrder <$> ownerStore w' !! o) = Some (Some (l ++ [t_id t])%list)
    /\ taskStore w' !! r = Some t
    /\ _activeTaskOwner (manager w') = Some ownerId
    /\ _running (manager w') = _running (manager w)
    /\ timers w' = timers w.
Proof.
  intros Hinv Ho Hact Hoo Hm Hl Hadd.
  destruct (registry_inv_in_stack _ _ _ Hinv Ho) as (l1 & l2 & Hst & Hn1 & Hn2).
  destruct (add_run o task w oo m l r t Hoo Hm Hl Hadd) as (w1 & Hrun & Hs & Ho1 & _).
  pose proof (calm_Owner_add o task w) as Hcalm. rewrite Hrun in Hcalm.
  destruct Hcalm as (Hmgr & Htm & _). cbn [snd] in Hmgr, Htm.
  assert (Hne : String.eqb ownerId "" = false).
  { apply (registered_id_nonempty _ _ Hinv). rewrite Ho. eauto. }
  eexists. split.
  - unfold TaskManager_addTask, lookup_owner.
    rewrite run_bind, run_bind, getManager_run, run_ret, Ho.
    cbn [expect]. rewrite run_bind, run_ret, run_bind, Hrun.
    unfold TaskManager_check. rewrite run_bind, getManager_run, run_bind.
    rewrite Hne, Hmgr.
    replace (bool_decide (_activeTaskOwner (manager w) = Some ownerId)) with false
      by (symmetry; apply bool_decide_eq_false; exact Hact).
    cbn [negb andb].
    rewrite (activate_run ownerId w1 o l1 l2); rewrite ?Hmgr; try assumption.
    reflexivity.
  - cbn [manager set_manager ownerStore taskStore timers _activeTaskOwner _running].
    rewrite Ho1, Hs, lookup_insert_eq, ?Hmgr, ?Htm. repeat split.
Qed.

Lemma addTask_to_other_owner_throws_witness :
  fst (TaskManager_addTask "o1" (OneTask t1_definition)
         (run_calls [CallRegister (VStr "A") (VObj []);
                     CallRegister (VStr "B") (VObj [])] initial_world))
  = Throw (ReferenceError "activeOwnerId").
Proof.
  set (w := run_calls _ initial_world).
  assert (Hinv : registry_inv (manager w)).
  { apply registry_inv_run_calls, registry_inv_initial. }
  assert (Ho : _taskOwners (manager w) !! "o1" = Some 0%nat) by (vm_compute; reflexivity).
  assert (Hact : _activeTaskOwner (manager w) <> Some "o1") by (vm_compute; discriminate).
  assert (Hoo : exists oo, ownerStore w !! 0%nat = Some oo
                           /\ o_tasks oo = Some ∅ /\ o_taskOrder oo = Some []).
  { eexists. split; [vm_compute; reflexivity |]. split; reflexivity. }
  destruct Hoo as (oo & Hoo & Hm & Hl).
  destruct (addTask_to_other_owner_throws w "o1" 0%nat t1_definition oo ∅ [] _ _
              Hinv Ho Hact Hoo Hm Hl eq_refl) as (w' & Hrun & _).
  rewrite Hrun. reflexivity.
Defined.

(** ** The priority queue *)







(** ** Running a plain task to its end *)

(** The trace of one run of a plain task. *)
Lemma Owner_completed_live_run (o : oref) (task : ref) (w : World) (oo : OwnerObj)
      (cm : gmap string ref) (t : TaskObj) :
  ownerStore w !! o = Some oo ->
  o_completedTasks oo = Some cm ->
  taskStore w !! task = Some t ->
  o_liveTask oo = Some task ->
  Owner_completed o task false w
  = (Normal tt,
     put_owner o (set_o_completedTasks (Some (<[ToString (t_id t) := task]> cm)) oo)
       (put_event (EvOwnerCompleted o task false) w)).
Proof.
  intros Hoo Hcm Ht Hlive. unfold Owner_completed. mrun.
  assert (Ht' : taskStore (put_event (EvOwnerCompleted o task false) w) !! task
                = Some t) by exact Ht.
  assert (Ho' : ownerStore (put_event (EvOwnerCompleted o task false) w) !! o
                = Some oo) by exact Hoo.
  mrun. rewrite bool_decide_eq_true_2 by exact Hlive. mrun.
  rewrite Hcm. mrun. reflexivity.
Qed.


Lemma execute_tail_run (task : ref) (o : oref) (returnControl mo : bool)
      (w0 w1 : World) (t' : TaskObj) :
  Owner_completed o task mo w0 = (Normal tt, w1) ->
  taskStore w1 !! task = Some t' ->
  (Owner_completed o task mo;;
   call_task_callback task;;
   me ← getTask task;
   call_next (KExecuteTask task returnControl) (t_result me);;
   mret VUndefined) w0
  = (Normal VUndefined,
     set_timers (timers w1 ++ (if returnControl then [] else [DPerformTask]))%list
       (set_trace (trace w1 ++ callback_events task t'
                     ++ [EvNext task (t_result t')])%list w1)).
Proof.
  intros Hc Ht'. rewrite run_bind, Hc. unfold call_task_callback, callback_events.
  mrun. destruct (t_callback t') as [cb |].
  - mrun.
    assert (Ht2 : taskStore (put_event (EvTaskCallback task cb (t_result t')) w1) !! task
                  = Some t') by exact Ht'.
    mrun. unfold call_next. mrun.
    destruct returnControl; cbn [negb]; mrun.
    + unfold put_event, set_timers, set_trace. simpl.
      rewrite app_nil_r, <- !app_assoc. reflexivity.
    + unfold defer. rewrite modify_run. mrun.
      unfold put_event, set_timers, set_trace. simpl.
      rewrite <- !app_assoc. reflexivity.
  - mrun. unfold call_next. mrun.
    destruct returnControl; cbn [negb]; mrun.
    + unfold put_event, set_timers, set_trace. simpl.
      rewrite app_nil_r. reflexivity.
    + unfold defer. rewrite modify_run. mrun.
      unfold put_event, set_timers, set_trace. simpl. reflexivity.
Qed.

(** The dispatcher's deferred call [_executeTask(task, owner)] on the live
    task of the owner, a plain task that is neither ACTIVE nor COMPLETE. *)
Lemma executeTask_live_run (task : ref) (o : oref) (w : World) (t : TaskObj)
      (oo : OwnerObj) (cm : gmap string ref) (f : JsFun) :
  taskStore w !! task = Some t ->
  ownerStore w !! o = Some oo ->
  t_iteration t = None ->
  t_state t <> Some ACTIVE -> t_state t <> Some COMPLETE ->
  t_fn t = Some f ->
  o_liveTask oo = Some task ->
  o_completedTasks oo = Some cm ->
  exists w',
    _executeTask task o false w = (Normal tt, w')
    /\ taskStore w' = <[task := ran t oo]> (taskStore w)
    /\ ownerStore w'
       = <[o := set_o_completedTasks (Some (<[ToString (t_id t) := task]> cm)) oo]>
           (ownerStore w)
    /\ manager w' = manager w
    /\ timers w' = (timers w ++ [DPerformTask])%list
    /\ trace w'
       = (trace w
            ++ [EvFn task (js_or (t_context t) (o_origin oo))
                     (default [] (t_arguments t));
                EvOwnerCompleted o task false]
            ++ callback_events task (ran t oo)
            ++ [EvNext task (t_result (ran t oo))])%list.
Proof.
  intros Ht Hoo Hit Hna Hnc Hf Hlive Hcm.
  pose proof (Task_execute_unguarded w task o (KExecuteTask task false) false t oo f
                Ht Hoo Hit Hna Hnc Hf) as Hrun.
  cbv zeta in Hrun.
  set (w0 := set_trace _ (set_taskStore _ w)) in Hrun.
  assert (Ht0 : taskStore w0 !! task = Some (ran t oo)).
  { subst w0. simpl. rewrite lookup_insert_eq. unfold ran. rewrite Hf. reflexivity. }
  assert (Ho0 : ownerStore w0 !! o = Some oo) by exact Hoo.
  pose proof (Owner_completed_live_run o task w0 oo cm (ran t oo) Ho0 Hcm Ht0 Hlive)
    as Hc.
  eexists. split.
  - unfold _executeTask. rewrite run_bind, Hrun.
    rewrite (execute_tail_run task o false false w0 _ (ran t oo) Hc).
    + reflexivity.
    + exact Ht0.
  - subst w0. unfold put_owner, put_event. simpl.
    unfold ran at 1. rewrite Hf.
    repeat split; try reflexivity.
    rewrite <- !app_assoc. reflexivity.
Qed.

(** ** One owner: tasks run in the order they were added *)

(** A dispatch pass that finds the head of the queue. *)
Lemma performTask_hands_out_head (w : World) (a : string) (o : oref)
      (oo : OwnerObj) (m : gmap string ref) (x : value) (l : list value)
      (r : ref) :
  sole_owner a o (manager w) ->
  ownerStore w !! o = Some oo ->
  o_tasks oo = Some m -> o_taskOrder oo = Some (x :: l) ->
  plain_pending (taskStore w) m x r ->
  _performTask w
  = (Normal tt,
     set_timers (timers w ++ [DExecuteTask r o])%list
       (set_manager (set_running true (manager w))
          (put_owner o
             (mkOwner (o_id oo) (o_name oo) (o_origin oo)
                      (Some (delete (ToString x) m)) (Some l) (Some r)
                      (o_completedTasks oo)) w))).
Proof.
  intros (Hq & Hst & Hact & Hreg) Hoo Hm Hl (Hu & Hx & t & f & Ht & _ & _ & _ & _ & Ha).
  pose proof (getNext_inactive_skips_activeOnly o VUndefined w oo m [] l x r t
                Hoo Hm Hl eq_refl) as Hnext.
  specialize (Hnext ltac:(intros y Hy; exfalso; revert Hy; apply not_elem_of_nil)
                    Hx Ht Ha Hu).
  cbn [app] in Hnext.
  unfold _performTask, _performPriorityTask.
  rewrite run_bind, run_bind, getManager_run, Hq, run_ret.
  rewrite run_bind, getManager_run, Hst.
  unfold lookup_active_owner.
  rewrite run_bind, run_bind, getManager_run, Hact, run_ret, Hreg.
  cbn [expect]. rewrite run_bind, run_ret, run_bind, Hnext.
  cbn [length Nat.sub rotate_owners]. rewrite run_bind, run_ret.
  rewrite run_bind, updManager_run. unfold defer. rewrite modify_run.
  reflexivity.
Qed.

(** A dispatch pass that finds the queue empty. *)
Lemma performTask_goes_idle (w : World) (a : string) (o : oref) (oo : OwnerObj) :
  sole_owner a o (manager w) ->
  ownerStore w !! o = Some oo ->
  o_taskOrder oo = Some [] ->
  _performTask w = (Normal tt, set_manager (set_running false (manager w)) w).
Proof.
  intros (Hq & Hst & Hact & Hreg) Hoo Hl.
  unfold _performTask, _performPriorityTask.
  rewrite run_bind, run_bind, getManager_run, Hq, run_ret.
  rewrite run_bind, getManager_run, Hst.
  unfold lookup_active_owner.
  rewrite run_bind, run_bind, getManager_run, Hact, run_ret, Hreg.
  cbn [expect]. rewrite run_bind, run_ret, run_bind.
  unfold Owner_getNext. mrun. rewrite Hl. mrun.
  cbn [length Nat.sub rotate_owners]. mrun. reflexivity.
Qed.

Lemma fn_calls_run_events (tr : list Event) (r : ref) (this : value)
      (args : list value) (o : oref) (t : TaskObj) :
  fn_calls (tr ++ [EvFn r this args; EvOwnerCompleted o r false]
               ++ callback_events r t ++ [EvNext r (t_result t)])%list
  = (fn_calls tr ++ [(r, args)])%list.
Proof.
  rewrite fn_calls_app. f_equal. unfold callback_events.
  destruct (t_callback t); reflexivity.
Qed.

Lemma plain_pending_refs_differ (s : gmap ref TaskObj) (m : gmap string ref)
      (x y : value) (r r' : ref) :
  plain_pending s m x r -> plain_pending s m y r' -> x <> y ->
  r <> r' /\ ToString x <> ToString y.
Proof.
  intros (_ & Hx & t & f & Ht & Hid & _) (_ & Hy & t' & f' & Ht' & Hid' & _) Hne.
  assert (Hr : r <> r').
  { intros E. subst r'. rewrite Ht in Ht'. inversion Ht'; subst t'. congruence. }
  split; [exact Hr |].
  intros E. rewrite E, Hy in Hx. congruence.
Qed.

Lemma plain_pending_rest (s : gmap ref TaskObj) (m : gmap string ref)
      (x : value) (r : ref) (t' : TaskObj) (l : list value) (rs : list ref) :
  plain_pending s m x r -> x ∉ l ->
  Forall2 (plain_pending s m) l rs ->
  Forall2 (plain_pending (<[r := t']> s) (delete (ToString x) m)) l rs.
Proof.
  intros Hx Hxl Hall. revert Hxl.
  induction Hall as [| y r' l rs Hy Hall IHall]; intros Hxl; constructor.
  - assert (Hne : x <> y).
    { intros ->. apply Hxl. apply elem_of_cons. left. reflexivity. }
    destruct (plain_pending_refs_differ _ _ _ _ _ _ Hx Hy Hne) as [Hr Hk].
    destruct Hy as (Hu & Hmy & t0 & f0 & Ht0 & Hrest).
    split; [exact Hu |]. split.
    + rewrite lookup_delete_ne by congruence. exact Hmy.
    + exists t0, f0. split; [| exact Hrest].
      rewrite lookup_insert_ne by congruence. exact Ht0.
  - apply IHall. intros Hin. apply Hxl. apply elem_of_cons. right. exact Hin.
Qed.

Lemma plain_pending_not_in (s : gmap ref TaskObj) (m : gmap string ref)
      (x : value) (r : ref) (l : list value) (rs : list ref) :
  plain_pending s m x r -> x ∉ l ->
  Forall2 (plain_pending s m) l rs -> r ∉ rs.
Proof.
  intros Hx Hxl Hall. revert Hxl.
  induction Hall as [| y r' l rs Hy Hall IHall]; intros Hxl Hin.
  - revert Hin. apply not_elem_of_nil.
  - apply elem_of_cons in Hin. destruct Hin as [-> | Hin].
    + assert (Hne : x <> y).
      { intros ->. apply Hxl. apply elem_of_cons. left. reflexivity. }
      destruct (plain_pending_refs_differ _ _ _ _ _ _ Hx Hy Hne) as [Hr _].
      congruence.
    + apply IHall; [| exact Hin].
      intros Hin'. apply Hxl. apply elem_of_cons. right. exact Hin'.
Qed.

Lemma fifo_from_dispatch (a : string) (o : oref) :
  forall (l : list value) (rs : list ref) (w : World) (oo : OwnerObj)
         (m cm : gmap string ref),
    sole_owner a o (manager w) ->
    timers w = [] ->
    ownerStore w !! o = Some oo ->
    o_tasks oo = Some m -> o_taskOrder oo = Some l -> o_completedTasks oo = Some cm ->
    NoDup l ->
    Forall2 (plain_pending (taskStore w) m) l rs ->
    let w' := turns (2 * length l) (snd (_performTask w)) in
    fn_calls (trace w') = (fn_calls (trace w) ++ (call_of (taskStore w) <$> rs))%list
    /\ timers w' = [] /\ _running (manager w') = false
    /\ (exists oo', ownerStore w' !! o = Some oo' /\ o_taskOrder oo' = Some []
                    /\ o_origin oo' = o_origin oo)
    /\ (forall r t, r ∈ rs -> taskStore w !! r = Some t ->
                    taskStore w' !! r = Some (ran t oo))
    /\ (forall r, r ∉ rs -> taskStore w' !! r = taskStore w !! r).
Proof.
  induction l as [| x l IH]; intros rs w oo m cm Hsole Htm Hoo Hm Hl Hcm Hnd Hall w'.
  - apply Forall2_nil_inv_l in Hall. subst rs. subst w'.
    rewrite (performTask_goes_idle w a o oo Hsole Hoo Hl). cbn [length Nat.mul turns snd].
    cbn [fmap list_fmap]. rewrite app_nil_r.
    split; [reflexivity |]. split; [exact Htm |]. split; [reflexivity |].
    split; [exists oo; repeat split; assumption |].
    split; [| reflexivity].
    intros r t Hr. exfalso. revert Hr. apply not_elem_of_nil.
  - apply Forall2_cons_inv_l in Hall. destruct Hall as (r & rs' & Hx & Hall & ->).
    apply NoDup_cons in Hnd. destruct Hnd as [Hxl Hnd].
    pose proof Hx as (Hu & Hmx & t & f & Ht & Hid & Hit & Hst & Hf & Ha).
    subst w'.
    rewrite (performTask_hands_out_head w a o oo m x l r Hsole Hoo Hm Hl Hx).
    cbn [snd]. rewrite Htm. cbn [app].
    set (oo1 := mkOwner _ _ _ _ _ _ _).
    replace (2 * length (x :: l))%nat with (S (S (2 * length l)))%nat
      by (cbn [length]; lia).
    cbn [turns].
    (* the first turn runs the task *)
    set (w1 := set_timers [DExecuteTask r o] _).
    assert (Hturn1 : turn w1 = snd (_executeTask r o false (set_timers [] w1))).
    { reflexivity. }
    set (w1' := set_timers [] w1) in Hturn1.
    assert (Ht1 : taskStore w1' !! r = Some t) by exact Ht.
    assert (Ho1 : ownerStore w1' !! o = Some oo1).
    { subst w1' w1. simpl. apply lookup_insert_eq. }
    destruct (executeTask_live_run r o w1' t oo1 cm f Ht1 Ho1 Hit
                ltac:(rewrite Hst; discriminate) ltac:(rewrite Hst; discriminate)
                Hf eq_refl Hcm)
      as (w2 & Hrun2 & Hs2 & Hos2 & Hmg2 & Htm2 & Htr2).
    rewrite Hturn1, Hrun2. cbn [snd].
    (* the second turn is the next dispatch pass *)
    assert (Hturn2 : turn w2 = snd (_performTask (set_timers [] w2))).
    { unfold turn. rewrite Htm2. reflexivity. }
    rewrite Hturn2.
    set (w3 := set_timers [] w2).
    assert (Hran : ran t oo1 = ran t oo) by reflexivity.
    assert (Hsole3 : sole_owner a o (manager w3)).
    { subst w3. cbn [manager set_timers]. rewrite Hmg2. exact Hsole. }
    assert (Ho3 : ownerStore w3 !! o
                  = Some (set_o_completedTasks
                            (Some (<[ToString (t_id t) := r]> cm)) oo1)).
    { subst w3. cbn [ownerStore set_timers]. rewrite Hos2. apply lookup_insert_eq. }
    assert (Hall3 : Forall2 (plain_pending (taskStore w3) (delete (ToString x) m)) l rs').
    { subst w3. cbn [taskStore set_timers]. rewrite Hs2.
      apply (plain_pending_rest _ _ _ _ _ _ _ Hx Hxl Hall). }
    destruct (IH rs' w3 _ (delete (ToString x) m) (<[ToString (t_id t) := r]> cm)
                Hsole3 eq_refl Ho3 eq_refl eq_refl eq_refl Hnd Hall3)
      as (Hfn & Htm' & Hrun' & (oo' & Hoo' & Hl' & Hor') & Hdone & Hframe).
    assert (Hr_notin : r ∉ rs').
    { apply (plain_pending_not_in _ _ _ _ _ _ Hx Hxl Hall). }
    split; [| split; [exact Htm' | split; [exact Hrun' | split; [| split]]]].
    + rewrite Hfn. subst w3. cbn [trace taskStore set_timers]. rewrite Htr2.
      rewrite fn_calls_run_events. subst w1' w1. cbn [trace set_timers set_manager put_owner
        set_ownerStore]. rewrite <- app_assoc. f_equal.
      cbn [fmap list_fmap app]. f_equal.
      * unfold call_of. rewrite Ht. reflexivity.
      * rewrite Hs2. clear - Hr_notin.
        induction rs' as [| r' rs' IHrs]; [reflexivity |].
        cbn [fmap list_fmap]. f_equal.
        -- unfold call_of. rewrite lookup_insert_ne; [reflexivity |].
           intros ->. apply Hr_notin. apply elem_of_cons. left. reflexivity.
        -- apply IHrs. intros Hin. apply Hr_notin. apply elem_of_cons. right. exact Hin.
    + exists oo'. split; [exact Hoo' |]. split; [exact Hl' | exact Hor'].
    + intros r0 t0 Hin Ht0. apply elem_of_cons in Hin. destruct Hin as [-> | Hin].
      * rewrite (Hframe r Hr_notin). subst w3. cbn [taskStore set_timers].
        rewrite Hs2, lookup_insert_eq. rewrite Ht in Ht0. inversion Ht0; subst t0.
        rewrite Hran. reflexivity.
      * assert (Hne : r0 <> r) by (intros ->; contradiction).
        assert (Ht0' : taskStore w3 !! r0 = Some t0).
        { subst w3. cbn [taskStore set_timers]. rewrite Hs2, lookup_insert_ne by congruence.
          exact Ht0. }
        rewrite (Hdone r0 t0 Hin Ht0'). reflexivity.
    + intros r0 Hnot.
      assert (Hne : r0 <> r).
      { intros ->. apply Hnot. apply elem_of_cons. left. reflexivity. }
      rewrite Hframe.
      * subst w3. cbn [taskStore set_timers]. rewrite Hs2, lookup_insert_ne by congruence.
        reflexivity.
      * intros Hin. apply Hnot. apply elem_of_cons. right. exact Hin.
Qed.

(** X15.  One registered owner, which is active; no priority request; the
    manager idle.  The owner's pending tasks are plain tasks with a function,
    PENDING, not [activeOnly], under distinct ids.  After [check()] and two
    turns of the timer queue per task, every function has been called exactly
    once, in the order the ids are listed in [taskOrder]; each task is
    COMPLETE and holds the value of its function; no other task was touched;
    the queue of the owner and the timer queue are empty and the manager is
    idle again. *)
Theorem single_owner_runs_fifo (w : World) (a : string) (o : oref) (oo : OwnerObj)
        (m cm : gmap string ref) (l : list value) (rs : list ref) :
  sole_owner a o (manager w) ->
  _running (manager w) = false ->
  timers w = [] ->
  ownerStore w !! o = Some oo ->
  o_tasks oo = Some m -> o_taskOrder oo = Some l -> o_completedTasks oo = Some cm ->
  NoDup l ->
  Forall2 (plain_pending (taskStore w) m) l rs ->
  let w' := turns (2 * length l) (snd (TaskManager_check None w)) in
  fn_calls (trace w') = (fn_calls (trace w) ++ (call_of (taskStore w) <$> rs))%list
  /\ (forall r t, r ∈ rs -> taskStore w !! r = Some t ->
                  taskStore w' !! r = Some (ran t oo))
  /\ (forall r, r ∉ rs -> taskStore w' !! r = taskStore w !! r)
  /\ (o_taskOrder <$> ownerStore w' !! o) = Some (Some [])
  /\ timers w' = [] /\ _running (manager w') = false.
Proof.
  intros Hsole Hrun Htm Hoo Hm Hl Hcm Hnd Hall w'.
  assert (E : snd (TaskManager_check None w) = snd (_performTask w)).
  { unfold TaskManager_check.
    rewrite run_bind, getManager_run, run_bind, run_ret, run_bind, getManager_run, Hrun.
    reflexivity. }
  subst w'. rewrite E.
  destruct (fifo_from_dispatch a o l rs w oo m cm Hsole Htm Hoo Hm Hl Hcm Hnd Hall)
    as (Hfn & Htm' & Hrun' & (oo' & Hoo' & Hl' & _) & Hdone & Hframe).
  split; [exact Hfn |]. split; [exact Hdone |]. split; [exact Hframe |].
  split; [rewrite Hoo'; simpl; rewrite Hl'; reflexivity |].
  split; assumption.
Qed.

Lemma single_owner_runs_fifo_witness :
  fn_calls (trace (turns 4 (snd (TaskManager_check None world_two_pending))))
  = [(0%nat, []); (1%nat, [])].
Proof.
  assert (Hoo : exists oo, ownerStore world_two_pending !! 0%nat = Some oo
                  /\ o_tasks oo = Some {[ "t1" := 0%nat; "t2" := 1%nat ]}
                  /\ o_taskOrder oo = Some [VStr "t1"; VStr "t2"]
                  /\ o_completedTasks oo = Some ∅).
  { eexists. split; [vm_compute; reflexivity |]. repeat split. }
  destruct Hoo as (oo & Hoo & Hm & Hl & Hcm).
  assert (Hsole : sole_owner "o1" 0%nat (manager world_two_pending)).
  { vm_compute. repeat split. }
  assert (Hnd : NoDup [VStr "t1"; VStr "t2"]).
  { apply NoDup_cons. split.
    - intros Hin. apply list_elem_of_singleton in Hin. discriminate.
    - apply NoDup_singleton. }
  assert (Hall : Forall2 (plain_pending (taskStore world_two_pending)
                            {[ "t1" := 0%nat; "t2" := 1%nat ]})
                         [VStr "t1"; VStr "t2"] [0%nat; 1%nat]).
  { repeat constructor; try discriminate; try reflexivity;
      do 2 eexists; (split; [vm_compute; reflexivity |]); repeat split. }
  destruct (single_owner_runs_fifo world_two_pending "o1" 0%nat oo _ _ _ _
              Hsole eq_refl eq_refl Hoo Hm Hl Hcm Hnd Hall) as (Hfn & _).
  cbn [length Nat.mul Nat.add] in Hfn. rewrite Hfn. vm_compute. reflexivity.
Defined.

(** ** A dispatch pass that finds nothing *)

Lemma iter_unshift_pop (l2 l1 : list string) :
  Nat.iter (length l2) unshift_pop (l1 ++ l2)%list = (l2 ++ l1)%list.
Proof.
  revert l1. induction l2 as [| x l2 IH] using rev_ind; intros l1.
  - simpl. rewrite app_nil_r. reflexivity.
  - rewrite length_app. cbn [length]. rewrite Nat.add_1_r, Nat.iter_succ_r.
    rewrite app_assoc, unshift_pop_snoc, app_comm_cons.
    rewrite (IH (x :: l1)), <- app_assoc. reflexivity.
Qed.

Lemma getNext_empty (o : oref) (a : value) (w : World) (oo : OwnerObj) :
  ownerStore w !! o = Some oo -> o_taskOrder oo = Some [] ->
  Owner_getNext o a w = (Normal None, w).
Proof. intros Hoo Hl. unfold Owner_getNext. mrun. rewrite Hl. reflexivity. Qed.

Lemma elem_of_unshift_pop (x : string) (l : list string) :
  x ∈ unshift_pop l <-> x ∈ l.
Proof.
  destruct l as [| y l] using rev_ind; [reflexivity |].
  rewrite unshift_pop_snoc, elem_of_cons, elem_of_app, list_elem_of_singleton. tauto.
Qed.

Lemma last_elem_of (x : string) (l : list string) : last l = Some x -> x ∈ l.
Proof.
  intros H. apply last_Some in H. destruct H as [l' ->].
  apply elem_of_app. right. apply list_elem_of_singleton. reflexivity.
Qed.

(** The loop of [_performTask] when no owner has a pending task. *)
Lemma rotate_owners_all_empty (n : nat) :
  forall (w : World) (owner : oref),
    (forall id, id ∈ _taskOwnerStack (manager w) ->
       exists o oo, _taskOwners (manager w) !! id = Some o
                    /\ ownerStore w !! o = Some oo /\ o_taskOrder oo = Some []) ->
    _activeTaskOwner (manager w) = last (_taskOwnerStack (manager w)) ->
    _taskOwnerStack (manager w) <> [] ->
    exists owner',
      rotate_owners n owner None w
      = (Normal (owner', None),
         set_manager
           (mkManager (last (Nat.iter n unshift_pop (_taskOwnerStack (manager w))))
                      (_ownerCounter (manager w)) (_taskOwners (manager w))
                      (Nat.iter n unshift_pop (_taskOwnerStack (manager w)))
                      (_priorityStack (manager w)) (_running (manager w))) w).
Proof.
  induction n as [| n IH]; intros w owner Hall Hact Hne.
  - exists owner. cbn [rotate_owners Nat.iter nat_rect]. rewrite run_ret. f_equal.
    rewrite <- Hact. destruct w as [ts os c oc g mg tm tr]. destruct mg. reflexivity.
  - cbn [rotate_owners].
    rewrite run_bind, updManager_run, run_bind, updManager_run.
    set (w1 := set_manager _ (set_manager _ w)).
    assert (Hst1 : _taskOwnerStack (manager w1) = unshift_pop (_taskOwnerStack (manager w)))
      by reflexivity.
    assert (Hact1 : _activeTaskOwner (manager w1) = last (_taskOwnerStack (manager w1)))
      by reflexivity.
    assert (Hall1 : forall id, id ∈ _taskOwnerStack (manager w1) ->
       exists o oo, _taskOwners (manager w1) !! id = Some o
                    /\ ownerStore w1 !! o = Some oo /\ o_taskOrder oo = Some []).
    { intros id Hid.
      change (id ∈ unshift_pop (_taskOwnerStack (manager w))) in Hid.
      apply (proj1 (elem_of_unshift_pop _ _)) in Hid. exact (Hall id Hid). }
    assert (Hne1 : _taskOwnerStack (manager w1) <> []).
    { change (unshift_pop (_taskOwnerStack (manager w)) <> []).
      destruct (_taskOwnerStack (manager w)) as [| y l] using rev_ind;
        [congruence |]. rewrite unshift_pop_snoc. discriminate. }
    assert (Hlast : exists id, last (_taskOwnerStack (manager w1)) = Some id).
    { destruct (_taskOwnerStack (manager w1)) as [| y l] using rev_ind;
        [congruence |]. exists y. apply last_snoc. }
    destruct Hlast as (id & Hlast).
    destruct (Hall1 id (last_elem_of _ _ Hlast)) as (o & oo & Ho & Hoo & Hl).
    unfold lookup_active_owner.
    rewrite run_bind, run_bind, getManager_run, Hact1, Hlast, run_ret, Ho.
    cbn [expect]. rewrite run_bind, run_ret, run_bind.
    rewrite (getNext_empty o VUndefined w1 oo Hoo Hl).
    destruct (IH w1 o Hall1 Hact1 Hne1) as (owner' & Hrot).
    exists owner'. rewrite Hrot. f_equal.
    change (_taskOwnerStack (manager w1))
      with (unshift_pop (_taskOwnerStack (manager w))).
    rewrite <- !Nat.iter_succ_r. reflexivity.
Qed.

(** X16.  A dispatch pass that finds no priority request and no pending task
    in any owner still changes the manager: on its way through the owners it
    moves each one it has asked to the bottom of the stack, and it stops one
    short of a full turn.  The owner that was at the bottom of the stack (the
    one registered or activated longest ago) ends on top and is the active
    owner; the others keep their order below it.  Nothing is scheduled and
    the manager is idle. *)
Theorem idle_pass_rotates_owners (w : World) (a : string) (rest : list string) :
  registry_inv (manager w) ->
  _priorityStack (manager w) = [] ->
  _taskOwnerStack (manager w) = a :: rest ->
  (forall id o, _taskOwners (manager w) !! id = Some o ->
     exists oo, ownerStore w !! o = Some oo /\ o_taskOrder oo = Some []) ->
  _performTask w
  = (Normal tt,
     set_manager
       (mkManager (Some a) (_ownerCounter (manager w)) (_taskOwners (manager w))
                  (rest ++ [a])%list [] false) w).
Proof.
  intros Hinv Hq Hst Hall.
  pose proof Hinv as (Hnd & Hmem & Hact & _).
  assert (Hall' : forall id, id ∈ _taskOwnerStack (manager w) ->
     exists o oo, _taskOwners (manager w) !! id = Some o
                  /\ ownerStore w !! o = Some oo /\ o_taskOrder oo = Some []).
  { intros id Hid. apply Hmem in Hid. destruct Hid as [o Ho].
    destruct (Hall id o Ho) as (oo & Hoo & Hl). eauto. }
  assert (Hne : _taskOwnerStack (manager w) <> []) by (rewrite Hst; discriminate).
  assert (Hlast : last (_taskOwnerStack (manager w)) = last (a :: rest))
    by (rewrite Hst; reflexivity).
  assert (Htop : exists top, last (a :: rest) = Some top).
  { destruct (a :: rest) as [| y l] eqn:E using rev_ind; [discriminate |].
    exists y. apply last_snoc. }
  destruct Htop as (top & Htop). rewrite Htop in Hlast.
  destruct (Hall' top (last_elem_of _ _ Hlast)) as (o & oo & Ho & Hoo & Hl).
  destruct (rotate_owners_all_empty (length rest) w o Hall' Hact Hne)
    as (owner' & Hrot).
  unfold _performTask, _performPriorityTask.
  rewrite run_bind, run_bind, getManager_run, Hq, run_ret.
  rewrite run_bind, getManager_run, Hst.
  unfold lookup_active_owner.
  rewrite run_bind, run_bind, getManager_run, Hact, Hlast, run_ret, Ho.
  cbn [expect]. rewrite run_bind, run_ret, run_bind.
  rewrite (getNext_empty o VUndefined w oo Hoo Hl).
  cbn [length Nat.sub]. rewrite Nat.sub_0_r.
  rewrite run_bind, Hrot. cbv beta iota. rewrite updManager_run.
  f_equal. rewrite Hst.
  change (a :: rest) with ([a] ++ rest)%list.
  rewrite iter_unshift_pop, last_snoc, Hq. reflexivity.
Qed.

Lemma idle_pass_rotates_owners_witness :
  _taskOwnerStack
    (manager (snd (_performTask
                     (run_calls [CallRegister (VStr "A") (VObj []);
                                 CallRegister (VStr "B") (VObj [])] initial_world))))
  = ["o2"; "o1"].
Proof.
  set (w := run_calls _ initial_world).
  assert (Hinv : registry_inv (manager w)).
  { apply registry_inv_run_calls, registry_inv_initial. }
  rewrite (idle_pass_rotates_owners w "o1" ["o2"] Hinv).
  - reflexivity.
  - reflexivity.
  - reflexivity.
  - intros id o Ho.
    assert (Hcases : o = 0%nat \/ o = 1%nat).
    { revert Ho. change (_taskOwners (manager w))
        with (<["o2" := 1%nat]> (<["o1" := 0%nat]> (∅ : gmap string oref))).
      intros Ho. apply lookup_insert_Some in Ho. destruct Ho as [[_ <-] | [_ Ho]];
        [right; reflexivity |].
      apply lookup_insert_Some in Ho. destruct Ho as [[_ <-] | [_ Ho]];
        [left; reflexivity |].
      rewrite lookup_empty in Ho. discriminate. }
    destruct Hcases as [-> | ->]; eexists; (split; [vm_compute; reflexivity | reflexivity]).
Defined.

(** ** Unregistering an owner *)

(** [execute] on a plain task without a function. *)
Lemma execute_without_fn (w : World) (task : ref) (owner : oref)
      (next : Continuation) (manualOverride : bool) (t : TaskObj) :
  taskStore w !! task = Some t ->
  t_iteration t = None -> t_fn t = None ->
  t_state t <> Some ACTIVE -> t_state t <> Some COMPLETE ->
  execute task owner next manualOverride w
  = (Throw TypeError,
     set_taskStore (<[task := set_t_state (Some ACTIVE) t]> (taskStore w)) w).
Proof.
  intros Ht Hit Hf Hna Hnc.
  unfold execute. rewrite run_bind, (getTask_Some _ _ _ Ht), Hit.
  unfold Task_execute. rewrite run_bind, (getTask_Some _ _ _ Ht).
  assert (Hg : state_eq (t_state t) (statics_state "ACTIVE")
               || state_eq (t_state t) (statics_state "COMPLETE") = false).
  { apply orb_false_intro; apply bool_decide_eq_false; assumption. }
  rewrite Hg. cbv iota. rewrite run_bind, (updTask_Some _ _ _ _ Ht), Hf.
  reflexivity.
Qed.

(** What [unregister] does once [destroy] has returned. *)
Lemma unregister_run (w w1 : World) (ownerId : string) (o : oref)
      (l1 l2 : list string) :
  registry_inv (manager w) ->
  _taskOwners (manager w) !! ownerId = Some o ->
  Owner_destroy o w = (Normal tt, w1) ->
  _taskOwnerStack (manager w) = (l1 ++ ownerId :: l2)%list ->
  ownerId ∉ l2 ->
  TaskManager_unregister ownerId w
  = (Normal tt,
     set_manager
       (mkManager (last (l1 ++ l2)%list) (_ownerCounter (manager w))
                  (delete ownerId (_taskOwners (manager w))) (l1 ++ l2)%list
                  (_priorityStack (manager w)) (_running (manager w))) w1).
Proof.
  intros Hinv Ho Hd Hst Hn2.
  pose proof (calm_Owner_destroy o w) as Hcalm. rewrite Hd in Hcalm.
  destruct Hcalm as (Hmg & _). cbn [snd] in Hmg.
  unfold TaskManager_unregister.
  rewrite run_bind, getManager_run, Ho, run_bind, Hd.
  rewrite run_bind, updManager_run, run_bind, getManager_run.
  cbn [manager set_manager _activeTaskOwner set_taskOwners _taskOwnerStack].
  rewrite Hmg.
  destruct (bool_decide (_activeTaskOwner (manager w) = Some ownerId)) eqn:Hb.
  - apply bool_decide_eq_true in Hb.
    destruct Hinv as (Hnd & _ & Hact & _).
    rewrite Hact, Hst, last_app_cons in Hb.
    assert (Hl2 : l2 = []).
    { destruct l2 as [| y l2] using rev_ind; [reflexivity |].
      exfalso. rewrite app_comm_cons, last_snoc in Hb. injection Hb as ->.
      apply Hn2. apply elem_of_app. right. apply list_elem_of_singleton. reflexivity. }
    subst l2. rewrite run_bind, updManager_run, updManager_run.
    cbn [manager set_manager _taskOwnerStack set_taskOwnerStack set_taskOwners
         set_activeTaskOwner _ownerCounter _taskOwners _priorityStack _running].
    rewrite Hst, removelast_last, app_nil_r. reflexivity.
  - rewrite Hst, (remove_last_split _ l1 l2 Hn2).
    rewrite run_bind, updManager_run, updManager_run.
    cbn [manager set_manager _taskOwnerStack set_taskOwnerStack set_taskOwners
         set_activeTaskOwner _ownerCounter _taskOwners _priorityStack _running].
    reflexivity.
Qed.

Lemma destroy_trace (o : oref) (w : World) :
  trace (snd (Owner_destroy o w)) = trace w.
Proof.
  assert (H : preserves (fun a b => trace b = trace a) (Owner_destroy o)).
  { assert (Hr : forall a : World, trace a = trace a) by reflexivity.
    assert (Htr : forall a b c : World,
               trace b = trace a -> trace c = trace b -> trace c = trace a)
      by (intros; congruence).
    assert (Hu : forall r f, preserves (fun a b => trace b = trace a) (updTask r f)).
    { intros r f. unfold updTask. apply preserves_bind; [exact Htr | | intros].
      - apply preserves_getTask; assumption.
      - apply preserves_modify. reflexivity. }
    assert (Ho : forall r f, preserves (fun a b => trace b = trace a) (updOwner r f)).
    { intros r f. unfold updOwner. apply preserves_bind; [exact Htr | | intros].
      - apply preserves_getOwner; assumption.
      - apply preserves_modify. reflexivity. }
    unfold Owner_destroy, _destroyTasks.
    repeat first
      [ apply Hu | apply Ho
      | apply preserves_ret; assumption
      | apply preserves_getOwner; assumption
      | apply preserves_bind; [exact Htr | | intros]
      | apply preserves_for_each; [exact Hr | exact Htr | intros]
      | match goal with
        | |- preserves _ (match ?x with _ => _ end) => destruct x
        end ]. }
  apply H.
Qed.



(** X18.  Unregistering an owner while the call deferred for its live task
    is still in the timer queue stalls the manager.  The task is destroyed
    but its deferred execution stays scheduled; when it fires, [execute] finds
    a task that is neither ACTIVE nor COMPLETE, marks it ACTIVE and fails on
    its released function.  No task function is called, no continuation runs,
    so [_performTask] is never deferred again: the timer queue is empty, the
    manager still counts as running, and from then on [check()] does nothing
    (whatever is pending in whatever owner). *)
Theorem unregister_scheduled_owner_stalls (w : World) (ownerId : string)
        (o : oref) (oo : OwnerObj) (m : gmap string ref) (task : ref)
        (t : TaskObj) :
  registry_inv (manager w) ->
  _taskOwners (manager w) !! ownerId = Some o ->
  ownerStore w !! o = Some oo -> o_tasks oo = Some m ->
  (forall k r, m !! k = Some r -> is_Some (taskStore w !! r)) ->
  o_liveTask oo = Some task ->
  taskStore w !! task = Some t ->
  t_iteration t = None -> t_state t <> Some COMPLETE ->
  timers w = [DExecuteTask task o] ->
  _running (manager w) = true ->
  let w2 := turn (snd (TaskManager_unregister ownerId w)) in
  timers w2 = [] /\ _running (manager w2) = true
  /\ trace w2 = trace w
  /\ (t_state <$> taskStore w2 !! task) = Some (Some ACTIVE)
  /\ TaskManager_check None w2 = (Normal tt, w2).
Proof.
  intros Hinv Ho Hoo Hm Htasks Hlive Ht Hit Hs Htm Hrun w2.
  destruct (registry_inv_in_stack _ _ _ Hinv Ho) as (l1 & l2 & Hst & Hn1 & Hn2).
  assert (Hl : forall r, o_liveTask oo = Some r -> is_Some (taskStore w !! r)).
  { intros r Hr. rewrite Hlive in Hr. injection Hr as <-. rewrite Ht. eauto. }
  destruct (destroy_cascades o w oo m Hoo Hm Htasks Hl)
    as (w1 & oo' & Hd & Hoo' & Hrel & Hdest).
  pose proof (calm_Owner_destroy o w) as Hcalm. rewrite Hd in Hcalm.
  destruct Hcalm as (_ & Htm1 & _). cbn [snd] in Htm1.
  assert (Htr1 : trace w1 = trace w).
  { pose proof (destroy_trace o w) as Htr. rewrite Hd in Htr. exact Htr. }
  destruct (Hdest task t Ht) as [Ht1 _]. specialize (Ht1 (or_introl Hlive)).
  subst w2.
  rewrite (unregister_run w w1 ownerId o l1 l2 Hinv Ho Hd Hst Hn2). cbn [snd].
  set (mg := mkManager _ _ _ _ _ _).
  unfold turn. cbn [timers set_manager]. rewrite Htm1, Htm.
  cbn [run_deferred]. unfold _executeTask. rewrite run_bind.
  assert (Hst1 : t_state (Task_destroy t) = None).
  { rewrite Task_destroy_state.
    replace (state_eq (t_state t) (Some COMPLETE)) with false; [reflexivity |].
    symmetry. apply bool_decide_eq_false. exact Hs. }
  rewrite (execute_without_fn _ task o _ false (Task_destroy t)).
  - cbn [snd]. split; [reflexivity |]. split; [exact Hrun |].
    split; [exact Htr1 |]. split.
    + cbn [taskStore set_taskStore]. rewrite lookup_insert_eq. reflexivity.
    + unfold TaskManager_check.
      rewrite run_bind, getManager_run, run_bind, run_ret, run_bind, getManager_run.
      cbn [manager set_manager set_taskStore set_timers]. subst mg.
      cbn [_running]. rewrite Hrun. reflexivity.
  - exact Ht1.
  - rewrite Task_destroy_iteration. exact Hit.
  - reflexivity.
  - rewrite Hst1. discriminate.
  - rewrite Hst1. discriminate.
Qed.

Lemma registry_inv_three_tasks : registry_inv (manager world_three_tasks).
Proof.
  change (manager world_three_tasks)
    with (manager
            (run_calls
               [CallRegister (VStr "A") (VObj []);
                CallAddTask "o1"
                  (TaskArray
                     [Definition_ (sample_config (VStr "t1") (fn_const (VNum 1))
                                                 None false) None;
                      Definition_ (sample_config (VStr "t2") (fn_const (VNum 2))
                                                 None false) None;
                      Definition_ (sample_config (VStr "t3") (fn_const (VNum 3))
                                                 None false) None])]
               initial_world)).
  apply registry_inv_run_calls, registry_inv_initial.
Qed.

Lemma unregister_scheduled_owner_stalls_witness :
  timers (turn (snd (TaskManager_unregister "o1" world_three_tasks))) = []
  /\ _running (manager (turn (snd (TaskManager_unregister "o1" world_three_tasks))))
     = true.
Proof.
  assert (Hoo : exists oo, ownerStore world_three_tasks !! 0%nat = Some oo
                  /\ o_tasks oo = Some {[ "t2" := 1%nat; "t3" := 2%nat ]}
                  /\ o_liveTask oo = Some 0%nat).
  { eexists. split; [vm_compute; reflexivity |]. split; reflexivity. }
  destruct Hoo as (oo & Hoo & Hm & Hlt).
  assert (Ht : exists t, taskStore world_three_tasks !! 0%nat = Some t
                 /\ t_iteration t = None /\ t_state t <> Some COMPLETE).
  { eexists. split; [vm_compute; reflexivity |]. split; [reflexivity | discriminate]. }
  destruct Ht as (t & Ht & Hit & Hs).
  destruct (unregister_scheduled_owner_stalls world_three_tasks "o1" 0%nat oo
              {[ "t2" := 1%nat; "t3" := 2%nat ]} 0%nat t
              registry_inv_three_tasks ltac:(vm_compute; reflexivity) Hoo Hm)
    as (H1 & H2 & _); try assumption; try reflexivity.
  - intros k r Hk. apply lookup_insert_Some in Hk.
    destruct Hk as [[_ <-] | [_ Hk]]; [vm_compute; eauto |].
    apply lookup_singleton_Some in Hk. destruct Hk as [_ <-]. vm_compute. eauto.
  - split; assumption.
Defined.

(** ** Requiring a task *)

Lemma strict_eq_not_array (x : value) : strict_eq x x = true -> isArray x = false.
Proof. destruct x; simpl; congruence. Qed.

(** X19.  [requireTask] without [immediate], on an idle manager with an empty
    priority queue, for a task that is pending in a registered owner: the
    request is queued, the task is taken out of the owner's pending
    collections and made its live task, its execution is deferred and the
    manager is running.  Neither the [activeOnly] flag of the task nor which
    owner is active plays a part. *)
Theorem requireTask_schedules_pending_task (w : World) (ownerId : string)
        (o : oref) (oo : OwnerObj) (m : gmap string ref) (l1 l2 : list value)
        (x : value) (r : ref) (t : TaskObj) (cb : option Callback)
        (passResults : bool) :
  _priorityStack (manager w) = [] ->
  _running (manager w) = false ->
  _taskOwners (manager w) !! ownerId = Some o ->
  ownerStore w !! o = Some oo ->
  o_tasks oo = Some m -> o_taskOrder oo = Some (l1 ++ x :: l2)%list ->
  x ∉ l1 -> strict_eq x x = true ->
  m !! ToString x = Some r ->
  taskStore w !! r = Some t -> t_id t = x -> t_state t <> Some COMPLETE ->
  TaskManager_requireTask ownerId x (mkOptions false cb passResults) w
  = (Normal tt,
     set_timers (timers w ++ [DExecuteTask r o])%list
       (set_manager
          (mkManager (_activeTaskOwner (manager w)) (_ownerCounter (manager w))
                     (_taskOwners (manager w)) (_taskOwnerStack (manager w))
                     [mkRequest ownerId [x] cb passResults [] 0%nat] true)
          (put_owner o
             (mkOwner (o_id oo) (o_name oo) (o_origin oo)
                      (Some (delete (ToString x) m)) (Some (l1 ++ l2)%list)
                      (Some r) (o_completedTasks oo)) w))).
Proof.
  intros Hq Hrun Ho Hoo Hm Hl Hn1 Hx Hmx Ht Hid Hs.
  pose proof (strict_eq_not_array x Hx) as Harr.
  unfold TaskManager_requireTask. cbn [opt_immediate opt_callback opt_passResults].
  assert (Hids : match x with VArr elems _ => elems | v => [v] end = [x]).
  { destruct x; try reflexivity. discriminate. }
  rewrite Hids. rewrite run_bind, updManager_run, Hq. cbn [app].
  set (w1 := set_manager _ w).
  unfold TaskManager_check.
  rewrite run_bind, getManager_run, run_bind, run_ret, run_bind, getManager_run.
  assert (Hrun1 : _running (manager w1) = false) by exact Hrun.
  rewrite Hrun1.
  unfold _performTask, _performPriorityTask, lookup_owner.
  rewrite run_bind, run_bind, getManager_run.
  change (_priorityStack (manager w1)) with [mkRequest ownerId [x] cb passResults [] 0%nat].
  cbv iota. cbn [rq_ownerId rq_currentIdx rq_taskIds].
  rewrite run_bind, run_bind, getManager_run, run_ret.
  change (_taskOwners (manager w1)) with (_taskOwners (manager w)). rewrite Ho.
  cbn [expect]. rewrite run_bind, run_ret.
  change ([x] !! 0%nat) with (Some x).
  change (default VUndefined (Some x)) with x.
  change (drop 1 [x]) with (@nil value).
  assert (Hoo1 : ownerStore w1 !! o = Some oo) by exact Hoo.
  assert (Ht1 : taskStore w1 !! r = Some t) by exact Ht.
  rewrite run_bind. unfold Owner_get at 1. mrun. rewrite Hm. mrun. rewrite Hmx. mrun.
  cbn [priority_walk]. mrun.
  unfold Task_isComplete.
  replace (state_eq (t_state t) (statics_state "COMPLETE")) with false
    by (symmetry; apply bool_decide_eq_false; exact Hs).
  mrun. rewrite Hid.
  rewrite (setNext_run o x w1 oo m _ Hoo1 Hm Hl), Hmx.
  rewrite (remove_first_middle x l1 l2 Hx Hn1). mrun.
  unfold defer. rewrite modify_run. mrun. rewrite updManager_run.
  unfold put_owner, set_timers, set_manager, set_ownerStore. simpl.
  reflexivity.
Qed.

Lemma requireTask_schedules_pending_task_witness :
  timers (snd (TaskManager_requireTask "o1" (VStr "t2") (mkOptions false None false)
                 world_two_pending))
  = [DExecuteTask 1%nat 0%nat].
Proof.
  assert (Hoo : exists oo, ownerStore world_two_pending !! 0%nat = Some oo
                  /\ o_tasks oo = Some {[ "t1" := 0%nat; "t2" := 1%nat ]}
                  /\ o_taskOrder oo = Some ([VStr "t1"] ++ VStr "t2" :: [])%list).
  { eexists. split; [vm_compute; reflexivity |]. repeat split. }
  destruct Hoo as (oo & Hoo & Hm & Hl).
  assert (Ht : exists t, taskStore world_two_pending !! 1%nat = Some t
                 /\ t_id t = VStr "t2" /\ t_state t <> Some COMPLETE).
  { eexists. split; [vm_compute; reflexivity |]. split; [reflexivity | discriminate]. }
  destruct Ht as (t & Ht & Hid & Hs).
  rewrite (requireTask_schedules_pending_task world_two_pending "o1" 0%nat oo
             {[ "t1" := 0%nat; "t2" := 1%nat ]}
             [VStr "t1"] [] (VStr "t2") 1%nat t None false); try assumption;
    try reflexivity.
  intros Hin. apply list_elem_of_singleton in Hin. discriminate.
Defined.



(** ** The step of an iteration *)

(** One call of [iterate] up to the test of [nextIteration], for a task with
    a numeric step. *)
Lemma iterate_first_step (fuel : nat) (c : IterClosure) (f : JsFun) (itr : Iterator)
      (res : value) (idx s : Z) (w : World) :
  each_iterator itr ->
  iterating c f itr res idx w ->
  stepping c s w ->
  exists w2,
    iterate fuel c w
    = (if idx + 1 <? ic_length c
       then if rem_is_zero (idx + 1) (VNum s)
            then defer (DIterate c)
            else match fuel with
                 | O => throw Stuck
                 | S fuel' => iterate fuel' c
                 end
       else onComplete c) w2
    /\ fn_calls (trace w2)
       = (fn_calls (trace w) ++ [(ic_me c, iterator_args itr idx)])%list
    /\ iterating c f itr res (idx + 1) w2
    /\ stepping c s w2
    /\ timers w2 = timers w.
Proof.
  intros Heach (Hg & t & it & Ht & Hst & Hf & Hres & Hiter & Hitr & Hcur)
         (t' & it' & Ht' & Hiter' & Hstep).
  rewrite Ht in Ht'. inversion Ht'; subst t'.
  rewrite Hiter in Hiter'. inversion Hiter'; subst it'.
  rewrite iterate_unfold. mrun.
  rewrite (getIteration_Some _ _ _ _ Ht Hiter). mrun.
  rewrite Hitr. mrun. rewrite Hcur.
  rewrite (run_each_iterator _ _ _ _ t f Heach Ht Hf). mrun.
  set (w1 := put_event _ w).
  assert (Ht1 : taskStore w1 !! ic_me c = Some t) by exact Ht.
  unfold updIteration. rewrite (updTask_Some _ _ _ _ Ht1). mrun.
  rewrite Hiter. cbn [option_map]. rewrite Hcur.
  set (t2 := set_t_iteration _ t). set (w2 := set_taskStore _ w1).
  assert (Ht2 : taskStore w2 !! ic_me c = Some t2) by apply lookup_insert_eq.
  rewrite gets_run. mrun.
  change (global_iterate w2) with (global_iterate w). rewrite Hg. mrun.
  rewrite (getIteration_Some _ t2 (set_it_currentIteration (idx + 1) it) _
             Ht2 eq_refl). mrun.
  change (t_state t2) with (t_state t). rewrite Hst.
  change (negb (state_eq (Some ACTIVE) (statics_state "ACTIVE"))
          && negb (state_eq (Some ACTIVE) (statics_state "PENDING")))
    with false. mrun.
  cbn [it_currentIteration set_it_currentIteration it_step]. rewrite Hstep.
  exists w2. split; [reflexivity |].
  split; [| split; [| split; [| reflexivity]]].
  - subst w2 w1. simpl. rewrite fn_calls_app. reflexivity.
  - split; [exact Hg |].
    exists t2, (set_it_currentIteration (idx + 1) it).
    split; [exact Ht2 |]. repeat split; assumption.
  - exists t2, (set_it_currentIteration (idx + 1) it).
    split; [exact Ht2 |]. split; [reflexivity | exact Hstep].
Qed.

Lemma rem_is_zero_inside (base d s : Z) :
  1 <= s -> 0 <= base -> Z.rem base s = 0 -> 0 < d < s ->
  rem_is_zero (base + d) (VNum s) = false.
Proof.
  intros Hs Hb Hrem Hd. unfold rem_is_zero.
  destruct (Z.eqb_spec s 0); [lia |].
  apply Z.eqb_neq.
  rewrite Z.rem_mod_nonneg in * by lia.
  rewrite Z.add_mod, Hrem, Z.add_0_l, Z.mod_mod by lia.
  rewrite Z.mod_small by lia. lia.
Qed.

Lemma rem_is_zero_next (base s : Z) :
  1 <= s -> 0 <= base -> Z.rem base s = 0 ->
  rem_is_zero (base + s) (VNum s) = true.
Proof.
  intros Hs Hb Hrem. unfold rem_is_zero.
  destruct (Z.eqb_spec s 0); [lia |].
  apply Z.eqb_eq.
  rewrite Z.rem_mod_nonneg in * by lia.
  rewrite Z.add_mod, Hrem, Z.add_0_l, Z.mod_mod, Z.mod_same by lia. reflexivity.
Qed.

(** One run of [iterate] from inside the chunk that starts at [base]. *)
Lemma iterate_chunk_exact (c : IterClosure) (f : JsFun) (itr : Iterator)
      (res : value) (s base : Z) :
  each_iterator itr ->
  1 <= s -> 0 <= base -> Z.rem base s = 0 ->
  forall (n fuel : nat) (idx : Z) (w : World),
    iterating c f itr res idx w ->
    stepping c s w ->
    base <= idx < Z.min (base + s) (ic_length c) ->
    Z.to_nat (Z.min (base + s) (ic_length c) - 1 - idx) = n ->
    (n <= fuel)%nat ->
    exists out w',
      iterate fuel c w = (out, w')
      /\ fn_calls (trace w')
         = (fn_calls (trace w) ++ iterator_calls (ic_me c) itr idx (S n))%list
      /\ ((base + s < ic_length c
           /\ iterating c f itr res (base + s) w' /\ stepping c s w'
           /\ timers w' = (timers w ++ [DIterate c])%list)
          \/ (ic_length c <= base + s /\ iteration_complete c res w')).
Proof.
  intros Heach Hs Hb Hrem n.
  induction n as [| n IH]; intros fuel idx w Hit Hstp Hidx Hn Hfuel.
  all: destruct (iterate_first_step fuel c f itr res idx s w Heach Hit Hstp)
         as (w2 & -> & Hcalls1 & Hit2 & Hstp2 & Htimers).
  - (* the last element of the chunk *)
    assert (Hend : idx + 1 = Z.min (base + s) (ic_length c)) by lia.
    destruct (Z.ltb_spec (idx + 1) (ic_length c)) as [Hmore | Hdone].
    + assert (Hnext : idx + 1 = base + s) by lia.
      rewrite Hnext, (rem_is_zero_next base s Hs Hb Hrem).
      eexists _, _. split; [reflexivity |]. split.
      * rewrite iterator_calls_S. cbn [iterator_calls fmap list_fmap seq].
        exact Hcalls1.
      * left. split; [lia |]. rewrite <- Hnext. split; [exact Hit2 |].
        split; [exact Hstp2 |]. simpl. rewrite Htimers. reflexivity.
    + assert (Hlen : idx + 1 = ic_length c) by lia. rewrite Hlen in Hit2.
      destruct (onComplete_at_length c f itr res w2 Hit2)
        as (out & w' & -> & Hcalls & Hcomplete).
      exists out, w'. split; [reflexivity |]. split.
      * rewrite Hcalls, Hcalls1, iterator_calls_S. reflexivity.
      * right. split; [lia | exact Hcomplete].
  - assert (Hmore : idx + 1 < Z.min (base + s) (ic_length c)) by lia.
    rewrite (proj2 (Z.ltb_lt _ _)) by lia.
    assert (Hrz : rem_is_zero (idx + 1) (VNum s) = false).
    { replace (idx + 1) with (base + (idx + 1 - base)) by lia.
      apply (rem_is_zero_inside base (idx + 1 - base) s Hs Hb Hrem). lia. }
    rewrite Hrz.
    destruct fuel as [| fuel']; [lia |].
    destruct (IH fuel' (idx + 1) w2 Hit2 Hstp2 ltac:(lia) ltac:(lia) ltac:(lia))
      as (out & w' & Hrun & Hcalls & Hcase).
    exists out, w'. split; [exact Hrun |]. split.
    + rewrite Hcalls, Hcalls1, <- app_assoc. f_equal.
      rewrite (iterator_calls_S _ _ idx). reflexivity.
    + destruct Hcase as [(H1 & H2 & H3 & H4) | H]; [left | right; exact H].
      split; [exact H1 |]. split; [exact H2 |]. split; [exact H3 |].
      rewrite H4, Htimers. reflexivity.
Qed.

Lemma turns_S_r (n : nat) (w : World) : turns (S n) w = turn (turns n w).
Proof.
  revert w. induction n as [| n IH]; intros w; [reflexivity |].
  change (turns (S (S n)) w) with (turns (S n) (turn w)). rewrite IH. reflexivity.
Qed.

(** [execute] of a pending iteration task with a numeric step, up to its
    first call of [iterate]. *)
Lemma IterationTask_execute_setup_step (w : World) (this : ref) (owner : oref)
      (next : Continuation) (manualOverride : bool) (t : TaskObj)
      (it : IterationFields) (o : OwnerObj) (f : JsFun) (s : Z) :
  taskStore w !! this = Some t ->
  ownerStore w !! owner = Some o ->
  t_state t = Some PENDING -> t_fn t = Some f ->
  t_iteration t = Some it ->
  it_iterator it = None -> it_type it = VUndefined ->
  it_currentIteration it = -1 ->
  it_step it = VNum s ->
  (exists elems extra, it_list it = VArr elems extra)
  \/ (exists props, it_list it = VObj props) ->
  let c := mkIterClosure this owner next manualOverride
                         (collection_length (it_list it)) in
  exists w0,
    IterationTask_execute this owner next manualOverride w
    = (iterate (S (Z.to_nat (collection_length (it_list it)))) c;;
       mret VUndefined) w0
    /\ each_iterator (iterator_of t it o)
    /\ iterating c f (iterator_of t it o) (t_result t) (-1) w0
    /\ stepping c s w0
    /\ timers w0 = timers w
    /\ trace w0 = trace w.
Proof.
  intros Ht Ho Hst Hf Hiter Hnone Htype Hcur Hstep Hshape c.
  unfold IterationTask_execute. mrun.
  rewrite (getIteration_Some _ _ _ _ Ht Hiter). mrun.
  rewrite Hst.
  change (state_eq (Some PENDING) (statics_state "ACTIVE")
          || state_eq (Some PENDING) (statics_state "COMPLETE")) with false.
  mrun. rewrite Htype.
  change (loose_eq_type VUndefined (statics_type "MAP")) with false.
  rewrite andb_false_r.
  destruct Hshape as [(elems & extra & Hl) | (props & Hl)].
  - (* an array *)
    assert (Heach : each_iterator (iterator_of t it o)).
    { left. unfold iterator_of. rewrite Hl. simpl. eauto. }
    unfold iterator_of in *. subst c. rewrite Hl in Heach. rewrite !Hl.
    cbn [isArray array_length expect collection_length]. mrun.
    rewrite (getIteration_Some _ _ _ _ Ht Hiter). mrun. rewrite Hnone.
    unfold updIteration. rewrite (updTask_Some _ _ _ _ Ht). mrun.
    rewrite Hiter, Htype, Hl. cbn [option_map].
    rewrite modify_run. mrun.
    set (t1 := set_t_iteration _ t). set (w1 := set_global_iterate _ _).
    assert (Ht1 : taskStore w1 !! this = Some t1) by apply lookup_insert_eq.
    rewrite (updTask_Some _ _ _ _ Ht1). mrun.
    rewrite gets_run. mrun.
    set (w0 := set_taskStore _ w1).
    exists w0. split; [reflexivity |]. split; [exact Heach |].
    split; [| split; [| split; reflexivity]].
    + split; [reflexivity |].
      eexists _, _. split; [apply lookup_insert_eq |].
      subst t1. cbn. rewrite ?Hl. repeat split; try assumption; reflexivity.
    + eexists _, _. split; [apply lookup_insert_eq |].
      subst t1. cbn. split; [reflexivity | exact Hstep].
  - (* a keyed collection *)
    assert (Heach : each_iterator (iterator_of t it o)).
    { right. unfold iterator_of. rewrite Hl. simpl. eauto. }
    unfold iterator_of in *. subst c. rewrite Hl in Heach. rewrite !Hl.
    cbn [isArray Object_keys expect collection_length default]. mrun.
    unfold updIteration at 1. rewrite (updTask_Some _ _ _ _ Ht). mrun.
    rewrite Hiter. cbn [option_map].
    set (t1 := set_t_iteration _ t). set (w1 := set_taskStore _ w).
    assert (Ht1 : taskStore w1 !! this = Some t1) by apply lookup_insert_eq.
    rewrite (getIteration_Some _ t1 (set_it_keys (Some (List.map fst props)) it)
               _ Ht1 eq_refl). mrun.
    cbn [it_iterator set_it_keys]. rewrite Hnone.
    unfold updIteration. rewrite (updTask_Some _ _ _ _ Ht1). mrun.
    cbn [it_type it_list it_keys set_it_keys]. rewrite Htype, Hl.
    rewrite modify_run. mrun.
    set (t2 := set_t_iteration _ t1). set (w2 := set_global_iterate _ _).
    assert (Ht2 : taskStore w2 !! this = Some t2) by apply lookup_insert_eq.
    rewrite (updTask_Some _ _ _ _ Ht2). mrun.
    rewrite gets_run. mrun.
    set (w0 := set_taskStore _ w2).
    exists w0. split; [reflexivity |]. split; [exact Heach |].
    split; [| split; [| split; reflexivity]].
    + split; [reflexivity |].
      eexists _, _. split; [apply lookup_insert_eq |].
      subst t2 t1. cbn. rewrite ?Hl. repeat split; try assumption; reflexivity.
    + eexists _, _. split; [apply lookup_insert_eq |].
      subst t2 t1. cbn. split; [reflexivity | exact Hstep].
Qed.

(** The turns of the host after the first yield: each turn handles one chunk
    of [s] elements. *)
Lemma iterate_turns_by_step (c : IterClosure) (f : JsFun) (itr : Iterator)
      (res : value) (s : Z) (w1 : World) :
  each_iterator itr -> 1 <= s ->
  iterating c f itr res 0 w1 -> stepping c s w1 ->
  timers w1 = [DIterate c] -> 0 < ic_length c ->
  forall j : nat,
    Z.of_nat j * s < ic_length c ->
    iterating c f itr res (Z.of_nat j * s) (turns j w1)
    /\ stepping c s (turns j w1)
    /\ timers (turns j w1) = [DIterate c]
    /\ fn_calls (trace (turns j w1))
       = (fn_calls (trace w1)
            ++ iterator_calls (ic_me c) itr 0 (Z.to_nat (Z.of_nat j * s)))%list.
Proof.
  intros Heach Hs Hit Hstp Htm HL j.
  induction j as [| j IH]; intros Hj.
  - cbn [turns]. split; [exact Hit |]. split; [exact Hstp |]. split; [exact Htm |].
    simpl. rewrite app_nil_r. reflexivity.
  - destruct IH as (Hit' & Hstp' & Htm' & Hcalls'); [nia |].
    rewrite turns_S_r. set (w := turns j w1) in *.
    assert (Hturn : turn w
                    = snd (iterate (S (Z.to_nat (ic_length c))) c (set_timers [] w))).
    { unfold turn. rewrite Htm'. unfold run_deferred.
      rewrite run_bind, gets_run. cbv beta iota.
      unfold iterate_fuel. destruct Hit' as (Hg & _).
      change (global_iterate (set_timers [] w)) with (global_iterate w).
      rewrite Hg. reflexivity. }
    set (base := Z.of_nat j * s) in *.
    assert (Hrem : Z.rem base s = 0) by (subst base; apply Z.rem_mul; lia).
    destruct (iterate_chunk_exact c f itr res s base Heach Hs ltac:(nia) Hrem
                (Z.to_nat (Z.min (base + s) (ic_length c) - 1 - base))
                (S (Z.to_nat (ic_length c))) base (set_timers [] w)
                (iterating_timers _ _ _ _ _ _ _ Hit') Hstp'
                ltac:(nia) eq_refl ltac:(nia))
      as (out & w' & Hrun & Hcalls & Hcase).
    rewrite Hturn, Hrun. cbn [snd].
    destruct Hcase as [(Hmore & Hit2 & Hstp2 & Htm2) | (Hend & _)]; [| nia].
    replace (Z.of_nat (S j) * s) with (base + s) by nia.
    split; [exact Hit2 |]. split; [exact Hstp2 |]. split; [exact Htm2 |].
    rewrite Hcalls. cbn [trace set_timers]. rewrite Hcalls', <- app_assoc. f_equal.
    replace (Z.to_nat (base + s))
      with (Z.to_nat base + S (Z.to_nat (Z.min (base + s) (ic_length c) - 1 - base)))%nat
      by nia.
    rewrite iterator_calls_app. do 2 f_equal. nia.
Qed.

Lemma iterate_turns_complete (c : IterClosure) (f : JsFun) (itr : Iterator)
      (res : value) (s : Z) (w1 : World) :
  each_iterator itr -> 1 <= s ->
  iterating c f itr res 0 w1 -> stepping c s w1 ->
  timers w1 = [DIterate c] -> 0 < ic_length c ->
  forall j : nat,
    Z.of_nat j * s < ic_length c <= (Z.of_nat j + 1) * s ->
    iteration_complete c res (turns (S j) w1)
    /\ fn_calls (trace (turns (S j) w1))
       = (fn_calls (trace w1)
            ++ iterator_calls (ic_me c) itr 0 (Z.to_nat (ic_length c)))%list.
Proof.
  intros Heach Hs Hit Hstp Htm HL j Hj.
  destruct (iterate_turns_by_step c f itr res s w1 Heach Hs Hit Hstp Htm HL j
              ltac:(lia)) as (Hit' & Hstp' & Htm' & Hcalls').
  rewrite turns_S_r. set (w := turns j w1) in *.
  assert (Hturn : turn w
                  = snd (iterate (S (Z.to_nat (ic_length c))) c (set_timers [] w))).
  { unfold turn. rewrite Htm'. unfold run_deferred.
    rewrite run_bind, gets_run. cbv beta iota.
    unfold iterate_fuel. destruct Hit' as (Hg & _).
    change (global_iterate (set_timers [] w)) with (global_iterate w).
    rewrite Hg. reflexivity. }
  set (base := Z.of_nat j * s) in *.
  assert (Hrem : Z.rem base s = 0) by (subst base; apply Z.rem_mul; lia).
  destruct (iterate_chunk_exact c f itr res s base Heach Hs ltac:(nia) Hrem
              (Z.to_nat (Z.min (base + s) (ic_length c) - 1 - base))
              (S (Z.to_nat (ic_length c))) base (set_timers [] w)
              (iterating_timers _ _ _ _ _ _ _ Hit') Hstp'
              ltac:(nia) eq_refl ltac:(nia))
    as (out & w' & Hrun & Hcalls & Hcase).
  rewrite Hturn, Hrun. cbn [snd].
  destruct Hcase as [(Hmore & _) | (Hend & Hdone)]; [nia |].
  split; [exact Hdone |].
  rewrite Hcalls. cbn [trace set_timers]. rewrite Hcalls', <- app_assoc. f_equal.
  replace (Z.to_nat (ic_length c))
    with (Z.to_nat base + S (Z.to_nat (Z.min (base + s) (ic_length c) - 1 - base)))%nat
    by nia.
  rewrite iterator_calls_app. do 2 f_equal. nia.
Qed.

(** X21.  The step of an iteration task.  A pending iteration task as the
    constructor builds it, over an array or a plain object of length [L],
    with a numeric step [s >= 1], executed on a host whose timer queue is
    empty: [execute] itself applies the function once, at the index -1, and
    then yields; from then on every turn of the host handles one chunk of [s]
    elements.  After [j] turns (as long as [j * s < L]) the task is ACTIVE
    with its cursor at [j * s], the function has been applied at the indices
    -1, ..., [j * s - 1], and the next chunk is in the timer queue; after the
    first [k] turns with [L <= k * s] the task is COMPLETE. *)
Theorem iteration_yields_every_step (w : World) (this : ref) (owner : oref)
        (next : Continuation) (manualOverride : bool) (t : TaskObj)
        (it : IterationFields) (o : OwnerObj) (f : JsFun) (s : Z) :
  taskStore w !! this = Some t ->
  ownerStore w !! owner = Some o ->
  timers w = [] ->
  t_state t = Some PENDING -> t_fn t = Some f ->
  t_iteration t = Some it ->
  it_iterator it = None -> it_type it = VUndefined ->
  it_currentIteration it = -1 ->
  it_step it = VNum s -> 1 <= s ->
  (exists elems extra, it_list it = VArr elems extra)
  \/ (exists props, it_list it = VObj props) ->
  let L := collection_length (it_list it) in
  let c := mkIterClosure this owner next manualOverride L in
  let itr := iterator_of t it o in
  let w1 := snd (IterationTask_execute this owner next manualOverride w) in
  (forall j : nat,
     Z.of_nat j * s < L ->
     iterating c f itr (t_result t) (Z.of_nat j * s) (turns j w1)
     /\ timers (turns j w1) = [DIterate c]
     /\ fn_calls (trace (turns j w1))
        = (fn_calls (trace w)
             ++ iterator_calls this itr (-1) (S (Z.to_nat (Z.of_nat j * s))))%list)
  /\ (forall k : nat,
        (Z.of_nat k - 1) * s < L <= Z.of_nat k * s ->
        iteration_complete c (t_result t) (turns k w1)
        /\ fn_calls (trace (turns k w1))
           = (fn_calls (trace w)
                ++ iterator_calls this itr (-1) (S (Z.to_nat L)))%list).
Proof.
  intros Ht Ho Htimers Hst Hf Hiter Hnone Htype Hcur Hstep Hs Hshape L c itr w1.
  destruct (IterationTask_execute_setup_step w this owner next manualOverride t it o
              f s Ht Ho Hst Hf Hiter Hnone Htype Hcur Hstep Hshape)
    as (w0 & Hrun & Heach & Hit & Hstp & Htimers0 & Htrace0).
  fold L c itr in Hrun, Hit, Hstp, Heach.
  pose proof (collection_length_nonneg (it_list it)) as HL. fold L in HL.
  destruct (iterate_first_step (S (Z.to_nat L)) c f itr (t_result t) (-1) s w0
              Heach Hit Hstp) as (w2 & Hfirst & Hcalls2 & Hit2 & Hstp2 & Htimers2).
  change (-1 + 1) with 0 in Hfirst, Hit2. cbn [ic_length c] in Hfirst.
  assert (Hw1 : w1 = snd ((iterate (S (Z.to_nat L)) c) w0)).
  { subst w1. rewrite Hrun, snd_then_value. reflexivity. }
  rewrite Hfirst in Hw1.
  destruct (Z.ltb_spec 0 L) as [Hpos | Hzero].
  - (* at least one element: the first call yields *)
    assert (Hr0 : rem_is_zero 0 (VNum s) = true).
    { unfold rem_is_zero. destruct (Z.eqb_spec s 0); [lia |]. reflexivity. }
    rewrite Hr0 in Hw1. unfold defer in Hw1. rewrite modify_run in Hw1.
    cbn [snd] in Hw1. rewrite Htimers2, Htimers0, Htimers in Hw1. cbn [app] in Hw1.
    assert (Hit1 : iterating c f itr (t_result t) 0 w1).
    { rewrite Hw1. apply iterating_timers. exact Hit2. }
    assert (Hstp1 : stepping c s w1) by (rewrite Hw1; exact Hstp2).
    assert (Htm1 : timers w1 = [DIterate c]) by (rewrite Hw1; reflexivity).
    assert (Hfn1 : fn_calls (trace w1)
                   = (fn_calls (trace w) ++ [(this, iterator_args itr (-1))])%list).
    { rewrite Hw1. cbn [trace set_timers]. rewrite Hcalls2, Htrace0. reflexivity. }
    split.
    + intros j Hj.
      destruct (iterate_turns_by_step c f itr (t_result t) s w1 Heach Hs Hit1 Hstp1
                  Htm1 Hpos j Hj) as (Ha & _ & Hb & Hc).
      split; [exact Ha |]. split; [exact Hb |].
      rewrite Hc, Hfn1, <- app_assoc, iterator_calls_S. reflexivity.
    + intros k Hk.
      destruct k as [| j]; [lia |].
      destruct (iterate_turns_complete c f itr (t_result t) s w1 Heach Hs Hit1 Hstp1
                  Htm1 Hpos j ltac:(cbn [ic_length c]; lia)) as (Ha & Hc).
      split; [exact Ha |].
      rewrite Hc, Hfn1, <- app_assoc, iterator_calls_S. reflexivity.
  - (* an empty collection: the first call completes the task *)
    assert (HL0 : L = 0) by lia.
    assert (Hit2' : iterating c f itr (t_result t) (ic_length c) w2).
    { cbn [ic_length c]. rewrite HL0. exact Hit2. }
    destruct (onComplete_at_length c f itr (t_result t) w2 Hit2')
      as (out & w' & Hdone & Hcalls & Hcomplete).
    rewrite Hdone in Hw1. cbn [snd] in Hw1.
    split.
    + intros j Hj. lia.
    + intros k Hk. assert (k = 0%nat) by nia. subst k. cbn [turns].
      rewrite Hw1. split; [exact Hcomplete |].
      rewrite Hcalls, Hcalls2, Htrace0, HL0. reflexivity.
Qed.

Lemma iteration_yields_every_step_witness :
  fn_calls (trace (turns 2 (snd (IterationTask_execute 0%nat 0%nat
                                   (KExecuteTask 0%nat false) false
                                   world_iteration_pending))))
  = [(0%nat, [VUndefined; VNum (-1); VArr [VNum 1; VNum 2; VNum 3] []]);
     (0%nat, [VNum 1; VNum 0; VArr [VNum 1; VNum 2; VNum 3] []]);
     (0%nat, [VNum 2; VNum 1; VArr [VNum 1; VNum 2; VNum 3] []]);
     (0%nat, [VNum 3; VNum 2; VArr [VNum 1; VNum 2; VNum 3] []])].
Proof.
  assert (Ht : exists t it,
             taskStore world_iteration_pending !! 0%nat = Some t
             /\ t_state t = Some PENDING /\ t_fn t = Some fn_double
             /\ t_iteration t = Some it
             /\ it_iterator it = None /\ it_type it = VUndefined
             /\ it_currentIteration it = -1 /\ it_step it = VNum 2
             /\ it_list it = VArr [VNum 1; VNum 2; VNum 3] []
             /\ t_context t = VNull).
  { do 2 eexists. split; [vm_compute; reflexivity |]. repeat split. }
  destruct Ht as (t & it & Ht & Hst & Hf & Hiter & Hnone & Htype & Hcur & Hstep
                  & Hl & Hctx).
  assert (Ho : exists o, ownerStore world_iteration_pending !! 0%nat = Some o
                         /\ o_origin o = VObj []).
  { eexists. split; [vm_compute; reflexivity | reflexivity]. }
  destruct Ho as (o & Ho & Hor).
  destruct (iteration_yields_every_step world_iteration_pending 0%nat 0%nat
              (KExecuteTask 0%nat false) false t it o fn_double 2
              Ht Ho eq_refl Hst Hf Hiter Hnone Htype Hcur Hstep ltac:(lia)
              ltac:(left; rewrite Hl; eauto)) as [_ H].
  destruct (H 2%nat) as [_ Hcalls].
  - rewrite Hl. simpl. lia.
  - rewrite Hcalls. unfold iterator_of. rewrite Hl, Hctx, Hor. vm_compute. reflexivity.
Defined.

(** ** Falling through to the owner below *)

(** X22.  The owner stack at work.  There is no priority request; the active
    owner [a], on top of the stack, has nothing pending; the owner [b] right
    below it has the id [x] at the head of its queue, for a task that is not
    [activeOnly].  A dispatch pass moves [a] to the bottom of the stack, makes
    [b] the active owner, takes [x] out of [b]'s pending collections, makes
    its task the live task of [b] and defers its execution; the manager is
    running. *)
Theorem dispatch_falls_through_to_next_owner (w : World) (a b : string)
        (below : list string) (oa ob : oref) (ooa oob : OwnerObj)
        (m : gmap string ref) (x : value) (l : list value) (r : ref) (t : TaskObj) :
  _priorityStack (manager w) = [] ->
  _taskOwnerStack (manager w) = (below ++ [b; a])%list ->
  _activeTaskOwner (manager w) = Some a ->
  _taskOwners (manager w) !! a = Some oa ->
  _taskOwners (manager w) !! b = Some ob ->
  ownerStore w !! oa = Some ooa -> o_taskOrder ooa = Some [] ->
  ownerStore w !! ob = Some oob ->
  o_tasks oob = Some m -> o_taskOrder oob = Some (x :: l) ->
  usable_id x -> m !! ToString x = Some r ->
  taskStore w !! r = Some t -> t_activeOnly t = false ->
  _performTask w
  = (Normal tt,
     set_timers (timers w ++ [DExecuteTask r ob])%list
       (set_manager
          (mkManager (Some b) (_ownerCounter (manager w)) (_taskOwners (manager w))
                     (a :: below ++ [b])%list [] true)
          (put_owner ob
             (mkOwner (o_id oob) (o_name oob) (o_origin oob)
                      (Some (delete (ToString x) m)) (Some l) (Some r)
                      (o_completedTasks oob)) w))).
Proof.
  intros Hq Hst Hact Ha Hb Hooa Hla Hoob Hm Hl Hu Hx Ht Hao.
  unfold _performTask, _performPriorityTask.
  rewrite run_bind, run_bind, getManager_run, Hq, run_ret.
  rewrite run_bind, getManager_run, Hst.
  assert (Hmatch : forall (A : Type) (k1 k2 : A),
            match (below ++ [b; a])%list with [] => k1 | _ :: _ => k2 end = k2).
  { intros A k1 k2. destruct below; reflexivity. }
  rewrite Hmatch.
  unfold lookup_active_owner.
  rewrite run_bind, run_bind, getManager_run, Hact, run_ret, Ha.
  cbn [expect]. rewrite run_bind, run_ret, run_bind.
  rewrite (getNext_empty oa VUndefined w ooa Hooa Hla).
  assert (Hlen : (length (below ++ [b; a])%list - 1)%nat = S (length below)).
  { rewrite length_app. simpl. lia. }
  rewrite Hlen. cbn [rotate_owners].
  rewrite run_bind, run_bind, updManager_run, run_bind, updManager_run.
  set (w1 := set_manager _ (set_manager _ w)).
  assert (Hst1 : _taskOwnerStack (manager w1) = (a :: below ++ [b])%list).
  { subst w1. cbn [manager set_manager _taskOwnerStack set_taskOwnerStack
                   set_activeTaskOwner]. rewrite Hst.
    replace (below ++ [b; a])%list with ((below ++ [b]) ++ [a])%list
      by (rewrite <- app_assoc; reflexivity).
    apply unshift_pop_snoc. }
  assert (Hact1 : _activeTaskOwner (manager w1) = Some b).
  { subst w1. cbn [manager set_manager _activeTaskOwner set_activeTaskOwner
                   _taskOwnerStack set_taskOwnerStack]. rewrite Hst.
    replace (below ++ [b; a])%list with ((below ++ [b]) ++ [a])%list
      by (rewrite <- app_assoc; reflexivity).
    rewrite unshift_pop_snoc, app_comm_cons, last_snoc. reflexivity. }
  assert (Hb1 : _taskOwners (manager w1) !! b = Some ob) by exact Hb.
  unfold lookup_active_owner.
  rewrite run_bind, run_bind, getManager_run, Hact1, run_ret, Hb1.
  cbn [expect]. rewrite run_bind, run_ret, run_bind.
  assert (Hoob1 : ownerStore w1 !! ob = Some oob) by exact Hoob.
  assert (Ht1 : taskStore w1 !! r = Some t) by exact Ht.
  pose proof (getNext_inactive_skips_activeOnly ob VUndefined w1 oob m [] l x r t
                Hoob1 Hm Hl eq_refl) as Hnext.
  specialize (Hnext ltac:(intros z Hz; exfalso; revert Hz; apply not_elem_of_nil)
                    Hx Ht1 Hao Hu).
  cbn [app] in Hnext. rewrite Hnext.
  destruct (length below); cbn [rotate_owners]; rewrite run_ret;
    cbv beta iota; rewrite run_bind, updManager_run; unfold defer;
    rewrite modify_run.
  all: f_equal; unfold put_owner, set_timers, set_manager, set_ownerStore, set_running;
    cbn [manager timers ownerStore taskStore _taskIdCounter Owner_ownerCounter
         global_iterate trace _activeTaskOwner _ownerCounter _taskOwners
         _taskOwnerStack _priorityStack _running];
    rewrite ?Hst1, ?Hact1; subst w1;
    cbn [manager set_manager timers ownerStore taskStore _taskIdCounter
         Owner_ownerCounter global_iterate trace _activeTaskOwner _ownerCounter
         _taskOwners _taskOwnerStack _priorityStack _running set_activeTaskOwner
         set_taskOwnerStack];
    rewrite Hq; reflexivity.
Qed.

Lemma dispatch_falls_through_to_next_owner_witness :
  timers (snd (_performTask world_two_owners)) = [DExecuteTask 0%nat 0%nat]
  /\ _activeTaskOwner (manager (snd (_performTask world_two_owners))) = Some "o1".
Proof.
  assert (Hooa : exists ooa, ownerStore world_two_owners !! 1%nat = Some ooa
                   /\ o_taskOrder ooa = Some []).
  { eexists. split; [vm_compute; reflexivity | reflexivity]. }
  assert (Hoob : exists oob, ownerStore world_two_owners !! 0%nat = Some oob
                   /\ o_tasks oob = Some {[ "t1" := 0%nat ]}
                   /\ o_taskOrder oob = Some [VStr "t1"]).
  { eexists. split; [vm_compute; reflexivity |]. split; reflexivity. }
  assert (Ht : exists t, taskStore world_two_owners !! 0%nat = Some t
                 /\ t_activeOnly t = false).
  { eexists. split; [vm_compute; reflexivity | reflexivity]. }
  destruct Hooa as (ooa & Hooa & Hla). destruct Hoob as (oob & Hoob & Hm & Hl).
  destruct Ht as (t & Ht & Hao).
  rewrite (dispatch_falls_through_to_next_owner world_two_owners "o2" "o1" []
             1%nat 0%nat ooa oob {[ "t1" := 0%nat ]} (VStr "t1") [] 0%nat t);
    try assumption; try reflexivity.
  - split; reflexivity.
  - repeat split; discriminate.
Defined.

(** ** An immediate run of the scheduled task *)




(** ** Working through a request *)




(** ** From a definition to the call *)

Lemma new_Task_exact (config : Config) (w : World) :
  new_Task config w
  = (Normal (fresh (dom (taskStore w))),
     set_taskStore
       (<[fresh (dom (taskStore w))
          := fst (Task_construct Task_prototype config (_taskIdCounter w))]>
          (taskStore w))
       (set_taskIdCounter
          (snd (Task_construct Task_prototype config (_taskIdCounter w))) w)).
Proof.
  unfold new_Task. rewrite run_bind, gets_run.
  destruct (Task_construct Task_prototype config (_taskIdCounter w)) as [t c'].
  rewrite run_bind, modify_run. reflexivity.
Qed.

(** What runs after the function of a plain task only adds to the trace. *)
Lemma execute_tail_trace (task : ref) (owner : oref) (next : Continuation)
      (manualOverride : bool) (w : World) :
  exists tr,
    trace (snd ((Owner_completed owner task manualOverride;;
                 call_task_callback task;;
                 me ← getTask task;
                 call_next next (t_result me);;
                 mret VUndefined) w))
    = (trace w ++ tr)%list.
Proof.
  set (R := fun a b : World => exists tr, trace b = (trace a ++ tr)%list).
  assert (Hr : forall a, R a a).
  { intros a. exists []. rewrite app_nil_r. reflexivity. }
  assert (Ht : forall a b c, R a b -> R b c -> R a c).
  { intros a b c [t1 H1] [t2 H2]. exists (t1 ++ t2)%list.
    rewrite H2, H1, app_assoc. reflexivity. }
  assert (Hmod : forall g : World -> World,
             (forall a, trace (g a) = trace a) -> preserves R (modify g)).
  { intros g Hg. apply preserves_modify. intros a. exists [].
    rewrite Hg, app_nil_r. reflexivity. }
  assert (Hemit : forall e, preserves R (emit e)).
  { intros e. apply preserves_modify. intros a. exists [e]. reflexivity. }
  assert (Hupd : forall r g, preserves R (updOwner r g)).
  { intros r g. unfold updOwner. apply preserves_bind; [exact Ht | | intros].
    - apply preserves_getOwner; assumption.
    - apply Hmod. reflexivity. }
  assert (H : preserves R
                (Owner_completed owner task manualOverride;;
                 call_task_callback task;;
                 me ← getTask task;
                 call_next next (t_result me);;
                 mret VUndefined)).
  { unfold Owner_completed, call_task_callback, call_next, _removeTask, defer.
    repeat first
      [ apply Hemit | apply Hupd
      | apply Hmod; reflexivity
      | apply preserves_ret; assumption
      | apply preserves_expect; assumption
      | apply preserves_getTask; assumption
      | apply preserves_getOwner; assumption
      | apply preserves_bind; [exact Ht | | intros]
      | match goal with
        | |- preserves _ (match ?x with _ => _ end) => destruct x
        | |- preserves _ (if ?x then _ else _) => destruct x
        end ]. }
  apply H.
Qed.

(** X25.  From a definition to the call of its function.  A task built by
    [new Task(config)] and executed for an owner calls [config.fn] once: on
    [config.context] when that is truthy and on the owner's origin otherwise;
    with the elements of [config.arguments] when it is an array, with that one
    value when it is any other truthy value, and with no argument at all when
    it is falsy (a single argument such as [0], [""] or [false] is dropped).
    The task ends COMPLETE and holds the value the function returned. *)
Theorem constructed_task_call (w : World) (owner : oref) (o : OwnerObj)
        (config : Config) (f : JsFun) (next : Continuation) (manualOverride : bool) :
  ownerStore w !! owner = Some o ->
  cfg_fn config = Some f ->
  let r := fresh (dom (taskStore w)) in
  let this := if truthy (cfg_context config) then cfg_context config
              else o_origin o in
  let args := if truthy (cfg_arguments config)
              then match cfg_arguments config with
                   | VArr elems _ => elems
                   | a => [a]
                   end
              else [] in
  let w2 := snd ((task ← new_Task config;
                  execute task owner next manualOverride) w) in
  fst (new_Task config w) = Normal r
  /\ fn_calls (trace w2) = (fn_calls (trace w) ++ [(r, args)])%list
  /\ EvFn r this args ∈ trace w2
  /\ (t_state <$> taskStore w2 !! r) = Some (Some COMPLETE)
  /\ (t_result <$> taskStore w2 !! r) = Some (f this args).
Proof.
  intros Ho Hf r this args w2.
  set (t := fst (Task_construct Task_prototype config (_taskIdCounter w))).
  destruct (Task_construct_fields Task_prototype config (_taskIdCounter w))
    as (Hfn & _ & Hst & Hit & _ & Hargs & Hctx & _).
  fold t in Hfn, Hst, Hit, Hargs, Hctx.
  rewrite Hf in Hfn.
  assert (Hthis : js_or (t_context t) (o_origin o) = this).
  { rewrite Hctx. subst this. unfold js_or.
    destruct (truthy (cfg_context config)) eqn:E; [rewrite E; reflexivity |].
    reflexivity. }
  assert (Hargs' : default [] (t_arguments t) = args).
  { rewrite Hargs. reflexivity. }
  split; [rewrite new_Task_exact; reflexivity |].
  subst w2. rewrite run_bind, new_Task_exact. fold r t.
  set (w1 := set_taskStore _ _).
  assert (Ht1 : taskStore w1 !! r = Some t) by apply lookup_insert_eq.
  assert (Ho1 : ownerStore w1 !! owner = Some o) by exact Ho.
  pose proof (Task_execute_unguarded w1 r owner next manualOverride t o f Ht1 Ho1 Hit
                ltac:(rewrite Hst; discriminate) ltac:(rewrite Hst; discriminate) Hfn)
    as Hrun.
  cbv zeta in Hrun. rewrite Hthis, Hargs' in Hrun. rewrite Hrun.
  match goal with
  | |- context [snd (?m ?w0)] =>
      pose proof (quiet_execute_tail r owner next manualOverride w0) as [Hq1 Hq2];
      assert (Htr : exists tr, trace (snd (m w0)) = (trace w0 ++ tr)%list)
  end.
  { apply execute_tail_trace. }
  destruct Htr as (tr & Htr).
  rewrite Hq1, Hq2, Htr. simpl.
  rewrite fn_calls_app, lookup_insert_eq. simpl.
  split; [reflexivity |]. split; [| split; reflexivity].
  apply elem_of_app. left. apply elem_of_app. right.
  apply list_elem_of_singleton. reflexivity.
Qed.

Lemma constructed_task_call_witness :
  fn_calls (trace (snd ((task ← new_Task
                                  (mkConfig (VStr "t") (Some fn_double) (VNum 0)
                                            VUndefined VUndefined None VUndefined
                                            VUndefined VUndefined VUndefined
                                            VUndefined);
                         execute task 0%nat (KExecuteTask task false) false)
                          world_new_owner)))
  = [(0%nat, [])].
Proof.
  assert (Ho : exists o, ownerStore world_new_owner !! 0%nat = Some o).
  { eexists. vm_compute. reflexivity. }
  destruct Ho as (o & Ho).
  pose proof (constructed_task_call world_new_owner 0%nat o
                (mkConfig (VStr "t") (Some fn_double) (VNum 0) VUndefined VUndefined
                          None VUndefined VUndefined VUndefined VUndefined VUndefined)
                fn_double (KExecuteTask 0%nat false) false Ho eq_refl) as H.
  cbv zeta in H. destruct H as (_ & Hfn & _).
  vm_compute. reflexivity.
Defined.



(** ** Ids and references (claim C10) *)

Lemma same_ids_refl (w : World) : same_ids w w.
Proof. intros r. reflexivity. Qed.

Lemma same_ids_trans (a b c : World) : same_ids a b -> same_ids b c -> same_ids a c.
Proof. intros H1 H2 r. rewrite H2, H1. reflexivity. Qed.

Ltac ids_side := first [exact same_ids_refl | exact same_ids_trans].

Lemma ids_updOwner (o : oref) (f : OwnerObj -> OwnerObj) :
  preserves same_ids (updOwner o f).
Proof.
  unfold updOwner. apply preserves_bind; [ids_side | | intros].
  - apply preserves_getOwner; ids_side.
  - apply preserves_modify. intros w r. reflexivity.
Qed.

Lemma ids_emit (e : Event) : preserves same_ids (emit e).
Proof. unfold emit. apply preserves_modify. intros w r. reflexivity. Qed.

Lemma ids_destroy (r : ref) : preserves same_ids (updTask r Task_destroy).
Proof.
  intros w. unfold updTask, getTask, gets. repeat rewrite run_bind. cbv beta iota.
  destruct (taskStore w !! r) as [t |] eqn:E; cbn [expect throw];
    [| apply same_ids_refl].
  rewrite run_ret. cbv beta iota. rewrite modify_run. cbn [snd].
  intros r'. simpl. destruct (decide (r = r')) as [<- | Hne].
  - rewrite lookup_insert_eq, E. cbn [fmap option_fmap option_map].
    rewrite Task_destroy_id. reflexivity.
  - rewrite lookup_insert_ne by exact Hne. reflexivity.
Qed.

Ltac ids_tac :=
  repeat first
    [ apply ids_updOwner
    | apply ids_emit
    | apply ids_destroy
    | apply preserves_ret; ids_side
    | apply preserves_throw; ids_side
    | apply preserves_gets; ids_side
    | apply preserves_expect; ids_side
    | apply preserves_getTask; ids_side
    | apply preserves_getOwner; ids_side
    | apply preserves_bind; [ids_side | | intros ]
    | apply preserves_for_each; [ids_side | ids_side | intros ]
    | match goal with
      | |- preserves _ (match ?x with _ => _ end) => destruct x
      | |- preserves _ (if ?x then _ else _) => destruct x
      end ].

Lemma ids_removeTask (owner : oref) (taskId : value) :
  preserves same_ids (_removeTask owner taskId).
Proof. unfold _removeTask. ids_tac. Qed.

Lemma ids_getNext_scan (tasks : gmap string ref) (rest before : list value) :
  preserves same_ids (getNext_scan tasks before rest).
Proof.
  revert before. induction rest as [| x rest IH]; intros before; simpl.
  - ids_tac.
  - destruct (tasks !! ToString x) as [r |]; [| ids_tac].
    apply preserves_bind; [ids_side | ids_tac | intros t].
    destruct (negb (t_activeOnly t)); [ids_tac | apply IH].
Qed.

(** The operations that add no task keep every task and its id. *)
Lemma ids_run_op (this : oref) (op : owner_op) :
  (forall task, op <> OpAdd task) -> preserves same_ids (run_op this op).
Proof.
  intros Hop. destruct op as [task | taskId | isActive | task mo |]; cbn [run_op].
  - destruct (Hop task eq_refl).
  - unfold Owner_setNext.
    repeat first [apply ids_removeTask | progress ids_tac].
  - unfold Owner_getNext.
    repeat first [apply ids_getNext_scan | progress ids_tac].
  - unfold Owner_completed.
    repeat first [apply ids_removeTask | progress ids_tac].
  - unfold Owner_destroy, _destroyTasks. ids_tac.
Qed.

Lemma keyed_same_ids (w w' : World) : same_ids w w' -> keyed w -> keyed w'.
Proof.
  intros Hs Hk r t' Hr. specialize (Hs r). rewrite Hr in Hs. simpl in Hs.
  destruct (taskStore w !! r) as [t |] eqn:E; [| discriminate].
  injection Hs as Hs. rewrite Hs. exact (Hk r t E).
Qed.

Lemma stored_same_ids (w w' : World) (r : ref) :
  same_ids w w' -> is_Some (taskStore w !! r) -> is_Some (taskStore w' !! r).
Proof.
  intros Hs [t Ht]. specialize (Hs r). rewrite Ht in Hs.
  destruct (taskStore w' !! r); [eauto | discriminate].
Qed.

Lemma pretty_Z_nonempty (n : Z) : pretty n <> "".
Proof.
  destruct n as [| p | p]; [discriminate | | discriminate].
  destruct (pretty_N_first (Npos p)) as (c & Hc & _).
  intros E. change (pretty (Z.pos p)) with (pretty (N.pos p)) in E.
  rewrite E in Hc. discriminate.
Qed.

(** The key of the id a constructor assigns is never empty when the id
    supplied is a primitive value. *)
Lemma constructed_key_nonempty (this : TaskObj) (config : Config) (counter : Z) :
  primitive (cfg_id config) ->
  ToString (t_id (fst (Task_construct this config counter))) <> "".
Proof.
  intros Hp.
  destruct (construct_id_cases this config counter)
    as [(Ht & -> & _) | (_ & -> & _)].
  - destruct (cfg_id config) as [| | [|] | n | | s | |]; simpl in *;
      try discriminate; try contradiction.
    + apply pretty_Z_nonempty.
    + intros ->. discriminate.
  - apply pretty_Z_nonempty.
Qed.

Lemma ids_add_tail (this : oref) (r : ref) :
  preserves same_ids
    (t ← getTask r;
     o ← getOwner this;
     tasks ← expect TypeError (o_tasks o);
     updOwner this (set_o_tasks (Some (<[ToString (t_id t) := r]> tasks)));;
     o ← getOwner this;
     order ← expect TypeError (o_taskOrder o);
     updOwner this (set_o_taskOrder (Some (order ++ [t_id t])%list))).
Proof. ids_tac. Qed.

Lemma keyed_insert (w : World) (r : ref) (t : TaskObj) :
  keyed w -> ToString (t_id t) <> "" ->
  forall w', taskStore w' = <[r := t]> (taskStore w) -> keyed w'.
Proof.
  intros Hk Ht w' Hs r' t' Hr'. rewrite Hs in Hr'.
  destruct (decide (r = r')) as [<- | Hne].
  - rewrite lookup_insert_eq in Hr'. injection Hr' as <-. exact Ht.
  - rewrite lookup_insert_ne in Hr' by exact Hne. exact (Hk r' t' Hr').
Qed.

Lemma keyed_add (this : oref) (task : TaskSpec) (w : World) :
  keyed w -> primitive_ids (OpAdd task) -> keyed (snd (Owner_add this task w)).
Proof.
  intros Hk Hp. unfold Owner_add. rewrite run_bind.
  destruct task as [r | config [it |]]; cbn [primitive_ids] in Hp.
  - rewrite run_ret. apply (keyed_same_ids w); [apply ids_add_tail | exact Hk].
  - destruct (new_IterationTask_run (extend_iterate config it) w)
      as (w1 & -> & Hs & _).
    apply (keyed_same_ids w1); [apply ids_add_tail |].
    apply (keyed_insert w _ _ Hk) with (w' := w1) in Hs; [exact Hs |].
    unfold IterationTask_construct. apply constructed_key_nonempty. exact Hp.
  - destruct (new_Task_run config w) as (w1 & -> & Hs & _).
    apply (keyed_same_ids w1); [apply ids_add_tail |].
    apply (keyed_insert w _ _ Hk) with (w' := w1) in Hs; [exact Hs |].
    apply constructed_key_nonempty. exact Hp.
Qed.

Lemma keyed_run_op (this : oref) (op : owner_op) (w : World) :
  keyed w -> primitive_ids op -> keyed (snd (run_op this op w)).
Proof.
  intros Hk Hp. destruct op as [task | taskId | isActive | task mo |].
  - apply keyed_add; assumption.
  - apply (keyed_same_ids w); [apply ids_run_op; discriminate | exact Hk].
  - apply (keyed_same_ids w); [apply ids_run_op; discriminate | exact Hk].
  - apply (keyed_same_ids w); [apply ids_run_op; discriminate | exact Hk].
  - apply (keyed_same_ids w); [apply ids_run_op; discriminate | exact Hk].
Qed.

Lemma no_empty_key_run_op (this : oref) (op : owner_op) (w : World) :
  no_empty_key this w -> primitive_ids op ->
  no_empty_key this (snd (run_op this op w)).
Proof.
  intros (Hk & o & Ho & Hcase) Hp.
  pose proof (keyed_run_op this op w Hk Hp) as Hk'.
  split; [exact Hk' |].
  destruct Hcase as [Hrel | (m & l & cm & Hm & Hl & Hcm & Hme & Hce & Hmr & Hlr)].
  { destruct (released_stays this op w o Ho Hrel) as (out & w' & o' & Hrun & Ho' & Hrel' & _).
    rewrite Hrun. exists o'. split; [exact Ho' | left; exact Hrel']. }
  destruct op as [task | taskId | isActive | task mo |]; cbn [run_op] in *.
  - (* add *)
    destruct (added_task task w) as [[r t] |] eqn:Hadd.
    + destruct (add_run this task w o m l r t Ho Hm Hl Hadd)
        as (w' & Hrun & Hs & Ho' & _).
      rewrite Hrun in Hk' |- *. cbn [snd] in *.
      eexists. split; [exact Ho' |]. right.
      exists (<[ToString (t_id t) := r]> m), (l ++ [t_id t])%list, cm.
      split; [reflexivity |]. split; [reflexivity |]. split; [exact Hcm |].
      assert (Hin : forall r', is_Some (taskStore w !! r') ->
                               is_Some (taskStore w' !! r')).
      { intros r' [t' Ht']. rewrite Hs.
        destruct (decide (r = r')) as [<- | Hne].
        - rewrite lookup_insert_eq. eauto.
        - rewrite lookup_insert_ne by exact Hne. eauto. }
      split; [| split; [exact Hce | split]].
      * rewrite lookup_insert_ne; [exact Hme |].
        apply (Hk' r t). rewrite Hs. apply lookup_insert_eq.
      * intros k r' Hkr. destruct (decide (ToString (t_id t) = k)) as [<- | Hne].
        -- rewrite lookup_insert_eq in Hkr. injection Hkr as <-.
           rewrite Hs, lookup_insert_eq. eauto.
        -- rewrite lookup_insert_ne in Hkr by exact Hne. apply Hin. eauto.
      * intros r' Hr'. apply Hin. cbn in Hr'. eauto.
    + destruct task as [r | config [it |]]; simpl in Hadd; try discriminate.
      assert (Hnone : taskStore w !! r = None).
      { destruct (taskStore w !! r); [discriminate | reflexivity]. }
      assert (E : Owner_add this (Instance_ r) w = (Throw Stuck, w)).
      { unfold Owner_add. rewrite run_bind, run_ret. unfold getTask, gets.
        rewrite run_bind, run_bind. cbv beta iota. rewrite Hnone. reflexivity. }
      rewrite E. exists o. split; [exact Ho |]. right.
      exists m, l, cm. auto 10.
  - (* setNext *)
    rewrite snd_then_value in Hk' |- *.
    rewrite (setNext_run this taskId w o m l Ho Hm Hl) in Hk' |- *.
    assert (Hsame : exists w1, w1 = w /\ True) by eauto.
    destruct (m !! ToString taskId) as [task |] eqn:Hmt.
    + destruct (remove_first taskId l) as [l' |].
      * cbn [snd]. eexists. split; [apply put_owner_lookup |]. right.
        exists (delete (ToString taskId) m), l', cm.
        split; [reflexivity |]. split; [reflexivity |]. split; [exact Hcm |].
        split; [| split; [exact Hce | split]].
        -- destruct (decide (ToString taskId = "")) as [-> | Hne];
             [apply lookup_delete_eq | rewrite lookup_delete_ne by exact Hne; exact Hme].
        -- intros k r Hkr.
           destruct (decide (ToString taskId = k)) as [<- | Hne];
             [rewrite lookup_delete_eq in Hkr; discriminate |].
           rewrite lookup_delete_ne in Hkr by exact Hne. exact (Hmr k r Hkr).
        -- intros r Hr. cbn in Hr. injection Hr as <-. exact (Hmr _ _ Hmt).
      * exists o. split; [exact Ho |]. right. exists m, l, cm. auto 10.
    + destruct (inherited (ToString taskId));
        [| exists o; split; [exact Ho |]; right; exists m, l, cm; auto 10].
      destruct (remove_first taskId l) as [l' |];
        [| exists o; split; [exact Ho |]; right; exists m, l, cm; auto 10].
      cbn [snd]. eexists. split; [apply put_owner_lookup |]. right.
      exists (delete (ToString taskId) m), l', cm.
      split; [reflexivity |]. split; [reflexivity |]. split; [exact Hcm |].
      split; [| split; [exact Hce | split]].
      * destruct (decide (ToString taskId = "")) as [-> | Hne];
          [apply lookup_delete_eq | rewrite lookup_delete_ne by exact Hne; exact Hme].
      * intros k r Hkr.
        destruct (decide (ToString taskId = k)) as [<- | Hne];
          [rewrite lookup_delete_eq in Hkr; discriminate |].
        rewrite lookup_delete_ne in Hkr by exact Hne. exact (Hmr k r Hkr).
      * exact Hlr.
  - (* getNext *)
    rewrite snd_then_value in Hk' |- *.
    destruct (getNext_run this isActive w o m l Ho Hm Hl)
      as (out & w' & Hrun & Hw').
    rewrite Hrun in Hk' |- *. cbn [snd] in *.
    destruct Hw' as [-> | (l1 & x & l2 & key & -> & _ & Hw')].
    { exists o. split; [exact Ho |]. right. exists m, (l), cm. auto 10. }
    assert (Hdel : delete key m !! "" = None).
    { destruct (decide (key = "")) as [-> | Hne];
        [apply lookup_delete_eq | rewrite lookup_delete_ne by exact Hne; exact Hme]. }
    assert (Hdr : forall k r, delete key m !! k = Some r ->
                              is_Some (taskStore w !! r)).
    { intros k r Hkr.
      destruct (decide (key = k)) as [<- | Hne];
        [rewrite lookup_delete_eq in Hkr; discriminate |].
      rewrite lookup_delete_ne in Hkr by exact Hne. exact (Hmr k r Hkr). }
    destruct Hw' as [-> | (_ & _ & ->)].
    + eexists. split; [apply put_owner_lookup |]. right.
      exists (delete key m), (l1 ++ l2)%list, cm.
      split; [reflexivity |]. split; [reflexivity |]. split; [exact Hcm |].
      split; [exact Hdel |]. split; [exact Hce |]. split; [exact Hdr |].
      intros r Hr. cbn in Hr. exact (Hmr _ _ Hr).
    + eexists. split; [apply put_owner_lookup |]. right.
      exists (delete key m), (l1 ++ l2)%list, cm.
      split; [reflexivity |]. split; [reflexivity |]. split; [exact Hcm |].
      split; [exact Hdel |]. split; [exact Hce |]. split; [exact Hdr |].
      exact Hlr.
  - (* completed *)
    destruct (completed_run this task mo w o m cm l Ho Hm Hl Hcm)
      as (out & w' & o' & Hrun & Hs & Ho' & Hcases).
    rewrite Hrun in Hk' |- *. cbn [snd] in *.
    exists o'. split; [exact Ho' |]. right. rewrite Hs.
    destruct Hcases as [-> | (t & Ht & Hcases)].
    { exists m, l, cm. auto 10. }
    assert (Hkey : <[ToString (t_id t) := task]> cm !! "" = None).
    { rewrite lookup_insert_ne; [exact Hce | exact (Hk task t Ht)]. }
    destruct Hcases as [(_ & _ & ->) | [(_ & _ & ->) | (l' & _ & _ & ->)]].
    + exists m, l, (<[ToString (t_id t) := task]> cm). auto 10.
    + exists m, l, (<[ToString (t_id t) := task]> cm). auto 10.
    + exists (delete (ToString (t_id t)) m), l', (<[ToString (t_id t) := task]> cm).
      split; [reflexivity |]. split; [reflexivity |]. split; [reflexivity |].
      split; [| split; [exact Hkey | split; [| exact Hlr]]].
      * rewrite lookup_delete_ne; [exact Hme | exact (Hk task t Ht)].
      * intros k r Hkr.
        destruct (decide (ToString (t_id t) = k)) as [<- | Hne];
          [rewrite lookup_delete_eq in Hkr; discriminate |].
        rewrite lookup_delete_ne in Hkr by exact Hne. exact (Hmr k r Hkr).
  - (* destroy *)
    pose proof (ids_run_op this OpDestroy ltac:(discriminate) w) as Hids.
    cbn [run_op] in Hids.
    destruct (destroy_run this w o Ho) as (out & w' & o' & Hrun & Ho' & Hcase & _).
    rewrite Hrun in Hk', Hids |- *. cbn [snd] in *.
    exists o'. split; [exact Ho' |].
    destruct Hcase as [-> | Hrel]; [| left; exact Hrel].
    right. exists m, l, cm.
    split; [exact Hm |]. split; [exact Hl |]. split; [exact Hcm |].
    split; [exact Hme |]. split; [exact Hce |]. split.
    + intros k r Hkr. apply (stored_same_ids w); [exact Hids | exact (Hmr k r Hkr)].
    + intros r Hr. apply (stored_same_ids w); [exact Hids | exact (Hlr r Hr)].
Qed.

Lemma no_empty_key_run_ops (this : oref) (ops : list owner_op) (w : World) :
  no_empty_key this w -> Forall primitive_ids ops ->
  no_empty_key this (run_ops this ops w).
Proof.
  revert w. induction ops as [| op ops IH]; intros w Hw Hops; [exact Hw |].
  apply Forall_cons in Hops. destruct Hops as [Hop Hops].
  cbn [run_ops fold_left]. apply IH; [| exact Hops].
  apply no_empty_key_run_op; assumption.
Qed.

Lemma no_empty_key_new_owner : no_empty_key 0%nat world_new_owner.
Proof.
  split.
  - intros r t Hr. vm_compute in Hr. discriminate.
  - eexists. split; [vm_compute; reflexivity |]. right.
    exists ∅, [], ∅. repeat split; try reflexivity.
    + intros k r Hkr. rewrite lookup_empty in Hkr. discriminate.
    + intros r Hr. discriminate.
Qed.

(** With no task under the empty key, [get("")] finds none. *)
Lemma get_empty_key (this : oref) (w : World) :
  no_empty_key this w ->
  Owner_get this (VStr "") w = (Normal Missing, w)
  \/ Owner_get this (VStr "") w = (Throw TypeError, w).
Proof.
  intros (Hk & o & Ho & [(Hm & _) | (m & l & cm & Hm & Hl & Hcm & Hme & Hce & Hmr & Hlr)]).
  - right. unfold Owner_get. mrun. rewrite Hm. reflexivity.
  - left. rewrite (Owner_get_run this (VStr "") w o m cm Ho Hm Hcm Hlr).
    cbn [ToString]. rewrite Hme, Hce.
    change (inherited "") with false. cbv iota.
    destruct (o_liveTask o) as [r |] eqn:Hlive; [| reflexivity].
    destruct (taskStore w !! r) as [t |] eqn:Ht; [| reflexivity].
    destruct (strict_eq (t_id t) (VStr "")) eqn:Hse; [| reflexivity].
    apply strict_eq_eq in Hse. exfalso. apply (Hk r t Ht). rewrite Hse. reflexivity.
Qed.

Lemma setNext_empty_key (this : oref) (w : World) :
  no_empty_key this w ->
  fst (Owner_setNext this (VStr "") w) <> Normal true.
Proof.
  intros (Hk & o & Ho & [(Hm & _) | (m & l & cm & Hm & Hl & Hcm & Hme & _)]).
  - unfold Owner_setNext. mrun. rewrite Hm. discriminate.
  - rewrite (setNext_run this (VStr "") w o m l Ho Hm Hl).
    cbn [ToString]. rewrite Hme. change (inherited "") with false.
    discriminate.
Qed.

Lemma empty_id_references_nothing (ops : list owner_op) :
  Forall primitive_ids ops -> ~ references ops (VStr "").
Proof.
  intros Hops.
  pose proof (no_empty_key_run_ops 0%nat ops world_new_owner
                no_empty_key_new_owner Hops) as Hinv.
  intros [[r Hr] | Hs].
  - destruct (get_empty_key _ _ Hinv) as [E | E]; rewrite E in Hr; discriminate.
  - exact (setNext_empty_key _ _ Hinv Hs).
Qed.

Lemma generated_id_references (config : Config) :
  truthy (cfg_id config) = false ->
  exists r w' t,
    Owner_add 0%nat (Definition_ config None) world_new_owner = (Normal tt, w')
    /\ taskStore w' !! r = Some t
    /\ t_id t = VNum 0
    /\ Owner_get 0%nat (VNum 0) w' = (Normal (Found r), w').
Proof.
  intros Hf.
  assert (Ho : exists o, ownerStore world_new_owner !! 0%nat = Some o
                         /\ o_tasks o = Some ∅ /\ o_taskOrder o = Some []
                         /\ o_completedTasks o = Some ∅ /\ o_liveTask o = None).
  { eexists. split; [vm_compute; reflexivity |]. repeat split; reflexivity. }
  destruct Ho as (o & Ho & Hm & Hl & Hcm & Hlive).
  set (t := fst (Task_construct Task_prototype config (_taskIdCounter world_new_owner))).
  assert (Hid : t_id t = VNum 0).
  { destruct (construct_id_cases Task_prototype config (_taskIdCounter world_new_owner))
      as [[Ht _] | (_ & Hid & _)]; [congruence | exact Hid]. }
  destruct (add_run 0%nat (Definition_ config None) world_new_owner o ∅ []
              (fresh (dom (taskStore world_new_owner))) t Ho Hm Hl eq_refl)
    as (w' & Hrun & Hs & Ho' & _).
  exists (fresh (dom (taskStore world_new_owner))), w', t.
  split; [exact Hrun |].
  split; [rewrite Hs; apply lookup_insert_eq |].
  split; [exact Hid |].
  rewrite (Owner_get_run 0%nat (VNum 0) w' _ _ ∅ Ho' eq_refl Hcm).
  - rewrite Hid. cbn [ToString]. rewrite lookup_insert_eq. reflexivity.
  - intros r Hr. cbn in Hr. rewrite Hlive in Hr. discriminate.
Qed.

(** C10, the claim as written fails: a definition with the id 0 is given the
    number 0 by the counter, and [get(0)] then answers that task, so the id 0
    does reference a task; and the empty array, which is kept as an id, has
    the empty string as its key, so [get("")] answers the task of
    [{id: [], fn}]. *)
Lemma zero_and_empty_ids_reference_tasks :
  references [OpAdd zero_id_definition] (VNum 0)
  /\ references [OpAdd array_id_definition] (VStr "").
Proof.
  split; left; exists 0%nat; vm_compute; reflexivity.
Qed.

(** C10.  A falsy [config.id] (0, the empty string, false, or none at all) is
    discarded by the constructor: the task gets the current value of
    [_taskIdCounter], which is then incremented, whatever falsy id was
    supplied.  The counter starts at 0, so the first task built that way has
    the number 0 as its id, and once added to an owner it is the task that
    [get(0)] answers.  No task ever has the id "", a task has the id 0 only
    when it was generated at counter 0 from a falsy [id], and as long as no
    definition has an array or an object as its id, neither [get("")] nor
    [setNext("")] finds a task, whatever was done with the owner. *)
Theorem falsy_id_replaced_by_counter (this : TaskObj) (config : Config)
        (counter : Z) :
  truthy (cfg_id config) = false ->
  Forall (fun v => truthy v = false) [VNum 0; VStr ""; VBool false; VUndefined]
  /\ t_id (fst (Task_construct this config counter)) = VNum counter
  /\ snd (Task_construct this config counter) = counter + 1
  /\ Task_construct this config counter
     = Task_construct this (with_id VUndefined config) counter
  /\ _taskIdCounter initial_world = 0
  /\ (exists r w' t,
        new_Task config initial_world = (Normal r, w')
        /\ taskStore w' !! r = Some t
        /\ t_id t = VNum 0
        /\ _taskIdCounter w' = 1)
  /\ (forall this' config' counter',
        t_id (fst (Task_construct this' config' counter')) <> VStr ""
        /\ (t_id (fst (Task_construct this' config' counter')) = VNum 0 ->
            truthy (cfg_id config') = false /\ counter' = 0))
  /\ (exists r w' t,
        Owner_add 0%nat (Definition_ config None) world_new_owner = (Normal tt, w')
        /\ taskStore w' !! r = Some t
        /\ t_id t = VNum 0
        /\ Owner_get 0%nat (VNum 0) w' = (Normal (Found r), w'))
  /\ (forall ops, Forall primitive_ids ops -> ~ references ops (VStr "")).
Proof.
  intros Hf.
  destruct (Task_construct_falsy_id this config counter Hf)
    as (H1 & H2 & H3 & H4 & H5 & H6 & H7).
  do 7 (split; [assumption |]).
  split; [exact (generated_id_references config Hf) |].
  exact empty_id_references_nothing.
Qed.

(** The theorem at the caller-supplied id 0. *)
Lemma falsy_id_replaced_by_counter_witness :
  t_id (fst (Task_construct Task_prototype
               (sample_config (VNum 0) (fn_const (VNum 7)) None false) 5))
  = VNum 5.
Proof.
  apply (falsy_id_replaced_by_counter Task_prototype
           (sample_config (VNum 0) (fn_const (VNum 7)) None false) 5).
  reflexivity.
Defined.
